(* ===== verification/_CoqProject ===== *)
-Q . S2P
Prelude.v
JsonData.v
CurlData.v
Types.v
Heap.v
Macros.v
Managed.v
Attributes.v
Filters.v
Burrow.v
Lifecycle.v
Dummy.v
UserBuffer.v
JsonParser.v
JsonProcessing.v
CurlBackend.v
HttpProtocol.v
TextFacts.v
JsonMachine.v
JsonFacts.v
Dictionary.v
Memory.v
Backends.v
Server.v
Logic.v
MacrosSpec.v
DictionarySpec.v
UserBufferSpec.v
JsonSpec.v
JsonCharSpec.v
JsonTextSpec.v
JsonReport.v
JsonListing.v
HttpAnswer.v
JsonReportSpec.v
JsonParseSpec.v
CurlSpec.v
CurlSample.v
QuerySpec.v
JsonSound.v
ManagedSpec.v
LifecycleSpec.v
BurrowSpec.v
Assoc.v
TreeSpec.v
MemorySpec.v
MemoryScan.v
MemoryLists.v
MemoryMessages.v
WatchSpec.v
BufferSpec.v
TransferSpec.v
ConverseFacts.v
AnswerSpec.v
RequestSpec.v
HttpFrontendSpec.v
HttpLifeSpec.v
BackendsSpec.v
ServerFacts.v
DictionaryProps.v
ManagedProps.v
MemorySample.v
MemoryProps.v
BurrowProps.v
Tests.v
Demo.v
Session.v
SessionSpec.v
SessionFacts.v
SessionProps.v
DemoProps.v
UserBufferProps.v
JsonProps.v
HttpProps.v
