(* ===== verification/Prelude.v ===== *)
(** libburrow: a verification development of the C client library for the burrow
    message queue.

    * The program

    A program creates a burrow (libburrow/burrow.c), which drives one command at
    a time through a state machine and hands it to a backend it knows by a table
    of functions (backends.c): the memory backend, which is itself a small message
    server; the dummy backend, which answers 0; or the http backend, on libcurl,
    which makes a request of each command (curl_backend.c), has libcurl transfer it
    with buffers of its own (user_buffer.c), and reads the answer with a JSON parser
    that calls back with tokens (JSON_parser.c), of which it makes messages, queues
    and accounts (json_processing.c).
    Commands carry attributes and filters (attributes.c, filters.c), which the
    burrow keeps in lists. What a command finds is handed to the user's callbacks.

    * Files

    Foundations.
    - Prelude: 32- and 64-bit wrap-around, flags, field update on records.
    - Types, JsonData, CurlData: the enumerations, structures and flag sets of constants.h,
      constants-local.h, structs-local.h, dictionary.h, memory.c, user_buffer.c,
      curl_backend.c, JSON_parser.h, JSON_parser.c and json_processing.c; what
      the library and libcurl say to each other, as data; the blocks of a heap; the environment of a run.
    - Heap: the C machine, a monad over the world and a heap of typed blocks. Null
      dereferences, accesses to freed blocks, frees by the wrong allocator,
      overruns, calls of [NULL] and false assertions are outcomes ([Stuck]);
      running out of fuel is another ([NoFuel]).
    - Logic: a linear separation logic over that heap, an instance of Iris's [bi],
      with a rule for each primitive. A postcondition describes the whole heap the
      operation was given, so it also says that nothing leaks.

    The program, one file per source file, one definition per function.
    - Macros (macros.h), Managed, Attributes and Filters (attributes.c, filters.c),
      Burrow and Lifecycle (burrow.c), Dummy (dummy.c), Dictionary (dictionary.c),
      Memory (memory.c), UserBuffer (user_buffer.c), Backends (the tables),
      JsonParser (JSON_parser.c; the cases of the switch of JSON_parser_char have
      definitions of their own, and [perform] is the switch), JsonProcessing
      (json_processing.c, and the accessors of curl_backend.c it calls),
      CurlBackend (the rest of curl_backend.c; parts several commands share, or that
      are long, have definitions of their own).
    - Tests (tests/*.c): the test programs for the parts that need no server, as
      computations of the model; Demo (examples/demo.c): the equations the example
      client sends, how it evaluates them, its callbacks and its options.

    What it promises.
    - Server: the abstract message server, pure and executable.
    - JsonMachine: the automaton of JSON_parser.c without its memory, pure and
      executable; JsonReport: what json_processing.c makes of a list of tokens;
      JsonListing: how a listing of names is written, and that the automaton
      reads it. JsonFacts: the invariant of the automaton.
    - HttpProtocol: the request each command is to make and how a transfer goes;
      HttpAnswer: what becomes of its answer, by JsonReport. Pure and executable.
      TextFacts: facts on strings and printed numbers.
    - MacrosSpec, DictionarySpec, ManagedSpec, LifecycleSpec, BurrowSpec, WatchSpec,
      TreeSpec, MemorySpec, MemoryScan, MemoryLists, MemoryMessages: rules for the
      operations. Assoc and ServerFacts: association lists and the server.
    - JsonSpec (buffer and stack of a parser), JsonCharSpec (one character, action
      by action), JsonTextSpec (a parser's life), UserBufferSpec, JsonReportSpec
      (the callback), JsonParseSpec (a whole text), JsonSound (the invariant of a
      parser in the heap): the same for the JSON code.
    - CurlSpec (libcurl), QuerySpec (printing a query), BufferSpec (buffers of
      user_buffer.c), TransferSpec (driving a transfer), AnswerSpec (delivering an
      answer), RequestSpec (each command up to its transfer), HttpFrontendSpec (a
      command from call to completion), HttpLifeSpec (creating, options,
      destroying): the same for the http backend. ConverseFacts: transfers that are
      resumed, pure. CurlSample: a libcurl to run the library with.
    - Session: conversations, many commands one after the other or from within the
      completion callback, as a relation between successive servers. SessionSpec:
      every command of the memory backend, and its call through burrow.c, follows
      it. SessionFacts: what the relation keeps.
    - Interfaces: [Managed] (Managed) is what an attributes and a filters structure
      have in common; [Backends] (Burrow) is the set of tables a burrow can use;
      [SyncBackend] (BurrowSpec), [Responds] and [EventBackend] (WatchSpec) are what
      the frontend needs of a backend, and BackendsSpec and HttpFrontendSpec give
      the instances;
      [TokenClient] (JsonCharSpec) is what the parser needs of a callback, and
      JsonReportSpec proves that the one of json_processing.c has it; [Libcurl]
      (JsonProcessing) and [LibcurlMulti] (CurlBackend) are the functions of
      libcurl, [Unescapes] (JsonReportSpec) and [CurlLaws] (CurlSpec) what is relied
      on of them, and CurlSample proves that the sample has it; [Channel]
      (TransferSpec) is what a transfer needs of the buffer its callbacks work on,
      and AnswerSpec gives the two there are, for what is collected and for what is
      sent.

    The properties: MemoryProps, DictionaryProps, ManagedProps, BurrowProps,
    UserBufferProps, JsonProps, HttpProps, SessionProps and DemoProps, each with a
    concrete run it applies to (MemorySample holds a server in a concrete heap).

    * What is shown

    - Memory backend: every command refines the abstract server, on every branch,
      with what it reports, returns, frees and, where an allocation fails, what it
      leaves; a message created is read back; destroying the backend frees it all,
      when memory lasts, no message was given a hide and no account is empty.
      Where the code goes wrong the theorems say so: a replaced message leaks its
      id and body, reading an expired message reads freed memory.
    - Frontend: a command starts only on an idle burrow and with its parameters;
      processing ends on every backend that does not wait, with one completion per
      command, also when the completion callback issues commands, as long as those
      that are accepted are ones the backend can run and none is cancelled once it
      is set up; every descriptor with an event is dispatched once; destroying a
      burrow on the memory backend frees all it owns when memory lasts, except the
      queues and accounts with a message that is hidden at that moment, which are
      lost; a burrow that waits on descriptors the program watches is never
      resumed, and one that is cancelled before it is processed calls [NULL].
    - Conversations (burrow.c and memory.c together): whatever commands a client
      gives, in whatever order, each is refused or answered as the abstract server
      says at the clock reading of its moment, and what is lost is exactly what
      replaced messages leak ([session_refines]); so also for commands given by the
      completion callback ([callbacks_drive]); the server stays well formed; what
      was created is read back after any commands that leave it alone.
    - Dictionary, attributes, filters, user buffers: each operation's effect on the
      list, the flags or the bytes, allocation failures included.
    - JSON: a parser in the heap does for each character what the automaton does
      and tells any callback its tokens, also when its buffer grows, memory runs
      out or the callback refuses; its text stays inside its terminated buffer and
      its modes inside its stack; a whole text is answered and reported as the
      reference computes, and everything is freed, or what leaks is said; a listing
      of ASCII names is read back. A message's body overruns its block, keywords
      run into an assertion, and bytes from 128 on are refused.
      The automaton has the tables of the code; runs of it (at the end of JsonProps)
      compare what it takes with the numbers, escapes and structures of JSON, and
      show two differences in numbers.
    - Http backend: whatever a server does with a request, a command called on an
      idle burrow ends, with the result and the reports the references compute from
      the request the command is to make and the server's way with it, completes
      once, and leaves burrow and backend ready; a transfer that waits has its
      descriptors watched; the body that is sent is the message's, in whatever
      portions; queries are those of the reference; options keep the backend
      well-formed, and destroying it frees what it owns ([program_runs] evaluates a
      program from end to end, on the sample libcurl). A marker that is too long
      and an answer that is refused run past their buffers, and a message whose
      attributes are all unset is not sent.
    - Clients: the example's generator writes the equation its random numbers say
      and stays in its buffer, and the consumer computes the value that equation
      has; asking for n requests makes one more. The test programs run to their end without a
      failed check, and leave no memory behind.

    * Conventions

    - A [uint32_t] is a [Z] and wraps where the code can leave the range (ttl and
      hide plus the clock, lengths, descriptor counts); a [size_t] wraps at 2^64.
      The length of a dictionary, an [int], is a [Z]: it counts blocks of the heap.
    - Strings and commands handed to a function are values; strings the library
      stores are blocks with the capacity they were allocated with. A user function
      pointer is only set or not, and which.
    - A structure from [malloc] holds garbage of the environment until it is
      assigned. The n-th allocation fails when the environment says so; the clock,
      [poll] and what the user's completion callback calls are the environment's
      too. The data and log callbacks are observed as events with what they are
      given, and do not call the library back. Format strings are not expanded.
    - The room burrow_create leaves for the backend behind the burrow is the block
      after the burrow's.
    - Fuel. A loop that follows a chain of blocks has one more turn than there are
      blocks ([heap_fuel]), and the rules show this suffices. burrow_process takes
      its fuel as an argument, for its turns and for re-entry; [process_completes]
      says how much is enough: at most three turns for each consultation of the
      environment until the completion callback calls nothing more.

    - JSON. A [char] is signed. The decimal point of the locale is an argument; the
      text handed to [strtod] stands for the double; [sscanf] moves a number out of
      range to the end of the range. A string of libcurl's is a value: the memory
      it is in, and curl_free, are libcurl's. In formats, quotes are written as
      apostrophes. The loop that makes room in the buffer has fuel for 65
      doublings, after which a [size_t] is 0; one is enough for a character. The
      theorems are about depths the stack inside the structure has room for, and
      about texts shorter than 2^60; those about whole texts, about memory that
      does not run out.

    - Http. The strings given to curl_easy_setopt are copied, as libcurl does, and a
      function it is told to call is a name. What a transfer does is a list of steps,
      one for each curl_multi_perform: the callbacks it makes and what it answers
      then; how a server goes about a request is a function from requests to steps.
      The rules are about memory that does not run out. A command's theorem asks of
      the server that data comes in non-empty, of a text shorter
      than 2^31, that a transfer which waits has a descriptor to wait on or none at
      all, and that [poll] finds one ready. [turns] is the fuel of the loop around
      curl_multi_perform, which is left after one turn more than there are steps.
      %d is given a [uint32_t] and prints an [int]; %ld prints the attribute's
      number, as it does where the rest of the register is 0. A variable that is
      printed or copied before it is initialised is a fault or a value of the
      environment's.

    - Conversations. A call of burrow_process has fuel 4 for a command; commands
      from within the completion callback take three turns for each consultation
      of the environment, which is to go quiet at some point. Memory lasts, and no
      get_message meets an expired message, which would read freed memory. The
      client keeps the filters and attributes it hands over: a command without any
      still reads those of the command before it.

    - Clients. The results of [rand] are a stream, and the fuel of random_equation
      is the size of its buffer. A double is an IEEE number of the Standard
      Library's specification; nothing is said of how it prints. What [sscanf] does
      with a number an [int] cannot hold is undefined.

    * Not modelled

    The functions that return a [sizeof]; the text of log messages; the public
    headers (prototypes and documentation). In the http backend, what becomes of
    a command when memory runs out. Of demo.c, the two loops of main (calls of the
    library with fresh uuids, and sleeping) and what is printed. Of the tests, the
    seven attributes in one array, the test's own malloc and free, and the test of
    the http backend, which needs a server. The other examples (programs of a few
    calls; async_client.c is pseudo-code of an older interface) and the demo of
    JSON_parser, which is no part of the library. *)
From stdpp Require Export base list gmap strings.
From Stdlib Require Export ZArith Lia.

(** ** Pointers and memory *)

(** A C pointer into the heap of blocks: [None] is [NULL]. *)
Abbreviation loc := positive.
Abbreviation ptr := (option positive).
Abbreviation NULL := (@None positive).

(** [const char *] arguments are passed by value: the characters before the
    terminator, [None] for [NULL]. *)
Abbreviation cstr := (option string).

(** A user function pointer: only whether it is [NULL] and which function it is
    matter. *)
Abbreviation fnptr := (option positive).

(** Raw memory, byte by byte; what was never written holds garbage. *)
Abbreviation bytes := (list Ascii.ascii).

(** ** Machine integers *)

(** A [uint32_t] is a [Z] kept below [2^32]; every C operation that can leave
    the range goes through [u32]. *)
Definition u32 (z : Z) : Z := (z `mod` 4294967296)%Z.

Lemma u32_range z : (0 ≤ u32 z < 4294967296)%Z.
Proof. apply Z.mod_pos_bound. lia. Qed.

Lemma u32_small z : (0 ≤ z < 4294967296)%Z → u32 z = z.
Proof. apply Z.mod_small. Qed.

Lemma u32_idem z : u32 (u32 z) = u32 z.
Proof. apply u32_small, u32_range. Qed.

(** A [size_t] of 64 bits. *)
Definition u64 (z : Z) : Z := (z `mod` 18446744073709551616)%Z.

Lemma u64_small z : (0 ≤ z < 18446744073709551616)%Z → u64 z = z.
Proof. apply Z.mod_small. Qed.

(** [set & FLAG] used as a condition. *)
Definition has_flag (set flag : Z) : bool := negb (Z.land set flag =? 0)%Z.

(** ** errno values the library returns *)
Definition EAGAIN : Z := 11.
Definition ENOMEM : Z := 12.
Definition EINVAL : Z := 22.
Definition ENOTSUP : Z := 95.
Definition ENOTCONN : Z := 107.
Definition ETIMEDOUT : Z := 110.
Definition EINPROGRESS : Z := 115.

(** ** Field update on records

    A record type declares its eta expansion once; the setter of any of its
    fields is then found by abstracting that field in the expansion. *)
Class Eta (R : Type) := eta : R → R.

Class Setter {R A : Type} (field : R → A) := upd : (A → A) → R → R.
Global Arguments upd {R A} field {_} _ _ /.

Ltac derive_setter field :=
  let R := match type of field with ?R → _ => R end in
  let inst := constr:(_ : Eta R) in
  let e := eval hnf in inst in
  let g := fresh "g" in let r := fresh "r" in
  intros g r;
  let b := eval cbv beta in (e r) in
  let p := eval pattern (field r) in b in
  lazymatch p with
  | ?F _ => let t := eval cbv beta in (F (g (field r))) in exact t
  end.

#[export] Hint Extern 1 (Setter ?field) => derive_setter field : typeclass_instances.

Notation "r <| field := v |>" := (upd field (λ _, v) r)
  (at level 1, left associativity, format "r <| field  :=  v |>").

