(* ===== verification/JsonData.v ===== *)
(** JSON_parser.h and JSON_parser.c: the enumerations, the values handed to the
    callback and the structure of a parser. *)
From S2P Require Import Prelude.

Inductive JSON_error :=
  | JSON_E_NONE | JSON_E_INVALID_CHAR | JSON_E_INVALID_KEYWORD
  | JSON_E_INVALID_ESCAPE_SEQUENCE | JSON_E_INVALID_UNICODE_SEQUENCE
  | JSON_E_INVALID_NUMBER | JSON_E_NESTING_DEPTH_REACHED
  | JSON_E_UNBALANCED_COLLECTION | JSON_E_EXPECTED_KEY | JSON_E_EXPECTED_COLON
  | JSON_E_OUT_OF_MEMORY.

Inductive JSON_type :=
  | JSON_T_NONE | JSON_T_ARRAY_BEGIN | JSON_T_ARRAY_END
  | JSON_T_OBJECT_BEGIN | JSON_T_OBJECT_END | JSON_T_INTEGER | JSON_T_FLOAT
  | JSON_T_NULL | JSON_T_TRUE | JSON_T_FALSE | JSON_T_STRING | JSON_T_KEY
  | JSON_T_MAX.

#[export] Instance JSON_type_eq_dec : EqDecision JSON_type.
Proof. solve_decision. Defined.

(** What the callback is given besides the type: nothing ([NULL]), an integer,
    the text of a float ([strtod] is not evaluated), or a string, as the bytes
    from its pointer on, its terminator included, and its length. *)
Inductive JSON_value :=
  | VNull
  | VInteger (integer_value : Z)
  | VFloat (text : bytes)
  | VString (value : bytes) (length : Z).

(** Character classes. *)
Inductive classes :=
  | C_SPACE | C_WHITE | C_LCURB | C_RCURB | C_LSQRB | C_RSQRB | C_COLON | C_COMMA
  | C_QUOTE | C_BACKS | C_SLASH | C_PLUS | C_MINUS | C_POINT | C_ZERO | C_DIGIT
  | C_LOW_A | C_LOW_B | C_LOW_C | C_LOW_D | C_LOW_E | C_LOW_F | C_LOW_L | C_LOW_N
  | C_LOW_R | C_LOW_S | C_LOW_T | C_LOW_U | C_ABCDF | C_E | C_ETC | C_STAR.

Inductive states :=
  | GO | OK | OB | KE | CO | VA | AR | ST | ES | U1 | U2 | U3 | U4 | MI | ZE | IT
  | FR | E1 | E2 | E3 | T1 | T2 | T3 | F1 | F2 | F3 | F4 | N1 | N2 | N3
  | C1 | C2 | C3 | FX | D1 | D2.

(** The negative entries of the transition table: the named actions, and
    [m9] ... [m2] for the numbers -9 ... -2 and [__] for the error code. *)
Inductive actions :=
  | CB | CE | FA | TR | NU | DE | DF | SB | MX | ZX | IX | EX | UC
  | m9 | m8 | m7 | m6 | m5 | m4 | m3 | m2 | __.

(** The modes on the stack. *)
Inductive modes := MODE_ARRAY | MODE_DONE | MODE_KEY | MODE_OBJECT.

#[export] Instance classes_eq_dec : EqDecision classes.
Proof. solve_decision. Defined.
#[export] Instance states_eq_dec : EqDecision states.
Proof. solve_decision. Defined.
#[export] Instance modes_eq_dec : EqDecision modes.
Proof. solve_decision. Defined.

(** Where the stack and the parse buffer are: nowhere yet, in the structure
    itself, or in a block of their own. *)
Inductive array_ptr := ANull | AStatic | ADynamic (l : loc).

(** The two pairs of allocation functions a configuration can name. *)
Inductive allocator := libc_functions | user_functions.

Record JSON_config := JsonConfig {
  cf_callback : fnptr; cf_callback_ctx : ptr; cf_depth : Z; cf_allow_comments : Z;
  cf_handle_floats_manually : Z;
  cf_malloc : option allocator; cf_free : option allocator }.
#[export] Instance eta_config : Eta JSON_config := λ c,
  JsonConfig (cf_callback c) (cf_callback_ctx c) (cf_depth c) (cf_allow_comments c)
    (cf_handle_floats_manually c) (cf_malloc c) (cf_free c).

Definition JSON_PARSER_STACK_SIZE : nat := 128.
Definition JSON_PARSER_PARSE_BUFFER_SIZE : nat := 3500.

(** A slot of a stack holds a mode or, where nothing was pushed, [None]. *)
Record JSON_parser_struct := JsonParser {
  js_callback : fnptr; js_ctx : ptr;
  js_state : states; js_before_comment_state : states; js_type : JSON_type;
  js_escaped : bool; js_comment : bool; js_allow_comments : bool;
  js_handle_floats_manually : bool; js_error : JSON_error;
  js_decimal_point : Ascii.ascii; js_utf16_high_surrogate : Z;
  js_current_char : Z; js_depth : Z; js_top : Z; js_stack_capacity : Z;
  js_stack : array_ptr; js_parse_buffer : array_ptr;
  js_parse_buffer_capacity : Z; js_parse_buffer_count : Z;
  js_static_stack : list (option modes); js_static_parse_buffer : bytes;
  js_malloc : allocator; js_free : allocator }.
#[export] Instance eta_parser : Eta JSON_parser_struct := λ p,
  JsonParser (js_callback p) (js_ctx p) (js_state p) (js_before_comment_state p)
    (js_type p) (js_escaped p) (js_comment p) (js_allow_comments p)
    (js_handle_floats_manually p) (js_error p) (js_decimal_point p)
    (js_utf16_high_surrogate p) (js_current_char p) (js_depth p) (js_top p)
    (js_stack_capacity p) (js_stack p) (js_parse_buffer p)
    (js_parse_buffer_capacity p) (js_parse_buffer_count p) (js_static_stack p)
    (js_static_parse_buffer p) (js_malloc p) (js_free p).

(** json_processing.c: what has been collected of the message being parsed. *)
Record json_processing_st := JsonProcessing {
  jp_backend : ptr; jp_body : ptr; jp_body_size : Z; jp_message_id : ptr;
  jp_is_key : bool; jp_key : ptr; jp_attributes : ptr }.
#[export] Instance eta_processing : Eta json_processing_st := λ j,
  JsonProcessing (jp_backend j) (jp_body j) (jp_body_size j) (jp_message_id j)
    (jp_is_key j) (jp_key j) (jp_attributes j).
