(* ===== verification/CurlData.v ===== *)
(** What the library and libcurl say to each other (curl_backend.c and curl/curl.h):
    the options of a transfer, the codes, the sets of descriptors, and what a
    transfer does step by step. All of it is data: the functions libcurl calls
    back are named. *)
From S2P Require Import Prelude.

(** The functions of the library that libcurl can be told to call. *)
Inductive curl_function :=
  | fn_user_buffer_curl_write_function
  | fn_user_buffer_curl_read_function
  | fn_user_buffer_curl_read_nothing_function
  | fn_burrow_backend_http_curldebug.

(** The options of an easy handle that curl_backend.c sets. libcurl copies the
    strings. *)
Inductive CURLoption :=
  | CURLOPT_URL (url : string)
  | CURLOPT_READFUNCTION (f : curl_function)
  | CURLOPT_READDATA (p : ptr)
  | CURLOPT_WRITEFUNCTION (f : curl_function)
  | CURLOPT_WRITEDATA (p : ptr)
  | CURLOPT_DEBUGFUNCTION (f : curl_function)
  | CURLOPT_DEBUGDATA (p : ptr)
  | CURLOPT_UPLOAD (on : bool)
  | CURLOPT_INFILESIZE (size : Z)
  | CURLOPT_HTTPGET (on : bool)
  | CURLOPT_POST (on : bool)
  | CURLOPT_POSTFIELDSIZE (size : Z)
  | CURLOPT_CUSTOMREQUEST (method : string)
  | CURLOPT_VERBOSE (on : bool)
  | CURLOPT_HEADER (on : bool).

Inductive curl_infotype :=
  | CURLINFO_TEXT | CURLINFO_HEADER_IN | CURLINFO_HEADER_OUT
  | CURLINFO_DATA_IN | CURLINFO_DATA_OUT | CURLINFO_SSL_DATA_IN | CURLINFO_SSL_DATA_OUT.

(** A [CURLMcode] and a [CURLcode]. *)
Definition CURLM_CALL_MULTI_PERFORM : Z := -1.
Definition CURLM_OK : Z := 0.
Definition CURLE_OK : Z := 0.
Definition CURLE_WRITE_ERROR : Z := 23.

(** What [curl_multi_fdset] fills in: three sets of descriptors and the largest. *)
Record fdsets := FdSets { fd_read : list Z; fd_write : list Z; fd_exec : list Z; fd_max : Z }.

(** ** A transfer

    What libcurl does during one [curl_multi_perform], as it finds the network:
    the callbacks it makes, in order, and what it answers then. *)
Inductive io :=
  | Recv (data : bytes)                            (** data has come in *)
  | Send (room : nat)                              (** data can go out *)
  | Info (type : curl_infotype) (text : bytes).    (** something to tell *)

Inductive verdict :=
  | Again                                (** call again at once *)
  | Running (waits : fdsets)             (** waiting on descriptors *)
  | Ended (result : Z)                   (** the transfer is over *)
  | Broken (code : Z).                   (** the multi handle is in trouble *)

Record step := Step { st_io : list io; st_verdict : verdict }.

(** A transfer in progress: the steps to come, what has been sent, the results
    not read yet, and what it last waited on. *)
Record transfer := Transfer {
  tr_steps : list step; tr_sent : bytes; tr_results : list Z; tr_waits : fdsets }.
#[export] Instance eta_transfer : Eta transfer := λ t,
  Transfer (tr_steps t) (tr_sent t) (tr_results t) (tr_waits t).

(** A block of a libcurl's: an easy handle with the options set so far, or a multi
    handle with the easy handle it drives. *)
Inductive curl_block :=
  | CurlEasy (options : list CURLoption)
  | CurlMulti (driven : option (positive * transfer)).
