(* ===== verification/Types.v ===== *)
(** Data of the library: the constants and structures of constants.h,
    constants-local.h, structs-local.h, dictionary.h and the backends, the blocks a
    heap holds, and the environment (allocator, clock, poll, user program) a run
    is given. *)
From S2P Require Import Prelude JsonData CurlData.

(** ** Constants *)

Inductive burrow_verbose_t :=
  | BURROW_VERBOSE_ALL | BURROW_VERBOSE_DEBUG | BURROW_VERBOSE_INFO
  | BURROW_VERBOSE_WARN | BURROW_VERBOSE_ERROR | BURROW_VERBOSE_FATAL
  | BURROW_VERBOSE_NONE.

(** The value C gives each enumerator. *)
Definition verbose_code (v : burrow_verbose_t) : nat :=
  match v with
  | BURROW_VERBOSE_ALL => 0 | BURROW_VERBOSE_DEBUG => 1 | BURROW_VERBOSE_INFO => 2
  | BURROW_VERBOSE_WARN => 3 | BURROW_VERBOSE_ERROR => 4 | BURROW_VERBOSE_FATAL => 5
  | BURROW_VERBOSE_NONE => 6
  end.

Definition BURROW_VERBOSE_DEFAULT : burrow_verbose_t := BURROW_VERBOSE_ALL.

Definition BURROW_OPT_AUTOPROCESS : Z := 1.
Definition BURROW_OPT_COPY_STRINGS : Z := 2.

Inductive burrow_detail_t :=
  | BURROW_DETAIL_NONE | BURROW_DETAIL_ID | BURROW_DETAIL_ATTRIBUTES
  | BURROW_DETAIL_BODY | BURROW_DETAIL_ALL.

Definition BURROW_IOEVENT_NONE : Z := 0.
Definition BURROW_IOEVENT_WRITE : Z := 1.
Definition BURROW_IOEVENT_READ : Z := 2.

Inductive burrow_state_t :=
  | BURROW_STATE_IDLE | BURROW_STATE_START | BURROW_STATE_WAITING
  | BURROW_STATE_READY | BURROW_STATE_FINISH.

Inductive burrow_command_t :=
  | BURROW_CMD_GET_ACCOUNTS | BURROW_CMD_DELETE_ACCOUNTS
  | BURROW_CMD_GET_QUEUES | BURROW_CMD_DELETE_QUEUES
  | BURROW_CMD_GET_MESSAGES | BURROW_CMD_UPDATE_MESSAGES | BURROW_CMD_DELETE_MESSAGES
  | BURROW_CMD_GET_MESSAGE | BURROW_CMD_UPDATE_MESSAGE | BURROW_CMD_DELETE_MESSAGE
  | BURROW_CMD_CREATE_MESSAGE
  | BURROW_CMD_NONE.

Definition BURROW_ATTRIBUTES_NONE : Z := 0.
Definition BURROW_ATTRIBUTES_TTL : Z := 1.
Definition BURROW_ATTRIBUTES_HIDE : Z := 2.

Definition BURROW_FILTERS_NONE : Z := 0.
Definition BURROW_FILTERS_MATCH_HIDDEN : Z := 1.
Definition BURROW_FILTERS_LIMIT : Z := 2.
Definition BURROW_FILTERS_DETAIL : Z := 4.
Definition BURROW_FILTERS_WAIT : Z := 8.

Definition BURROW_FLAG_SELFALLOCATED : Z := 1.
Definition BURROW_FLAG_PROCESSING : Z := 2.

#[export] Instance burrow_verbose_eq_dec : EqDecision burrow_verbose_t.
Proof. solve_decision. Defined.
#[export] Instance burrow_detail_eq_dec : EqDecision burrow_detail_t.
Proof. solve_decision. Defined.
#[export] Instance burrow_state_eq_dec : EqDecision burrow_state_t.
Proof. solve_decision. Defined.
#[export] Instance burrow_command_eq_dec : EqDecision burrow_command_t.
Proof. solve_decision. Defined.

(** The static backend tables a burrow can point to. *)
Inductive backend_name := backend_dummy | backend_http | backend_memory.

(** ** Structures *)

Record burrow_attributes_st := Attributes {
  at_set : Z; at_ttl : Z; at_hide : Z;
  at_burrow : ptr; at_next : ptr; at_prev : ptr }.
#[export] Instance eta_attributes : Eta burrow_attributes_st := λ a,
  Attributes (at_set a) (at_ttl a) (at_hide a) (at_burrow a) (at_next a) (at_prev a).

Record burrow_filters_st := Filters {
  fi_set : Z; fi_match_hidden : bool; fi_limit : Z; fi_marker : cstr;
  fi_detail : burrow_detail_t; fi_wait : Z;
  fi_burrow : ptr; fi_next : ptr; fi_prev : ptr }.
#[export] Instance eta_filters : Eta burrow_filters_st := λ f,
  Filters (fi_set f) (fi_match_hidden f) (fi_limit f) (fi_marker f) (fi_detail f)
    (fi_wait f) (fi_burrow f) (fi_next f) (fi_prev f).

(** [command_fn] points at one slot of the backend's table, named by the command
    the slot serves. *)
Record burrow_command_st := Command {
  cmd_command : burrow_command_t; cmd_command_fn : option burrow_command_t;
  cmd_account : cstr; cmd_queue : cstr; cmd_message_id : cstr;
  cmd_body : cstr; cmd_body_size : Z; cmd_filters : ptr; cmd_attributes : ptr }.
#[export] Instance eta_command : Eta burrow_command_st := λ c,
  Command (cmd_command c) (cmd_command_fn c) (cmd_account c) (cmd_queue c)
    (cmd_message_id c) (cmd_body c) (cmd_body_size c) (cmd_filters c)
    (cmd_attributes c).

Record pollfd := Pollfd { pfd_fd : Z; pfd_events : Z; pfd_revents : Z }.
#[export] Instance eta_pollfd : Eta pollfd := λ p,
  Pollfd (pfd_fd p) (pfd_events p) (pfd_revents p).

Record burrow_st := Burrow {
  b_options : Z; b_flags : Z; b_verbose : burrow_verbose_t; b_state : burrow_state_t;
  b_cmd : burrow_command_st; b_context : ptr;
  b_message_fn : fnptr; b_queue_fn : fnptr; b_account_fn : fnptr; b_log_fn : fnptr;
  b_complete_fn : fnptr; b_watch_fd_fn : fnptr;
  b_malloc_fn : fnptr; b_free_fn : fnptr;
  b_backend : backend_name; b_backend_context : ptr;
  b_watch_size : Z; b_timeout : Z; b_pfds_size : Z; b_pfds : ptr;
  b_attributes_list : ptr; b_filters_list : ptr }.
#[export] Instance eta_burrow : Eta burrow_st := λ b,
  Burrow (b_options b) (b_flags b) (b_verbose b) (b_state b) (b_cmd b) (b_context b)
    (b_message_fn b) (b_queue_fn b) (b_account_fn b) (b_log_fn b) (b_complete_fn b)
    (b_watch_fd_fn b) (b_malloc_fn b) (b_free_fn b) (b_backend b)
    (b_backend_context b) (b_watch_size b) (b_timeout b) (b_pfds_size b) (b_pfds b)
    (b_attributes_list b) (b_filters_list b).

Record dictionary_node_st := DictNode {
  n_key : ptr; n_previous : ptr; n_next : ptr; n_data : ptr }.
#[export] Instance eta_node : Eta dictionary_node_st := λ n,
  DictNode (n_key n) (n_previous n) (n_next n) (n_data n).

Record dictionary_st := Dictionary {
  d_first : ptr; d_last : ptr; d_length : Z; d_burrow : ptr }.
#[export] Instance eta_dictionary : Eta dictionary_st := λ d,
  Dictionary (d_first d) (d_last d) (d_length d) (d_burrow d).

(** A burrow message as stored in the memory backend. *)
Record burrow_message_st := Message {
  m_message_id : ptr; m_body : ptr; m_body_size : Z; m_ttl : Z; m_hide : Z }.
#[export] Instance eta_message : Eta burrow_message_st := λ m,
  Message (m_message_id m) (m_body m) (m_body_size m) (m_ttl m) (m_hide m).

Record burrow_backend_memory_st := MemoryBackend {
  mb_selfallocated : Z; mb_burrow : ptr; mb_accounts : ptr }.
#[export] Instance eta_memory_backend : Eta burrow_backend_memory_st := λ s,
  MemoryBackend (mb_selfallocated s) (mb_burrow s) (mb_accounts s).

Record burrow_backend_dummy_st := DummyBackend {
  du_selfallocated : Z; du_burrow : ptr }.
#[export] Instance eta_dummy_backend : Eta burrow_backend_dummy_st := λ s,
  DummyBackend (du_selfallocated s) (du_burrow s).

(** A character buffer: its capacity in bytes and the bytes stored from its
    start (a C string's terminator is not stored but occupies one byte). *)
Record chars := Chars { ch_capacity : Z; ch_text : string }.

(** user_buffer.c: the buffer libcurl reads from and writes to. *)
Record user_buffer_st := UserBuffer {
  ub_size : Z; ub_where : Z; ub_buf : ptr; ub_malloced : bool }.
#[export] Instance eta_user_buffer : Eta user_buffer_st := λ u,
  UserBuffer (ub_size u) (ub_where u) (ub_buf u) (ub_malloced u).

(** The http backend of curl_backend.c; its handles belong to libcurl. *)
Record burrow_backend_st := HttpBackend {
  hb_proto : string; hb_proto_len : Z; hb_proto_version : string; hb_proto_version_len : Z;
  hb_port : string; hb_port_len : Z; hb_server : ptr; hb_server_len : Z;
  hb_baseurl : ptr; hb_baseurl_len : Z; hb_burrow : ptr; hb_buffer : ptr;
  hb_chandle : ptr; hb_curlptr : ptr; hb_malloced : bool; hb_get_body_only : bool }.
#[export] Instance eta_http_backend : Eta burrow_backend_st := λ s,
  HttpBackend (hb_proto s) (hb_proto_len s) (hb_proto_version s) (hb_proto_version_len s)
    (hb_port s) (hb_port_len s) (hb_server s) (hb_server_len s) (hb_baseurl s)
    (hb_baseurl_len s) (hb_burrow s) (hb_buffer s) (hb_chandle s) (hb_curlptr s)
    (hb_malloced s) (hb_get_body_only s).

(** ** Blocks of the heap *)

Inductive block :=
  | BBurrow (b : burrow_st)
  | BAttributes (a : burrow_attributes_st)
  | BFilters (f : burrow_filters_st)
  | BCommand (c : burrow_command_st)
  | BPollfds (ps : list pollfd)
  | BDictionary (d : dictionary_st)
  | BNode (n : dictionary_node_st)
  | BMessage (m : burrow_message_st)
  | BMemory (s : burrow_backend_memory_st)
  | BDummy (s : burrow_backend_dummy_st)
  | BChars (c : chars)
  | BUserBuffer (u : user_buffer_st)
  | BBytes (bs : bytes)
  | BHttp (s : burrow_backend_st)
  | BJsonParser (p : JSON_parser_struct)
  | BModes (ms : list (option modes))
  | BJsonProcessing (j : json_processing_st)
  | BCurl (c : curl_block).

(** Who must free a block: the C library's [free], the user's [free_fn], or
    nobody (memory the caller supplied). *)
Inductive owner := Libc | User | Caller.

#[export] Instance owner_eq_dec : EqDecision owner.
Proof. solve_decision. Defined.

Abbreviation heap := (gmap positive (owner * block)).

(** Types that live in a block of their own. *)
Class Storable (T : Type) := {
  inject : T → block;
  project : block → option T;
  project_inject t : project (inject t) = Some t }.

#[export] Instance storable_burrow : Storable burrow_st :=
  Build_Storable _ BBurrow (λ b, match b with BBurrow x => Some x | _ => None end) (λ _, eq_refl).
#[export] Instance storable_attributes : Storable burrow_attributes_st :=
  Build_Storable _ BAttributes (λ b, match b with BAttributes x => Some x | _ => None end) (λ _, eq_refl).
#[export] Instance storable_filters : Storable burrow_filters_st :=
  Build_Storable _ BFilters (λ b, match b with BFilters x => Some x | _ => None end) (λ _, eq_refl).
#[export] Instance storable_command : Storable burrow_command_st :=
  Build_Storable _ BCommand (λ b, match b with BCommand x => Some x | _ => None end) (λ _, eq_refl).
#[export] Instance storable_pollfds : Storable (list pollfd) :=
  Build_Storable _ BPollfds (λ b, match b with BPollfds x => Some x | _ => None end) (λ _, eq_refl).
#[export] Instance storable_dictionary : Storable dictionary_st :=
  Build_Storable _ BDictionary (λ b, match b with BDictionary x => Some x | _ => None end) (λ _, eq_refl).
#[export] Instance storable_node : Storable dictionary_node_st :=
  Build_Storable _ BNode (λ b, match b with BNode x => Some x | _ => None end) (λ _, eq_refl).
#[export] Instance storable_message : Storable burrow_message_st :=
  Build_Storable _ BMessage (λ b, match b with BMessage x => Some x | _ => None end) (λ _, eq_refl).
#[export] Instance storable_memory : Storable burrow_backend_memory_st :=
  Build_Storable _ BMemory (λ b, match b with BMemory x => Some x | _ => None end) (λ _, eq_refl).
#[export] Instance storable_dummy : Storable burrow_backend_dummy_st :=
  Build_Storable _ BDummy (λ b, match b with BDummy x => Some x | _ => None end) (λ _, eq_refl).
#[export] Instance storable_chars : Storable chars :=
  Build_Storable _ BChars (λ b, match b with BChars x => Some x | _ => None end) (λ _, eq_refl).

#[export] Instance storable_user_buffer : Storable user_buffer_st :=
  Build_Storable _ BUserBuffer (λ b, match b with BUserBuffer x => Some x | _ => None end) (λ _, eq_refl).
#[export] Instance storable_bytes : Storable bytes :=
  Build_Storable _ BBytes (λ b, match b with BBytes x => Some x | _ => None end) (λ _, eq_refl).
#[export] Instance storable_http : Storable burrow_backend_st :=
  Build_Storable _ BHttp (λ b, match b with BHttp x => Some x | _ => None end) (λ _, eq_refl).
#[export] Instance storable_parser : Storable JSON_parser_struct :=
  Build_Storable _ BJsonParser (λ b, match b with BJsonParser x => Some x | _ => None end) (λ _, eq_refl).
#[export] Instance storable_modes : Storable (list (option modes)) :=
  Build_Storable _ BModes (λ b, match b with BModes x => Some x | _ => None end) (λ _, eq_refl).
#[export] Instance storable_processing : Storable json_processing_st :=
  Build_Storable _ BJsonProcessing (λ b, match b with BJsonProcessing x => Some x | _ => None end) (λ _, eq_refl).

#[export] Instance storable_curl : Storable curl_block :=
  Build_Storable _ BCurl (λ b, match b with BCurl x => Some x | _ => None end) (λ _, eq_refl).

(** ** What a run can observe and what it is given *)

(** Observable actions: user callbacks with what they receive, and log lines
    (to [log_fn] or to standard output; the format string, unexpanded). *)
Inductive event :=
  | EvMessage (id body : cstr) (body_size set ttl hide : Z)
  | EvMessagePlain (id body : cstr) (body_size : Z)  (** without attributes *)
  | EvQueue (queue : cstr)
  | EvAccount (account : cstr)
  | EvComplete
  | EvWatchFd (fd events : Z)
  | EvLog (verbose : burrow_verbose_t) (fmt : string)
  | EvPrint (verbose : burrow_verbose_t) (fmt : string).

(** What [poll] can answer: an error with its errno, a timeout, or the revents
    of each descriptor. *)
Inductive poll_answer :=
  | PollError (errno : Z)
  | PollTimeout
  | PollReady (revents : list Z).

(** The calls a user's program can make on a burrow it created. *)
Inductive api_call :=
  | CallCommand (c : burrow_command_st)
  | CallProcess
  | CallEventRaised (fd event : Z)
  | CallCancel.

(** The outside world. Each consultation is numbered by the run's tick counter:
    whether the n-th allocation succeeds (libc's, the user's), the garbage an
    uninitialised field holds, the clock, the answer of [poll] and of the user's
    completion callback. *)
Record environment := Env {
  e_malloc : nat → bool;
  e_user_malloc : nat → bool;
  e_junk : nat → Z;
  e_time : nat → Z;
  e_poll : nat → list pollfd → poll_answer;
  e_user : nat → list api_call }.

Record world := World { w_env : environment; w_tick : nat; w_trace : list event }.
#[export] Instance eta_world : Eta world := λ w,
  World (w_env w) (w_tick w) (w_trace w).
