(* ===== verification/Heap.v ===== *)
(** The C abstract machine the library is translated into: a state monad over
    the world and a heap of typed blocks, with undefined behaviour and lack of
    fuel as outcomes of their own. *)
From S2P Require Import Prelude Types.

(** ** Outcomes *)

(** The undefined behaviours the model detects. *)
Inductive fault :=
  | NullDeref        (** [NULL] is dereferenced *)
  | BadPointer       (** a block that is not allocated (any more) is accessed *)
  | WrongType        (** a block is accessed at another type *)
  | BadFree          (** a free of a block that is not allocated, or not this allocator's *)
  | OutOfBounds      (** a buffer is overrun *)
  | NullCall         (** a [NULL] function pointer is called *)
  | Indeterminate    (** a variable is used before it has a value *)
  | AssertFailed.    (** an [assert] is false *)

Inductive outcome (A : Type) :=
  | Ret (a : A) (w : world) (h : heap)
  | Stuck (f : fault)
  | NoFuel.
Arguments Ret {A} a w h.
Arguments Stuck {A} f.
Arguments NoFuel {A}.

Definition M (A : Type) : Type := world → heap → outcome A.

#[export] Instance M_ret : MRet M := λ A a w h, Ret a w h.
#[export] Instance M_bind : MBind M := λ A B k m w h,
  match m w h with
  | Ret a w' h' => k a w' h'
  | Stuck f => Stuck f
  | NoFuel => NoFuel
  end.

Definition undefined {A} (f : fault) : M A := λ _ _, Stuck f.
Definition out_of_fuel {A} : M A := λ _ _, NoFuel.

(** ** The world *)

Definition consult {A} (ask : environment → nat → A) : M A := λ w h,
  Ret (ask (w_env w) (w_tick w)) (w <| w_tick := S (w_tick w) |>) h.

Definition emit (e : event) : M unit := λ w h,
  Ret tt (w <| w_trace := w_trace w ++ [e] |>) h.

(** [(uint32_t)time(NULL)] *)
Definition time_now : M Z := t ← consult e_time; mret (u32 t).

(** ** Blocks *)

Section Blocks.
Context {T : Type} {ST : Storable T}.

Definition load (p : ptr) : M T := λ w h,
  match p with
  | None => Stuck NullDeref
  | Some l =>
      match h !! l with
      | None => Stuck BadPointer
      | Some (_, b) =>
          match project b with Some x => Ret x w h | None => Stuck WrongType end
      end
  end.

Definition store (p : ptr) (x : T) : M unit := λ w h,
  match p with
  | None => Stuck NullDeref
  | Some l =>
      match h !! l with
      | None => Stuck BadPointer
      | Some (o, b) =>
          match project b with
          | Some _ => Ret tt w (<[l := (o, inject x)]> h)
          | None => Stuck WrongType
          end
      end
  end.

(** Read-modify-write of one block: a field assignment. *)
Definition modify (p : ptr) (f : T → T) : M unit := x ← load p; store p (f x).

Definition alloc_loc (h : heap) : loc :=
  Pos.succ (map_fold (λ l _ m, Pos.max l m) 1%positive h).

Definition alloc (o : owner) (x : T) : M ptr := λ w h,
  let l := alloc_loc h in Ret (Some l) w (<[l := (o, inject x)]> h).

(** [malloc(sizeof(T))] of one allocator: it may fail; what it returns holds
    garbage, [uninit] of an unspecified integer. *)
Definition malloc (o : owner) (uninit : Z → T) : M ptr :=
  ok ← consult (match o with User => e_user_malloc | _ => e_malloc end);
  if (ok : bool) then junk ← consult e_junk; alloc o (uninit junk) else mret NULL.

(** The contents of a block of the C library's heap, which is gone after. *)
Definition take_block (l : loc) : M T := λ w h,
  match h !! l with
  | Some (Libc, b) =>
      match project b with
      | Some x => Ret x w (delete l h)
      | None => Stuck WrongType
      end
  | _ => Stuck BadFree
  end.

(** [realloc] of the C library: the new block holds what [resize] makes of the
    old contents and garbage; the old block is gone on success and untouched
    on failure. *)
Definition realloc (p : ptr) (resize : option T → Z → T) : M ptr :=
  ok ← consult e_malloc;
  if negb ok then mret NULL else
  junk ← consult e_junk;
  match p with
  | None => alloc Libc (resize None junk)
  | Some l => x ← take_block l; alloc Libc (resize (Some x) junk)
  end.
End Blocks.

(** [free(p)]; freeing [NULL] does nothing. *)
Definition release (o : owner) (p : ptr) : M unit := λ w h,
  match p with
  | None => Ret tt w h
  | Some l =>
      match h !! l with
      | Some (o', _) => if decide (o = o') then Ret tt w (delete l h) else Stuck BadFree
      | None => Stuck BadFree
      end
  end.

Definition is_null (p : ptr) : bool := match p with None => true | Some _ => false end.

(** ** Character buffers *)

Definition uninit_chars (n : Z) (_ : Z) : chars := Chars n "".

(** Reading a C string through a pointer. *)
Definition get_string (p : ptr) : M string := c ← load p; mret (ch_text c).

Definition strcpy (dst : ptr) (s : string) : M unit :=
  c ← load dst;
  if (Z.of_nat (String.length s) + 1 <=? ch_capacity c)%Z
  then store dst (Chars (ch_capacity c) s) else undefined OutOfBounds.

Definition memcpy (dst : ptr) (src : cstr) (n : Z) : M unit :=
  match src with
  | None => undefined NullDeref
  | Some s =>
      c ← load dst;
      if ((n <=? ch_capacity c) && (n <=? Z.of_nat (String.length s)))%Z
      then store dst (Chars (ch_capacity c) (String.substring 0 (Z.to_nat n) s))
      else undefined OutOfBounds
  end.

(** ** Loops *)

(** A loop whose body either continues with new values of the local variables
    ([inl]) or leaves with a result ([inr]). *)
Fixpoint loop {S R} (fuel : nat) (body : S → M (S + R)) (s : S) : M R :=
  match fuel with
  | O => out_of_fuel
  | S fuel => r ← body s;
      match r with inl s' => loop fuel body s' | inr x => mret x end
  end.

(** Fuel for a loop that follows a chain of distinct blocks: one more than the
    number of blocks there are. *)
Definition heap_fuel : M nat := λ w h, Ret (S (size h)) w h.
