(* ===== verification/Macros.v ===== *)
(** The inline functions of macros.h (allocation, logging and callbacks through
    a burrow) and the log router of burrow.c. *)
From S2P Require Import Prelude Types Heap.

(** [burrow_malloc]: the user's allocator when one is set, else libc's. *)
Definition burrow_malloc {T} `{Storable T} (burrow : ptr) (uninit : Z → T) : M ptr :=
  b ← load burrow;
  match b_malloc_fn b with
  | Some _ => malloc User uninit
  | None => malloc Libc uninit
  end.

Definition burrow_free (burrow : ptr) (p : ptr) : M unit :=
  b ← load burrow;
  match b_free_fn b with
  | Some _ => release User p
  | None => release Libc p
  end.

(** burrow.c: routes a line to the user's function or to standard output. *)
Definition burrow_internal_log (burrow : ptr) (verbose : burrow_verbose_t)
    (msg : string) : M unit :=
  b ← load burrow;
  match b_log_fn b with
  | None => emit (EvPrint verbose msg)
  | Some _ => emit (EvLog verbose msg)
  end.

(** The check every logging wrapper makes before it routes the line. *)
Definition log_at (level : burrow_verbose_t) (burrow : ptr) (msg : string) : M unit :=
  b ← load burrow;
  if verbose_code (b_verbose b) <=? verbose_code level
  then burrow_internal_log burrow level msg else mret tt.

Definition burrow_error (burrow : ptr) (err : Z) (msg : string) : M unit :=
  log_at BURROW_VERBOSE_ERROR burrow msg.
Definition burrow_log_fatal := log_at BURROW_VERBOSE_FATAL.
Definition burrow_log_error := log_at BURROW_VERBOSE_ERROR.
Definition burrow_log_warn := log_at BURROW_VERBOSE_WARN.
Definition burrow_log_info := log_at BURROW_VERBOSE_INFO.
Definition burrow_log_debug := log_at BURROW_VERBOSE_DEBUG.

(** Callbacks: what the user's function is given is emitted as an event. *)
Definition burrow_callback_message (burrow : ptr) (message_id body : cstr)
    (body_size set ttl hide : Z) : M unit :=
  b ← load burrow;
  match b_message_fn b with
  | Some _ => emit (EvMessage message_id body body_size set ttl hide)
  | None => mret tt
  end.

Definition burrow_callback_queue (burrow : ptr) (queue : cstr) : M unit :=
  b ← load burrow;
  match b_queue_fn b with Some _ => emit (EvQueue queue) | None => mret tt end.

Definition burrow_callback_account (burrow : ptr) (account : cstr) : M unit :=
  b ← load burrow;
  match b_account_fn b with Some _ => emit (EvAccount account) | None => mret tt end.
