(* ===== verification/Managed.v ===== *)
(** Objects a burrow keeps a doubly linked list of: the code attributes.c and
    filters.c share, over an interface to the two kinds of structures. *)
From S2P Require Import Prelude Types Heap Macros.

(** A structure with the three frontend fields, and the list of the burrow that
    holds the managed ones. [build] assembles a structure from its own value
    ([V]) and the frontend fields. *)
Class Managed (T V : Type) {ST : Storable T} := {
  build : V → ptr → ptr → ptr → T;
  get_burrow : T → ptr; get_next : T → ptr; get_prev : T → ptr;
  set_burrow : ptr → T → T; set_next : ptr → T → T; set_prev : ptr → T → T;
  get_list : burrow_st → ptr; set_list : ptr → burrow_st → burrow_st;
  uninit : Z → T }.
Global Arguments uninit T V {ST _} j.

Section Managed.
Context (T V : Type) {ST : Storable T} {MT : Managed T V}.

(** The allocation and linking at the start of [burrow_attributes_create] and
    [burrow_filters_create]. *)
Definition managed_create (dest burrow : ptr) : M ptr :=
  if is_null burrow || negb (is_null dest) then
    dest ← (if is_null dest then malloc Libc (uninit T V) else mret dest);
    if is_null dest then mret NULL else
    modify (T := T) dest (set_burrow burrow);;
    modify (T := T) dest (set_next dest);;
    modify (T := T) dest (set_prev dest);;
    mret dest
  else
    dest ← burrow_malloc burrow (uninit T V);
    if is_null dest then mret NULL else
    modify (T := T) dest (set_burrow burrow);;
    modify (T := T) dest (set_prev NULL);;
    b ← load burrow;
    modify (T := T) dest (set_next (get_list b));;
    modify burrow (set_list dest);;
    d ← load (T := T) dest;
    (if is_null (get_next d) then mret tt
     else modify (T := T) (get_next d) (set_prev dest));;
    mret dest.

(** [burrow_attributes_destroy] and [burrow_filters_destroy]. *)
Definition managed_destroy (self : ptr) : M unit :=
  d ← load (T := T) self;
  if is_null (get_burrow d) then release Libc self else
  (if bool_decide (get_next d = self) then mret tt else
   (if is_null (get_next d) then mret tt
    else modify (T := T) (get_next d) (set_prev (get_prev d)));;
   (if is_null (get_prev d) then modify (get_burrow d) (set_list (get_next d))
    else modify (T := T) (get_prev d) (set_next (get_next d))));;
  burrow_free (get_burrow d) self.
End Managed.

Global Arguments managed_create : simpl never.
Global Arguments managed_destroy : simpl never.
