(* ===== verification/Attributes.v ===== *)
(** attributes.c: message attributes. *)
From S2P Require Import Prelude Types Heap Macros Managed.

(** An attributes structure without its frontend fields. *)
Record attributes_value := AttributesValue { av_set : Z; av_ttl : Z; av_hide : Z }.

#[export] Instance attributes_managed : Managed burrow_attributes_st attributes_value := {
  build v b n p := Attributes (av_set v) (av_ttl v) (av_hide v) b n p;
  get_burrow := at_burrow; get_next := at_next; get_prev := at_prev;
  set_burrow p a := a <| at_burrow := p |>;
  set_next p a := a <| at_next := p |>;
  set_prev p a := a <| at_prev := p |>;
  get_list := b_attributes_list;
  set_list p b := b <| b_attributes_list := p |>;
  uninit j := Attributes j j j (Some (Z.to_pos j)) (Some (Z.to_pos j)) (Some (Z.to_pos j)) }.

Definition burrow_attributes_create (dest burrow : ptr) : M ptr :=
  dest ← managed_create burrow_attributes_st attributes_value dest burrow;
  if is_null dest then mret NULL else
  modify dest (λ a, a <| at_set := BURROW_ATTRIBUTES_NONE |>);;
  modify dest (λ a, a <| at_ttl := 0%Z |>);;
  modify dest (λ a, a <| at_hide := 0%Z |>);;
  mret dest.

Definition burrow_attributes_clone (dest src : ptr) : M ptr :=
  s ← load src;
  dest ← burrow_attributes_create dest (at_burrow s);
  if is_null dest then mret NULL else
  s ← load src;
  modify dest (λ a, a <| at_ttl := at_ttl s |>);;
  s ← load src;
  modify dest (λ a, a <| at_hide := at_hide s |>);;
  s ← load src;
  modify dest (λ a, a <| at_set := at_set s |>);;
  mret dest.

Definition burrow_attributes_destroy (attributes : ptr) : M unit :=
  managed_destroy burrow_attributes_st attributes_value attributes.

Definition burrow_attributes_unset_all (attributes : ptr) : M unit :=
  modify attributes (λ a, a <| at_set := BURROW_ATTRIBUTES_NONE |>).

Definition burrow_attributes_set_ttl (attributes : ptr) (ttl : Z) : M unit :=
  modify attributes (λ a, a <| at_ttl := ttl |>);;
  modify attributes (λ a, a <| at_set := Z.lor (at_set a) BURROW_ATTRIBUTES_TTL |>).
Definition burrow_attributes_get_ttl (attributes : ptr) : M Z :=
  a ← load attributes; mret (at_ttl a).
Definition burrow_attributes_isset_ttl (attributes : ptr) : M bool :=
  a ← load attributes; mret (has_flag (at_set a) BURROW_ATTRIBUTES_TTL).
Definition burrow_attributes_unset_ttl (attributes : ptr) : M unit :=
  modify attributes (λ a, a <| at_set := Z.land (at_set a) (Z.lnot BURROW_ATTRIBUTES_TTL) |>).

Definition burrow_attributes_set_hide (attributes : ptr) (hide : Z) : M unit :=
  modify attributes (λ a, a <| at_hide := hide |>);;
  modify attributes (λ a, a <| at_set := Z.lor (at_set a) BURROW_ATTRIBUTES_HIDE |>).
Definition burrow_attributes_get_hide (attributes : ptr) : M Z :=
  a ← load attributes; mret (at_hide a).
Definition burrow_attributes_isset_hide (attributes : ptr) : M bool :=
  a ← load attributes; mret (has_flag (at_set a) BURROW_ATTRIBUTES_HIDE).
Definition burrow_attributes_unset_hide (attributes : ptr) : M unit :=
  modify attributes (λ a, a <| at_set := Z.land (at_set a) (Z.lnot BURROW_ATTRIBUTES_HIDE) |>).

Global Arguments burrow_attributes_create : simpl never.
Global Arguments burrow_attributes_destroy : simpl never.
