(* ===== verification/Filters.v ===== *)
(** filters.c: filters of a range of accounts, queues or messages. *)
From S2P Require Import Prelude Types Heap Macros Managed.

(** A filters structure without its frontend fields. *)
Record filters_value := FiltersValue {
  fv_set : Z; fv_match_hidden : bool; fv_limit : Z; fv_marker : cstr;
  fv_detail : burrow_detail_t; fv_wait : Z }.

#[export] Instance filters_managed : Managed burrow_filters_st filters_value := {
  build v b n p := Filters (fv_set v) (fv_match_hidden v) (fv_limit v) (fv_marker v)
    (fv_detail v) (fv_wait v) b n p;
  get_burrow := fi_burrow; get_next := fi_next; get_prev := fi_prev;
  set_burrow p f := f <| fi_burrow := p |>;
  set_next p f := f <| fi_next := p |>;
  set_prev p f := f <| fi_prev := p |>;
  get_list := b_filters_list;
  set_list p b := b <| b_filters_list := p |>;
  uninit j := Filters j (Z.odd j) j None BURROW_DETAIL_NONE j
    (Some (Z.to_pos j)) (Some (Z.to_pos j)) (Some (Z.to_pos j)) }.

Definition burrow_filters_create (dest burrow : ptr) : M ptr :=
  dest ← managed_create burrow_filters_st filters_value dest burrow;
  if is_null dest then mret NULL else
  modify dest (λ f, f <| fi_wait := 0%Z |>);;
  modify dest (λ f, f <| fi_limit := 0%Z |>);;
  modify dest (λ f, f <| fi_marker := None |>);;
  modify dest (λ f, f <| fi_detail := BURROW_DETAIL_NONE |>);;
  modify dest (λ f, f <| fi_match_hidden := false |>);;
  modify dest (λ f, f <| fi_set := BURROW_FILTERS_NONE |>);;
  mret dest.

Definition burrow_filters_clone (dest src : ptr) : M ptr :=
  s ← load src;
  dest ← burrow_filters_create dest (fi_burrow s);
  if is_null dest then mret NULL else
  s ← load src;
  modify dest (λ f, f <| fi_wait := fi_wait s |>);;
  s ← load src;
  modify dest (λ f, f <| fi_limit := fi_limit s |>);;
  s ← load src;
  modify dest (λ f, f <| fi_marker := fi_marker s |>);;
  s ← load src;
  modify dest (λ f, f <| fi_detail := fi_detail s |>);;
  s ← load src;
  modify dest (λ f, f <| fi_match_hidden := fi_match_hidden s |>);;
  s ← load src;
  modify dest (λ f, f <| fi_set := fi_set s |>);;
  mret dest.

Definition burrow_filters_destroy (filters : ptr) : M unit :=
  managed_destroy burrow_filters_st filters_value filters.

Definition burrow_filters_unset_all (filters : ptr) : M unit :=
  modify filters (λ f, f <| fi_set := BURROW_FILTERS_NONE |>);;
  modify filters (λ f, f <| fi_marker := None |>).

(** [filters->set |= flag] and [filters->set &= ~flag]. *)
Definition raise_flag (filters : ptr) (flag : Z) : M unit :=
  modify filters (λ f, f <| fi_set := Z.lor (fi_set f) flag |>).
Definition lower_flag (filters : ptr) (flag : Z) : M unit :=
  modify filters (λ f, f <| fi_set := Z.land (fi_set f) (Z.lnot flag) |>).
Definition test_flag (filters : ptr) (flag : Z) : M bool :=
  f ← load filters; mret (has_flag (fi_set f) flag).

Definition burrow_filters_set_match_hidden (filters : ptr) (match_hidden : bool) : M unit :=
  modify filters (λ f, f <| fi_match_hidden := match_hidden |>);;
  raise_flag filters BURROW_FILTERS_MATCH_HIDDEN.
Definition burrow_filters_get_match_hidden (filters : ptr) : M bool :=
  f ← load filters; mret (fi_match_hidden f).
Definition burrow_filters_isset_match_hidden (filters : ptr) : M bool :=
  test_flag filters BURROW_FILTERS_MATCH_HIDDEN.
Definition burrow_filters_unset_match_hidden (filters : ptr) : M unit :=
  lower_flag filters BURROW_FILTERS_MATCH_HIDDEN.

Definition burrow_filters_set_limit (filters : ptr) (limit : Z) : M unit :=
  modify filters (λ f, f <| fi_limit := limit |>);;
  raise_flag filters BURROW_FILTERS_LIMIT.
Definition burrow_filters_get_limit (filters : ptr) : M Z :=
  f ← load filters; mret (fi_limit f).
Definition burrow_filters_isset_limit (filters : ptr) : M bool :=
  test_flag filters BURROW_FILTERS_LIMIT.
Definition burrow_filters_unset_limit (filters : ptr) : M unit :=
  lower_flag filters BURROW_FILTERS_LIMIT.

Definition burrow_filters_set_wait (filters : ptr) (wait_time : Z) : M unit :=
  modify filters (λ f, f <| fi_wait := wait_time |>);;
  raise_flag filters BURROW_FILTERS_WAIT.
Definition burrow_filters_get_wait (filters : ptr) : M Z :=
  f ← load filters; mret (fi_wait f).
Definition burrow_filters_isset_wait (filters : ptr) : M bool :=
  test_flag filters BURROW_FILTERS_WAIT.
Definition burrow_filters_unset_wait (filters : ptr) : M unit :=
  lower_flag filters BURROW_FILTERS_WAIT.

Definition burrow_filters_set_detail (filters : ptr) (detail : burrow_detail_t) : M unit :=
  modify filters (λ f, f <| fi_detail := detail |>);;
  raise_flag filters BURROW_FILTERS_DETAIL.
Definition burrow_filters_get_detail (filters : ptr) : M burrow_detail_t :=
  f ← load filters; mret (fi_detail f).
Definition burrow_filters_isset_detail (filters : ptr) : M bool :=
  test_flag filters BURROW_FILTERS_DETAIL.
Definition burrow_filters_unset_detail (filters : ptr) : M unit :=
  lower_flag filters BURROW_FILTERS_DETAIL.

Definition burrow_filters_set_marker (filters : ptr) (marker_id : cstr) : M unit :=
  modify filters (λ f, f <| fi_marker := marker_id |>).
Definition burrow_filters_get_marker (filters : ptr) : M cstr :=
  f ← load filters; mret (fi_marker f).

Global Arguments burrow_filters_create : simpl never.
Global Arguments burrow_filters_destroy : simpl never.
