(* ===== verification/Burrow.v ===== *)
(** burrow.c: the frontend. Its state machine runs the commands of a backend it
    knows by its table of functions. burrow_process can be entered again from
    the user's completion callback and from events, so the functions that call
    it take it as an argument and the recursion is tied, on fuel, at the end. *)
From S2P Require Import Prelude Types Heap Macros Managed Attributes Filters.

(** ** The backend interface (structs-local.h)

    [be_room] is the uninitialised contents of the memory [be_size] bytes after
    a burrow; a function pointer that may be [NULL] is an option. *)
Record burrow_backend_functions_st := BackendFunctions {
  be_create : ptr → ptr → M ptr;
  be_destroy : ptr → M unit;
  be_room : Z → block;
  be_set_option : option (ptr → string → cstr → M Z);
  be_set_option_int : option (ptr → string → Z → M Z);
  be_cancel : option (ptr → M unit);
  be_process : option (ptr → M Z);
  be_event_raised : option (ptr → Z → Z → M Z);
  be_command : burrow_command_t → option (ptr → burrow_command_st → M Z) }.

(** The tables the three backends export. *)
Class Backends := backend_functions : backend_name → burrow_backend_functions_st.

(** backends.c *)
Definition burrow_backend_load_functions (backend : cstr) : option backend_name :=
  match backend with
  | None => None
  | Some s =>
      if String.eqb s "dummy" then Some backend_dummy
      else if String.eqb s "http" then Some backend_http
      else if String.eqb s "memory" then Some backend_memory
      else None
  end.

Definition burrow_verbose_name (verbose : burrow_verbose_t) : string :=
  nth (verbose_code verbose) ["MAX"; "DEBUG"; "INFO"; "WARN"; "ERROR"; "FATAL"; "NONE"] "".

(** ** Watched descriptors *)

Definition POLLIN : Z := 1.
Definition POLLOUT : Z := 4.

Definition uninit_pollfd (j : Z) : pollfd := Pollfd j j j.

(** The array after [realloc] to [n] elements. *)
Definition resize_pfds (n : Z) (old : option (list pollfd)) (j : Z) : list pollfd :=
  let old := default [] old in
  take (Z.to_nat n) old ++ replicate (Z.to_nat n - length old) (uninit_pollfd j).

Definition load_pfd (pfds : ptr) (i : Z) : M pollfd :=
  ps ← load pfds;
  match ps !! Z.to_nat i with Some p => mret p | None => undefined OutOfBounds end.

Definition modify_pfd (pfds : ptr) (i : Z) (f : pollfd → pollfd) : M unit :=
  ps ← load pfds;
  match ps !! Z.to_nat i with
  | Some p => store pfds (<[Z.to_nat i := f p]> ps)
  | None => undefined OutOfBounds
  end.

(** Element [j] is copied to element [i]. *)
Definition copy_pfd (pfds : ptr) (i j : Z) : M unit :=
  last_pfd ← load_pfd pfds j;
  modify_pfd pfds i (λ p, p <| pfd_fd := pfd_fd last_pfd |>);;
  modify_pfd pfds i (λ p, p <| pfd_events := pfd_events last_pfd |>);;
  modify_pfd pfds i (λ p, p <| pfd_revents := pfd_revents last_pfd |>).

(** Makes room for [needed] descriptors: whether there is. *)
Definition grow_pfds (burrow : ptr) (needed : Z) : M bool :=
  b ← load burrow;
  if (b_pfds_size b <? needed)%Z then
    pfd ← realloc (b_pfds b) (resize_pfds needed);
    if is_null pfd then
      burrow_log_error burrow "burrow_internal_watch_fd: couldn't reallocate pfds";;
      mret false
    else
      modify burrow (λ b, b <| b_pfds := pfd |>);;
      modify burrow (λ b, b <| b_pfds_size := needed |>);;
      mret true
  else mret true.

Definition burrow_internal_watch_fd (burrow : ptr) (fd events : Z) : M Z :=
  b ← load burrow;
  let needed := u32 (b_watch_size b + 1) in
  ok ← grow_pfds burrow needed;
  if negb ok then mret ENOMEM else
  modify burrow (λ b, b <| b_watch_size := needed |>);;
  b ← load burrow;
  let i := u32 (needed - 1) in
  modify_pfd (b_pfds b) i (λ p, p <| pfd_fd := fd |>);;
  modify_pfd (b_pfds b) i (λ p, p <| pfd_events := 0%Z |>);;
  (if has_flag events BURROW_IOEVENT_READ
   then modify_pfd (b_pfds b) i (λ p, p <| pfd_events := Z.lor (pfd_events p) POLLIN |>)
   else mret tt);;
  (if has_flag events BURROW_IOEVENT_WRITE
   then modify_pfd (b_pfds b) i (λ p, p <| pfd_events := Z.lor (pfd_events p) POLLOUT |>)
   else mret tt);;
  mret 0%Z.

(** macros.h *)
Definition burrow_watch_fd (burrow : ptr) (fd events : Z) : M unit :=
  b ← load burrow;
  match b_watch_fd_fn b with
  | Some _ => emit (EvWatchFd fd events)
  | None => burrow_internal_watch_fd burrow fd events;; mret tt
  end.

(** The frontend event for what [poll] reported. *)
Definition ioevent_of (revents : Z) : Z :=
  Z.lor (if has_flag revents POLLIN then BURROW_IOEVENT_READ else BURROW_IOEVENT_NONE)
        (if has_flag revents POLLOUT then BURROW_IOEVENT_WRITE else BURROW_IOEVENT_NONE).

(** What [poll] leaves in the first elements of the array. *)
Fixpoint with_revents (revents : list Z) (ps : list pollfd) : list pollfd :=
  match revents, ps with
  | r :: revents, p :: ps => (p <| pfd_revents := r |>) :: with_revents revents ps
  | _, _ => ps
  end.

(** [poll(pfds, n, timeout)] *)
Definition poll (pfds : ptr) (n : Z) : M poll_answer :=
  ps ← load pfds;
  if (length ps <? Z.to_nat n)%nat then undefined OutOfBounds else
  answer ← consult (λ e t, e_poll e t (take (Z.to_nat n) ps));
  (match answer with
   | PollError _ => mret tt
   | PollTimeout => store pfds (with_revents (replicate (Z.to_nat n) 0%Z) ps)
   | PollReady revents => store pfds (with_revents (take (Z.to_nat n) revents) ps)
   end);;
  mret answer.

(** A field of the current command is set. *)
Definition set_cmd (f : burrow_command_st → burrow_command_st) (b : burrow_st) : burrow_st :=
  b <| b_cmd := f (b_cmd b) |>.

Section Frontend.
Context {backends : Backends}.

Definition functions_of (b : burrow_st) : burrow_backend_functions_st :=
  backend_functions (b_backend b).

Definition burrow_cancel (burrow : ptr) : M unit :=
  b ← load burrow;
  if decide (b_state b = BURROW_STATE_IDLE) then mret tt else
  modify burrow (λ b, b <| b_watch_size := 0%Z |>);;
  (match be_cancel (functions_of b) with
   | Some cancel => cancel (b_backend_context b)
   | None => mret tt
   end);;
  modify burrow (set_cmd (λ c, c <| cmd_command := BURROW_CMD_NONE |>));;
  modify burrow (set_cmd (λ c, c <| cmd_command_fn := None |>)).

Section Reentrant.
Context (process : ptr → M Z).

Definition burrow_event_raised (burrow : ptr) (fd event : Z) : M Z :=
  b ← load burrow;
  match be_event_raised (functions_of b) with
  | None =>
      burrow_log_warn burrow "burrow_event_raised: event raised but no handler defined";;
      mret ENOTCONN
  | Some event_raised =>
      (if decide (b_state b = BURROW_STATE_WAITING) then mret tt
       else burrow_log_warn burrow "burrow_event_raised: unexpected event, fd %d, event %x");;
      result ← event_raised (b_backend_context b) fd event;
      if decide (result = 0%Z) then
        modify burrow (λ b, b <| b_state := BURROW_STATE_READY |>);;
        b ← load burrow;
        if has_flag (b_options b) BURROW_OPT_AUTOPROCESS then process burrow else mret result
      else if decide (result = EAGAIN) then mret result
      else
        burrow_log_error burrow "burrow_event_raised: backend returned errno 0x%x";;
        burrow_cancel burrow;;
        mret result
  end.

(** One turn of the loop over the polled descriptors: [pfd] is element [i] of
    the array at [base], the address of the array when the loop started. An
    array that has moved since makes [pfd] dangle. *)
Definition poll_step (burrow base : ptr) (s : Z * Z) : M ((Z * Z) + Z) :=
  let '(i, watch_size) := s in
  b ← load burrow;
  if decide (b_pfds b ≠ base) then undefined BadPointer else
  if (i <? watch_size)%Z then
    p ← load_pfd base i;
    if decide (pfd_revents p = 0%Z) then mret (inl ((i + 1)%Z, watch_size)) else
    burrow_event_raised burrow (pfd_fd p) (ioevent_of (pfd_revents p));;
    let watch_size := u32 (watch_size - 1) in
    b ← load burrow;
    if decide (b_pfds b ≠ base) then undefined BadPointer else
    (if (i <? watch_size)%Z then copy_pfd base i watch_size else mret tt);;
    mret (inl (i, watch_size))
  else mret (inr watch_size).

Definition burrow_internal_poll_fds (burrow : ptr) : M Z :=
  b ← load burrow;
  if (b_watch_size b =? 0)%Z then mret 0%Z else
  answer ← poll (b_pfds b) (b_watch_size b);
  match answer with
  | PollError errno =>
      burrow_log_error burrow "burrow_internal_poll_fds: poll: error encountered 0x%x";;
      mret errno
  | PollTimeout =>
      burrow_log_info burrow "burrow_internal_poll_fds: timeout %d reached";;
      burrow_cancel burrow;;
      mret ETIMEDOUT
  | PollReady _ =>
      b ← load burrow;
      watch_size ← loop (S (Z.to_nat (b_watch_size b))) (poll_step burrow (b_pfds b))
                     (0%Z, b_watch_size b);
      modify burrow (λ b, b <| b_watch_size := watch_size |>);;
      mret 0%Z
  end.

(** ** Commands *)

(** What the eleven commands do: refuse to start on a busy burrow or without
    their parameters, else set the command up and start it. *)
Definition start_command (burrow : ptr) (name : string) (valid : bool)
    (command : burrow_command_t) (fill : burrow_command_st → burrow_command_st) : M Z :=
  b ← load burrow;
  if decide (b_state b ≠ BURROW_STATE_IDLE) then
    burrow_log_error burrow (name +:+ ": burrow not idle");;
    mret EINPROGRESS
  else if negb valid then
    burrow_log_error burrow (name +:+ ": invalid parameters");;
    mret EINVAL
  else
    modify burrow (set_cmd (λ c, c <| cmd_command := command |>));;
    modify burrow (set_cmd (λ c, c <| cmd_command_fn :=
      match be_command (functions_of b) command with Some _ => Some command | None => None end |>));;
    modify burrow (set_cmd fill);;
    modify burrow (λ b, b <| b_state := BURROW_STATE_START |>);;
    b ← load burrow;
    if has_flag (b_options b) BURROW_OPT_AUTOPROCESS then process burrow else mret 0%Z.

Definition given (s : cstr) : bool := match s with Some _ => true | None => false end.

Definition burrow_get_message (burrow : ptr) (account queue message_id : cstr)
    (filters : ptr) : M Z :=
  start_command burrow "burrow_get_message"
    (given account && given queue && given message_id) BURROW_CMD_GET_MESSAGE
    (λ c, c <| cmd_account := account |> <| cmd_queue := queue |>
            <| cmd_message_id := message_id |> <| cmd_filters := filters |>).

Definition burrow_create_message (burrow : ptr) (account queue message_id body : cstr)
    (body_size : Z) (attributes : ptr) : M Z :=
  start_command burrow "burrow_create_message"
    (given account && given queue && given message_id && given body) BURROW_CMD_CREATE_MESSAGE
    (λ c, c <| cmd_account := account |> <| cmd_queue := queue |>
            <| cmd_message_id := message_id |> <| cmd_body := body |>
            <| cmd_body_size := body_size |> <| cmd_attributes := attributes |>).

Definition burrow_update_message (burrow : ptr) (account queue message_id : cstr)
    (attributes filters : ptr) : M Z :=
  start_command burrow "burrow_update_message"
    (given account && given queue && given message_id && negb (is_null attributes))
    BURROW_CMD_UPDATE_MESSAGE
    (λ c, c <| cmd_account := account |> <| cmd_queue := queue |>
            <| cmd_message_id := message_id |> <| cmd_attributes := attributes |>
            <| cmd_filters := filters |>).

Definition burrow_delete_message (burrow : ptr) (account queue message_id : cstr)
    (filters : ptr) : M Z :=
  start_command burrow "burrow_delete_message"
    (given account && given queue && given message_id) BURROW_CMD_DELETE_MESSAGE
    (λ c, c <| cmd_account := account |> <| cmd_queue := queue |>
            <| cmd_message_id := message_id |> <| cmd_filters := filters |>).

Definition burrow_get_messages (burrow : ptr) (account queue : cstr) (filters : ptr) : M Z :=
  start_command burrow "burrow_get_messages" (given account && given queue)
    BURROW_CMD_GET_MESSAGES
    (λ c, c <| cmd_account := account |> <| cmd_queue := queue |> <| cmd_filters := filters |>).

Definition burrow_delete_messages (burrow : ptr) (account queue : cstr) (filters : ptr) : M Z :=
  start_command burrow "burrow_delete_messages" (given account && given queue)
    BURROW_CMD_DELETE_MESSAGES
    (λ c, c <| cmd_account := account |> <| cmd_queue := queue |> <| cmd_filters := filters |>).

Definition burrow_update_messages (burrow : ptr) (account queue : cstr)
    (attributes filters : ptr) : M Z :=
  start_command burrow "burrow_update_messages"
    (given account && given queue && negb (is_null attributes)) BURROW_CMD_UPDATE_MESSAGES
    (λ c, c <| cmd_account := account |> <| cmd_queue := queue |> <| cmd_filters := filters |>
            <| cmd_attributes := attributes |>).

Definition burrow_get_queues (burrow : ptr) (account : cstr) (filters : ptr) : M Z :=
  start_command burrow "burrow_get_queues" (given account) BURROW_CMD_GET_QUEUES
    (λ c, c <| cmd_account := account |> <| cmd_filters := filters |>).

Definition burrow_delete_queues (burrow : ptr) (account : cstr) (filters : ptr) : M Z :=
  start_command burrow "burrow_delete_queues" (given account) BURROW_CMD_DELETE_QUEUES
    (λ c, c <| cmd_account := account |> <| cmd_filters := filters |>).

Definition burrow_get_accounts (burrow filters : ptr) : M Z :=
  start_command burrow "burrow_get_accounts" true BURROW_CMD_GET_ACCOUNTS
    (λ c, c <| cmd_filters := filters |>).

Definition burrow_delete_accounts (burrow filters : ptr) : M Z :=
  start_command burrow "burrow_delete_accounts" true BURROW_CMD_DELETE_ACCOUNTS
    (λ c, c <| cmd_filters := filters |>).

(** A user's call of the command its description names. *)
Definition call_command (burrow : ptr) (c : burrow_command_st) : M Z :=
  match cmd_command c with
  | BURROW_CMD_GET_ACCOUNTS => burrow_get_accounts burrow (cmd_filters c)
  | BURROW_CMD_DELETE_ACCOUNTS => burrow_delete_accounts burrow (cmd_filters c)
  | BURROW_CMD_GET_QUEUES => burrow_get_queues burrow (cmd_account c) (cmd_filters c)
  | BURROW_CMD_DELETE_QUEUES => burrow_delete_queues burrow (cmd_account c) (cmd_filters c)
  | BURROW_CMD_GET_MESSAGES =>
      burrow_get_messages burrow (cmd_account c) (cmd_queue c) (cmd_filters c)
  | BURROW_CMD_UPDATE_MESSAGES =>
      burrow_update_messages burrow (cmd_account c) (cmd_queue c) (cmd_attributes c) (cmd_filters c)
  | BURROW_CMD_DELETE_MESSAGES =>
      burrow_delete_messages burrow (cmd_account c) (cmd_queue c) (cmd_filters c)
  | BURROW_CMD_GET_MESSAGE =>
      burrow_get_message burrow (cmd_account c) (cmd_queue c) (cmd_message_id c) (cmd_filters c)
  | BURROW_CMD_UPDATE_MESSAGE =>
      burrow_update_message burrow (cmd_account c) (cmd_queue c) (cmd_message_id c)
        (cmd_attributes c) (cmd_filters c)
  | BURROW_CMD_DELETE_MESSAGE =>
      burrow_delete_message burrow (cmd_account c) (cmd_queue c) (cmd_message_id c) (cmd_filters c)
  | BURROW_CMD_CREATE_MESSAGE =>
      burrow_create_message burrow (cmd_account c) (cmd_queue c) (cmd_message_id c)
        (cmd_body c) (cmd_body_size c) (cmd_attributes c)
  | BURROW_CMD_NONE => mret 0%Z
  end.

Definition user_call (burrow : ptr) (call : api_call) : M unit :=
  match call with
  | CallCommand c => call_command burrow c;; mret tt
  | CallProcess => process burrow;; mret tt
  | CallEventRaised fd event => burrow_event_raised burrow fd event;; mret tt
  | CallCancel => burrow_cancel burrow
  end.

Fixpoint user_calls (burrow : ptr) (calls : list api_call) : M unit :=
  match calls with
  | [] => mret tt
  | call :: calls => user_call burrow call;; user_calls burrow calls
  end.

(** macros.h: what the user's function then does is up to the environment. *)
Definition burrow_callback_complete (burrow : ptr) : M unit :=
  b ← load burrow;
  match b_complete_fn b with
  | Some _ => emit EvComplete;; calls ← consult e_user; user_calls burrow calls
  | None => mret tt
  end.

(** ** Processing *)

(** One turn of the loop of [burrow_process]: go on with the [result] so far, or
    leave with it, from the loop's end ([true]) or by an early return. *)
Definition process_step (burrow : ptr) (result : Z) : M (Z + (Z * bool)) :=
  b ← load burrow;
  match b_state b with
  | BURROW_STATE_IDLE => mret (inr (result, true))
  | BURROW_STATE_START =>
      match cmd_command_fn (b_cmd b) ≫= be_command (functions_of b) with
      | None => undefined NullCall
      | Some command_fn =>
          result ← command_fn (b_backend_context b) (b_cmd b);
          if decide (result = EAGAIN) then
            match be_process (functions_of b) with
            | None =>
                burrow_log_error burrow "burrow_process: unexpected EAGAIN";;
                burrow_cancel burrow;;
                mret (inr (EINVAL, false))
            | Some _ =>
                modify burrow (λ b, b <| b_state := BURROW_STATE_WAITING |>);;
                mret (inl result)
            end
          else
            modify burrow (λ b, b <| b_state := BURROW_STATE_FINISH |>);;
            mret (inl result)
      end
  | BURROW_STATE_READY =>
      match be_process (functions_of b) with
      | None => undefined NullCall
      | Some backend_process =>
          result ← backend_process (b_backend_context b);
          modify burrow (λ b, b <| b_state :=
            if decide (result = EAGAIN) then BURROW_STATE_WAITING else BURROW_STATE_FINISH |>);;
          mret (inl result)
      end
  | BURROW_STATE_WAITING =>
      if (b_watch_size b =? 0)%Z then mret (inr (EAGAIN, false)) else
      result ← burrow_internal_poll_fds burrow;
      if decide (result ≠ 0%Z) then mret (inr (result, false)) else mret (inl result)
  | BURROW_STATE_FINISH =>
      (if (0 <? b_watch_size b)%Z
       then burrow_log_error burrow "burrow_process: finishd with active fds" else mret tt);;
      modify burrow (λ b, b <| b_state := BURROW_STATE_IDLE |>);;
      modify burrow (set_cmd (λ c, c <| cmd_command := BURROW_CMD_NONE |>));;
      burrow_callback_complete burrow;;
      mret (inl result)
  end.
End Reentrant.

(** The fuel bounds the turns of the loop and the depth of re-entry. *)
Fixpoint burrow_process (fuel : nat) (burrow : ptr) : M Z :=
  match fuel with
  | O => out_of_fuel
  | S fuel =>
      b ← load burrow;
      if has_flag (b_flags b) BURROW_FLAG_PROCESSING then mret EAGAIN else
      modify burrow (λ b, b <| b_flags := Z.lor (b_flags b) BURROW_FLAG_PROCESSING |>);;
      left ← loop fuel (process_step (burrow_process fuel) burrow) 0%Z;
      let '(result, finished) := left in
      (if (finished : bool)
       then modify burrow (λ b, b <| b_flags := Z.lxor (b_flags b) BURROW_FLAG_PROCESSING |>)
       else mret tt);;
      mret result
  end.
End Frontend.
