(* ===== verification/Lifecycle.v ===== *)
(** burrow.c: creation, destruction and the setters of a burrow. *)
From S2P Require Import Prelude Types Heap Macros Managed Attributes Filters Burrow.

(** What [malloc] leaves in a burrow. *)
Definition uninit_burrow (j : Z) : burrow_st :=
  let p := Some (Z.to_pos j) in
  Burrow j j BURROW_VERBOSE_ALL BURROW_STATE_IDLE
    (Command BURROW_CMD_NONE None None None None None j p p) p
    p p p p p p p p backend_dummy p j j j p p p.

(** [burrow + 1]: the memory for the backend, behind the burrow's structure in
    the same allocation; the model keeps it in a block of its own, which no
    allocator takes back by itself. *)
Definition room (burrow : ptr) : ptr := Pos.succ <$> burrow.

Definition alloc_burrow (b : burrow_st) (behind : block) : M ptr := λ w h,
  let l := alloc_loc h in
  Ret (Some l) w (<[l := (Libc, BBurrow b)]> (<[Pos.succ l := (Caller, behind)]> h)).

(** [malloc(sizeof(burrow_st) + backend_fns->size())] *)
Definition malloc_burrow (be_room : Z → block) : M ptr :=
  ok ← consult e_malloc;
  if negb ok then mret NULL else
  junk ← consult e_junk;
  alloc_burrow (uninit_burrow junk) (be_room junk).

(** The memory behind a burrow goes with it. *)
Definition vacate (p : ptr) : M unit := λ w h,
  match p with None => Ret tt w h | Some l => Ret tt w (delete l h) end.

Section Lifecycle.
Context {backends : Backends}.

Definition burrow_create (burrow : ptr) (backend : cstr) : M ptr :=
  match burrow_backend_load_functions backend with
  | None => mret NULL
  | Some backend_fns =>
      burrow ← (if is_null burrow then
                  burrow ← malloc_burrow (be_room (backend_functions backend_fns));
                  (if is_null burrow then mret tt
                   else modify burrow (λ b, b <| b_flags := BURROW_FLAG_SELFALLOCATED |>));;
                  mret burrow
                else modify burrow (λ b, b <| b_flags := 0%Z |>);; mret burrow);
      if is_null burrow then mret NULL else
      modify burrow (λ b, b <| b_options := 0%Z |> <| b_verbose := BURROW_VERBOSE_DEFAULT |>
        <| b_state := BURROW_STATE_IDLE |> <| b_context := NULL |>);;
      modify burrow (set_cmd (λ c, c <| cmd_command_fn := None |>
        <| cmd_command := BURROW_CMD_NONE |>));;
      modify burrow (λ b, b <| b_malloc_fn := None |> <| b_free_fn := None |>);;
      modify burrow (λ b, b <| b_message_fn := None |> <| b_queue_fn := None |>
        <| b_account_fn := None |> <| b_complete_fn := None |> <| b_watch_fd_fn := None |>
        <| b_log_fn := None |>);;
      modify burrow (λ b, b <| b_pfds := NULL |> <| b_pfds_size := 0%Z |>
        <| b_watch_size := 0%Z |> <| b_timeout := (10 * 1000)%Z |>);;
      modify burrow (λ b, b <| b_attributes_list := NULL |> <| b_filters_list := NULL |>);;
      modify burrow (λ b, b <| b_backend := backend_fns |>);;
      context ← be_create (backend_functions backend_fns) (room burrow) burrow;
      modify burrow (λ b, b <| b_backend_context := context |>);;
      mret burrow
  end.

(** [while (list != NULL) destroy(list)] *)
Definition destroy_list (burrow : ptr) (get : burrow_st → ptr) (destroy : ptr → M unit) : M unit :=
  fuel ← heap_fuel;
  loop fuel (λ _ : unit,
    b ← load burrow;
    if is_null (get b) then mret (inr tt) else destroy (get b);; mret (inl tt)) tt.

Definition burrow_destroy (burrow : ptr) : M unit :=
  burrow_log_debug burrow "burrow_destroy: freeing backend";;
  b ← load burrow;
  be_destroy (functions_of b) (room burrow);;
  b ← load burrow;
  burrow_free burrow (b_pfds b);;
  burrow_log_debug burrow "burrow_destroy: attributes list %c= NULL";;
  destroy_list burrow b_attributes_list burrow_attributes_destroy;;
  burrow_log_debug burrow "burrow_destroy: filters list %c= NULL";;
  destroy_list burrow b_filters_list burrow_filters_destroy;;
  b ← load burrow;
  if has_flag (b_flags b) BURROW_FLAG_SELFALLOCATED then
    burrow_log_debug burrow "burrow_destroy: freeing self-allocated structure";;
    burrow_free burrow burrow;;
    vacate (room burrow)
  else burrow_log_debug burrow "burrow_destroy: not freeing user-provided memory".

(** ** Options and callbacks *)

Definition burrow_set_context (burrow context : ptr) : M unit :=
  modify burrow (λ b, b <| b_context := context |>).
Definition burrow_get_context (burrow : ptr) : M ptr := b ← load burrow; mret (b_context b).

Definition burrow_set_options (burrow : ptr) (options : Z) : M unit :=
  modify burrow (λ b, b <| b_options := options |>).
Definition burrow_add_options (burrow : ptr) (options : Z) : M unit :=
  modify burrow (λ b, b <| b_options := Z.lor (b_options b) options |>).
Definition burrow_remove_options (burrow : ptr) (options_to_remove : Z) : M unit :=
  modify burrow (λ b, b <| b_options := Z.land (b_options b) (Z.lnot options_to_remove) |>).
Definition burrow_get_options (burrow : ptr) : M Z := b ← load burrow; mret (b_options b).

Definition burrow_set_backend_option (burrow : ptr) (option value : cstr) : M Z :=
  match option with
  | None => mret EINVAL
  | Some option =>
      b ← load burrow;
      match be_set_option (functions_of b) with
      | None => mret EINVAL
      | Some set_option => set_option (b_backend_context b) option value
      end
  end.
Definition burrow_set_backend_option_int (burrow : ptr) (option : cstr) (value : Z) : M Z :=
  match option with
  | None => mret EINVAL
  | Some option =>
      b ← load burrow;
      match be_set_option_int (functions_of b) with
      | None => mret EINVAL
      | Some set_option_int => set_option_int (b_backend_context b) option value
      end
  end.

Definition burrow_set_message_fn (burrow : ptr) (callback : fnptr) : M unit :=
  modify burrow (λ b, b <| b_message_fn := callback |>).
Definition burrow_set_account_fn (burrow : ptr) (callback : fnptr) : M unit :=
  modify burrow (λ b, b <| b_account_fn := callback |>).
Definition burrow_set_queue_fn (burrow : ptr) (callback : fnptr) : M unit :=
  modify burrow (λ b, b <| b_queue_fn := callback |>).
Definition burrow_set_log_fn (burrow : ptr) (callback : fnptr) : M unit :=
  modify burrow (λ b, b <| b_log_fn := callback |>).
Definition burrow_set_complete_fn (burrow : ptr) (callback : fnptr) : M unit :=
  modify burrow (λ b, b <| b_complete_fn := callback |>).
Definition burrow_set_watch_fd_fn (burrow : ptr) (callback : fnptr) : M unit :=
  modify burrow (λ b, b <| b_watch_fd_fn := callback |>).
Definition burrow_set_malloc_fn (burrow : ptr) (func : fnptr) : M unit :=
  modify burrow (λ b, b <| b_malloc_fn := func |>).
Definition burrow_set_free_fn (burrow : ptr) (func : fnptr) : M unit :=
  modify burrow (λ b, b <| b_free_fn := func |>).
Definition burrow_set_verbosity (burrow : ptr) (verbosity : burrow_verbose_t) : M unit :=
  modify burrow (λ b, b <| b_verbose := verbosity |>).
End Lifecycle.
