(* ===== verification/Dummy.v ===== *)
(** backends/dummy/dummy.c: the backend that does nothing. *)
From S2P Require Import Prelude Types Heap Macros Burrow.

Definition uninit_dummy (j : Z) : burrow_backend_dummy_st :=
  DummyBackend j (Some (Z.to_pos j)).

Definition burrow_backend_dummy_create (p burrow : ptr) : M ptr :=
  dummy ← (if is_null p then
             dummy ← malloc Libc uninit_dummy;
             (if is_null dummy then mret tt
              else modify dummy (λ d, d <| du_selfallocated := 1%Z |>));;
             mret dummy
           else modify p (λ d, d <| du_selfallocated := 0%Z |>);; mret p);
  if is_null dummy then mret NULL else
  modify dummy (λ d, d <| du_burrow := burrow |>);;
  mret dummy.

Definition burrow_backend_dummy_destroy (p : ptr) : M unit :=
  dummy ← load p;
  if (du_selfallocated dummy =? 0)%Z
  then burrow_log_debug (du_burrow dummy) "dummy_destroy: deallocating self-allocated struct"
  else
    burrow_log_debug (du_burrow dummy) "dummy_destroy: deallocating self-allocated struct";;
    burrow_free (du_burrow dummy) p.

Definition burrow_backend_dummy_set_option (p : ptr) (key : string) (value : cstr) : M Z :=
  mret EINVAL.
Definition burrow_backend_dummy_set_option_int (p : ptr) (key : string) (value : Z) : M Z :=
  mret EINVAL.
Definition burrow_backend_dummy_cancel (p : ptr) : M unit := mret tt.
Definition burrow_backend_dummy_process (p : ptr) : M Z := mret 0%Z.
Definition burrow_backend_dummy_event_raised (p : ptr) (fd events : Z) : M Z := mret 0%Z.

Definition burrow_backend_dummy_get_accounts (p : ptr) (cmd : burrow_command_st) : M Z := mret 0%Z.
Definition burrow_backend_dummy_delete_accounts (p : ptr) (cmd : burrow_command_st) : M Z := mret 0%Z.
Definition burrow_backend_dummy_get_queues (p : ptr) (cmd : burrow_command_st) : M Z := mret 0%Z.
Definition burrow_backend_dummy_delete_queues (p : ptr) (cmd : burrow_command_st) : M Z := mret 0%Z.
Definition burrow_backend_dummy_get_messages (p : ptr) (cmd : burrow_command_st) : M Z := mret 0%Z.
Definition burrow_backend_dummy_delete_messages (p : ptr) (cmd : burrow_command_st) : M Z := mret 0%Z.
Definition burrow_backend_dummy_update_messages (p : ptr) (cmd : burrow_command_st) : M Z := mret 0%Z.
Definition burrow_backend_dummy_get_message (p : ptr) (cmd : burrow_command_st) : M Z := mret 0%Z.
Definition burrow_backend_dummy_delete_message (p : ptr) (cmd : burrow_command_st) : M Z := mret 0%Z.
Definition burrow_backend_dummy_update_message (p : ptr) (cmd : burrow_command_st) : M Z := mret 0%Z.
Definition burrow_backend_dummy_create_message (p : ptr) (cmd : burrow_command_st) : M Z := mret 0%Z.

Definition burrow_backend_dummy_functions : burrow_backend_functions_st := {|
  be_create := burrow_backend_dummy_create;
  be_destroy := burrow_backend_dummy_destroy;
  be_room := λ j, BDummy (uninit_dummy j);
  be_set_option := Some burrow_backend_dummy_set_option;
  be_set_option_int := Some burrow_backend_dummy_set_option_int;
  be_cancel := Some burrow_backend_dummy_cancel;
  be_process := Some burrow_backend_dummy_process;
  be_event_raised := Some burrow_backend_dummy_event_raised;
  be_command := λ c,
    match c with
    | BURROW_CMD_GET_ACCOUNTS => Some burrow_backend_dummy_get_accounts
    | BURROW_CMD_DELETE_ACCOUNTS => Some burrow_backend_dummy_delete_accounts
    | BURROW_CMD_GET_QUEUES => Some burrow_backend_dummy_get_queues
    | BURROW_CMD_DELETE_QUEUES => Some burrow_backend_dummy_delete_queues
    | BURROW_CMD_GET_MESSAGES => Some burrow_backend_dummy_get_messages
    | BURROW_CMD_UPDATE_MESSAGES => Some burrow_backend_dummy_update_messages
    | BURROW_CMD_DELETE_MESSAGES => Some burrow_backend_dummy_delete_messages
    | BURROW_CMD_GET_MESSAGE => Some burrow_backend_dummy_get_message
    | BURROW_CMD_UPDATE_MESSAGE => Some burrow_backend_dummy_update_message
    | BURROW_CMD_DELETE_MESSAGE => Some burrow_backend_dummy_delete_message
    | BURROW_CMD_CREATE_MESSAGE => Some burrow_backend_dummy_create_message
    | BURROW_CMD_NONE => None
    end |}.
