(* ===== verification/UserBuffer.v ===== *)
(** backends/http/user_buffer.c: the buffers that hand data to libcurl and take
    it from libcurl. *)
From S2P Require Import Prelude Types Heap.

Definition uninit_byte (j : Z) : Ascii.ascii := Ascii.ascii_of_N (Z.to_N (j `mod` 256)%Z).
Definition uninit_bytes (n : Z) (j : Z) : bytes := replicate (Z.to_nat n) (uninit_byte j).
Definition uninit_user_buffer (j : Z) : user_buffer_st :=
  UserBuffer j j (Some (Z.to_pos j)) (Z.odd j).

(** The block after [realloc] to [n] bytes. *)
Definition resize_bytes (n : Z) (old : option bytes) (j : Z) : bytes :=
  let old := default [] old in
  take (Z.to_nat n) old ++ replicate (Z.to_nat n - length old) (uninit_byte j).

(** [memcpy(p + off, src, n)] and [memcpy(.., p + off, n)]: within the block. *)
Definition write_bytes (p : ptr) (off : Z) (src : bytes) (n : Z) : M unit :=
  bs ← load p;
  if ((off + n <=? Z.of_nat (length bs)) && (n <=? Z.of_nat (length src)))%Z
  then store p (take (Z.to_nat off) bs ++ take (Z.to_nat n) src ++ drop (Z.to_nat (off + n)) bs)
  else undefined OutOfBounds.
Definition read_bytes (p : ptr) (off n : Z) : M bytes :=
  bs ← load p;
  if (off + n <=? Z.of_nat (length bs))%Z
  then mret (take (Z.to_nat n) (drop (Z.to_nat off) bs)) else undefined OutOfBounds.

(** [strlen] of the data before its first NUL. *)
Fixpoint strlen (bs : bytes) : Z :=
  match bs with
  | [] => 0
  | c :: bs => if Ascii.eqb c Ascii.zero then 0 else 1 + strlen bs
  end.

Definition user_buffer_create_sized (buffer : ptr) (data : option bytes) (data_size : Z) : M ptr :=
  buffer ← (if is_null buffer then
              buffer ← malloc Libc uninit_user_buffer;
              (if is_null buffer then mret tt
               else modify buffer (λ u, u <| ub_malloced := true |>));;
              mret buffer
            else modify buffer (λ u, u <| ub_malloced := false |>);; mret buffer);
  if is_null buffer then mret NULL else
  modify buffer (λ u, u <| ub_where := 0%Z |>);;
  match data with
  | None =>
      modify buffer (λ u, u <| ub_buf := NULL |>);;
      modify buffer (λ u, u <| ub_size := 0%Z |>);;
      mret buffer
  | Some data =>
      buf ← malloc Libc (uninit_bytes data_size);
      modify buffer (λ u, u <| ub_buf := buf |>);;
      if is_null buf then release Libc buffer;; mret NULL else
      write_bytes buf 0 data data_size;;
      modify buffer (λ u, u <| ub_size := data_size |>);;
      mret buffer
  end.

Definition user_buffer_create (buffer : ptr) (data : option bytes) : M ptr :=
  user_buffer_create_sized buffer data (match data with Some data => strlen data | None => 0 end).

Definition user_buffer_destroy (buffer : ptr) : M unit :=
  u ← load buffer;
  (if is_null (ub_buf u) then mret tt else release Libc (ub_buf u));;
  u ← load buffer;
  if ub_malloced u then release Libc buffer else mret tt.

Definition user_buffer_get_text (buffer : ptr) : M ptr := u ← load buffer; mret (ub_buf u).
Definition user_buffer_get_size (buffer : ptr) : M Z := u ← load buffer; mret (ub_size u).

(** Makes room for [len] more bytes: whether there is. *)
Definition user_buffer_grow (userd : ptr) (len : Z) : M bool :=
  u ← load userd;
  if negb (ub_size u =? 0)%Z then
    if is_null (ub_buf u) then mret true else
    temp ← realloc (ub_buf u) (resize_bytes (u64 (ub_size u + len)));
    if is_null temp then mret false else
    modify userd (λ u, u <| ub_buf := temp |>);;
    modify userd (λ u, u <| ub_size := u64 (ub_size u + len) |>);;
    mret true
  else
    modify userd (λ u, u <| ub_size := len |>);;
    buf ← malloc Libc (uninit_bytes len);
    modify userd (λ u, u <| ub_buf := buf |>);;
    if is_null buf then mret false else
    modify userd (λ u, u <| ub_where := 0%Z |>);;
    mret true.

(** libcurl's write callback: [data] is what libcurl has received. *)
Definition user_buffer_curl_write_function (data : bytes) (size nmemb : Z) (userd : ptr) : M Z :=
  let len := u64 (size * nmemb) in
  ok ← user_buffer_grow userd len;
  if negb ok then mret 0%Z else
  u ← load userd;
  write_bytes (ub_buf u) (ub_where u) data len;;
  modify userd (λ u, u <| ub_where := u64 (ub_where u + len) |>);;
  mret len.

(** libcurl's read callback: [data] points to libcurl's memory. *)
Definition user_buffer_curl_read_function (data : ptr) (size nmemb : Z) (userd : ptr) : M Z :=
  u ← load userd;
  let len := u64 (size * nmemb) in
  let how_much_left := u64 (ub_size u - ub_where u) in
  if (how_much_left =? 0)%Z then mret 0%Z else
  let n := if (how_much_left <=? len)%Z then how_much_left else len in
  bs ← read_bytes (ub_buf u) (ub_where u) n;
  write_bytes data 0 bs n;;
  modify userd (λ u, u <| ub_where := u64 (ub_where u + n) |>);;
  mret n.

Definition user_buffer_curl_read_nothing_function (data : ptr) (size nmemb : Z) (userd : ptr) : M Z :=
  mret 0%Z.
