(* ===== verification/JsonParser.v ===== *)
(** JSON_parser.c: the pushdown automaton that reads JSON a character at a time
    and tells a callback what it has found. *)
From S2P Require Import Prelude JsonData Types Heap.

(** ** Tables *)

Definition ascii_class : list (option classes) :=
  [None; None; None; None; None; None; None; None;
   None; Some C_WHITE; Some C_WHITE; None; None; Some C_WHITE; None; None;
   None; None; None; None; None; None; None; None;
   None; None; None; None; None; None; None; None;
   Some C_SPACE; Some C_ETC; Some C_QUOTE; Some C_ETC; Some C_ETC; Some C_ETC; Some C_ETC; Some C_ETC;
   Some C_ETC; Some C_ETC; Some C_STAR; Some C_PLUS; Some C_COMMA; Some C_MINUS; Some C_POINT; Some C_SLASH;
   Some C_ZERO; Some C_DIGIT; Some C_DIGIT; Some C_DIGIT; Some C_DIGIT; Some C_DIGIT; Some C_DIGIT; Some C_DIGIT;
   Some C_DIGIT; Some C_DIGIT; Some C_COLON; Some C_ETC; Some C_ETC; Some C_ETC; Some C_ETC; Some C_ETC;
   Some C_ETC; Some C_ABCDF; Some C_ABCDF; Some C_ABCDF; Some C_ABCDF; Some C_E; Some C_ABCDF; Some C_ETC;
   Some C_ETC; Some C_ETC; Some C_ETC; Some C_ETC; Some C_ETC; Some C_ETC; Some C_ETC; Some C_ETC;
   Some C_ETC; Some C_ETC; Some C_ETC; Some C_ETC; Some C_ETC; Some C_ETC; Some C_ETC; Some C_ETC;
   Some C_ETC; Some C_ETC; Some C_ETC; Some C_LSQRB; Some C_BACKS; Some C_RSQRB; Some C_ETC; Some C_ETC;
   Some C_ETC; Some C_LOW_A; Some C_LOW_B; Some C_LOW_C; Some C_LOW_D; Some C_LOW_E; Some C_LOW_F; Some C_ETC;
   Some C_ETC; Some C_ETC; Some C_ETC; Some C_ETC; Some C_LOW_L; Some C_ETC; Some C_LOW_N; Some C_ETC;
   Some C_ETC; Some C_ETC; Some C_LOW_R; Some C_LOW_S; Some C_LOW_T; Some C_LOW_U; Some C_ETC; Some C_ETC;
   Some C_ETC; Some C_ETC; Some C_ETC; Some C_LCURB; Some C_ETC; Some C_RCURB; Some C_ETC; Some C_ETC].

Inductive entry := Goto (s : states) | Act (a : actions).
Coercion Goto : states >-> entry.
Coercion Act : actions >-> entry.
Local Notation "⟨ x ; .. ; y ⟩" := (@cons entry x .. (@cons entry y nil) ..).

(** The row of a state: its entry for each class, in the order of [classes]. *)
Definition transition_row (s : states) : list entry :=
  match s with
  | GO => ⟨GO;GO;m6;__;m5;__;__;__;__;__;CB;__;__;__;__;__;__;__;__;__;__;__;__;__;__;__;__;__;__;__;__;__⟩
  | OK => ⟨OK;OK;__;m8;__;m7;__;m3;__;__;CB;__;__;__;__;__;__;__;__;__;__;__;__;__;__;__;__;__;__;__;__;__⟩
  | OB => ⟨OB;OB;__;m9;__;__;__;__;SB;__;CB;__;__;__;__;__;__;__;__;__;__;__;__;__;__;__;__;__;__;__;__;__⟩
  | KE => ⟨KE;KE;__;__;__;__;__;__;SB;__;CB;__;__;__;__;__;__;__;__;__;__;__;__;__;__;__;__;__;__;__;__;__⟩
  | CO => ⟨CO;CO;__;__;__;__;m2;__;__;__;CB;__;__;__;__;__;__;__;__;__;__;__;__;__;__;__;__;__;__;__;__;__⟩
  | VA => ⟨VA;VA;m6;__;m5;__;__;__;SB;__;CB;__;MX;__;ZX;IX;__;__;__;__;__;FA;__;NU;__;__;TR;__;__;__;__;__⟩
  | AR => ⟨AR;AR;m6;__;m5;m7;__;__;SB;__;CB;__;MX;__;ZX;IX;__;__;__;__;__;FA;__;NU;__;__;TR;__;__;__;__;__⟩
  | ST => ⟨ST;__;ST;ST;ST;ST;ST;ST;m4;EX;ST;ST;ST;ST;ST;ST;ST;ST;ST;ST;ST;ST;ST;ST;ST;ST;ST;ST;ST;ST;ST;ST⟩
  | ES => ⟨__;__;__;__;__;__;__;__;ST;ST;ST;__;__;__;__;__;__;ST;__;__;__;ST;__;ST;ST;__;ST;U1;__;__;__;__⟩
  | U1 => ⟨__;__;__;__;__;__;__;__;__;__;__;__;__;__;U2;U2;U2;U2;U2;U2;U2;U2;__;__;__;__;__;__;U2;U2;__;__⟩
  | U2 => ⟨__;__;__;__;__;__;__;__;__;__;__;__;__;__;U3;U3;U3;U3;U3;U3;U3;U3;__;__;__;__;__;__;U3;U3;__;__⟩
  | U3 => ⟨__;__;__;__;__;__;__;__;__;__;__;__;__;__;U4;U4;U4;U4;U4;U4;U4;U4;__;__;__;__;__;__;U4;U4;__;__⟩
  | U4 => ⟨__;__;__;__;__;__;__;__;__;__;__;__;__;__;UC;UC;UC;UC;UC;UC;UC;UC;__;__;__;__;__;__;UC;UC;__;__⟩
  | MI => ⟨__;__;__;__;__;__;__;__;__;__;__;__;__;__;ZE;IT;__;__;__;__;__;__;__;__;__;__;__;__;__;__;__;__⟩
  | ZE => ⟨OK;OK;__;m8;__;m7;__;m3;__;__;CB;__;__;DF;__;__;__;__;__;__;__;__;__;__;__;__;__;__;__;__;__;__⟩
  | IT => ⟨OK;OK;__;m8;__;m7;__;m3;__;__;CB;__;__;DF;IT;IT;__;__;__;__;DE;__;__;__;__;__;__;__;__;DE;__;__⟩
  | FR => ⟨OK;OK;__;m8;__;m7;__;m3;__;__;CB;__;__;__;FR;FR;__;__;__;__;E1;__;__;__;__;__;__;__;__;E1;__;__⟩
  | E1 => ⟨__;__;__;__;__;__;__;__;__;__;__;E2;E2;__;E3;E3;__;__;__;__;__;__;__;__;__;__;__;__;__;__;__;__⟩
  | E2 => ⟨__;__;__;__;__;__;__;__;__;__;__;__;__;__;E3;E3;__;__;__;__;__;__;__;__;__;__;__;__;__;__;__;__⟩
  | E3 => ⟨OK;OK;__;m8;__;m7;__;m3;__;__;__;__;__;__;E3;E3;__;__;__;__;__;__;__;__;__;__;__;__;__;__;__;__⟩
  | T1 => ⟨__;__;__;__;__;__;__;__;__;__;__;__;__;__;__;__;__;__;__;__;__;__;__;__;T2;__;__;__;__;__;__;__⟩
  | T2 => ⟨__;__;__;__;__;__;__;__;__;__;__;__;__;__;__;__;__;__;__;__;__;__;__;__;__;__;__;T3;__;__;__;__⟩
  | T3 => ⟨__;__;__;__;__;__;__;__;__;__;CB;__;__;__;__;__;__;__;__;__;OK;__;__;__;__;__;__;__;__;__;__;__⟩
  | F1 => ⟨__;__;__;__;__;__;__;__;__;__;__;__;__;__;__;__;F2;__;__;__;__;__;__;__;__;__;__;__;__;__;__;__⟩
  | F2 => ⟨__;__;__;__;__;__;__;__;__;__;__;__;__;__;__;__;__;__;__;__;__;__;F3;__;__;__;__;__;__;__;__;__⟩
  | F3 => ⟨__;__;__;__;__;__;__;__;__;__;__;__;__;__;__;__;__;__;__;__;__;__;__;__;__;F4;__;__;__;__;__;__⟩
  | F4 => ⟨__;__;__;__;__;__;__;__;__;__;CB;__;__;__;__;__;__;__;__;__;OK;__;__;__;__;__;__;__;__;__;__;__⟩
  | N1 => ⟨__;__;__;__;__;__;__;__;__;__;__;__;__;__;__;__;__;__;__;__;__;__;__;__;__;__;__;N2;__;__;__;__⟩
  | N2 => ⟨__;__;__;__;__;__;__;__;__;__;__;__;__;__;__;__;__;__;__;__;__;__;N3;__;__;__;__;__;__;__;__;__⟩
  | N3 => ⟨__;__;__;__;__;__;__;__;__;__;CB;__;__;__;__;__;__;__;__;__;__;__;OK;__;__;__;__;__;__;__;__;__⟩
  | C1 => ⟨__;__;__;__;__;__;__;__;__;__;__;__;__;__;__;__;__;__;__;__;__;__;__;__;__;__;__;__;__;__;__;C2⟩
  | C2 => ⟨C2;C2;C2;C2;C2;C2;C2;C2;C2;C2;C2;C2;C2;C2;C2;C2;C2;C2;C2;C2;C2;C2;C2;C2;C2;C2;C2;C2;C2;C2;C2;C3⟩
  | C3 => ⟨C2;C2;C2;C2;C2;C2;C2;C2;C2;C2;CE;C2;C2;C2;C2;C2;C2;C2;C2;C2;C2;C2;C2;C2;C2;C2;C2;C2;C2;C2;C2;C3⟩
  | FX => ⟨OK;OK;__;m8;__;m7;__;m3;__;__;__;__;__;__;FR;FR;__;__;__;__;E1;__;__;__;__;__;__;__;__;E1;__;__⟩
  | D1 => ⟨__;__;__;__;__;__;__;__;__;D2;__;__;__;__;__;__;__;__;__;__;__;__;__;__;__;__;__;__;__;__;__;__⟩
  | D2 => ⟨__;__;__;__;__;__;__;__;__;__;__;__;__;__;__;__;__;__;__;__;__;__;__;__;__;__;__;U1;__;__;__;__⟩
  end.

Definition class_index (k : classes) : nat :=
  match k with
  | C_SPACE => 0 | C_WHITE => 1 | C_LCURB => 2 | C_RCURB => 3 | C_LSQRB => 4
  | C_RSQRB => 5 | C_COLON => 6 | C_COMMA => 7 | C_QUOTE => 8 | C_BACKS => 9
  | C_SLASH => 10 | C_PLUS => 11 | C_MINUS => 12 | C_POINT => 13 | C_ZERO => 14
  | C_DIGIT => 15 | C_LOW_A => 16 | C_LOW_B => 17 | C_LOW_C => 18 | C_LOW_D => 19
  | C_LOW_E => 20 | C_LOW_F => 21 | C_LOW_L => 22 | C_LOW_N => 23 | C_LOW_R => 24
  | C_LOW_S => 25 | C_LOW_T => 26 | C_LOW_U => 27 | C_ABCDF => 28 | C_E => 29
  | C_ETC => 30 | C_STAR => 31
  end.

Definition state_transition_table (s : states) (k : classes) : entry :=
  nth (class_index k) (transition_row s) (Act __).

(** The class of a character that is not negative; [None] is [__]. *)
Definition class_of (next_char : Z) : option classes :=
  if (128 <=? next_char)%Z then Some C_ETC
  else nth (Z.to_nat next_char) ascii_class None.

(** ** Characters *)

(** A [char] is signed; [(char) z] keeps its low eight bits. *)
Definition signed_char (c : Ascii.ascii) : Z :=
  let n := Z.of_N (Ascii.N_of_ascii c) in if (n <? 128)%Z then n else (n - 256)%Z.
Definition to_char (z : Z) : Ascii.ascii := Ascii.ascii_of_N (Z.to_N (z `mod` 256)%Z).

Definition isspace (c : Ascii.ascii) : bool :=
  let n := signed_char c in ((n =? 32) || ((9 <=? n) && (n <=? 13)))%Z.
Definition digit_of (c : Ascii.ascii) : option Z :=
  let n := signed_char c in if ((48 <=? n) && (n <=? 57))%Z then Some (n - 48)%Z else None.

Fixpoint skip_spaces (bs : bytes) : bytes :=
  match bs with c :: bs' => if isspace c then skip_spaces bs' else bs | [] => [] end.
Fixpoint scan_digits (acc : Z) (bs : bytes) : Z :=
  match bs with
  | c :: bs => match digit_of c with Some d => scan_digits (acc * 10 + d) bs | None => acc end
  | [] => acc
  end.

(** [sscanf(.., "%lld", ..)]: [None] when there is no number to convert; a number
    out of range is moved to the end of the range. *)
Definition scan_integer (bs : bytes) : option Z :=
  let bs := skip_spaces bs in
  let '(negative, bs) := match bs with
    | c :: bs' => if (signed_char c =? 45)%Z then (true, bs')
                  else if (signed_char c =? 43)%Z then (false, bs') else (false, bs)
    | [] => (false, [])
    end in
  match bs with
  | c :: _ =>
      match digit_of c with
      | Some _ =>
          let n := scan_digits 0 bs in
          Some (Z.max (-9223372036854775808) (Z.min 9223372036854775807 (if negative then - n else n)))%Z
      | None => None
      end
  | [] => None
  end.

(** ** Memory of the parser *)

(** [assert(b)] *)
Definition check (b : bool) : M unit := if b then mret tt else undefined AssertFailed.

(** [if (!m) return false; k] *)
Notation "m ;? k" := (ok ← m; if (ok : bool) then k else mret false)
  (at level 100, k at level 200, right associativity).

Definition owner_of (f : allocator) : owner :=
  match f with libc_functions => Libc | user_functions => User end.
Definition js_alloc {T} `{Storable T} (f : allocator) (uninit : Z → T) : M ptr :=
  malloc (owner_of f) uninit.
Definition js_release (f : allocator) (p : ptr) : M unit := release (owner_of f) p.

Definition uninit_mode (j : Z) : option modes :=
  if Z.odd j then Some MODE_KEY else None.
Definition uninit_modes (n : Z) (j : Z) : list (option modes) :=
  replicate (Z.to_nat n) (uninit_mode j).
Definition uninit_buffer (n : Z) (j : Z) : bytes := replicate (Z.to_nat n) (to_char j).

Definition in_bounds (i : Z) (n : nat) : bool := ((0 <=? i) && (i <? Z.of_nat n))%Z.

(** The contents of [jc->stack] and [jc->parse_buffer]. *)
Definition stack_slots (jc : ptr) : M (list (option modes)) :=
  p ← load jc;
  match js_stack p with
  | ANull => undefined NullDeref
  | AStatic => mret (js_static_stack p)
  | ADynamic l => load (Some l)
  end.
Definition buffer_bytes (jc : ptr) : M bytes :=
  p ← load jc;
  match js_parse_buffer p with
  | ANull => undefined NullDeref
  | AStatic => mret (js_static_parse_buffer p)
  | ADynamic l => load (Some l)
  end.

(** [jc->stack[i]], and [jc->stack[i] = m]. *)
Definition stack_get (jc : ptr) (i : Z) : M (option modes) :=
  s ← stack_slots jc;
  if in_bounds i (length s) then mret (nth (Z.to_nat i) s None) else undefined OutOfBounds.
Definition stack_set (jc : ptr) (i : Z) (m : modes) : M unit :=
  s ← stack_slots jc;
  if in_bounds i (length s) then
    p ← load jc;
    match js_stack p with
    | ADynamic l => store (Some l) (<[Z.to_nat i := Some m]> s)
    | _ => modify jc (λ p, p <| js_static_stack := <[Z.to_nat i := Some m]> s |>)
    end
  else undefined OutOfBounds.

(** [jc->parse_buffer[i]], and [jc->parse_buffer[i] = c]. *)
Definition buffer_get (jc : ptr) (i : Z) : M Ascii.ascii :=
  s ← buffer_bytes jc;
  if in_bounds i (length s) then mret (nth (Z.to_nat i) s Ascii.zero) else undefined OutOfBounds.
Definition buffer_set (jc : ptr) (i : Z) (c : Ascii.ascii) : M unit :=
  s ← buffer_bytes jc;
  if in_bounds i (length s) then
    p ← load jc;
    match js_parse_buffer p with
    | ADynamic l => store (Some l) (<[Z.to_nat i := c]> s)
    | _ => modify jc (λ p, p <| js_static_parse_buffer := <[Z.to_nat i := c]> s |>)
    end
  else undefined OutOfBounds.

(** ** Errors and the stack *)

(** What [set_error] finds to blame. *)
Definition error_of (state : states) (current_char : Z) : JSON_error :=
  match state with
  | GO => if ((current_char =? 123) || (current_char =? 125) || (current_char =? 91)
              || (current_char =? 93))%Z
          then JSON_E_UNBALANCED_COLLECTION else JSON_E_INVALID_CHAR
  | OB => JSON_E_EXPECTED_KEY
  | AR => JSON_E_UNBALANCED_COLLECTION
  | CO => JSON_E_EXPECTED_COLON
  | KE => JSON_E_EXPECTED_KEY
  | U1 | U2 | U3 | U4 | D1 | D2 => JSON_E_INVALID_UNICODE_SEQUENCE
  | T1 | T2 | T3 | F1 | F2 | F3 | F4 | N1 | N2 | N3 => JSON_E_INVALID_KEYWORD
  | MI | ZE | IT | FR | E1 | E2 | E3 => JSON_E_INVALID_NUMBER
  | _ => JSON_E_INVALID_CHAR
  end.
Definition set_error (jc : ptr) : M unit :=
  modify jc (λ p, p <| js_error := error_of (js_state p) (js_current_char p) |>).

Definition fail_with (jc : ptr) (e : JSON_error) : M bool :=
  modify jc (λ p, p <| js_error := e |>);; mret false.

(** An [int] of 32 bits. *)
Definition i32 (z : Z) : Z :=
  ((z + 2147483648) `mod` 4294967296 - 2147483648)%Z.

(** Doubles the stack when it is full. *)
Definition stack_grow (jc : ptr) : M bool :=
  p ← load jc;
  if negb (js_top p =? js_stack_capacity p)%Z then mret true else
  let new_capacity := u64 (js_stack_capacity p * 2) in
  mem ← js_alloc (js_malloc p) (uninit_modes new_capacity);
  if is_null mem then fail_with jc JSON_E_OUT_OF_MEMORY else
  modify jc (λ p, p <| js_stack_capacity := i32 new_capacity |>);;
  old ← stack_slots jc;
  s ← load (T := list (option modes)) mem;
  let n := Z.to_nat (js_stack_capacity p) in
  if (length s <? n) || (length old <? n) then undefined OutOfBounds else
  store mem (take n old ++ drop n s);;
  (match js_stack p with ADynamic l => js_release (js_free p) (Some l) | _ => mret tt end);;
  modify jc (λ p, p <| js_stack := match mem with Some l => ADynamic l | None => ANull end |>);;
  mret true.

Definition push (jc : ptr) (mode : modes) : M bool :=
  p ← load jc;
  check (js_top p <=? js_stack_capacity p)%Z;;
  (if (js_depth p <? 0)%Z then stack_grow jc
   else if (js_top p =? js_depth p)%Z then fail_with jc JSON_E_NESTING_DEPTH_REACHED
   else mret true) ;?
  modify jc (λ p, p <| js_top := (js_top p + 1)%Z |>);;
  p ← load jc;
  stack_set jc (js_top p) mode;;
  mret true.

Definition pop (jc : ptr) (mode : modes) : M bool :=
  p ← load jc;
  if (js_top p <? 0)%Z then mret false else
  m ← stack_get jc (js_top p);
  if decide (m ≠ Some mode) then mret false else
  modify jc (λ p, p <| js_top := (js_top p - 1)%Z |>);;
  mret true.

(** ** The parse buffer *)

Definition parse_buffer_clear (jc : ptr) : M unit :=
  modify jc (λ p, p <| js_parse_buffer_count := 0%Z |>);;
  buffer_set jc 0 Ascii.zero.

Definition parse_buffer_pop_back_char (jc : ptr) : M unit :=
  p ← load jc;
  check (1 <=? js_parse_buffer_count p)%Z;;
  modify jc (λ p, p <| js_parse_buffer_count := (js_parse_buffer_count p - 1)%Z |>);;
  p ← load jc;
  buffer_set jc (js_parse_buffer_count p) Ascii.zero.

Definition parse_buffer_has_space_for (p : JSON_parser_struct) (count : Z) : bool :=
  (u64 (js_parse_buffer_count p + count + 1) <=? js_parse_buffer_capacity p)%Z.

(** [jc->parse_buffer[jc->parse_buffer_count++] = c] *)
Definition buffer_append (jc : ptr) (c : Ascii.ascii) : M unit :=
  p ← load jc;
  modify jc (λ p, p <| js_parse_buffer_count := u64 (js_parse_buffer_count p + 1) |>);;
  buffer_set jc (js_parse_buffer_count p) c.
Definition buffer_terminate (jc : ptr) : M unit :=
  p ← load jc;
  buffer_set jc (js_parse_buffer_count p) Ascii.zero.

Definition parse_buffer_push_back_char (jc : ptr) (c : Ascii.ascii) : M unit :=
  p ← load jc;
  check (parse_buffer_has_space_for p 1);;
  buffer_append jc c;;
  buffer_terminate jc.

(** Moves the buffer to a block of twice its size. *)
Definition parse_buffer_grow (jc : ptr) : M bool :=
  p ← load jc;
  let new_capacity := u64 (js_parse_buffer_capacity p * 2) in
  mem ← js_alloc (js_malloc p) (uninit_buffer new_capacity);
  if is_null mem then fail_with jc JSON_E_OUT_OF_MEMORY else
  check (0 <? new_capacity)%Z;;
  old ← buffer_bytes jc;
  s ← load (T := bytes) mem;
  let n := Z.to_nat (js_parse_buffer_count p) in
  if (length s <? n) || (length old <? n) then undefined OutOfBounds else
  store mem (take n old ++ drop n s);;
  (match js_parse_buffer p with ADynamic l => js_release (js_free p) (Some l) | _ => mret tt end);;
  modify jc (λ p, p <| js_parse_buffer := match mem with Some l => ADynamic l | None => ANull end |>);;
  modify jc (λ p, p <| js_parse_buffer_capacity := new_capacity |>);;
  mret true.

(** The [while] ends within 65 rounds: doubled 64 times, a [size_t] is 0. *)
Definition parse_buffer_reserve_for (jc : ptr) (chars : Z) : M bool :=
  loop 65 (λ _,
    p ← load jc;
    if (js_parse_buffer_capacity p <? u64 (js_parse_buffer_count p + chars + 1))%Z then
      grown ← parse_buffer_grow jc;
      if (grown : bool) then mret (inl tt) else
      p ← load jc;
      check (match js_error p with JSON_E_OUT_OF_MEMORY => true | _ => false end);;
      mret (inr false)
    else mret (inr true)) tt.

Section Callback.
(** [jc->callback(jc->ctx, type, value)]: whether parsing should go on. *)
Context (callback : ptr → JSON_type → JSON_value → M bool).

(** [jc->callback && !callback(..)] is false. *)
Definition tell (jc : ptr) (type : JSON_type) (value : JSON_value) : M bool :=
  p ← load jc;
  match js_callback p with
  | Some _ => callback (js_ctx p) type value
  | None => mret true
  end.

(** The string value in the buffer. *)
Definition buffer_value (jc : ptr) : M JSON_value :=
  p ← load jc;
  bs ← buffer_bytes jc;
  mret (VString (take (S (Z.to_nat (js_parse_buffer_count p))) bs) (js_parse_buffer_count p)).

(** The bytes of the buffer before its terminator. *)
Fixpoint c_text (bs : bytes) : bytes :=
  match bs with c :: bs => if Ascii.eqb c Ascii.zero then [] else c :: c_text bs | [] => [] end.

(** The argument for the value whose type has been recognised. *)
Definition buffered_value (jc : ptr) : M JSON_value :=
  p ← load jc;
  match js_type p with
  | JSON_T_FLOAT =>
      if js_handle_floats_manually p then buffer_value jc
      else bs ← buffer_bytes jc; mret (VFloat (c_text bs))
  | JSON_T_INTEGER =>
      bs ← buffer_bytes jc;
      match scan_integer (c_text bs) with
      | Some n => mret (VInteger n)
      | None => junk ← consult e_junk; mret (VInteger junk)
      end
  | JSON_T_STRING => buffer_value jc
  | _ => undefined AssertFailed
  end.

Definition is_non_container_type (t : JSON_type) : bool :=
  match t with
  | JSON_T_NULL | JSON_T_FALSE | JSON_T_TRUE | JSON_T_FLOAT | JSON_T_INTEGER | JSON_T_STRING => true
  | _ => false
  end.

Definition parse_parse_buffer (jc : ptr) : M bool :=
  p ← load jc;
  (match js_callback p with
   | Some _ =>
       if decide (js_type p = JSON_T_NONE) then mret true else
       check (is_non_container_type (js_type p));;
       value ← buffered_value jc;
       callback (js_ctx p) (js_type p) value
   | None => mret true
   end) ;?
  parse_buffer_clear jc;;
  mret true.

(** ** Characters of a string *)

Definition IS_HIGH_SURROGATE (uc : Z) : bool := (Z.land uc 64512 =? 55296)%Z.
Definition IS_LOW_SURROGATE (uc : Z) : bool := (Z.land uc 64512 =? 56320)%Z.
Definition DECODE_SURROGATE_PAIR (hi lo : Z) : Z :=
  u32 (Z.shiftl (Z.land hi 1023) 10 + Z.land lo 1023 + 65536).
Definition utf8_lead_bits (trail_bytes : nat) : Z :=
  nth trail_bytes [0; 192; 224; 240]%Z 0%Z.

(** The value of a hexadecimal digit, as the loop of [decode_unicode_char]
    computes it. *)
Definition hex_value (c : Ascii.ascii) : Z :=
  let x := u32 (signed_char c) in
  if (97 <=? x)%Z then (x - 87)%Z
  else if (65 <=? x)%Z then (x - 55)%Z
  else Z.land x (u32 (Z.lnot 48)).

(** The four digits from [i] on, most significant first. *)
Fixpoint read_hex (n : nat) (jc : ptr) (i uc : Z) : M Z :=
  match n with
  | O => mret uc
  | S n =>
      c ← buffer_get jc i;
      let x := hex_value c in
      check (x <? 16)%Z;;
      read_hex n jc (i + 1)%Z (Z.lor uc (u32 (Z.shiftl x (4 * Z.of_nat n))))
  end.

(** Appends the bytes that follow the lead byte. *)
Fixpoint append_trail (n : nat) (jc : ptr) (uc : Z) : M unit :=
  match n with
  | O => mret tt
  | S n =>
      buffer_append jc (to_char (Z.lor (Z.land (Z.shiftr uc (6 * Z.of_nat n)) 63) 128));;
      append_trail n jc uc
  end.

Definition append_utf8 (jc : ptr) (uc : Z) (trail_bytes : nat) : M bool :=
  buffer_append jc (to_char (Z.lor (Z.shiftr uc (Z.of_nat trail_bytes * 6)) (utf8_lead_bits trail_bytes)));;
  append_trail trail_bytes jc uc;;
  buffer_terminate jc;;
  mret true.

Definition decode_unicode_char (jc : ptr) : M bool :=
  p ← load jc;
  check (6 <=? js_parse_buffer_count p)%Z;;
  uc ← read_hex 4 jc (js_parse_buffer_count p - 4) 0;
  modify jc (λ p, p <| js_parse_buffer_count := (js_parse_buffer_count p - 6)%Z |>);;
  buffer_terminate jc;;
  p ← load jc;
  if negb (js_utf16_high_surrogate p =? 0)%Z then
    if IS_LOW_SURROGATE uc then
      let uc := DECODE_SURROGATE_PAIR (js_utf16_high_surrogate p) uc in
      modify jc (λ p, p <| js_utf16_high_surrogate := 0%Z |>);;
      append_utf8 jc uc 3
    else mret false
  else if (uc <? 128)%Z then append_utf8 jc uc 0
  else if (uc <? 2048)%Z then append_utf8 jc uc 1
  else if IS_HIGH_SURROGATE uc then
    modify jc (λ p, p <| js_utf16_high_surrogate := uc |>);;
    mret true
  else if IS_LOW_SURROGATE uc then mret false
  else append_utf8 jc uc 2.

(** What the character after a backslash stands for. *)
Definition unescape_char (next_char : Z) : option bytes :=
  if (next_char =? 98)%Z then Some [to_char 8]
  else if (next_char =? 102)%Z then Some [to_char 12]
  else if (next_char =? 110)%Z then Some [to_char 10]
  else if (next_char =? 114)%Z then Some [to_char 13]
  else if (next_char =? 116)%Z then Some [to_char 9]
  else if (next_char =? 34)%Z then Some [to_char 34]
  else if (next_char =? 92)%Z then Some [to_char 92]
  else if (next_char =? 47)%Z then Some [to_char 47]
  else if (next_char =? 117)%Z then Some [to_char 92; to_char 117]
  else None.

Fixpoint push_back_chars (jc : ptr) (cs : bytes) : M unit :=
  match cs with
  | [] => mret tt
  | c :: cs => parse_buffer_push_back_char jc c;; push_back_chars jc cs
  end.

Definition add_escaped_char_to_parse_buffer (jc : ptr) (next_char : Z) : M bool :=
  p ← load jc;
  check (parse_buffer_has_space_for p 1);;
  modify jc (λ p, p <| js_escaped := false |>);;
  parse_buffer_pop_back_char jc;;
  match unescape_char next_char with
  | Some cs => push_back_chars jc cs;; mret true
  | None => mret false
  end.

Definition is_space_class (k : classes) : bool :=
  match k with C_SPACE | C_WHITE => true | _ => false end.

Definition add_char_to_parse_buffer (jc : ptr) (next_char : Z) (next_class : classes) : M bool :=
  ok ← parse_buffer_reserve_for jc 1;
  if negb ok then
    p ← load jc;
    check (match js_error p with JSON_E_OUT_OF_MEMORY => true | _ => false end);;
    mret false
  else
  p ← load jc;
  if js_escaped p then
    ok ← add_escaped_char_to_parse_buffer jc next_char;
    if negb ok then fail_with jc JSON_E_INVALID_ESCAPE_SEQUENCE else mret true
  else
    (if negb (js_comment p) && (bool_decide (js_type p ≠ JSON_T_NONE) || negb (is_space_class next_class))
     then parse_buffer_push_back_char jc (to_char next_char) else mret tt);;
    mret true.

(** ** The automaton *)

Definition set_state (jc : ptr) (s : states) : M unit := modify jc (λ p, p <| js_state := s |>).
Definition set_type (jc : ptr) (t : JSON_type) : M unit := modify jc (λ p, p <| js_type := t |>).

Definition check_type (jc : ptr) (f : JSON_type → bool) : M unit :=
  p ← load jc; check (f (js_type p)).
Definition is_type (t t' : JSON_type) : bool := bool_decide (t' = t).
Definition is_no_string_null_or_bool (t : JSON_type) : bool :=
  match t with JSON_T_FALSE | JSON_T_TRUE | JSON_T_NULL | JSON_T_STRING => false | _ => true end.

Definition check_empty (jc : ptr) : M unit :=
  p ← load jc; check (js_parse_buffer_count p =? 0)%Z.

(** [jc->stack[jc->top]] *)
Definition stack_top (jc : ptr) : M (option modes) := p ← load jc; stack_get jc (js_top p).

(** The start of a number or of a keyword. *)
Definition begin_value (jc : ptr) (t : JSON_type) (s : states) : M bool :=
  set_type jc t;; set_state jc s;; mret true.
Definition begin_keyword (jc : ptr) (t : JSON_type) (s : states) : M bool :=
  check_type jc (is_type JSON_T_NONE);; begin_value jc t s.

(** A collection ends: [}] and []]. *)
Definition end_collection (jc : ptr) (t : JSON_type) (m : modes) : M bool :=
  parse_buffer_pop_back_char jc;;
  parse_parse_buffer jc ;?
  tell jc t VNull ;?
  ok ← pop jc m;
  if negb ok then fail_with jc JSON_E_UNBALANCED_COLLECTION else
  set_type jc JSON_T_NONE;;
  set_state jc OK;;
  mret true.

(** A collection begins: [{] and [[]. *)
Definition begin_collection (jc : ptr) (t : JSON_type) (m : modes) (s : states) : M bool :=
  parse_buffer_pop_back_char jc;;
  tell jc t VNull ;?
  push jc m ;?
  check_type jc (is_type JSON_T_NONE);;
  set_state jc s;;
  mret true.

(** The state to go back to after a comment. *)
Definition comment_return (m : option modes) (s : states) : states :=
  match m with
  | Some MODE_ARRAY | Some MODE_OBJECT => match s with VA | AR => s | _ => OK end
  | _ => s
  end.

Definition begin_comment (jc : ptr) : M bool :=
  p ← load jc;
  if negb (js_allow_comments p) then mret false else
  parse_buffer_pop_back_char jc;;
  parse_parse_buffer jc ;?
  check_empty jc;;
  check_type jc (λ t, bool_decide (t ≠ JSON_T_STRING));;
  m ← stack_top jc;
  modify jc (λ p, p <| js_before_comment_state := comment_return m (js_state p) |>);;
  set_type jc JSON_T_NONE;;
  set_state jc C1;;
  modify jc (λ p, p <| js_comment := true |>);;
  mret true.

Definition end_comment (jc : ptr) : M bool :=
  modify jc (λ p, p <| js_comment := false |>);;
  check_empty jc;;
  check_type jc (is_type JSON_T_NONE);;
  modify jc (λ p, p <| js_state := js_before_comment_state p |>);;
  mret true.

Definition end_string (jc : ptr) : M bool :=
  parse_buffer_pop_back_char jc;;
  m ← stack_top jc;
  match m with
  | Some MODE_KEY =>
      check_type jc (is_type JSON_T_STRING);;
      set_type jc JSON_T_NONE;;
      set_state jc CO;;
      p ← load jc;
      (match js_callback p with
       | Some _ => value ← buffer_value jc; callback (js_ctx p) JSON_T_KEY value
       | None => mret true
       end) ;?
      parse_buffer_clear jc;;
      mret true
  | Some MODE_ARRAY | Some MODE_OBJECT =>
      check_type jc (is_type JSON_T_STRING);;
      parse_parse_buffer jc ;?
      set_type jc JSON_T_NONE;;
      set_state jc OK;;
      mret true
  | _ => mret false
  end.

(** The decimal point a locale wants replaces the dot just read. *)
Definition localise_point (jc : ptr) : M unit :=
  p ← load jc;
  if js_handle_floats_manually p then mret tt else
  c ← buffer_get jc (js_parse_buffer_count p - 1);
  check (signed_char c =? 46)%Z;;
  buffer_set jc (js_parse_buffer_count p - 1) (js_decimal_point p).

Definition comma (jc : ptr) : M bool :=
  parse_buffer_pop_back_char jc;;
  parse_parse_buffer jc ;?
  m ← stack_top jc;
  match m with
  | Some MODE_OBJECT =>
      pop jc MODE_OBJECT ;?
      push jc MODE_KEY ;?
      check_type jc (λ t, bool_decide (t ≠ JSON_T_STRING));;
      set_type jc JSON_T_NONE;;
      set_state jc KE;;
      mret true
  | Some MODE_ARRAY =>
      check_type jc (λ t, bool_decide (t ≠ JSON_T_STRING));;
      set_type jc JSON_T_NONE;;
      set_state jc VA;;
      mret true
  | _ => mret false
  end.

Definition colon (jc : ptr) : M bool :=
  parse_buffer_pop_back_char jc;;
  pop jc MODE_KEY ;?
  push jc MODE_OBJECT ;?
  check_type jc (is_type JSON_T_NONE);;
  set_state jc VA;;
  mret true.

(** The [switch] on an action. *)
Definition perform (jc : ptr) (a : actions) : M bool :=
  match a with
  | UC =>
      ok ← decode_unicode_char jc;
      if negb ok then fail_with jc JSON_E_INVALID_UNICODE_SEQUENCE else
      p ← load jc;
      set_state jc (if (js_utf16_high_surrogate p =? 0)%Z then ST else D1);;
      mret true
  | EX => modify jc (λ p, p <| js_escaped := true |>);; set_state jc ES;; mret true
  | MX => begin_value jc JSON_T_INTEGER MI
  | ZX => begin_value jc JSON_T_INTEGER ZE
  | IX => begin_value jc JSON_T_INTEGER IT
  | DE => check_type jc is_no_string_null_or_bool;; begin_value jc JSON_T_FLOAT E1
  | DF => check_type jc is_no_string_null_or_bool;; localise_point jc;; begin_value jc JSON_T_FLOAT FX
  | SB => parse_buffer_clear jc;; begin_keyword jc JSON_T_STRING ST
  | NU => begin_keyword jc JSON_T_NULL N1
  | FA => begin_keyword jc JSON_T_FALSE F1
  | TR => begin_keyword jc JSON_T_TRUE T1
  | CE => end_comment jc
  | CB => begin_comment jc
  | m9 =>
      parse_buffer_clear jc;;
      tell jc JSON_T_OBJECT_END VNull ;?
      pop jc MODE_KEY ;?
      set_state jc OK;;
      mret true
  | m8 => end_collection jc JSON_T_OBJECT_END MODE_OBJECT
  | m7 => end_collection jc JSON_T_ARRAY_END MODE_ARRAY
  | m6 => begin_collection jc JSON_T_OBJECT_BEGIN MODE_KEY OB
  | m5 => begin_collection jc JSON_T_ARRAY_BEGIN MODE_ARRAY AR
  | m4 => end_string jc
  | m3 => comma jc
  | m2 => colon jc
  | __ => set_error jc;; mret false
  end.

Definition JSON_parser_char (jc : ptr) (next_char : Z) : M bool :=
  modify jc (λ p, p <| js_current_char := next_char |>);;
  if (next_char <? 0)%Z then fail_with jc JSON_E_INVALID_CHAR else
  match class_of next_char with
  | None => set_error jc;; mret false
  | Some next_class =>
      add_char_to_parse_buffer jc next_char next_class ;?
      p ← load jc;
      match state_transition_table (js_state p) next_class with
      | Goto s => set_state jc s;; mret true
      | Act a => perform jc a
      end
  end.
End Callback.

Definition JSON_parser_done (jc : ptr) : M bool :=
  p ← load jc;
  popped ← (if bool_decide (js_state p = OK ∨ js_state p = GO) then pop jc MODE_DONE else mret false);
  if (popped : bool) then mret true else fail_with jc JSON_E_UNBALANCED_COLLECTION.

(** The characters of a string before its terminator; a negative one is no
    white space. *)
Fixpoint all_white (s : bytes) : bool :=
  match s with
  | [] => true
  | c :: s =>
      let c := signed_char c in
      (0 <=? c)%Z && (match class_of c with Some C_SPACE | Some C_WHITE => true | _ => false end)
      && all_white s
  end.
Definition JSON_parser_is_legal_white_space_string (s : option bytes) : bool :=
  match s with None => false | Some s => all_white s end.

Definition JSON_parser_get_last_error (jc : ptr) : M JSON_error := p ← load jc; mret (js_error p).

(** ** Creation *)

Definition init_JSON_config (config : JSON_config) : JSON_config :=
  JsonConfig NULL NULL (Z.of_nat JSON_PARSER_STACK_SIZE - 1) 0 0
    (Some libc_functions) (Some libc_functions).

Definition delete_JSON_parser (jc : ptr) : M unit :=
  if is_null jc then mret tt else
  p ← load jc;
  (match js_stack p with
   | AStatic => mret tt
   | ANull => js_release (js_free p) NULL
   | ADynamic l => js_release (js_free p) (Some l)
   end);;
  p ← load jc;
  (match js_parse_buffer p with
   | AStatic => mret tt
   | ANull => js_release (js_free p) NULL
   | ADynamic l => js_release (js_free p) (Some l)
   end);;
  p ← load jc;
  js_release (js_free p) jc.

Definition JSON_parser_reset (jc : ptr) : M bool :=
  if is_null jc then mret false else
  modify jc (λ p, p <| js_state := GO |>);;
  modify jc (λ p, p <| js_top := (-1)%Z |>);;
  p ← load jc;
  (match js_parse_buffer p with
   | ANull =>
       (if (0 <? js_depth p)%Z then
          modify jc (λ p, p <| js_stack_capacity := js_depth p |>);;
          if (js_depth p <=? Z.of_nat JSON_PARSER_STACK_SIZE)%Z
          then modify jc (λ p, p <| js_stack := AStatic |>);; mret true
          else
            mem ← js_alloc (js_malloc p) (uninit_modes (js_depth p));
            modify jc (λ p, p <| js_stack := match mem with Some l => ADynamic l | None => ANull end |>);;
            mret (negb (is_null mem))
        else
          modify jc (λ p, p <| js_stack_capacity := Z.of_nat JSON_PARSER_STACK_SIZE |>);;
          modify jc (λ p, p <| js_depth := (-1)%Z |>);;
          modify jc (λ p, p <| js_stack := AStatic |>);;
          mret true) ;?
       modify jc (λ p, p <| js_parse_buffer := AStatic |>);;
       modify jc (λ p, p <| js_parse_buffer_capacity := Z.of_nat JSON_PARSER_PARSE_BUFFER_SIZE |>);;
       mret true
   | _ => mret true
   end) ;?
  push jc MODE_DONE;;
  parse_buffer_clear jc;;
  mret true.

(** What [memset] makes of a parser, and what [malloc] does. *)
Definition zeroed_parser : JSON_parser_struct :=
  JsonParser NULL NULL GO GO JSON_T_NONE false false false false JSON_E_NONE Ascii.zero
    0 0 0 0 0 ANull ANull 0 0 (replicate JSON_PARSER_STACK_SIZE None)
    (replicate JSON_PARSER_PARSE_BUFFER_SIZE Ascii.zero) libc_functions libc_functions.
Definition uninit_parser (j : Z) : JSON_parser_struct :=
  zeroed_parser <| js_current_char := j |> <| js_depth := j |> <| js_top := j |>.

Definition default_config : JSON_config :=
  init_JSON_config (JsonConfig NULL NULL 0 0 0 None None).

(** [decimal_point] is the first character of what [localeconv] answers. *)
Definition new_JSON_parser (decimal_point : Ascii.ascii) (config : option JSON_config) : M ptr :=
  let config := default default_config config in
  let '(alloc, free) := match cf_malloc config, cf_free config with
    | Some alloc, Some free => (alloc, free)
    | _, _ => (libc_functions, libc_functions)
    end in
  jc ← js_alloc alloc uninit_parser;
  if is_null jc then mret NULL else
  store jc zeroed_parser;;
  modify jc (λ p, p <| js_malloc := alloc |>);;
  modify jc (λ p, p <| js_free := free |>);;
  modify jc (λ p, p <| js_callback := cf_callback config |>);;
  modify jc (λ p, p <| js_ctx := cf_callback_ctx config |>);;
  modify jc (λ p, p <| js_allow_comments := negb (cf_allow_comments config =? 0)%Z |>);;
  modify jc (λ p, p <| js_handle_floats_manually := negb (cf_handle_floats_manually config =? 0)%Z |>);;
  modify jc (λ p, p <| js_decimal_point := decimal_point |>);;
  modify jc (λ p, p <| js_depth := if (cf_depth config =? 0)%Z then 1%Z else cf_depth config |>);;
  ok ← JSON_parser_reset jc;
  if negb ok then p ← load jc; js_release (js_free p) jc;; mret NULL else mret jc.
