(* ===== verification/JsonProcessing.v ===== *)
(** backends/http/json_processing.c: from the tokens of JSON_parser.c to the
    messages, queues and accounts the user is told of; and the accessors of
    curl_backend.c it uses. *)
From S2P Require Import Prelude JsonData Types Heap Macros Attributes UserBuffer JsonParser.

(** The functions of libcurl the library calls. A string they return is a value:
    the memory it is in belongs to libcurl until [curl_free]. *)
Class Libcurl := {
  curl_easy_init : M ptr;
  curl_easy_unescape : ptr → string → M cstr }.

(** ** Accessors of curl_backend.c *)

Definition burrow_backend_http_get_command (backend : ptr) : M burrow_command_t :=
  s ← load backend;
  b ← load (hb_burrow s);
  mret (cmd_command (b_cmd b)).

Definition burrow_backend_http_get_burrow (backend : ptr) : M ptr :=
  s ← load backend; mret (hb_burrow s).

Section Processing.
Context {curl : Libcurl}.

Definition burrow_backend_http_get_curl_easy_handle (backend : ptr) : M ptr :=
  s ← load backend;
  (if is_null (hb_chandle s) then
     h ← curl_easy_init;
     modify backend (λ s, s <| hb_chandle := h |>)
   else mret tt);;
  s ← load backend;
  mret (hb_chandle s).

(** ** Strings in memory *)

(** The C string at the start of some bytes: it must have a terminator. *)
Fixpoint text_of (bs : bytes) : option string :=
  match bs with
  | [] => None
  | c :: bs => if Ascii.eqb c Ascii.zero then Some EmptyString
               else s ← text_of bs; Some (String c s)
  end.
Definition get_text (bs : bytes) : M string :=
  match text_of bs with Some s => mret s | None => undefined OutOfBounds end.
Definition load_text (p : ptr) : M string := bs ← load p; get_text bs.

(** The bytes of a string with its terminator. *)
Definition with_terminator (s : string) : bytes := String.list_ascii_of_string s ++ [Ascii.zero].

(** ** The collector *)

Definition uninit_processing (j : Z) : json_processing_st :=
  JsonProcessing (Some (Z.to_pos j)) (Some (Z.to_pos j)) j (Some (Z.to_pos j)) (Z.odd j)
    (Some (Z.to_pos j)) (Some (Z.to_pos j)).

Definition burrow_easy_json_st_create (backend : ptr) : M ptr :=
  jproc ← malloc Libc uninit_processing;
  if is_null jproc then mret NULL else
  modify jproc (λ j, j <| jp_backend := backend |>);;
  modify jproc (λ j, j <| jp_body := NULL |>);;
  modify jproc (λ j, j <| jp_body_size := 0%Z |>);;
  modify jproc (λ j, j <| jp_message_id := NULL |>);;
  modify jproc (λ j, j <| jp_is_key := false |>);;
  modify jproc (λ j, j <| jp_key := NULL |>);;
  a ← burrow_attributes_create NULL NULL;
  modify jproc (λ j, j <| jp_attributes := a |>);;
  mret jproc.

Definition burrow_easy_json_st_destroy (jproc : ptr) : M unit :=
  j ← load jproc;
  (if is_null (jp_body j) then mret tt else release Libc (jp_body j));;
  j ← load jproc;
  (if is_null (jp_message_id j) then mret tt else release Libc (jp_message_id j));;
  j ← load jproc;
  (if is_null (jp_key j) then mret tt else release Libc (jp_key j));;
  j ← load jproc;
  (if is_null (jp_attributes j) then mret tt else burrow_attributes_destroy (jp_attributes j));;
  release Libc jproc.

(** [burrow_error] on the backend's burrow, and [return 0]. *)
Definition refuse (backend : ptr) (err : Z) (msg : string) : M bool :=
  burrow ← burrow_backend_http_get_burrow backend;
  burrow_error burrow err msg;;
  mret false.

(** What the message callback is given of an id, a body and attributes. *)
Definition text_or_null (p : ptr) : M cstr :=
  if is_null p then mret None else s ← load_text p; mret (Some s).
Definition body_or_null (p : ptr) : M cstr :=
  if is_null p then mret None
  else bs ← load (T := bytes) p; mret (Some (String.string_of_list_ascii bs)).
Definition message_callback (burrow : ptr) (message_id body : cstr) (body_size : Z)
    (attributes : ptr) : M unit :=
  if is_null attributes then
    b ← load burrow;
    match b_message_fn b with
    | Some _ => emit (EvMessagePlain message_id body body_size)
    | None => mret tt
    end
  else
    a ← load attributes;
    burrow_callback_message burrow message_id body body_size (at_set a) (at_ttl a) (at_hide a).

(** A message is complete. *)
Definition object_end (jproc : ptr) : M bool :=
  j ← load jproc;
  burrow ← burrow_backend_http_get_burrow (jp_backend j);
  message_id ← text_or_null (jp_message_id j);
  body ← body_or_null (jp_body j);
  message_callback burrow message_id body (jp_body_size j) (jp_attributes j);;
  j ← load jproc;
  (if is_null (jp_message_id j) then mret tt else
   release Libc (jp_message_id j);; modify jproc (λ j, j <| jp_message_id := NULL |>));;
  j ← load jproc;
  (if is_null (jp_body j) then mret tt else
   release Libc (jp_body j);; modify jproc (λ j, j <| jp_body := NULL |>));;
  modify jproc (λ j, j <| jp_body_size := 0%Z |>);;
  j ← load jproc;
  (if is_null (jp_attributes j) then
     a ← burrow_attributes_create NULL NULL;
     modify jproc (λ j, j <| jp_attributes := a |>)
   else burrow_attributes_unset_all (jp_attributes j));;
  mret true.

Definition key_found (jproc : ptr) (value : bytes) (length : Z) : M bool :=
  modify jproc (λ j, j <| jp_is_key := true |>);;
  j ← load jproc;
  (if is_null (jp_key j) then mret tt else release Libc (jp_key j));;
  key ← malloc Libc (uninit_bytes (u64 (length + 1)));
  modify jproc (λ j, j <| jp_key := key |>);;
  if is_null key then refuse (jp_backend j) ENOMEM "ERROR!  malloc failed during JSON parsing" else
  write_bytes key 0 value (u64 (length + 1));;
  mret true.

Definition id_found (jproc : ptr) (value : bytes) : M bool :=
  j ← load jproc;
  handle ← burrow_backend_http_get_curl_easy_handle (jp_backend j);
  s ← get_text value;
  message_id ← curl_easy_unescape handle s;
  (if is_null (jp_message_id j) then mret tt else release Libc (jp_message_id j));;
  match message_id with
  | None => undefined NullDeref
  | Some message_id =>
      let len := Z.of_nat (String.length message_id) in
      p ← malloc Libc (uninit_bytes (u64 (len + 1)));
      modify jproc (λ j, j <| jp_message_id := p |>);;
      if is_null p then refuse (jp_backend j) ENOMEM "ERROR!  malloc failed!\n" else
      write_bytes p 0 (with_terminator message_id) (u64 (len + 1));;
      mret true
  end.

Definition body_found (jproc : ptr) (value : bytes) (length : Z) : M bool :=
  modify jproc (λ j, j <| jp_body_size := length |>);;
  j ← load jproc;
  p ← malloc Libc (uninit_bytes (jp_body_size j));
  modify jproc (λ j, j <| jp_body := p |>);;
  if is_null p then refuse (jp_backend j) ENOMEM "ERROR!  malloc failed!\n" else
  j ← load jproc;
  write_bytes p 0 value (u64 (jp_body_size j + 1));;
  mret true.

Definition string_found (jproc : ptr) (value : bytes) (length : Z) : M bool :=
  j ← load jproc;
  if jp_is_key j then
    modify jproc (λ j, j <| jp_is_key := false |>);;
    key ← load_text (jp_key j);
    if String.eqb key "id" then id_found jproc value
    else if String.eqb key "body" then body_found jproc value length
    else refuse (jp_backend j) EINVAL "ERROR!  unrecognized string valued key \'%s\'=\'%s\'\n"
  else mret false.

Definition integer_found (jproc : ptr) (n : Z) : M bool :=
  j ← load jproc;
  if jp_is_key j then
    modify jproc (λ j, j <| jp_is_key := false |>);;
    key ← load_text (jp_key j);
    if String.eqb key "hide" then burrow_attributes_set_hide (jp_attributes j) (u32 n);; mret true
    else if String.eqb key "ttl" then burrow_attributes_set_ttl (jp_attributes j) (u32 n);; mret true
    else refuse (jp_backend j) EINVAL "WARNING! JSON parsing found unrecognized integer key \'%s\'=%d\n"
  else mret true.

Definition unexpected_type (jproc : ptr) : M bool :=
  j ← load jproc;
  refuse (jp_backend j) EINVAL "WARNING! JSON parsing found unexpected type = %d\n".

Definition message_token (jproc : ptr) (type : JSON_type) (value : JSON_value) : M bool :=
  match type, value with
  | JSON_T_ARRAY_BEGIN, _ | JSON_T_ARRAY_END, _ => mret true
  | JSON_T_OBJECT_BEGIN, _ =>
      j ← load jproc;
      a ← burrow_attributes_create (jp_attributes j) NULL;
      modify jproc (λ j, j <| jp_attributes := a |>);;
      mret true
  | JSON_T_OBJECT_END, _ => object_end jproc
  | JSON_T_KEY, VString value length => key_found jproc value length
  | JSON_T_STRING, VString value length => string_found jproc value length
  | JSON_T_INTEGER, VInteger n => integer_found jproc n
  | (JSON_T_KEY | JSON_T_STRING | JSON_T_INTEGER), _ => undefined WrongType
  | _, _ => unexpected_type jproc
  end.

Definition list_token (jproc : ptr) (bcommand : burrow_command_t) (type : JSON_type)
    (value : JSON_value) : M bool :=
  match type, value with
  | JSON_T_ARRAY_BEGIN, _ | JSON_T_ARRAY_END, _ => mret true
  | JSON_T_STRING, VString value _ =>
      j ← load jproc;
      handle ← burrow_backend_http_get_curl_easy_handle (jp_backend j);
      s ← get_text value;
      name ← curl_easy_unescape handle s;
      burrow ← burrow_backend_http_get_burrow (jp_backend j);
      (if decide (bcommand = BURROW_CMD_GET_ACCOUNTS) then burrow_callback_account burrow name
       else burrow_callback_queue burrow name);;
      mret true
  | JSON_T_STRING, _ => undefined WrongType
  | _, _ => unexpected_type jproc
  end.

Definition burrow_backend_http_json_callback (ctx : ptr) (type : JSON_type) (value : JSON_value)
    : M bool :=
  j ← load ctx;
  bcommand ← burrow_backend_http_get_command (jp_backend j);
  match bcommand with
  | BURROW_CMD_GET_MESSAGE | BURROW_CMD_GET_MESSAGES | BURROW_CMD_UPDATE_MESSAGE
  | BURROW_CMD_UPDATE_MESSAGES | BURROW_CMD_DELETE_MESSAGE | BURROW_CMD_DELETE_MESSAGES =>
      message_token ctx type value
  | BURROW_CMD_GET_QUEUES | BURROW_CMD_GET_ACCOUNTS => list_token ctx bcommand type value
  | _ => mret true
  end.

(** ** The whole text *)

(** The [for] over the first [n] characters, which are signed: whether the parser
    takes them all. *)
Fixpoint feed (n : nat) (jc : ptr) (text : bytes) : M bool :=
  match n, text with
  | O, _ => mret true
  | S _, [] => undefined OutOfBounds
  | S n, c :: text =>
      JSON_parser_char burrow_backend_http_json_callback jc (signed_char c) ;?
      feed n jc text
  end.

Definition burrow_backend_http_parse_json (decimal_point : Ascii.ascii) (backend : ptr)
    (jsontext : bytes) (jsonsize : Z) : M Z :=
  let config := init_JSON_config default_config in
  json_processing ← burrow_easy_json_st_create backend;
  let config := config <| cf_depth := 19%Z |> <| cf_callback := Some 1%positive |>
    <| cf_callback_ctx := json_processing |> <| cf_allow_comments := 1%Z |>
    <| cf_handle_floats_manually := 0%Z |> in
  jc ← new_JSON_parser decimal_point (Some config);
  ok ← feed (Z.to_nat (i32 jsonsize)) jc jsontext;
  if negb ok then
    burrow ← burrow_backend_http_get_burrow backend;
    burrow_error burrow EINVAL "WARNING! JSON_parser_char (%d) at byte %d (%d = '%c')\n";;
    mret EINVAL
  else
  done ← JSON_parser_done jc;
  if negb done then
    burrow ← burrow_backend_http_get_burrow backend;
    burrow_error burrow EINVAL "WARNING! JSON_parser_end indicates JSON syntax error\n";;
    delete_JSON_parser jc;;
    burrow_easy_json_st_destroy json_processing;;
    mret EINVAL
  else
  delete_JSON_parser jc;;
  burrow_easy_json_st_destroy json_processing;;
  mret 0%Z.
End Processing.
