(* ===== verification/CurlBackend.v ===== *)
(** backends/http/curl_backend.c: the http backend. It makes a request of each
    command, hands it to libcurl, drives the transfer, and has what comes back
    parsed. libcurl is a parameter. *)
From stdpp Require Import pretty.
From S2P Require Import Prelude JsonData CurlData Types Heap Macros Attributes Filters Burrow UserBuffer JsonParser JsonProcessing.

(** The rest of what the library calls of libcurl. *)
Class LibcurlMulti := {
  multi_libcurl :: Libcurl;
  curl_easy_escape : ptr → cstr → M cstr;
  curl_easy_setopt : ptr → CURLoption → M Z;
  curl_easy_cleanup : ptr → M unit;
  curl_multi_init : M ptr;
  curl_multi_cleanup : ptr → M Z;
  curl_multi_add_handle : ptr → ptr → M Z;
  curl_multi_remove_handle : ptr → ptr → M Z;
  curl_multi_perform : ptr → M (Z * Z);     (** the code, and how many transfers run *)
  curl_multi_info_read : ptr → M (option Z);  (** the result of a transfer *)
  curl_multi_fdset : ptr → M fdsets }.

(** ** Printing *)

(** [snprintf(p + off, n, "%s", s)] into a character buffer: what it holds then,
    unless the memory is left. A text behind the terminator does not show. *)
Definition print_into (c : chars) (off n : Z) (s : string) : option chars :=
  if (n =? 0)%Z then Some c else
  let kept := String.substring 0 (Z.to_nat (n - 1)) s in
  if (off + Z.of_nat (String.length kept) + 1 <=? ch_capacity c)%Z then
    Some (if (off <=? Z.of_nat (String.length (ch_text c)))%Z
          then Chars (ch_capacity c) (String.substring 0 (Z.to_nat off) (ch_text c) +:+ kept) else c)
  else None.

(** [(size_t)snprintf(...)]: the length of all of it, or of an [int] too small. *)
Definition printed (s : string) : Z :=
  let len := Z.of_nat (String.length s) in
  u64 (if (len <=? 2147483647)%Z then len else -1).

Definition snprintf (p : ptr) (off n : Z) (s : string) : M Z :=
  c ← load p;
  match print_into c off n s with
  | Some c' => store p c';; mret (printed s)
  | None => undefined OutOfBounds
  end.

(** An array of characters among the local variables, and the length so far. *)
Definition local_text : Type := chars * Z.
Definition no_text : local_text := (Chars 1024 "", 0%Z).

(** [len = snprintf(buf + off, sizeof(buf) - off, s)] *)
Definition print_at (off : Z) (s : string) (t : local_text) : M local_text :=
  match print_into t.1 off (u64 (ch_capacity t.1 - off)) s with
  | Some c => mret (c, printed s)
  | None => undefined OutOfBounds
  end.
(** [len += snprintf(buf + len, sizeof(buf) - len, s)] *)
Definition print_on (s : string) (t : local_text) : M local_text :=
  t' ← print_at t.2 s t; mret (t'.1, u64 (t.2 + t'.2)).

(** [memcpy(p, buf, n)] *)
Definition copy_local (p : ptr) (buf : chars) (n : Z) : M unit :=
  c ← load p;
  if ((n <=? ch_capacity c) && (n <=? ch_capacity buf))%Z
  then store p (Chars (ch_capacity c) (String.substring 0 (Z.to_nat n) (ch_text buf)))
  else undefined OutOfBounds.

(** The text in memory of its own: the pointer and [*size]. *)
Definition keep_text (t : local_text) : M (ptr * Z) :=
  p ← malloc Libc (uninit_chars (u64 (t.2 + 1)));
  if is_null p then mret (NULL, ENOMEM) else
  copy_local p t.1 (u64 (t.2 + 1));;
  mret (p, i32 t.2).

(** A string that is passed to [strlen] or printed. *)
Definition required_text (s : cstr) : M string :=
  match s with Some s => mret s | None => undefined NullDeref end.

(** ** Debugging *)

Definition burrow_backend_http_curldebug (chandle : ptr) (type : curl_infotype) (mesg : bytes)
    (mesg_size : Z) (p : ptr) : M Z :=
  let preface := match type with
    | CURLINFO_TEXT => Some "  "
    | CURLINFO_HEADER_IN | CURLINFO_HEADER_OUT => Some ""
    | CURLINFO_DATA_IN => Some "< "
    | CURLINFO_DATA_OUT => Some "> "
    | _ => None
    end in
  backend ← load p;
  match preface with
  | None => undefined Indeterminate
  | Some _ => burrow_log_debug (hb_burrow backend) "%s%.*s";; mret 0%Z
  end.

Section Backend.
Context {curl : LibcurlMulti}.

(** ** Attributes and filters in a url *)

(** [size] is what [*size] is before. *)
Definition burrow_backend_http_attributes_to_string (attributes : ptr) (size : Z) : M (ptr * Z) :=
  if is_null attributes then mret (NULL, 0%Z) else
  ttl ← burrow_attributes_isset_ttl attributes;
  t ← (if (ttl : bool) then
         v ← burrow_attributes_get_ttl attributes; print_at 0 ("ttl=" +:+ pretty v) no_text
       else mret no_text);
  hide ← burrow_attributes_isset_hide attributes;
  t ← (if (hide : bool) then
         v ← burrow_attributes_get_hide attributes;
         if (0 <? t.2)%Z then print_on ("&hide=" +:+ pretty v) t
         else print_at 0 ("hide=" +:+ pretty v) t
       else mret t);
  if (t.2 =? 0)%Z then mret (NULL, size) else keep_text t.

(** A number printed with [%d], behind an ampersand when it is not the first. *)
Definition print_number (name : string) (v : Z) (t : local_text) : M local_text :=
  if (0 <? t.2)%Z then print_on ("&" +:+ name +:+ "=" +:+ pretty (i32 v)) t
  else print_at t.2 (name +:+ "=" +:+ pretty (i32 v)) t.

Definition detail_name (d : burrow_detail_t) : string :=
  match d with
  | BURROW_DETAIL_NONE => "none"
  | BURROW_DETAIL_ID => "id"
  | BURROW_DETAIL_ATTRIBUTES => "attributes"
  | BURROW_DETAIL_BODY => "body"
  | BURROW_DETAIL_ALL => "all"
  end.

(** All but the marker. *)
Definition print_plain_filters (filters : ptr) : M local_text :=
  match_hidden ← burrow_filters_isset_match_hidden filters;
  t ← (if (match_hidden : bool) then
         v ← burrow_filters_get_match_hidden filters;
         print_at 0 (if (v : bool) then "match_hidden=true" else "match_hidden=false") no_text
       else mret no_text);
  limit ← burrow_filters_isset_limit filters;
  t ← (if (limit : bool) then v ← burrow_filters_get_limit filters; print_number "limit" v t else mret t);
  wait ← burrow_filters_isset_wait filters;
  t ← (if (wait : bool) then v ← burrow_filters_get_wait filters; print_number "wait" v t else mret t);
  detail ← burrow_filters_isset_detail filters;
  if (detail : bool) then
    t ← (if (0 <? t.2)%Z then print_on "&" t else mret t);
    v ← burrow_filters_get_detail filters;
    print_on ("detail=" +:+ detail_name v) t
  else mret t.

Definition burrow_backend_http_filters_to_string (backend filters : ptr) : M (ptr * Z) :=
  if is_null filters then mret (NULL, 0%Z) else
  t ← print_plain_filters filters;
  marker ← burrow_filters_get_marker filters;
  t ← (match marker with
       | None => mret t
       | Some _ =>
           s ← load backend;
           marker ← curl_easy_escape (hb_chandle s) marker;
           marker ← required_text marker;
           if (0 <? t.2)%Z then print_on ("&marker=" +:+ marker) t
           else print_at 0 ("marker=" +:+ marker) t
       end);
  if (t.2 =? 0)%Z then mret (NULL, 0%Z) else keep_text t.

(** ** The life of a backend *)

Definition uninit_http (j : Z) : burrow_backend_st :=
  let p := Some (Z.to_pos j) in
  HttpBackend "" j "" j "" j p j p j p p p p (Z.odd j) (Z.odd j).

Definition initialize (backend burrow : ptr) : M ptr :=
  modify backend (λ s, s <| hb_burrow := burrow |>);;
  modify backend (λ s, s <| hb_proto := "http" |> <| hb_proto_len := 4%Z |>);;
  modify backend (λ s, s <| hb_server := NULL |> <| hb_server_len := 0%Z |>);;
  modify backend (λ s, s <| hb_port := "" |> <| hb_port_len := 0%Z |>);;
  modify backend (λ s, s <| hb_baseurl := NULL |> <| hb_baseurl_len := 0%Z |>);;
  modify backend (λ s, s <| hb_proto_version := "v1.0" |> <| hb_proto_version_len := 4%Z |>);;
  modify backend (λ s, s <| hb_buffer := NULL |> <| hb_chandle := NULL |> <| hb_get_body_only := false |>);;
  multi ← curl_multi_init;
  modify backend (λ s, s <| hb_curlptr := multi |>);;
  mret backend.

Definition burrow_backend_http_create (p burrow : ptr) : M ptr :=
  backend ← (if is_null p then
               backend ← malloc Libc uninit_http;
               (if is_null backend then
                  burrow_error burrow ENOMEM "Failed to malloc space for a new backend object\n"
                else modify backend (λ s, s <| hb_malloced := true |>));;
               mret backend
             else modify p (λ s, s <| hb_malloced := false |>);; mret p);
  if is_null backend then mret NULL else
  initialize backend burrow.

Definition burrow_backend_http_destroy (p : ptr) : M unit :=
  s ← load p;
  burrow_log_debug (hb_burrow s) "burrow_backend_http_destroy called\n";;
  s ← load p;
  (if is_null (hb_server s) then mret tt else release Libc (hb_server s));;
  (if is_null (hb_baseurl s) then mret tt else release Libc (hb_baseurl s));;
  (if is_null (hb_buffer s) then mret tt else user_buffer_destroy (hb_buffer s));;
  (if is_null (hb_chandle s) then mret tt else
   curl_multi_remove_handle (hb_curlptr s) (hb_chandle s);;
   curl_easy_cleanup (hb_chandle s);;
   modify p (λ s, s <| hb_chandle := NULL |>));;
  curl_multi_cleanup (hb_curlptr s);;
  modify p (λ s, s <| hb_curlptr := NULL |>);;
  s ← load p;
  if hb_malloced s then release Libc p else mret tt.

(** The url of the server, once there are a server and a port. *)
Definition make_baseurl (p : ptr) : M Z :=
  s ← load p;
  (if is_null (hb_baseurl s) then mret tt else release Libc (hb_baseurl s));;
  server ← get_string (hb_server s);
  let lenurl := u64 (hb_proto_len s + Z.of_nat (String.length server) + hb_port_len s + 20) in
  baseurl ← malloc Libc (uninit_chars lenurl);
  modify p (λ s, s <| hb_baseurl := baseurl |>);;
  if is_null baseurl then
    burrow_error (hb_burrow s) ENOMEM "Attempt to malloc space for URL failed\n";;
    mret ENOMEM
  else
    len ← snprintf baseurl 0 lenurl (hb_proto s +:+ "://" +:+ server +:+ ":" +:+ hb_port s);
    modify p (λ s, s <| hb_baseurl_len := len |>);;
    mret 0%Z.

(** [sizeof(backend->port)] *)
Definition port_size : Z := 32.

Definition set_server (p : ptr) (value : string) : M Z :=
  modify p (λ s, s <| hb_server_len := Z.of_nat (String.length value) |>);;
  s ← load p;
  server ← malloc Libc (uninit_chars (u64 (hb_server_len s + 1)));
  modify p (λ s, s <| hb_server := server |>);;
  if is_null server then
    burrow_error (hb_burrow s) ENOMEM "Attempt to malloc space to store server name failed\n";;
    mret ENOMEM
  else strcpy server value;; mret 0%Z.

Definition set_port (p : ptr) (value : string) : M Z :=
  modify p (λ s, s <| hb_port_len := Z.of_nat (String.length value) |>);;
  s ← load p;
  if (port_size - 1 <=? hb_port_len s)%Z then
    burrow_log_error (hb_burrow s)
      "ERROR: Attempt to set port = \'%s\' failed, because it has %d bytes, but the max is %d\n";;
    modify p (λ s, s <| hb_port_len := Z.of_nat (String.length (hb_port s)) |>);;
    mret EINVAL
  else modify p (λ s, s <| hb_port := value |>);; mret 0%Z.

Definition burrow_backend_http_set_option (p : ptr) (optionname : string) (value : cstr) : M Z :=
  result ← (if String.eqb optionname "server" then value ← required_text value; set_server p value
            else if String.eqb optionname "port" then value ← required_text value; set_port p value
            else
              s ← load p;
              burrow_log_error (hb_burrow s) "Called set_option with illegal option: %s\n";;
              mret EINVAL);
  if decide (result ≠ 0%Z) then mret result else
  s ← load p;
  if negb (is_null (hb_server s)) && negb (hb_port_len s =? 0)%Z && negb (hb_proto_len s =? 0)%Z
  then make_baseurl p else mret 0%Z.
(** ** Driving the transfer

    [turns] is fuel: how often libcurl may ask to be called again at once, and how
    many results it may have; [decimal_point] is that of the locale. *)
Context (turns : nat) (decimal_point : Ascii.ascii).

(** [do ... while (retval == CURLM_CALL_MULTI_PERFORM)] *)
Definition perform_all (multi : ptr) : M (Z * Z) :=
  loop turns (λ _ : unit,
    r ← curl_multi_perform multi;
    mret (if decide (r.1 = CURLM_CALL_MULTI_PERFORM) then inl tt else inr r)) tt.

(** The results of the transfers, up to the first that is an error. *)
Definition read_results (multi burrow : ptr) : M Z :=
  loop turns (λ _ : unit,
    msg ← curl_multi_info_read multi;
    match msg with
    | None => mret (inr 0%Z)
    | Some result =>
        if decide (result ≠ CURLE_OK) then
          burrow_error burrow EINVAL "Error transferring (%d): %s\n";; mret (inr EINVAL)
        else burrow_log_debug burrow "Transfer completed successfully\n";; mret (inl tt)
    end) tt.

Definition FD_ISSET (fd : Z) (set : list Z) : bool := bool_decide (fd ∈ set).

(** The event to watch a descriptor for. *)
Definition wanted_event (f : fdsets) (i : Z) : Z :=
  Z.lor (if FD_ISSET i (fd_read f) then BURROW_IOEVENT_READ else BURROW_IOEVENT_NONE)
        (if FD_ISSET i (fd_write f) then BURROW_IOEVENT_WRITE else BURROW_IOEVENT_NONE).

Fixpoint watch_descriptors (burrow : ptr) (f : fdsets) (fds : list Z) : M unit :=
  match fds with
  | [] => mret tt
  | i :: fds =>
      (if FD_ISSET i (fd_exec f) then
         burrow_error burrow ENOTSUP
           "ERROR! libcurl wants to monitor exceptions on file_descriptor=%d, not presently supported"
       else mret tt);;
      (if decide (wanted_event f i ≠ BURROW_IOEVENT_NONE) then burrow_watch_fd burrow i (wanted_event f i)
       else mret tt);;
      watch_descriptors burrow f fds
  end.

(** [burrow_error(burrow, err, "...%s...", text)] *)
Definition burrow_error_text (burrow : ptr) (err : Z) (fmt : string) (text : ptr) : M unit :=
  b ← load burrow;
  if verbose_code (b_verbose b) <=? verbose_code BURROW_VERBOSE_ERROR then
    load_text text;; burrow_error burrow err fmt
  else mret tt.

(** The commands whose answer is looked at. *)
Definition has_answer (command : burrow_command_t) : bool :=
  match command with
  | BURROW_CMD_GET_MESSAGES | BURROW_CMD_GET_MESSAGE | BURROW_CMD_DELETE_MESSAGES
  | BURROW_CMD_DELETE_MESSAGE | BURROW_CMD_UPDATE_MESSAGES | BURROW_CMD_UPDATE_MESSAGE
  | BURROW_CMD_GET_ACCOUNTS | BURROW_CMD_GET_QUEUES => true
  | _ => false
  end.

Definition deliver_body (backend : ptr) : M Z :=
  s ← load backend;
  text ← user_buffer_get_text (hb_buffer s);
  size ← user_buffer_get_size (hb_buffer s);
  body ← body_or_null text;
  message_callback (hb_burrow s) None body size NULL;;
  mret 0%Z.

Definition deliver_json (backend : ptr) : M Z :=
  s ← load backend;
  size ← user_buffer_get_size (hb_buffer s);
  if (0 <? size)%Z then
    text ← user_buffer_get_text (hb_buffer s);
    jsontext ← load text;
    json_return ← burrow_backend_http_parse_json decimal_point backend jsontext size;
    if (0 <? json_return)%Z then
      burrow_error_text (hb_burrow s) json_return
        "Error occured while trying to parse JSON message: \'%s\'\n" text;;
      mret json_return
    else mret 0%Z
  else mret 0%Z.

Definition deliver_answer (backend : ptr) : M Z :=
  command ← burrow_backend_http_get_command backend;
  if has_answer command then
    s ← load backend;
    if hb_get_body_only s then deliver_body backend else deliver_json backend
  else mret 0%Z.

Definition watch_transfer (backend : ptr) : M Z :=
  s ← load backend;
  f ← curl_multi_fdset (hb_curlptr s);
  if decide (fd_max f = -1)%Z then mret 0%Z else
  watch_descriptors (hb_burrow s) f (seqZ 0 (fd_max f + 1));;
  mret EAGAIN.

Definition burrow_backend_http_process (backend : ptr) : M Z :=
  s ← load backend;
  burrow_log_debug (hb_burrow s) "burrow_backend_http_process starting\n";;
  performed ← perform_all (hb_curlptr s);
  let '(retval, running_handles) := performed in
  burrow_log_debug (hb_burrow s)
    "burrow_backend_http_process finished looking at stuff, running handles = %d\n";;
  if decide (retval ≠ CURLM_OK) then
    burrow_error (hb_burrow s) EINVAL "Call to libcurl failed(%d): %s\n";;
    mret EINVAL
  else
  result ← read_results (hb_curlptr s) (hb_burrow s);
  if decide (result ≠ 0%Z) then mret result else
  if (0 <? running_handles)%Z then watch_transfer backend else deliver_answer backend.

Definition burrow_backend_http_event_raised (p : ptr) (fd event : Z) : M Z := mret 0%Z.

(** ** Setting up a request *)

(** The old handle, if any, is given up for the new one. *)
Definition use_handle (backend chandle : ptr) : M unit :=
  s ← load backend;
  if is_null (hb_chandle s) then
    modify backend (λ s, s <| hb_chandle := chandle |>);;
    curl_multi_add_handle (hb_curlptr s) chandle;; mret tt
  else if decide (hb_chandle s ≠ chandle) then
    curl_multi_remove_handle (hb_curlptr s) (hb_chandle s);;
    curl_easy_cleanup (hb_chandle s);;
    modify backend (λ s, s <| hb_chandle := chandle |>);;
    curl_multi_add_handle (hb_curlptr s) chandle;; mret tt
  else mret tt.

(** And the old buffer for the new one. *)
Definition use_buffer (backend buffer : ptr) : M unit :=
  s ← load backend;
  (if is_null (hb_buffer s) then mret tt else user_buffer_destroy (hb_buffer s));;
  modify backend (λ s, s <| hb_buffer := buffer |>).

(** A buffer for what libcurl receives. *)
Definition receive_buffer (chandle : ptr) : M ptr :=
  buffer ← user_buffer_create NULL None;
  curl_easy_setopt chandle (CURLOPT_WRITEFUNCTION fn_user_buffer_curl_write_function);;
  curl_easy_setopt chandle (CURLOPT_WRITEDATA buffer);;
  mret buffer.

Definition debug_options (backend chandle : ptr) : M unit :=
  curl_easy_setopt chandle (CURLOPT_DEBUGFUNCTION fn_burrow_backend_http_curldebug);;
  curl_easy_setopt chandle (CURLOPT_DEBUGDATA backend);;
  curl_easy_setopt chandle (CURLOPT_VERBOSE true);;
  curl_easy_setopt chandle (CURLOPT_HEADER false);;
  mret tt.

(** The url goes to libcurl and its memory back. *)
Definition set_url (chandle url : ptr) : M unit :=
  text ← get_string url;
  curl_easy_setopt chandle (CURLOPT_URL text);;
  release Libc url.
(** [len_so_far += snprintf(url + len_so_far, urllen - len_so_far, s)] *)
Definition append_url (url : ptr) (urllen so_far : Z) (s : string) : M Z :=
  n ← snprintf url so_far (u64 (urllen - so_far)) s; mret (u64 (so_far + n)).

Definition escaped_length (s : cstr) : M Z := s ← required_text s; mret (Z.of_nat (String.length s)).

(** ** create_message *)

Definition upload_options (backend chandle buffer : ptr) (body_size : Z) : M unit :=
  curl_easy_setopt chandle (CURLOPT_READFUNCTION fn_user_buffer_curl_read_function);;
  curl_easy_setopt chandle (CURLOPT_READDATA buffer);;
  curl_easy_setopt chandle (CURLOPT_UPLOAD true);;
  curl_easy_setopt chandle (CURLOPT_INFILESIZE body_size);;
  curl_easy_setopt chandle (CURLOPT_HEADER false);;
  curl_easy_setopt chandle (CURLOPT_DEBUGFUNCTION fn_burrow_backend_http_curldebug);;
  curl_easy_setopt chandle (CURLOPT_DEBUGDATA backend);;
  mret tt.

(** The new handle in place of the old one, whichever it is. *)
Definition replace_handle (backend chandle : ptr) : M unit :=
  s ← load backend;
  (if is_null (hb_chandle s) then mret tt else
   curl_multi_remove_handle (hb_curlptr s) (hb_chandle s);;
   curl_easy_cleanup (hb_chandle s));;
  modify backend (λ s, s <| hb_chandle := chandle |>);;
  s ← load backend;
  curl_multi_add_handle (hb_curlptr s) chandle;; mret tt.

(** The url of a message: [urllen] is the size of its memory. *)
Definition print_message_url (backend url : ptr) (urllen : Z) (account queue message_id : cstr)
    (attr_string : ptr) : M unit :=
  s ← load backend;
  baseurl ← get_string (hb_baseurl s);
  account ← required_text account;
  queue ← required_text queue;
  message_id ← required_text message_id;
  so_far ← snprintf url 0 urllen (baseurl +:+ "/" +:+ hb_proto_version s +:+ "/" +:+ account +:+ "/"
                                  +:+ queue +:+ "/" +:+ message_id);
  if is_null attr_string then mret tt else
  attr ← get_string attr_string;
  append_url url urllen so_far ("?" +:+ attr);;
  release Libc attr_string.

Definition burrow_backend_http_create_message (backend : ptr) (cmd : burrow_command_st) : M Z :=
  chandle ← curl_easy_init;
  account ← curl_easy_escape chandle (cmd_account cmd);
  queue ← curl_easy_escape chandle (cmd_queue cmd);
  message_id ← curl_easy_escape chandle (cmd_message_id cmd);
  attr_str_len ← consult e_junk;
  attr ← burrow_backend_http_attributes_to_string (cmd_attributes cmd) (i32 attr_str_len);
  let '(attr_string, attr_str_len) := attr in
  s ← load backend;
  if is_null attr_string && negb (attr_str_len =? 0)%Z then
    burrow_error (hb_burrow s) attr_str_len "Attempt to create attribute string from attributes failed";;
    mret attr_str_len
  else
  account_len ← escaped_length account;
  queue_len ← escaped_length queue;
  message_id_len ← escaped_length message_id;
  let urllen := u64 (hb_baseurl_len s + hb_proto_version_len s + account_len + queue_len
                     + message_id_len + u64 attr_str_len + 20) in
  url ← malloc Libc (uninit_chars urllen);
  if is_null url then
    burrow_error (hb_burrow s) ENOMEM "Failed to malloc space for URL\n";;
    mret ENOMEM
  else
  print_message_url backend url urllen account queue message_id attr_string;;
  burrow_log_debug (hb_burrow s) "create_message url = \'%s\'\n";;
  text ← get_string url;
  curl_easy_setopt chandle (CURLOPT_URL text);;
  buffer ← user_buffer_create_sized NULL (String.list_ascii_of_string <$> cmd_body cmd) (cmd_body_size cmd);
  upload_options backend chandle buffer (cmd_body_size cmd);;
  replace_handle backend chandle;;
  use_buffer backend buffer;;
  modify url (λ c, Chars (ch_capacity c) "");;
  release Libc url;;
  burrow_backend_http_process backend.

(** ** Lists of accounts and queues *)

(** From the url's first part on. *)
Definition send_getlists (backend : ptr) (queues : bool) (chandle : ptr) (account : cstr) (url : ptr)
    (urllen so_far : Z) : M Z :=
  (if queues then
     account ← required_text account;
     append_url url urllen so_far ("/" +:+ account);; mret tt
   else mret tt);;
  set_url chandle url;;
  curl_easy_setopt chandle (CURLOPT_UPLOAD false);;
  curl_easy_setopt chandle (CURLOPT_HTTPGET true);;
  buffer ← receive_buffer chandle;
  debug_options backend chandle;;
  use_handle backend chandle;;
  use_buffer backend buffer;;
  burrow_backend_http_process backend.

Definition burrow_backend_http_common_getlists (backend : ptr) (cmd : burrow_command_st) : M Z :=
  command ← burrow_backend_http_get_command backend;
  modify backend (λ s, s <| hb_get_body_only := false |>);;
  chandle ← curl_easy_init;
  let queues := bool_decide (command = BURROW_CMD_GET_QUEUES) in
  account ← (if queues then curl_easy_escape chandle (cmd_account cmd) else mret None);
  account_len ← (if queues then escaped_length account else mret 0%Z);
  filter ← burrow_backend_http_filters_to_string backend (cmd_filters cmd);
  let '(filter_str, filter_str_len) := filter in
  s ← load backend;
  if is_null filter_str && negb (filter_str_len =? 0)%Z then
    burrow_error (hb_burrow s) filter_str_len "Attempt to create filterURL from filters failed\n";;
    mret filter_str_len
  else
  let urllen := u64 (hb_baseurl_len s + hb_proto_version_len s + account_len + u64 filter_str_len + 128) in
  url ← malloc Libc (uninit_chars urllen);
  if is_null url then
    burrow_error (hb_burrow s) ENOMEM "Failed to malloc space for URL\n";;
    mret ENOMEM
  else
  baseurl ← get_string (hb_baseurl s);
  so_far ← snprintf url 0 urllen (baseurl +:+ "/" +:+ hb_proto_version s);
  send_getlists backend queues chandle account url urllen so_far.

Definition burrow_backend_http_get_accounts (p : ptr) (cmd : burrow_command_st) : M Z :=
  burrow_backend_http_common_getlists p cmd.
Definition burrow_backend_http_get_queues (p : ptr) (cmd : burrow_command_st) : M Z :=
  burrow_backend_http_common_getlists p cmd.

Definition send_delete (backend : ptr) (queues : bool) (chandle : ptr) (account : cstr) (filter_str url : ptr)
    (urllen so_far : Z) : M Z :=
  so_far ← (if queues then
              account ← required_text account; append_url url urllen so_far ("/" +:+ account)
            else mret so_far);
  (if is_null filter_str then mret tt else
   text ← get_string filter_str;
   append_url url urllen so_far ("?" +:+ text);;
   release Libc filter_str);;
  set_url chandle url;;
  curl_easy_setopt chandle (CURLOPT_UPLOAD false);;
  curl_easy_setopt chandle (CURLOPT_CUSTOMREQUEST "DELETE");;
  buffer ← receive_buffer chandle;
  debug_options backend chandle;;
  use_handle backend chandle;;
  use_buffer backend buffer;;
  burrow_backend_http_process backend.

Definition burrow_backend_http_common_delete (backend : ptr) (cmd : burrow_command_st) : M Z :=
  command ← burrow_backend_http_get_command backend;
  modify backend (λ s, s <| hb_get_body_only := false |>);;
  chandle ← curl_easy_init;
  let queues := bool_decide (command = BURROW_CMD_DELETE_QUEUES) in
  account ← (if queues then curl_easy_escape chandle (cmd_account cmd) else mret None);
  account_len ← (if queues then escaped_length account else mret 0%Z);
  filter ← burrow_backend_http_filters_to_string backend (cmd_filters cmd);
  let '(filter_str, filter_str_len) := filter in
  s ← load backend;
  if is_null filter_str && negb (filter_str_len =? 0)%Z then
    burrow_error (hb_burrow s) filter_str_len "Attempt to create URL type string from filters failed\n";;
    mret filter_str_len
  else
  let urllen := u64 (hb_baseurl_len s + hb_proto_version_len s + account_len + u64 filter_str_len + 128) in
  url ← malloc Libc (uninit_chars urllen);
  if is_null url then
    burrow_error (hb_burrow s) ENOMEM "Failed to malloc space for URL\n";;
    mret ENOMEM
  else
  baseurl ← get_string (hb_baseurl s);
  so_far ← snprintf url 0 urllen (baseurl +:+ "/" +:+ hb_proto_version s);
  send_delete backend queues chandle account filter_str url urllen so_far.

Definition burrow_backend_http_delete_accounts (p : ptr) (cmd : burrow_command_st) : M Z :=
  burrow_backend_http_common_delete p cmd.
Definition burrow_backend_http_delete_queues (p : ptr) (cmd : burrow_command_st) : M Z :=
  burrow_backend_http_common_delete p cmd.

(** ** Messages *)

(** The filters ask for nothing but bodies. *)
Definition wants_body_only (filters : ptr) : M bool :=
  if is_null filters then mret false else
  detail ← burrow_filters_isset_detail filters;
  if (detail : bool) then
    d ← burrow_filters_get_detail filters;
    mret (bool_decide (d = BURROW_DETAIL_BODY))
  else mret false.

(** The commands about one message, and those that send attributes. *)
Definition one_message (command : burrow_command_t) : bool :=
  match command with
  | BURROW_CMD_UPDATE_MESSAGE | BURROW_CMD_DELETE_MESSAGE | BURROW_CMD_GET_MESSAGE => true
  | _ => false
  end.
Definition updates (command : burrow_command_t) : bool :=
  match command with BURROW_CMD_UPDATE_MESSAGES | BURROW_CMD_UPDATE_MESSAGE => true | _ => false end.

(** The filters and the attributes behind the path. *)
Definition print_query (url : ptr) (urllen so_far : Z) (filter_str : ptr) (filter_str_len : Z)
    (attribute_str : ptr) (attribute_str_len : Z) : M unit :=
  so_far ← (if (filter_str_len =? 0)%Z then mret so_far else
            text ← get_string filter_str; append_url url urllen so_far ("?" +:+ text));
  (if (attribute_str_len =? 0)%Z then mret tt else
   text ← get_string attribute_str;
   append_url url urllen so_far ((if is_null filter_str then "?" else "&") +:+ text);;
   release Libc attribute_str);;
  if is_null filter_str then mret tt else release Libc filter_str.

Definition message_options (command : burrow_command_t) (chandle : ptr) : M unit :=
  match command with
  | BURROW_CMD_GET_MESSAGES | BURROW_CMD_GET_MESSAGE =>
      curl_easy_setopt chandle (CURLOPT_UPLOAD false);;
      curl_easy_setopt chandle (CURLOPT_HTTPGET true);; mret tt
  | BURROW_CMD_UPDATE_MESSAGES | BURROW_CMD_UPDATE_MESSAGE =>
      curl_easy_setopt chandle (CURLOPT_POST true);;
      curl_easy_setopt chandle (CURLOPT_POSTFIELDSIZE 0);; mret tt
  | BURROW_CMD_DELETE_MESSAGES | BURROW_CMD_DELETE_MESSAGE =>
      curl_easy_setopt chandle (CURLOPT_UPLOAD false);;
      curl_easy_setopt chandle (CURLOPT_CUSTOMREQUEST "DELETE");; mret tt
  | _ => mret tt
  end.

(** From the finished url on. *)
Definition send_getting (backend : ptr) (command : burrow_command_t) (chandle url : ptr) : M Z :=
  set_url chandle url;;
  message_options command chandle;;
  buffer ← receive_buffer chandle;
  (if updates command then
     curl_easy_setopt chandle (CURLOPT_READFUNCTION fn_user_buffer_curl_read_nothing_function);; mret tt
   else mret tt);;
  debug_options backend chandle;;
  use_handle backend chandle;;
  use_buffer backend buffer;;
  burrow_backend_http_process backend.

Definition burrow_backend_http_common_getting (backend : ptr) (cmd : burrow_command_st) : M Z :=
  command ← burrow_backend_http_get_command backend;
  body_only ← wants_body_only (cmd_filters cmd);
  modify backend (λ s, s <| hb_get_body_only := body_only |>);;
  chandle ← curl_easy_init;
  account ← curl_easy_escape chandle (cmd_account cmd);
  account_len ← escaped_length account;
  queue ← curl_easy_escape chandle (cmd_queue cmd);
  queue_len ← escaped_length queue;
  message_id ← (if one_message command then curl_easy_escape chandle (cmd_message_id cmd) else mret None);
  message_id_len ← (if one_message command then escaped_length message_id else mret 0%Z);
  filter ← burrow_backend_http_filters_to_string backend (cmd_filters cmd);
  let '(filter_str, filter_str_len) := filter in
  s ← load backend;
  if is_null filter_str && negb (filter_str_len =? 0)%Z then
    burrow_error (hb_burrow s) filter_str_len "Attempt to create URL string from filters failed\n";;
    mret filter_str_len
  else
  attribute ← (if updates command then burrow_backend_http_attributes_to_string (cmd_attributes cmd) 0
               else mret (NULL, 0%Z));
  let '(attribute_str, attribute_str_len) := attribute in
  if is_null attribute_str && negb (attribute_str_len =? 0)%Z then
    burrow_error (hb_burrow s) attribute_str_len "Call to create string from attributes failed\n";;
    mret attribute_str_len
  else
  let urllen := u64 (hb_baseurl_len s + hb_proto_version_len s + account_len + queue_len + message_id_len
                     + u64 filter_str_len + u64 attribute_str_len + 128) in
  url ← malloc Libc (uninit_chars urllen);
  if is_null url then
    burrow_error (hb_burrow s) ENOMEM "Failed to malloc space for URL\n";;
    mret ENOMEM
  else
  baseurl ← get_string (hb_baseurl s);
  account ← required_text account;
  queue ← required_text queue;
  so_far ← append_url url urllen 0 (baseurl +:+ "/" +:+ hb_proto_version s +:+ "/" +:+ account +:+ "/" +:+ queue);
  so_far ← (if one_message command then
              message_id ← required_text message_id; append_url url urllen so_far ("/" +:+ message_id)
            else mret so_far);
  print_query url urllen so_far filter_str filter_str_len attribute_str attribute_str_len;;
  burrow_log_debug (hb_burrow s) "URL to send is \'%s\'\n";;
  send_getting backend command chandle url.

Definition burrow_backend_http_delete_message (p : ptr) (cmd : burrow_command_st) : M Z :=
  burrow_backend_http_common_getting p cmd.
Definition burrow_backend_http_delete_messages (p : ptr) (cmd : burrow_command_st) : M Z :=
  burrow_backend_http_common_getting p cmd.
Definition burrow_backend_http_get_message (p : ptr) (cmd : burrow_command_st) : M Z :=
  burrow_backend_http_common_getting p cmd.
Definition burrow_backend_http_get_messages (p : ptr) (cmd : burrow_command_st) : M Z :=
  burrow_backend_http_common_getting p cmd.
Definition burrow_backend_http_update_message (p : ptr) (cmd : burrow_command_st) : M Z :=
  burrow_backend_http_common_getting p cmd.
Definition burrow_backend_http_update_messages (p : ptr) (cmd : burrow_command_st) : M Z :=
  burrow_backend_http_common_getting p cmd.

Definition burrow_backend_http_functions : burrow_backend_functions_st := {|
  be_create := burrow_backend_http_create;
  be_destroy := burrow_backend_http_destroy;
  be_room := λ j, BHttp (uninit_http j);
  be_set_option := Some burrow_backend_http_set_option;
  be_set_option_int := None;
  be_cancel := None;
  be_process := Some burrow_backend_http_process;
  be_event_raised := Some burrow_backend_http_event_raised;
  be_command := λ c,
    match c with
    | BURROW_CMD_GET_ACCOUNTS => Some burrow_backend_http_get_accounts
    | BURROW_CMD_DELETE_ACCOUNTS => Some burrow_backend_http_delete_accounts
    | BURROW_CMD_GET_QUEUES => Some burrow_backend_http_get_queues
    | BURROW_CMD_DELETE_QUEUES => Some burrow_backend_http_delete_queues
    | BURROW_CMD_GET_MESSAGES => Some burrow_backend_http_get_messages
    | BURROW_CMD_UPDATE_MESSAGES => Some burrow_backend_http_update_messages
    | BURROW_CMD_DELETE_MESSAGES => Some burrow_backend_http_delete_messages
    | BURROW_CMD_GET_MESSAGE => Some burrow_backend_http_get_message
    | BURROW_CMD_UPDATE_MESSAGE => Some burrow_backend_http_update_message
    | BURROW_CMD_DELETE_MESSAGE => Some burrow_backend_http_delete_message
    | BURROW_CMD_CREATE_MESSAGE => Some burrow_backend_http_create_message
    | BURROW_CMD_NONE => None
    end |}.
End Backend.
