(* ===== verification/HttpProtocol.v ===== *)
(** What the http backend says to the server, without its memory: the request an
    easy handle stands for, the request each command is to make, and how a
    transfer goes. Pure and executable: the reference for CurlBackend.v. *)
From stdpp Require Import pretty.
From S2P Require Import Prelude JsonData CurlData Types Heap Attributes Filters Burrow JsonParser JsonProcessing CurlBackend.

(** ** Requests *)

Record request := Request { rq_method : string; rq_url : string }.

(** What libcurl's documentation says of the options: [CURLOPT_UPLOAD] makes it a
    PUT, or a GET again, [CURLOPT_HTTPGET] a GET, [CURLOPT_POST] a POST, and
    [CURLOPT_CUSTOMREQUEST] replaces the method's name. The last one counts. *)
Definition url_option (url : string) (o : CURLoption) : string :=
  match o with CURLOPT_URL u => u | _ => url end.
Definition method_option (m : string * option string) (o : CURLoption) : string * option string :=
  match o with
  | CURLOPT_UPLOAD on => (if on then "PUT" else "GET", m.2)
  | CURLOPT_HTTPGET true => ("GET", m.2)
  | CURLOPT_POST true => ("POST", m.2)
  | CURLOPT_CUSTOMREQUEST name => (m.1, Some name)
  | _ => m
  end.
Definition request_of (opts : list CURLoption) : request :=
  let m := fold_left method_option opts ("GET", None) in
  Request (default m.1 m.2) (fold_left url_option opts "").

(** ** What a command is to ask for *)

(** [k=v] for each attribute that is set. *)
Definition attribute_items (set ttl hide : Z) : list string :=
  (if has_flag set BURROW_ATTRIBUTES_TTL then ["ttl=" +:+ pretty ttl] else []) ++
  (if has_flag set BURROW_ATTRIBUTES_HIDE then ["hide=" +:+ pretty hide] else []).
Definition items_of_attributes (a : burrow_attributes_st) : list string :=
  attribute_items (at_set a) (at_ttl a) (at_hide a).

Definition detail_text (d : burrow_detail_t) : string :=
  match d with
  | BURROW_DETAIL_NONE => "none" | BURROW_DETAIL_ID => "id" | BURROW_DETAIL_ATTRIBUTES => "attributes"
  | BURROW_DETAIL_BODY => "body" | BURROW_DETAIL_ALL => "all"
  end.

(** The same for filters; their numbers are printed as an [int]. *)
Definition plain_items (f : burrow_filters_st) : list string :=
  (if has_flag (fi_set f) BURROW_FILTERS_MATCH_HIDDEN
   then ["match_hidden=" +:+ if fi_match_hidden f then "true" else "false"] else []) ++
  (if has_flag (fi_set f) BURROW_FILTERS_LIMIT then ["limit=" +:+ pretty (i32 (fi_limit f))] else []) ++
  (if has_flag (fi_set f) BURROW_FILTERS_WAIT then ["wait=" +:+ pretty (i32 (fi_wait f))] else []) ++
  (if has_flag (fi_set f) BURROW_FILTERS_DETAIL then ["detail=" +:+ detail_text (fi_detail f)] else []).
Definition items_of_filters (escape : string → string) (f : burrow_filters_st) : list string :=
  plain_items f ++ match fi_marker f with Some m => ["marker=" +:+ escape m] | None => [] end.

Definition joined (items : list string) : string := String.concat "&" items.
Definition query (items : list string) : string :=
  match items with [] => "" | _ => "?" +:+ joined items end.

(** The parts of the path a command names. *)
Definition path_of (escape : string → string) (k : burrow_command_t) (c : burrow_command_st) : list string :=
  let part s := match s with Some s => [escape s] | None => [] end in
  match k with
  | BURROW_CMD_GET_ACCOUNTS | BURROW_CMD_DELETE_ACCOUNTS | BURROW_CMD_NONE => []
  | BURROW_CMD_GET_QUEUES | BURROW_CMD_DELETE_QUEUES => part (cmd_account c)
  | BURROW_CMD_GET_MESSAGES | BURROW_CMD_UPDATE_MESSAGES | BURROW_CMD_DELETE_MESSAGES =>
      part (cmd_account c) ++ part (cmd_queue c)
  | BURROW_CMD_GET_MESSAGE | BURROW_CMD_UPDATE_MESSAGE | BURROW_CMD_DELETE_MESSAGE
  | BURROW_CMD_CREATE_MESSAGE =>
      part (cmd_account c) ++ part (cmd_queue c) ++ part (cmd_message_id c)
  end.

Definition method_of (k : burrow_command_t) : string :=
  match k with
  | BURROW_CMD_DELETE_ACCOUNTS | BURROW_CMD_DELETE_QUEUES | BURROW_CMD_DELETE_MESSAGES
  | BURROW_CMD_DELETE_MESSAGE => "DELETE"
  | BURROW_CMD_UPDATE_MESSAGES | BURROW_CMD_UPDATE_MESSAGE => "POST"
  | BURROW_CMD_CREATE_MESSAGE => "PUT"
  | _ => "GET"
  end.

(** What of the filters and the attributes is sent. A listing is asked for without
    its filters. *)
Definition sends_filters (k : burrow_command_t) : bool :=
  match k with
  | BURROW_CMD_GET_ACCOUNTS | BURROW_CMD_GET_QUEUES | BURROW_CMD_CREATE_MESSAGE | BURROW_CMD_NONE => false
  | _ => true
  end.
Definition sends_attributes (k : burrow_command_t) : bool :=
  match k with
  | BURROW_CMD_CREATE_MESSAGE | BURROW_CMD_UPDATE_MESSAGES | BURROW_CMD_UPDATE_MESSAGE => true
  | _ => false
  end.

Definition items_sent (escape : string → string) (k : burrow_command_t) (f : option burrow_filters_st)
    (a : option burrow_attributes_st) : list string :=
  match f with Some f => if sends_filters k then items_of_filters escape f else [] | None => [] end ++
  match a with Some a => if sends_attributes k then items_of_attributes a else [] | None => [] end.

Definition url_of (base : string) (path items : list string) : string :=
  String.concat "/" (base :: "v1.0" :: path) +:+ query items.

Definition request_for (escape : string → string) (base : string) (k : burrow_command_t) (c : burrow_command_st)
    (f : option burrow_filters_st) (a : option burrow_attributes_st) : request :=
  Request (method_of k) (url_of base (path_of escape k c) (items_sent escape k f a)).

(** ** How a transfer goes *)

(** What has come in. *)
Definition received_one (i : io) : bytes := match i with Recv data => data | _ => [] end.
Definition received (ios : list io) : bytes := ios ≫= received_one.

(** What one call of burrow_backend_http_process makes of the steps to come: the
    callbacks, the steps left, and how libcurl answered ([None]: there was nothing
    left to do). *)
Fixpoint pump (steps : list step) : list io * list step * option verdict :=
  match steps with
  | [] => ([], [], None)
  | st :: steps =>
      match st_verdict st with
      | Again => let '(ios, rest, v) := pump steps in (st_io st ++ ios, rest, v)
      | Ended _ as v => (st_io st, [], Some v)
      | v => (st_io st, steps, Some v)
      end
  end.

(** The descriptors a transfer waits on, and what [poll] is to wait for. *)
Definition wanted (f : fdsets) (i : Z) : Prop := i ∈ fd_read f ∨ i ∈ fd_write f.
Definition poll_for (f : fdsets) (i : Z) : Z :=
  Z.lor (if decide (i ∈ fd_read f) then POLLIN else 0) (if decide (i ∈ fd_write f) then POLLOUT else 0).

(** The end of a transfer that is resumed whenever its descriptors are ready. *)
Inductive ending :=
  | Completed (ios : list io)   (** all has come in *)
  | Abandoned                   (** left running: libcurl had no descriptor to wait on *)
  | Failed.                     (** with an error *)

Fixpoint converse (before : list io) (steps : list step) : ending :=
  match steps with
  | [] => Completed before
  | st :: steps =>
      let now := before ++ st_io st in
      match st_verdict st with
      | Again => converse now steps
      | Running f => if decide (fd_max f = -1)%Z then Abandoned else converse now steps
      | Ended r => if decide (r = CURLE_OK) then Completed now else Failed
      | Broken _ => Failed
      end
  end.
