(* ===== verification/TextFacts.v ===== *)
(** Lemmas on strings: appending, cutting, joining, and how long a number is when
    it is printed. *)
From stdpp Require Import pretty.
From S2P Require Import Prelude HttpProtocol.
From Stdlib Require Import ssreflect.

Lemma string_app_cons x a b : String x a +:+ b = String x (a +:+ b).
Proof. done. Qed.

Lemma string_length_app a b : String.length (a +:+ b) = String.length a + String.length b.
Proof. induction a as [|x a IH]; [done|]. rw string_app_cons /=. by rw IH. Qed.

Lemma string_app_assoc a b c : (a +:+ b) +:+ c = a +:+ (b +:+ c).
Proof. induction a as [|x a IH]; [done|]. by rw !string_app_cons IH. Qed.

Lemma string_app_nil_r a : a +:+ "" = a.
Proof. induction a as [|x a IH]; [done|]. by rw string_app_cons IH. Qed.

Lemma substring_all n s : String.length s ≤ n → String.substring 0 n s = s.
Proof.
  revert n. induction s as [|c s IH]; intros [|n] H; simpl in *; try done; try lia.
  rw IH //. lia.
Qed.

Lemma substring_app a n b : String.substring 0 (String.length a + n) (a +:+ b) = a +:+ String.substring 0 n b.
Proof. induction a as [|c a IH]; [done|]. rw !string_app_cons /=. by rw IH. Qed.

Lemma substring_app_l a b : String.substring 0 (String.length a) (a +:+ b) = a.
Proof.
  rw -(Nat.add_0_r (String.length a)) substring_app. by destruct b; rw /= string_app_nil_r.
Qed.

Lemma length_substring n s : String.length (String.substring 0 n s) = Nat.min n (String.length s).
Proof. revert n. induction s as [|c s IH]; intros [|n]; simpl; [done..|]. by rw IH. Qed.

Lemma length_list_ascii s : length (String.list_ascii_of_string s) = String.length s.
Proof. induction s as [|c s IH]; simpl; congruence. Qed.

(** ** Joined items *)

Lemma concat_cons sep x xs :
  xs ≠ [] → String.concat sep (x :: xs) = x +:+ sep +:+ String.concat sep xs.
Proof. by destruct xs. Qed.

Lemma concat_app sep xs ys :
  xs ≠ [] → ys ≠ [] → String.concat sep (xs ++ ys) = String.concat sep xs +:+ sep +:+ String.concat sep ys.
Proof.
  intros Hx Hy. induction xs as [|x xs IH]; [done|]. rw -app_comm_cons.
  destruct xs as [|x' xs].
  - rw app_nil_l concat_cons //.
  - rw !(concat_cons _ x) // IH // !string_app_assoc //.
Qed.

Lemma joined_snoc xs y :
  joined (xs ++ [y]) = match xs with [] => y | _ => joined xs +:+ "&" +:+ y end.
Proof. destruct xs as [|x xs]; [done|]. unfold joined. by rw concat_app. Qed.

Lemma joined_nonempty xs : Forall (λ s, s ≠ "") xs → xs ≠ [] → 0 < String.length (joined xs).
Proof.
  intros [|x xs' Hx _]; [done|]. intros _. unfold joined.
  assert (0 < String.length x) by (destruct x; simpl; [done|lia]).
  destruct xs' as [|y ys]; [done|]. rw concat_cons // string_length_app. lia.
Qed.

Lemma length_joined_app xs ys : String.length (joined xs) ≤ String.length (joined (xs ++ ys)).
Proof.
  destruct xs as [|x xs]; [simpl; lia|]. destruct ys as [|y ys]; [by rw app_nil_r|].
  unfold joined. rw concat_app // !string_length_app. lia.
Qed.

(** At most an ampersand more than the items. *)
Lemma length_joined xs : String.length (joined xs) ≤ sum_list_with (λ s, S (String.length s)) xs.
Proof.
  unfold joined. induction xs as [|x xs IH]; [done|]. destruct xs as [|y ys]; [cbn; lia|].
  rw concat_cons // !string_length_app. cbn [String.length sum_list_with] in *. lia.
Qed.

(** ** Numbers *)

Lemma length_pretty_N_go k x s :
  (x < 10 ^ N.of_nat k)%N → String.length (pretty_N_go x s) ≤ k + String.length s.
Proof.
  revert x s. induction k as [|k IH]; intros x s Hx.
  - assert (x = 0%N) as -> by (change (10 ^ N.of_nat 0)%N with 1%N in Hx; lia). by rw pretty_N_go_0.
  - destruct (decide (x = 0)%N) as [->|Hne]; [rw pretty_N_go_0; lia|].
    rw pretty_N_go_step; [lia|]. etransitivity; [apply IH|simpl; lia].
    apply N.Div0.div_lt_upper_bound. rw Nat2N.inj_succ N.pow_succ_r' in Hx. lia.
Qed.

Lemma length_pretty_N k x : 0 < k → (x < 10 ^ N.of_nat k)%N → String.length (pretty x) ≤ k.
Proof.
  intros Hk Hx. unfold pretty, pretty_N. destruct (decide _); [simpl; lia|].
  etransitivity; [exact (length_pretty_N_go k x "" Hx)|simpl; lia].
Qed.

(** A 32-bit number, signed or not. *)
Lemma length_pretty_int (z : Z) : (-2147483648 ≤ z < 4294967296)%Z → String.length (pretty z) ≤ 11.
Proof.
  intros Hz. assert (∀ p, (Z.pos p < 4294967296)%Z → String.length (pretty (N.pos p)) ≤ 10) as Hp.
  { intros p Hp. apply length_pretty_N; [lia|]. change (10 ^ N.of_nat 10)%N with 10000000000%N. lia. }
  destruct z as [|p|p]; [simpl; lia| |]; specialize (Hp p).
  - transitivity 10; [apply Hp|]; lia.
  - change (pretty (Z.neg p)) with ("-" +:+ pretty (N.pos p)). rw string_length_app.
    change (String.length "-") with 1. lia.
Qed.

Lemma i32_bounds z : (-2147483648 ≤ JsonParser.i32 z < 2147483648)%Z.
Proof. unfold JsonParser.i32. pose proof (Z.mod_pos_bound (z + 2147483648) 4294967296). lia. Qed.
