(* ===== verification/JsonMachine.v ===== *)
(** The automaton of JSON_parser.c without its memory: a state, the text of the
    value being read and the stack of modes, and what a character makes of them.
    Pure and executable; JsonSpec.v proves that JSON_parser.c implements it. *)
From S2P Require Import Prelude JsonData Types Heap JsonParser.

(** What the callback is told. *)
Definition token : Type := JSON_type * JSON_value.

Record machine := Machine {
  ma_state : states; ma_before : states; ma_type : JSON_type; ma_surrogate : Z;
  ma_text : bytes; ma_modes : list modes  (** the top first *) }.
#[export] Instance eta_machine : Eta machine := λ a,
  Machine (ma_state a) (ma_before a) (ma_type a) (ma_surrogate a) (ma_text a) (ma_modes a).

(** The machine before the first character. *)
Definition machine_start : machine := Machine GO GO JSON_T_NONE 0 [] [MODE_DONE].

(** What a configuration fixes. *)
Record options := Options {
  op_depth : nat; op_comments : bool; op_manual_floats : bool; op_point : Ascii.ascii }.

(** After a character: the next state and what was told; what was told before the
    character was refused; or a false assertion. *)
Inductive verdict :=
  | Goes (a : machine) (told : list token)
  | Reject (told : list token)
  | Abort_assert.

Definition is_escape (s : states) : bool := match s with ES => true | _ => false end.
Definition is_comment (s : states) : bool := match s with C1 | C2 | C3 => true | _ => false end.

(** The text with the character: resolved after a backslash, dropped in comments
    and, when it is white space, between values. *)
Definition absorb (a : machine) (c : Z) (k : classes) : option bytes :=
  if is_escape (ma_state a) then
    match unescape_char c with Some cs => Some (removelast (ma_text a) ++ cs) | None => None end
  else if negb (is_comment (ma_state a)) &&
          (bool_decide (ma_type a ≠ JSON_T_NONE) || negb (is_space_class k))
  then Some (ma_text a ++ [to_char c]) else Some (ma_text a).

Definition string_value (text : bytes) : JSON_value :=
  VString (text ++ [Ascii.zero]) (Z.of_nat (length text)).

(** What is told of a complete value; [None] for [true], [false] and [null]. *)
Definition flush (o : options) (t : JSON_type) (text : bytes) : option (list token) :=
  match t with
  | JSON_T_NONE => Some []
  | JSON_T_INTEGER => Some [(t, VInteger (default 0%Z (scan_integer (c_text text))))]
  | JSON_T_FLOAT => Some [(t, if op_manual_floats o then string_value text else VFloat (c_text text))]
  | JSON_T_STRING => Some [(t, string_value text)]
  | _ => None
  end.

(** The bytes of a code point, and the high surrogate kept when it is one. *)
Fixpoint trail (n : nat) (uc : Z) : bytes :=
  match n with
  | O => []
  | S n => to_char (Z.lor (Z.land (Z.shiftr uc (6 * Z.of_nat n)) 63) 128) :: trail n uc
  end.
Definition utf8 (uc : Z) (n : nat) : bytes :=
  to_char (Z.lor (Z.shiftr uc (Z.of_nat n * 6)) (utf8_lead_bits n)) :: trail n uc.

Definition decode_utf16 (surrogate uc : Z) : option (bytes * Z) :=
  if negb (surrogate =? 0)%Z then
    if IS_LOW_SURROGATE uc then Some (utf8 (DECODE_SURROGATE_PAIR surrogate uc) 3, 0%Z) else None
  else if (uc <? 128)%Z then Some (utf8 uc 0, 0%Z)
  else if (uc <? 2048)%Z then Some (utf8 uc 1, 0%Z)
  else if IS_HIGH_SURROGATE uc then Some ([], uc)
  else if IS_LOW_SURROGATE uc then None
  else Some (utf8 uc 2, 0%Z).

(** The number that hexadecimal digits, most significant first, stand for. *)
Fixpoint hex_number (cs : bytes) (uc : Z) : Z :=
  match cs with
  | [] => uc
  | c :: cs => hex_number cs (Z.lor uc (u32 (Z.shiftl (hex_value c) (4 * Z.of_nat (length cs)))))
  end.

Definition mode_top (a : machine) : option modes := head (ma_modes a).

(** The stack without its top, when that is [m]; and with [m], when there is room. *)
Definition popped (m : modes) (ms : list modes) : option (list modes) :=
  match ms with
  | m' :: ms => if decide (m' = m) then Some ms else None
  | [] => None
  end.
Definition pushed (o : options) (m : modes) (ms : list modes) : option (list modes) :=
  if decide (length ms = S (op_depth o)) then None else Some (m :: ms).

Section Act.
Context (o : options).

Definition with_type (a : machine) (t : JSON_type) (s : states) : machine :=
  a <| ma_type := t |> <| ma_state := s |>.
Definition cleared (a : machine) : machine := a <| ma_text := [] |>.

Definition act_decode (a : machine) : verdict :=
  let n := length (ma_text a) in
  match decode_utf16 (ma_surrogate a) (hex_number (drop (n - 4) (ma_text a)) 0) with
  | Some (cs, sur) =>
      Goes (a <| ma_text := take (n - 6) (ma_text a) ++ cs |> <| ma_surrogate := sur |>
              <| ma_state := if (sur =? 0)%Z then ST else D1 |>) []
  | None => Reject []
  end.

Definition act_end (a : machine) (t : JSON_type) (m : modes) : verdict :=
  match flush o (ma_type a) (removelast (ma_text a)) with
  | None => Abort_assert
  | Some told =>
      match popped m (ma_modes a) with
      | Some ms => Goes (cleared (with_type a JSON_T_NONE OK) <| ma_modes := ms |>) (told ++ [(t, VNull)])
      | None => Reject (told ++ [(t, VNull)])
      end
  end.

Definition act_begin (a : machine) (t : JSON_type) (m : modes) (s : states) : verdict :=
  match pushed o m (ma_modes a) with
  | Some ms => Goes (a <| ma_text := removelast (ma_text a) |> <| ma_modes := ms |> <| ma_state := s |>)
                 [(t, VNull)]
  | None => Reject [(t, VNull)]
  end.

Definition act_comment (a : machine) : verdict :=
  if negb (op_comments o) then Reject [] else
  match flush o (ma_type a) (removelast (ma_text a)) with
  | None => Abort_assert
  | Some told =>
      Goes (cleared (with_type a JSON_T_NONE C1)
              <| ma_before := comment_return (mode_top a) (ma_state a) |>) told
  end.

Definition act_string (a : machine) : verdict :=
  let value := string_value (removelast (ma_text a)) in
  match mode_top a with
  | Some MODE_KEY => Goes (cleared (with_type a JSON_T_NONE CO)) [(JSON_T_KEY, value)]
  | Some MODE_ARRAY | Some MODE_OBJECT =>
      Goes (cleared (with_type a JSON_T_NONE OK)) [(JSON_T_STRING, value)]
  | _ => Reject []
  end.

Definition act_comma (a : machine) : verdict :=
  match flush o (ma_type a) (removelast (ma_text a)) with
  | None => Abort_assert
  | Some told =>
      match ma_modes a with
      | MODE_OBJECT :: ms => Goes (cleared (with_type a JSON_T_NONE KE) <| ma_modes := MODE_KEY :: ms |>) told
      | MODE_ARRAY :: _ => Goes (cleared (with_type a JSON_T_NONE VA)) told
      | _ => Reject told
      end
  end.

Definition act_colon (a : machine) : verdict :=
  match popped MODE_KEY (ma_modes a) with
  | Some ms => Goes (a <| ma_text := removelast (ma_text a) |> <| ma_modes := MODE_OBJECT :: ms |>
                       <| ma_state := VA |>) []
  | None => Reject []
  end.

Definition localised (text : bytes) : bytes :=
  if op_manual_floats o then text else removelast text ++ [op_point o].

Definition act (a : machine) (x : actions) : verdict :=
  match x with
  | UC => act_decode a
  | EX => Goes (a <| ma_state := ES |>) []
  | MX => Goes (with_type a JSON_T_INTEGER MI) []
  | ZX => Goes (with_type a JSON_T_INTEGER ZE) []
  | IX => Goes (with_type a JSON_T_INTEGER IT) []
  | DE => Goes (with_type a JSON_T_FLOAT E1) []
  | DF => Goes ((with_type a JSON_T_FLOAT FX) <| ma_text := localised (ma_text a) |>) []
  | SB => Goes (cleared (with_type a JSON_T_STRING ST)) []
  | NU => Goes (with_type a JSON_T_NULL N1) []
  | FA => Goes (with_type a JSON_T_FALSE F1) []
  | TR => Goes (with_type a JSON_T_TRUE T1) []
  | CE => Goes (a <| ma_state := ma_before a |>) []
  | CB => act_comment a
  | m9 =>
      match popped MODE_KEY (ma_modes a) with
      | Some ms => Goes (cleared a <| ma_modes := ms |> <| ma_state := OK |>) [(JSON_T_OBJECT_END, VNull)]
      | None => Reject [(JSON_T_OBJECT_END, VNull)]
      end
  | m8 => act_end a JSON_T_OBJECT_END MODE_OBJECT
  | m7 => act_end a JSON_T_ARRAY_END MODE_ARRAY
  | m6 => act_begin a JSON_T_OBJECT_BEGIN MODE_KEY OB
  | m5 => act_begin a JSON_T_ARRAY_BEGIN MODE_ARRAY AR
  | m4 => act_string a
  | m3 => act_comma a
  | m2 => act_colon a
  | __ => Reject []
  end.

Definition step (a : machine) (c : Z) : verdict :=
  if (c <? 0)%Z then Reject [] else
  match class_of c with
  | None => Reject []
  | Some k =>
      match absorb a c k with
      | None => Reject []
      | Some text =>
          let a := a <| ma_text := text |> in
          match state_transition_table (ma_state a) k with
          | Goto s => Goes (a <| ma_state := s |>) []
          | Act x => act a x
          end
      end
  end.

Definition tokens_of (v : verdict) : list token :=
  match v with Goes _ ts | Reject ts => ts | Abort_assert => [] end.

(** A whole text, and its end. *)
Fixpoint run (a : machine) (cs : list Z) : verdict :=
  match cs with
  | [] => Goes a []
  | c :: cs =>
      match step a c with
      | Goes a ts =>
          match run a cs with
          | Goes a ts' => Goes a (ts ++ ts')
          | Reject ts' => Reject (ts ++ ts')
          | Abort_assert => Abort_assert
          end
      | v => v
      end
  end.
End Act.

(** The text is complete. *)
Definition complete (a : machine) : bool :=
  bool_decide (ma_state a = OK ∨ ma_state a = GO) && bool_decide (head (ma_modes a) = Some MODE_DONE).
