(* ===== verification/JsonFacts.v ===== *)
(** What holds of the automaton of JsonMachine.v in every state it reaches, and
    that each step keeps it. *)
From S2P Require Import Prelude JsonData Types Heap JsonParser JsonMachine.
From iris.proofmode Require Import proofmode.

(** ** The invariant *)

(** An integer can be read from the text. *)
Definition scannable (text : bytes) : Prop := is_Some (scan_integer (c_text text)).

(** The text ends in [n] hexadecimal digits, with two characters before them. *)
Definition hex_tail (n : nat) (text : bytes) : Prop :=
  ∃ t hs, text = t ++ hs ∧ 2 ≤ length t ∧ length hs = n ∧ Forall (λ c, hex_value c < 16)%Z hs.

(** The innermost mode is one that takes values. *)
Definition takes_values (ms : list modes) : Prop :=
  head ms = Some MODE_ARRAY ∨ head ms = Some MODE_OBJECT.

Definition blank (t : JSON_type) (text : bytes) : Prop := t = JSON_T_NONE ∧ text = [].

(** A value after its last character, perhaps with white space behind it. *)
Definition value_read (t : JSON_type) (text : bytes) : Prop :=
  match t with
  | JSON_T_NONE => text = []
  | JSON_T_INTEGER => scannable text
  | JSON_T_FLOAT | JSON_T_NULL | JSON_T_TRUE | JSON_T_FALSE => True
  | _ => False
  end.

Definition before_ok (s : states) (ms : list modes) : Prop :=
  match s with
  | GO | OB | KE | CO | OK => True
  | VA | AR => takes_values ms
  | _ => False
  end.

Definition state_ok (a : machine) : Prop :=
  match ma_state a with
  | GO | OB | KE | CO => blank (ma_type a) (ma_text a)
  | VA | AR => blank (ma_type a) (ma_text a) ∧ takes_values (ma_modes a)
  | OK => value_read (ma_type a) (ma_text a)
  | ST | D1 => ma_type a = JSON_T_STRING
  | ES | D2 => ma_type a = JSON_T_STRING ∧ ma_text a ≠ []
  | U1 => ma_type a = JSON_T_STRING ∧ hex_tail 0 (ma_text a)
  | U2 => ma_type a = JSON_T_STRING ∧ hex_tail 1 (ma_text a)
  | U3 => ma_type a = JSON_T_STRING ∧ hex_tail 2 (ma_text a)
  | U4 => ma_type a = JSON_T_STRING ∧ hex_tail 3 (ma_text a)
  | MI => ma_type a = JSON_T_INTEGER ∧ ma_text a = [to_char 45] ∧ takes_values (ma_modes a)
  | ZE | IT => ma_type a = JSON_T_INTEGER ∧ scannable (ma_text a) ∧ takes_values (ma_modes a)
  | FR | FX | E1 | E2 | E3 => ma_type a = JSON_T_FLOAT ∧ takes_values (ma_modes a)
  | T1 | T2 | T3 => ma_type a = JSON_T_TRUE ∧ takes_values (ma_modes a)
  | F1 | F2 | F3 | F4 => ma_type a = JSON_T_FALSE ∧ takes_values (ma_modes a)
  | N1 | N2 | N3 => ma_type a = JSON_T_NULL ∧ takes_values (ma_modes a)
  | C1 | C2 | C3 => blank (ma_type a) (ma_text a) ∧ before_ok (ma_before a) (ma_modes a)
  end.

(** [MODE_DONE] is at the bottom of the stack and nowhere else, and the stack is
    no deeper than the configuration allows. *)
Definition stack_ok (o : options) (ms : list modes) : Prop :=
  (∃ ms', ms = ms' ++ [MODE_DONE] ∧ Forall (.≠ MODE_DONE) ms') ∧ length ms ≤ S (op_depth o).

Definition machine_ok (o : options) (a : machine) : Prop :=
  state_ok a ∧ stack_ok o (ma_modes a).

(** ** Characters and their classes *)

Lemma class_check (P : Z → classes → bool) :
  forallb (λ n, match class_of (Z.of_nat n) with
                | Some C_ETC | None => true | Some k => P (Z.of_nat n) k end) (seq 0 128) = true →
  ∀ c k, (0 ≤ c)%Z → class_of c = Some k → k ≠ C_ETC → P c k = true.
Proof.
  intros HP c k Hc Hk Hne. rw forallb_forall in HP.
  destruct (decide (c < 128)%Z) as [Hlt|Hge].
  - specialize (HP (Z.to_nat c)). rw Z2Nat.id // in HP. rw Hk in HP.
    destruct k; try done; apply HP, in_seq; lia.
  - unfold class_of in Hk. rw (proj2 (Z.leb_le _ _)) in Hk; [|lia]. congruence.
Qed.

Definition is_digit_class (k : classes) : bool :=
  match k with C_ZERO | C_DIGIT => true | _ => false end.
Definition is_hex_class (k : classes) : bool :=
  match k with
  | C_ZERO | C_DIGIT | C_LOW_A | C_LOW_B | C_LOW_C | C_LOW_D | C_LOW_E | C_LOW_F | C_ABCDF | C_E => true
  | _ => false
  end.

(** What the class says of the character. *)
Definition class_says (c : Z) (k : classes) : bool :=
  match k with
  | C_MINUS => (c =? 45)%Z
  | C_LOW_U => (c =? 117)%Z
  | C_POINT => (c =? 46)%Z
  | _ => true
  end &&
  (if is_digit_class k then bool_decide (is_Some (digit_of (to_char c))) else true) &&
  (if is_hex_class k then hex_value (to_char c) <? 16 else true)%Z.

Lemma class_of_says c k : (0 ≤ c)%Z → class_of c = Some k → class_says c k = true.
Proof.
  intros Hc Hk. destruct (decide (k = C_ETC)) as [->|Hne]; [done|].
  apply (class_check class_says); [by vm_compute|done..].
Qed.

Lemma class_digit c k :
  (0 ≤ c)%Z → class_of c = Some k → is_digit_class k = true → is_Some (digit_of (to_char c)).
Proof.
  intros Hc Hk Hd. pose proof (class_of_says c k Hc Hk) as H. unfold class_says in H.
  rw Hd in H. apply andb_prop in H as [H _]. apply andb_prop in H as [_ H].
  by apply bool_decide_eq_true in H.
Qed.

Lemma class_hex c k :
  (0 ≤ c)%Z → class_of c = Some k → is_hex_class k = true → (hex_value (to_char c) < 16)%Z.
Proof.
  intros Hc Hk Hh. pose proof (class_of_says c k Hc Hk) as H. unfold class_says in H.
  rw Hh in H. apply andb_prop in H as [_ H]. by apply Z.ltb_lt.
Qed.

Lemma class_minus c : (0 ≤ c)%Z → class_of c = Some C_MINUS → c = 45%Z.
Proof. intros Hc Hk. apply class_of_says in Hk; [|done]. apply andb_prop in Hk as [Hk _].
  apply andb_prop in Hk as [Hk _]. by apply Z.eqb_eq. Qed.
Lemma class_u c : (0 ≤ c)%Z → class_of c = Some C_LOW_U → c = 117%Z.
Proof. intros Hc Hk. apply class_of_says in Hk; [|done]. apply andb_prop in Hk as [Hk _].
  apply andb_prop in Hk as [Hk _]. by apply Z.eqb_eq. Qed.
Lemma class_point c : (0 ≤ c)%Z → class_of c = Some C_POINT → c = 46%Z.
Proof. intros Hc Hk. apply class_of_says in Hk; [|done]. apply andb_prop in Hk as [Hk _].
  apply andb_prop in Hk as [Hk _]. by apply Z.eqb_eq. Qed.

(** ** Numbers *)

Lemma c_text_snoc t c : c_text (t ++ [c]) = c_text t ∨ c_text t = t ∧ c_text (t ++ [c]) = t ++ [c].
Proof.
  induction t as [|b t IH]; simpl; [destruct (Ascii.eqb c Ascii.zero); auto|].
  destruct (Ascii.eqb b Ascii.zero); [by left|].
  destruct IH as [->|[-> ->]]; auto.
Qed.

Lemma c_text_terminated t rest : c_text (t ++ Ascii.zero :: rest) = c_text t.
Proof. induction t as [|b t IH]; simpl; [done|]. by rw IH. Qed.

Lemma skip_spaces_snoc t c :
  skip_spaces t ≠ [] → skip_spaces (t ++ [c]) = skip_spaces t ++ [c].
Proof. induction t as [|b t IH]; simpl; [done|]. by destruct (isspace b). Qed.

Lemma scan_integer_snoc t c : is_Some (scan_integer t) → is_Some (scan_integer (t ++ [c])).
Proof.
  unfold scan_integer. intros H. destruct (decide (skip_spaces t = [])) as [E|E].
  { rw E in H. by destruct H. }
  rw skip_spaces_snoc //. destruct (skip_spaces t) as [|b t']; [done|]. simpl in *.
  destruct (signed_char b =? 45)%Z; [destruct t'; [by destruct H|]|
    destruct (signed_char b =? 43)%Z; [destruct t'; [by destruct H|]|]]; simpl in *;
    by destruct (digit_of _).
Qed.

Lemma scannable_snoc t c : scannable t → scannable (t ++ [c]).
Proof.
  unfold scannable. intros H. destruct (c_text_snoc t c) as [->|[E ->]]; [done|].
  apply scan_integer_snoc. by rw -E.
Qed.

Lemma digit_char c :
  is_Some (digit_of c) → Ascii.eqb c Ascii.zero = false ∧ isspace c = false ∧
  (signed_char c =? 45)%Z = false ∧ (signed_char c =? 43)%Z = false.
Proof.
  unfold digit_of, isspace. cbv zeta. intros [d Hd].
  destruct ((48 <=? signed_char c) && (signed_char c <=? 57))%Z eqn:E; [|done].
  split; [apply Ascii.eqb_neq; intros ->; by vm_compute in E|].
  apply andb_prop in E as [H1%Z.leb_le H2%Z.leb_le].
  rw !(proj2 (Z.eqb_neq _ _)) ?(proj2 (Z.leb_gt (signed_char c) 13)); [|lia..].
  by rw andb_false_r.
Qed.

Lemma scannable_digit c : is_Some (digit_of c) → scannable [c].
Proof.
  intros Hd. destruct (digit_char c Hd) as (H0 & Hs & Hm & Hp).
  unfold scannable. simpl. rw H0. unfold scan_integer. simpl. rw Hs Hm Hp.
  destruct Hd as [d ->]. eauto.
Qed.

Lemma scannable_minus c : is_Some (digit_of c) → scannable [to_char 45; c].
Proof.
  intros Hd. destruct (digit_char c Hd) as (H0 & _). unfold scannable. simpl. rw H0.
  unfold scan_integer. simpl. destruct Hd as [d ->]. eauto.
Qed.

Lemma hex_tail_snoc n t c : hex_tail n t → (hex_value c < 16)%Z → hex_tail (S n) (t ++ [c]).
Proof.
  intros (u & hs & -> & Hu & Hn & Hh) Hc. exists u, (hs ++ [c]).
  rw (assoc_L (++)) length_app Hn /=. split_and!; [done|done|lia|].
  apply Forall_app. auto.
Qed.

Lemma value_read_snoc t text c : t ≠ JSON_T_NONE → value_read t text → value_read t (text ++ [c]).
Proof. destruct t; try done. intros _. apply scannable_snoc. Qed.

Create HintDb json.
#[export] Hint Resolve scannable_snoc scannable_digit scannable_minus hex_tail_snoc value_read_snoc : json.

(** ** The stack *)

Lemma stack_ok_popped o m ms ms' :
  m ≠ MODE_DONE → popped m ms = Some ms' → stack_ok o ms → stack_ok o ms'.
Proof.
  intros Hm Hp [(ms0 & -> & Hne) Hlen]. destruct ms0 as [|m0 ms0]; simpl in *.
  - by destruct (decide (MODE_DONE = m)) as [<-|].
  - destruct (decide (m0 = m)); [|done]. injection Hp as <-. apply Forall_cons in Hne as [_ Hne].
    split; [eauto|simpl in *; lia].
Qed.

Lemma stack_ok_pushed o m ms ms' :
  m ≠ MODE_DONE → pushed o m ms = Some ms' → stack_ok o ms → stack_ok o ms' ∧ head ms' = Some m.
Proof.
  unfold pushed. intros Hm Hp [(ms0 & -> & Hne) Hlen].
  destruct (decide (length (ms0 ++ [MODE_DONE]) = S (op_depth o))) as [|Hd]; [done|]. injection Hp as <-.
  split; [|done]. split; [|simpl; lia]. exists (m :: ms0). split; [done|]. by constructor.
Qed.

Lemma stack_ok_swap o m m' ms :
  m ≠ MODE_DONE → m' ≠ MODE_DONE → stack_ok o (m :: ms) → stack_ok o (m' :: ms).
Proof.
  intros Hm Hm' [(ms0 & E & Hne) Hlen]. destruct ms0 as [|m0 ms0]; simpl in *; simplify_eq.
  apply Forall_cons in Hne as [_ Hne]. split; [|done]. exists (m' :: ms0). split; [done|].
  by constructor.
Qed.

Lemma popped_cons m ms ms' : popped m ms = Some ms' → ms = m :: ms'.
Proof. destruct ms as [|m' ms]; simpl; [done|]. by destruct (decide (m' = m)) as [->|]; intros [= ->]. Qed.

(** ** What is told, and the length of the text *)

Lemma length_removelast {A} (l : list A) : length (removelast l) = length l - 1.
Proof.
  destruct l as [|x l] using rev_ind; [done|]. rw removelast_last length_app /=. lia.
Qed.

Lemma unescape_length c cs : unescape_char c = Some cs → length cs ≤ 2.
Proof.
  unfold unescape_char. repeat (destruct (_ =? _)%Z; [intros [= <-]; simpl; lia|]). done.
Qed.

Lemma trail_length n uc : length (trail n uc) = n.
Proof. induction n; simpl; congruence. Qed.

Lemma decode_length sur uc cs sur' : decode_utf16 sur uc = Some (cs, sur') → length cs ≤ 4.
Proof.
  assert (∀ n u, length (utf8 u n) = S n) as Hu by (intros; unfold utf8; simpl; by rw trail_length).
  unfold decode_utf16. repeat case_match; intros [= <- <-]; simpl; rw ?Hu; lia.
Qed.

(** ** Steps *)

(** A comment can begin in a state to which it can return. *)
Lemma before_comment o s t u ms :
  state_ok (Machine s GO t 0 u ms) → state_transition_table s C_SLASH = CB → stack_ok o ms →
  before_ok (comment_return (head ms) s) ms.
Proof.
  intros Hs Ht [(ms' & -> & Hne) _].
  destruct s; try discriminate Ht; cbv [state_ok takes_values before_ok] in *; cbn in *;
    destruct ms' as [|[] ms']; cbn in *; try done; destruct_and?; destruct_or?; auto; try done.
Qed.

Section Steps.
Context (o : options).

(** Evaluates what [absorb] does in a state whose type is known. *)
Ltac absorbed Ha :=
  repeat match goal with H : blank _ _ |- _ => destruct H as [-> ->] end; subst; cbn in Ha;
  repeat match type of Ha with context [bool_decide (?x ≠ ?y)] =>
    let v := eval vm_compute in (bool_decide (x ≠ y)) in change (bool_decide (x ≠ y)) with v in Ha
  end; cbn in Ha; try (injection Ha as <-).

(** A character that only changes the state keeps the invariant. *)
Lemma goto_ok a c k text s :
  (0 ≤ c)%Z → class_of c = Some k → absorb a c k = Some text →
  state_transition_table (ma_state a) k = Goto s → state_ok a →
  state_ok (a <| ma_text := text |> <| ma_state := s |>).
Proof.
  intros Hc Hk Ha Ht Hs. destruct a as [s0 b t sur u ms].
  destruct s0; destruct k; try discriminate Ht; injection Ht as <-; cbn in *; destruct_and?.
  all: try (absorbed Ha; split_and?; by eauto using class_hex with json).
  (* After a value, and after a minus. *)
  all: try (destruct t; absorbed Ha; by auto with json).
  all: try (absorbed Ha; split_and?; by eauto using class_digit with json).
  (* The u of an escape. *)
  - apply class_u in Hk as ->; [|done]. cbn in Ha. injection Ha as <-. split; [done|].
    exists (removelast u ++ [to_char 92; to_char 117]), []. rw app_nil_r length_app /=.
    split_and!; [done|lia|done..].
  - absorbed Ha. split; [done|]. by destruct u.
  - absorbed Ha. split; [done|]. exists (u ++ [to_char c]), []. rw app_nil_r length_app /=.
    split_and!; [done| |done..]. destruct u; [done|simpl; lia].
Qed.

Ltac goes := let H := fresh in intros H; simplify_eq/=.

(** What each group of actions makes of a machine that has absorbed the character. *)
Lemma act_end_ok a t m a' ts :
  m ≠ MODE_DONE → stack_ok o (ma_modes a) → act_end o a t m = Goes a' ts → machine_ok o a'.
Proof.
  unfold act_end. intros Hm Hst. destruct (flush _ _ _); [|done].
  destruct (popped m (ma_modes a)) as [ms|] eqn:Hp; [|done]. goes.
  split; [done|]. by eapply stack_ok_popped.
Qed.

Lemma act_begin_ok a t m s a' ts :
  stack_ok o (ma_modes a) → blank (ma_type a) (removelast (ma_text a)) →
  (m = MODE_KEY ∧ s = OB ∨ m = MODE_ARRAY ∧ s = AR) →
  act_begin o a t m s = Goes a' ts → machine_ok o a'.
Proof.
  unfold act_begin. intros Hst Hb Hms. destruct (pushed o m (ma_modes a)) as [ms|] eqn:Hp; [|done]. goes.
  assert (m ≠ MODE_DONE) as Hm by (by destruct Hms as [[-> _]|[-> _]]).
  destruct (stack_ok_pushed _ _ _ _ Hm Hp Hst) as [Hst' Hhd]. split; [|done].
  destruct Hms as [[-> ->]|[-> ->]]; [done|]. split; [done|]. by left.
Qed.

Lemma act_comment_ok a a' ts :
  stack_ok o (ma_modes a) → before_ok (comment_return (mode_top a) (ma_state a)) (ma_modes a) →
  act_comment o a = Goes a' ts → machine_ok o a'.
Proof.
  unfold act_comment. intros Hst Hb. destruct (negb _); [done|]. destruct (flush _ _ _); [|done].
  goes. by split.
Qed.

Lemma act_string_ok a a' ts :
  stack_ok o (ma_modes a) → act_string a = Goes a' ts → machine_ok o a'.
Proof. unfold act_string. intros Hst. destruct (mode_top a) as [[]|]; goes; done. Qed.

Lemma act_comma_ok a a' ts :
  stack_ok o (ma_modes a) → act_comma o a = Goes a' ts → machine_ok o a'.
Proof.
  unfold act_comma. intros Hst. destruct (flush _ _ _); [|done].
  destruct (ma_modes a) as [|[] ms] eqn:E; [done|..]; goes; split; rw ?E //.
  - split; [done|]. left. by rw /= E.
  - by apply (stack_ok_swap _ MODE_OBJECT).
Qed.

Lemma act_colon_ok a a' ts :
  stack_ok o (ma_modes a) → blank (ma_type a) (removelast (ma_text a)) →
  act_colon a = Goes a' ts → machine_ok o a'.
Proof.
  unfold act_colon. intros Hst Hb. destruct (popped _ _) as [ms|] eqn:Hp; [|done]. goes.
  apply popped_cons in Hp. rw Hp in Hst. split; [|by apply (stack_ok_swap _ MODE_KEY)].
  split; [done|]. by right.
Qed.

Lemma act_decode_ok a a' ts :
  stack_ok o (ma_modes a) → ma_type a = JSON_T_STRING → act_decode a = Goes a' ts → machine_ok o a'.
Proof.
  unfold act_decode. intros Hst Ht. destruct (decode_utf16 _ _) as [[cs sur]|]; [|done]. goes.
  split; [|done]. by destruct (sur =? 0)%Z.
Qed.

Lemma act_ok a c k text x a' ts :
  (0 ≤ c)%Z → class_of c = Some k → absorb a c k = Some text →
  state_transition_table (ma_state a) k = Act x → machine_ok o a →
  act o (a <| ma_text := text |>) x = Goes a' ts → machine_ok o a'.
Proof.
  intros Hc Hk Ha Ht [Hs Hst] Hn. pose proof Hs as Hs0. destruct a as [s0 b t sur u ms].
  destruct s0; destruct k; try discriminate Ht; injection Ht as <-; try discriminate Hn; cbn in *; destruct_and?.
  all: try (by eapply act_end_ok, Hn).
  all: try (by eapply act_string_ok, Hn).
  all: try (by eapply act_comma_ok, Hn).
  all: try (by eapply act_decode_ok, Hn).
  all: try (eapply act_comment_ok, Hn; [done|]; by apply (before_comment o _ t u)).
  all: absorbed Ha.
  all: try (by eapply act_colon_ok, Hn).
  all: try (eapply act_begin_ok, Hn; by auto).
  all: try (injection Hn as <- <-; split; [cbn; split_and?; by eauto using class_digit with json|done]).
  (* An empty object, a minus twice, a backslash, the end of a comment. *)
  - destruct (popped MODE_KEY ms) as [ms'|] eqn:Hp; [|done]. injection Hn as <- <-.
    split; [done|]. by apply (stack_ok_popped o MODE_KEY ms).
  - apply class_minus in Hk as ->; [|done]. injection Hn as <- <-. by split.
  - apply class_minus in Hk as ->; [|done]. injection Hn as <- <-. by split.
  - injection Hn as <- <-. split; [|done]. split; [done|]. by destruct u.
  - injection Hn as <- <-. split; [|done]. by destruct b.
Qed.

(** Each step keeps the invariant. *)
Lemma step_ok a c a' ts : machine_ok o a → step o a c = Goes a' ts → machine_ok o a'.
Proof.
  intros Hok. unfold step. destruct (Z.ltb_spec c 0) as [|Hc]; [done|].
  destruct (class_of c) as [k|] eqn:Hk; [|done].
  destruct (absorb a c k) as [text|] eqn:Ha; [|done].
  cbv zeta. change (ma_state (a <| ma_text := text |>)) with (ma_state a).
  destruct (state_transition_table (ma_state a) k) as [s|x] eqn:Ht.
  - intros [= <- <-]. destruct Hok as [Hs Hst]. split; [|done]. by eapply goto_ok.
  - intros Hn. by eapply act_ok.
Qed.

Lemma run_ok cs a a' ts : machine_ok o a → run o a cs = Goes a' ts → machine_ok o a'.
Proof.
  revert a ts. induction cs as [|c cs IH]; intros a ts Hok; simpl; [by intros [= <- _]|].
  destruct (step o a c) as [a1 ts1| |] eqn:Hs; [|done..].
  destruct (run o a1 cs) as [a2 ts2| |] eqn:Hr; [|done..]. intros [= <- <-].
  eapply IH; [|done]. by eapply step_ok.
Qed.

Lemma machine_start_ok : machine_ok o machine_start.
Proof. split; [done|]. split; [by exists []|simpl; lia]. Qed.

(** ** What an action finds

    What holds when the action [x] of the table is taken, after the character has
    been absorbed: the assertions of JSON_parser.c, and what else its code relies
    on. *)
Definition value_flushed a : Prop :=
  ma_text a ≠ [] ∧ ma_type a ≠ JSON_T_STRING ∧
  (ma_type a = JSON_T_INTEGER → scannable (removelast (ma_text a))).

Definition act_finds (x : actions) (a : machine) : Prop :=
  match x with
  | UC => 6 ≤ length (ma_text a) ∧
      Forall (λ c, hex_value c < 16)%Z (drop (length (ma_text a) - 4) (ma_text a))
  | DE => is_no_string_null_or_bool (ma_type a) = true
  | DF => is_no_string_null_or_bool (ma_type a) = true ∧ ∃ u, ma_text a = u ++ [to_char 46]
  | SB | NU | FA | TR => ma_type a = JSON_T_NONE
  | CE => blank (ma_type a) (ma_text a) ∧
      is_escape (ma_before a) = false ∧ is_comment (ma_before a) = false
  | CB | m8 | m7 | m3 => value_flushed a
  | m6 | m5 | m2 => ma_text a ≠ [] ∧ ma_type a = JSON_T_NONE
  | m4 => ma_text a ≠ [] ∧ ma_type a = JSON_T_STRING
  | EX | MX | ZX | IX | m9 | __ => True
  end ∧
  (x = __ ∨ is_escape (ma_state a) = false ∧
            is_comment (ma_state a) = match x with CE => true | _ => false end).

Lemma snoc_not_nil {A} (l : list A) x : l ++ [x] ≠ [].
Proof. by destruct l. Qed.

Lemma value_flushed_snoc s b t sur u ms c :
  value_read t u → value_flushed (Machine s b t sur (u ++ [c]) ms).
Proof.
  intros H. unfold value_flushed. simpl. rw removelast_last.
  split_and!; [apply snoc_not_nil| |]; by destruct t.
Qed.

Lemma hex_tail_finds u c :
  hex_tail 3 u → (hex_value c < 16)%Z →
  6 ≤ length (u ++ [c]) ∧
  Forall (λ c, hex_value c < 16)%Z (drop (length (u ++ [c]) - 4) (u ++ [c])).
Proof.
  intros H Hc. destruct (hex_tail_snoc _ _ _ H Hc) as (v & hs & -> & Hv & Hn & Hh).
  rw length_app Hn. split; [lia|]. replace (length v + 4 - 4) with (length v) by lia.
  by rw drop_app_length.
Qed.

Lemma act_finds_ok a c k text x :
  (0 ≤ c)%Z → class_of c = Some k → absorb a c k = Some text →
  state_transition_table (ma_state a) k = Act x → state_ok a →
  act_finds x (a <| ma_text := text |>).
Proof.
  intros Hc Hk Ha Ht Hs. destruct a as [s0 b t sur u ms]. unfold act_finds.
  destruct s0; destruct k; try discriminate Ht; injection Ht as <-; (split; [|by auto]); try exact Logic.I;
    cbn in Hs, Ha |- *; destruct_and?; absorbed Ha.
  all: try (split_and?; auto using snoc_not_nil; done).
  all: try (apply hex_tail_finds; [done|]; by eapply class_hex).
  all: try (apply (value_flushed_snoc _ _ _ _ []); done).
  all: try (apply value_flushed_snoc; done).
  all: try (rw orb_true_r in Ha; injection Ha as <-; by apply value_flushed_snoc).
  1,2: split; [done|]; exists u; by apply class_point in Hk as ->.
  split; [done|]. by destruct b.
Qed.

(** ** How fast the text grows *)

Lemma absorb_length a c k text : absorb a c k = Some text → length text ≤ length (ma_text a) + 2.
Proof.
  unfold absorb. destruct (is_escape _).
  - destruct (unescape_char c) as [cs|] eqn:Hu; [|done]. intros [= <-].
    apply unescape_length in Hu. rw length_app length_removelast. lia.
  - destruct (_ && _); intros [= <-]; rw ?length_app /=; lia.
Qed.

Lemma act_length a x a' ts : act o a x = Goes a' ts → length (ma_text a') ≤ length (ma_text a) + 4.
Proof.
  destruct x; cbn.
  all: try (unfold act_end, act_begin, act_comment, act_string, act_comma, act_colon;
    repeat case_match; intros H'; simplify_eq/=; rw ?length_removelast; lia).
  - intros H. simplify_eq/=. unfold localised. destruct (op_manual_floats o); [lia|].
    rw length_app length_removelast /=. lia.
  - unfold act_decode. destruct (decode_utf16 _ _) as [[cs sur]|] eqn:Hd; [|done].
    apply decode_length in Hd. intros H. simplify_eq/=. rw length_app length_take. lia.
Qed.

Lemma step_length a c a' ts : step o a c = Goes a' ts → length (ma_text a') ≤ length (ma_text a) + 6.
Proof.
  unfold step. destruct (c <? 0)%Z; [done|]. destruct (class_of c) as [k|]; [|done].
  destruct (absorb a c k) as [text|] eqn:Ha; [|done]. apply absorb_length in Ha.
  cbv zeta. destruct (state_transition_table _ k) as [s|x].
  - intros H. simplify_eq/=. lia.
  - intros H%act_length. simpl in H. lia.
Qed.
End Steps.
