(* ===== verification/Dictionary.v ===== *)
(** backends/memory/dictionary.c: an insertion-ordered dictionary as a doubly
    linked list of nodes on the heap. *)
From S2P Require Import Prelude Types Heap Macros.

Inductive dictionary_get_action_t := SEARCH | CREATE.

#[export] Instance get_action_eq_dec : EqDecision dictionary_get_action_t.
Proof. solve_decision. Defined.

(** [DICTIONARY_LENGTH]: the upper bound that stands for "all of it". *)
Definition DICTIONARY_LENGTH : Z := 0.

(** What [malloc] hands out before the fields are assigned. *)
Definition junk_ptr (j : Z) : ptr := Some (Z.to_pos j).
Definition uninit_dictionary (j : Z) : dictionary_st :=
  Dictionary (junk_ptr j) (junk_ptr j) j (junk_ptr j).
Definition uninit_node (j : Z) : dictionary_node_st :=
  DictNode (junk_ptr j) (junk_ptr j) (junk_ptr j) (junk_ptr j).

(** A [strlen], [strcpy] or [strcmp] argument. *)
Definition deref_cstr (s : cstr) : M string :=
  match s with Some s => mret s | None => undefined NullDeref end.

Definition dictionary_init (self burrow : ptr) : M ptr :=
  self ← (if is_null self then
            self ← burrow_malloc burrow uninit_dictionary;
            (if is_null self
             then burrow_log_error burrow "init(): malloc failed." else mret tt);;
            mret self
          else mret self);
  if is_null self then mret NULL else
  modify self (λ d, d <| d_first := NULL |>);;
  modify self (λ d, d <| d_last := NULL |>);;
  modify self (λ d, d <| d_length := 0%Z |>);;
  modify self (λ d, d <| d_burrow := burrow |>);;
  mret self.

Definition dictionary_add (self : ptr) (key : cstr) (data_pointer : ptr) : M ptr :=
  if is_null self then mret NULL else
  d ← load self;
  new_node ← burrow_malloc (d_burrow d) uninit_node;
  if is_null new_node then
    burrow_log_error (d_burrow d) "add(): malloc failed: new_node";;
    mret NULL
  else
  k ← deref_cstr key;
  key_buf ← burrow_malloc (d_burrow d) (uninit_chars (Z.of_nat (String.length k) + 1));
  modify new_node (λ n, n <| n_key := key_buf |>);;
  if is_null key_buf then
    burrow_log_error (d_burrow d) "add(): malloc failed: new_node->key";;
    burrow_free (d_burrow d) new_node;;
    mret NULL
  else
  strcpy key_buf k;;
  modify new_node (λ n, n <| n_previous := d_last d |>);;
  (if is_null (d_last d) then mret tt
   else modify (d_last d) (λ n, n <| n_next := new_node |>));;
  modify self (λ d, d <| d_last := new_node |>);;
  (if is_null (d_first d) then modify self (λ d, d <| d_first := new_node |>)
   else mret tt);;
  modify new_node (λ n, n <| n_next := NULL |>);;
  modify new_node (λ n, n <| n_data := data_pointer |>);;
  modify self (λ d, d <| d_length := (d_length d + 1)%Z |>);;
  mret new_node.

(** The search loop of [dictionary_get], from a node and a count. *)
Definition get_step (self : ptr) (key : string) (s : ptr * Z) : M (ptr * Z + ptr) :=
  let '(current_node, i) := s in
  d ← load self;
  if (i <? d_length d)%Z then
    n ← load current_node;
    k ← get_string (n_key n);
    if String.eqb k key then mret (inr current_node)
    else mret (inl (n_next n, i + 1)%Z)
  else mret (inr current_node).

Definition dictionary_get (self : ptr) (key : cstr)
    (default_action : dictionary_get_action_t) : M ptr :=
  match key with
  | None => mret NULL
  | Some k =>
      if is_null self then mret NULL else
      d ← load self;
      fuel ← heap_fuel;
      current_node ← loop fuel (get_step self k) (d_first d, 0%Z);
      if is_null current_node && bool_decide (default_action = CREATE) then
        temp ← dictionary_add self key NULL;
        if is_null temp then mret NULL else
        messages ← dictionary_init NULL (d_burrow d);
        if is_null messages then mret NULL else
        modify temp (λ n, n <| n_data := messages |>);;
        mret temp
      else mret current_node
  end.

Definition dictionary_delete_node (self : ptr) (key : cstr) : M unit :=
  if is_null self then mret tt else
  current_node ← dictionary_get self key SEARCH;
  if is_null current_node then mret tt else
  n ← load current_node;
  (if is_null (n_previous n)
   then modify self (λ d, d <| d_first := n_next n |>)
   else modify (n_previous n) (λ p, p <| n_next := n_next n |>));;
  (if is_null (n_next n)
   then modify self (λ d, d <| d_last := n_previous n |>)
   else modify (n_next n) (λ q, q <| n_previous := n_previous n |>));;
  d ← load self;
  burrow_free (d_burrow d) (n_key n);;
  burrow_free (d_burrow d) current_node;;
  modify self (λ d, d <| d_length := (d_length d - 1)%Z |>).

(** [while(current_node && u_bound)] of [dictionary_delete]; [u_bound] is a
    signed integer that only stops the loop at zero. *)
Definition delete_step (self : ptr) (s : ptr * Z) : M (ptr * Z + unit) :=
  let '(current_node, u_bound) := s in
  if negb (is_null current_node) && negb (u_bound =? 0)%Z then
    n ← load current_node;
    k ← get_string (n_key n);
    dictionary_delete_node self (Some k);;
    mret (inl (n_next n, u_bound - 1)%Z)
  else mret (inr tt).

Definition dictionary_delete (self : ptr) (l_bound_key : cstr) (u_bound : Z) : M unit :=
  if is_null self then mret tt else
  d ← load self;
  if (d_length d =? 0)%Z then mret tt else
  found ← dictionary_get self l_bound_key SEARCH;
  let current_node := if is_null found then d_first d else found in
  fuel ← heap_fuel;
  loop fuel (delete_step self) (current_node, u_bound).

(** [while(current_node && u_bound)] of [dictionary_iter]: the copy into
    [dictionary]; a failed copy empties it and stops. *)
Definition iter_step (dictionary : ptr) (s : ptr * Z) : M (ptr * Z + unit) :=
  let '(current_node, u_bound) := s in
  if negb (is_null current_node) && negb (u_bound =? 0)%Z then
    n ← load current_node;
    k ← get_string (n_key n);
    copy ← dictionary_add dictionary (Some k) (n_data n);
    if is_null copy then
      d ← load dictionary;
      dictionary_delete dictionary None (d_length d);;
      mret (inr tt)
    else
      n ← load current_node;
      mret (inl (n_next n, u_bound - 1)%Z)
  else mret (inr tt).

Definition dictionary_iter (self : ptr) (l_bound_key : cstr) (u_bound : Z) : M ptr :=
  if is_null self then mret NULL else
  d ← load self;
  dictionary ← dictionary_init NULL (d_burrow d);
  if is_null dictionary then mret NULL else
  found ← dictionary_get self l_bound_key SEARCH;
  let current_node := if is_null found then d_first d else found in
  let u_bound := if (u_bound =? DICTIONARY_LENGTH)%Z then u32 (d_length d) else u_bound in
  fuel ← heap_fuel;
  loop fuel (iter_step dictionary) (current_node, u_bound);;
  mret dictionary.

Global Arguments dictionary_init : simpl never.
Global Arguments dictionary_add : simpl never.
Global Arguments dictionary_get : simpl never.
Global Arguments dictionary_delete_node : simpl never.
Global Arguments dictionary_delete : simpl never.
Global Arguments dictionary_iter : simpl never.
