(* ===== verification/Memory.v ===== *)
(** backends/memory/memory.c: the in-process backend, three levels of
    dictionaries (accounts, queues, messages) on the heap. *)
From S2P Require Import Prelude Types Heap Macros Dictionary.

(** What a queue scan does with the messages in its range. *)
Inductive scan_action_t := UPDATE | GET | DELETE.

(** Whether messages are reported as they are deleted. *)
Inductive delete_action_t := REPORT | IGNORE.

(** Blocks and locals before their fields are assigned. *)
Definition uninit_filters (j : Z) : burrow_filters_st :=
  Filters j (Z.odd j) j None BURROW_DETAIL_NONE j (junk_ptr j) (junk_ptr j) (junk_ptr j).
Definition uninit_command (j : Z) : burrow_command_st :=
  Command BURROW_CMD_NONE None None None None None j (junk_ptr j) (junk_ptr j).
Definition uninit_message (j : Z) : burrow_message_st :=
  Message (junk_ptr j) (junk_ptr j) j j j.
Definition uninit_memory (j : Z) : burrow_backend_memory_st :=
  MemoryBackend j (junk_ptr j) (junk_ptr j).

Definition _process_filter (self in_filters : ptr) : M ptr :=
  s ← load self;
  out_filters ← burrow_malloc (mb_burrow s) uninit_filters;
  if is_null out_filters then
    burrow_log_error (mb_burrow s) "_process_filter(): malloc failed";;
    mret NULL
  else
  modify out_filters (λ f, f <| fi_set := Z.lor (fi_set f)
    (Z.lor BURROW_FILTERS_LIMIT BURROW_FILTERS_MATCH_HIDDEN) |>);;
  modify out_filters (λ f, f <| fi_marker := None |>);;
  modify out_filters (λ f, f <| fi_limit := DICTIONARY_LENGTH |>);;
  modify out_filters (λ f, f <| fi_match_hidden := false |>);;
  (if is_null in_filters then mret tt else
   i ← load in_filters;
   (match fi_marker i with
    | Some _ => modify out_filters (λ f, f <| fi_marker := fi_marker i |>)
    | None => mret tt
    end);;
   (if has_flag (fi_set i) BURROW_FILTERS_LIMIT
    then modify out_filters (λ f, f <| fi_limit := fi_limit i |>) else mret tt);;
   (if has_flag (fi_set i) BURROW_FILTERS_MATCH_HIDDEN
    then modify out_filters (λ f, f <| fi_match_hidden := fi_match_hidden i |>)
    else mret tt));;
  mret out_filters.

(** [message->hide - current_time], zero when it is not hidden. *)
Definition hide_left (m : burrow_message_st) (current_time : Z) : Z :=
  if (current_time <? m_hide m)%Z then u32 (m_hide m - current_time) else 0%Z.

(** Hands a stored message to the user's callback: the attributes' [set] is
    the caller's. *)
Definition report_message (burrow message : ptr) (current_time set : Z) : M unit :=
  m ← load message;
  id ← get_string (m_message_id m);
  body ← get_string (m_body m);
  burrow_callback_message burrow (Some id) (Some body) (m_body_size m) set
    (u32 (m_ttl m - current_time)) (hide_left m current_time).

(** The three frees of a message: its id, its body and itself. *)
Definition free_message (burrow message : ptr) : M unit :=
  m ← load message;
  burrow_free burrow (m_message_id m);;
  m ← load message;
  burrow_free burrow (m_body m);;
  burrow_free burrow message.

(** The absolute ttl and hide a scan's command asks for, 0 for "leave it". *)
Definition scan_attributes (attributes : ptr) (current_time : Z) : M (Z * Z) :=
  if is_null attributes then mret (0, 0)%Z else
  a ← load attributes;
  mret (if has_flag (at_set a) BURROW_ATTRIBUTES_TTL then u32 (at_ttl a + current_time) else 0%Z,
        if has_flag (at_set a) BURROW_ATTRIBUTES_HIDE then u32 (at_hide a + current_time) else 0%Z).

(** The same for the update of a single message, where a ttl of 0 is no ttl. *)
Definition update_attributes (attributes : ptr) (current_time : Z) : M (Z * Z) :=
  if is_null attributes then mret (0, 0)%Z else
  a ← load attributes;
  mret (if has_flag (at_set a) BURROW_ATTRIBUTES_TTL && (0 <? at_ttl a)%Z
        then u32 (at_ttl a + current_time) else 0%Z,
        if has_flag (at_set a) BURROW_ATTRIBUTES_HIDE
        then u32 (at_hide a + current_time) else 0%Z).

(** Assigns the ttl and the hide that are not 0. *)
Definition retime_message (attributes_ttl attributes_hide : Z) (message : ptr) : M unit :=
  (if (attributes_ttl =? 0)%Z then mret tt
   else modify message (λ m, m <| m_ttl := attributes_ttl |>));;
  (if (attributes_hide =? 0)%Z then mret tt
   else modify message (λ m, m <| m_hide := attributes_hide |>)).

(** What a scan keeps fixed while it iterates. *)
Record scan_st := Scan {
  sc_self : ptr; sc_queue : ptr; sc_filters : ptr; sc_iterator : ptr;
  sc_time : Z; sc_ttl : Z; sc_hide : Z; sc_type : scan_action_t; sc_delete : delete_action_t }.

(** [dictionary_delete_node(queue->data, item->key)] *)
Definition delete_item (queue item : ptr) : M unit :=
  q ← load queue;
  it ← load item;
  k ← get_string (n_key it);
  dictionary_delete_node (n_data q) (Some k).

Definition with_flags (set : Z) : Z :=
  Z.lor (Z.lor set BURROW_ATTRIBUTES_TTL) BURROW_ATTRIBUTES_HIDE.

(** The [switch] on one message that is neither expired nor skipped; the result
    is the new value of [reference_attributes.set]. *)
Definition scan_message (c : scan_st) (burrow item message : ptr) (set : Z) : M Z :=
  match sc_type c with
  | DELETE =>
      delete_item (sc_queue c) item;;
      set ← (match sc_delete c with
             | REPORT =>
                 report_message burrow message (sc_time c) (with_flags set);;
                 mret (with_flags set)
             | IGNORE => mret set
             end);
      free_message burrow message;;
      mret set
  | action =>
      (match action with
       | UPDATE => retime_message (sc_ttl c) (sc_hide c) message
       | _ => mret tt
       end);;
      report_message burrow message (sc_time c) (with_flags set);;
      mret (with_flags set)
  end.

(** One round of the [for] of [_scan_queue]: the locals are [item], [i] and
    [reference_attributes.set]. *)
Definition scan_step (c : scan_st) (s : ptr * Z * Z) : M (ptr * Z * Z + unit) :=
  let '(item, i, set) := s in
  itr ← load (sc_iterator c);
  if negb (i <? d_length itr)%Z then mret (inr tt) else
  self ← load (sc_self c);
  it ← load item;
  let message := n_data it in
  m ← load message;
  if (m_ttl m <=? sc_time c)%Z then
    delete_item (sc_queue c) item;;
    free_message (mb_burrow self) message;;
    it ← load item;
    mret (inl (n_next it, i + 1, set)%Z)
  else
  f ← load (sc_filters c);
  if negb (fi_match_hidden f) && (sc_time c <? m_hide m)%Z then
    it ← load item;
    mret (inl (n_next it, i + 1, set)%Z)
  else
  set ← scan_message c (mb_burrow self) item message set;
  it ← load item;
  mret (inl (n_next it, i + 1, set)%Z).

(** Frees an iterator and its nodes. *)
Definition free_iterator (burrow iterator : ptr) : M unit :=
  itr ← load iterator;
  dictionary_delete iterator None (d_length itr);;
  burrow_free burrow iterator.

(** The [if] on the length of the dictionary in [node->data]: frees the emptied one
    and unlinks its node with [unlink]. *)
Definition drop_if_empty (burrow node : ptr) (unlink : M unit) : M unit :=
  n ← load node;
  d ← load (T := dictionary_st) (n_data n);
  if (d_length d =? 0)%Z then burrow_free burrow (n_data n);; unlink else mret tt.

(** A queue left without messages goes, by way of [unlink_queue], and then an
    account left without queues. *)
Definition drop_emptied (s : burrow_backend_memory_st) (cmd : burrow_command_st)
    (account queue : ptr) (unlink_queue : M unit) : M unit :=
  drop_if_empty (mb_burrow s) queue unlink_queue;;
  drop_if_empty (mb_burrow s) account (
    dictionary_delete_node (mb_accounts s) (cmd_account cmd)).

(** The [for] of [_scan_queue] over the iterator, and what follows it. *)
Definition scan_items (c : scan_st) (s : burrow_backend_memory_st) (cmd : burrow_command_st)
    (account : ptr) (set : Z) : M Z :=
  itr ← load (sc_iterator c);
  fuel ← heap_fuel;
  loop fuel (scan_step c) (d_first itr, 0%Z, set);;
  burrow_free (mb_burrow s) (sc_filters c);;
  free_iterator (mb_burrow s) (sc_iterator c);;
  drop_emptied s cmd account (sc_queue c) (
    account ← dictionary_get (mb_accounts s) (cmd_account cmd) SEARCH;
    a ← load account;
    q ← load (sc_queue c);
    k ← get_string (n_key q);
    dictionary_delete_node (n_data a) (Some k));;
  mret 0%Z.

(** [_scan_queue] once the account and the queue have been found. *)
Definition scan_found (self : ptr) (s : burrow_backend_memory_st) (cmd : burrow_command_st)
    (scan_type : scan_action_t) (delete_action : delete_action_t)
    (current_time : Z) (account queue : ptr) : M Z :=
  set ← consult e_junk;
  attributes ← scan_attributes (cmd_attributes cmd) current_time;
  ref_filters ← _process_filter self (cmd_filters cmd);
  if is_null ref_filters then
    burrow_log_error (mb_burrow s) "_scan_queue(): malloc failed";;
    mret 0%Z
  else
  f ← load ref_filters;
  q ← load queue;
  iterator ← dictionary_iter (n_data q) (fi_marker f) (fi_limit f);
  if is_null iterator then
    burrow_free (mb_burrow s) ref_filters;;
    mret 0%Z
  else
  scan_items (Scan self queue ref_filters iterator current_time
    attributes.1 attributes.2 scan_type delete_action) s cmd account set.

Definition _scan_queue (self : ptr) (cmd : burrow_command_st)
    (scan_type : scan_action_t) (delete_action : delete_action_t) : M Z :=
  current_time ← time_now;
  s ← load self;
  account ← dictionary_get (mb_accounts s) (cmd_account cmd) SEARCH;
  if is_null account then mret 0%Z else
  a ← load account;
  queue ← dictionary_get (n_data a) (cmd_queue cmd) SEARCH;
  if is_null queue then mret 0%Z else
  scan_found self s cmd scan_type delete_action current_time account queue.

(** The [for] over an iterator's items that the listing and deleting commands
    share: [act] is given each item's key. *)
Definition each_step (iterator : ptr) (act : string → M unit) (s : ptr * Z) : M (ptr * Z + unit) :=
  let '(item, i) := s in
  itr ← load iterator;
  if (i <? d_length itr)%Z then
    it ← load item;
    k ← get_string (n_key it);
    act k;;
    it ← load item;
    mret (inl (n_next it, i + 1)%Z)
  else mret (inr tt).

Definition each_item (iterator : ptr) (act : string → M unit) : M unit :=
  itr ← load iterator;
  fuel ← heap_fuel;
  loop fuel (each_step iterator act) (d_first itr, 0%Z).

Definition burrow_backend_memory_get_queues (self : ptr) (cmd : burrow_command_st) : M Z :=
  s ← load self;
  account ← dictionary_get (mb_accounts s) (cmd_account cmd) SEARCH;
  if is_null account then mret 0%Z else
  a ← load account;
  if is_null (n_data a) then mret 0%Z else
  ref_filters ← _process_filter self (cmd_filters cmd);
  if is_null ref_filters then mret 0%Z else
  f ← load ref_filters;
  iterator ← dictionary_iter (n_data a) (fi_marker f) (fi_limit f);
  if is_null iterator then
    burrow_free (mb_burrow s) ref_filters;;
    mret 0%Z
  else
  each_item iterator (λ k, burrow_callback_queue (mb_burrow s) (Some k));;
  burrow_free (mb_burrow s) ref_filters;;
  free_iterator (mb_burrow s) iterator;;
  mret 0%Z.

(** What the two deletions do with an iterator over names: an [erase_cmd] with
    default filters, completed by [setup], is handed to [act] for every name. *)
Definition erase_items (self : ptr) (s : burrow_backend_memory_st) (failure : string)
    (ref_filters iterator : ptr) (setup : ptr → M unit) (act : ptr → string → M unit) : M Z :=
  erase_cmd ← burrow_malloc (mb_burrow s) uninit_command;
  if is_null erase_cmd then
    burrow_log_error (mb_burrow s) failure;;
    burrow_free (mb_burrow s) ref_filters;;
    free_iterator (mb_burrow s) iterator;;
    mret 0%Z
  else
  filters ← _process_filter self NULL;
  modify erase_cmd (λ c, c <| cmd_filters := filters |>);;
  if is_null filters then
    burrow_free (mb_burrow s) ref_filters;;
    free_iterator (mb_burrow s) iterator;;
    burrow_free (mb_burrow s) erase_cmd;;
    mret 0%Z
  else
  setup erase_cmd;;
  each_item iterator (act erase_cmd);;
  burrow_free (mb_burrow s) ref_filters;;
  free_iterator (mb_burrow s) iterator;;
  c ← load erase_cmd;
  burrow_free (mb_burrow s) (cmd_filters c);;
  burrow_free (mb_burrow s) erase_cmd;;
  mret 0%Z.

Definition burrow_backend_memory_delete_queues (self : ptr) (cmd : burrow_command_st) : M Z :=
  s ← load self;
  account ← dictionary_get (mb_accounts s) (cmd_account cmd) SEARCH;
  if is_null account then mret 0%Z else
  a ← load account;
  if is_null (n_data a) then mret 0%Z else
  ref_filters ← _process_filter self (cmd_filters cmd);
  if is_null ref_filters then mret 0%Z else
  f ← load ref_filters;
  iterator ← dictionary_iter (n_data a) (fi_marker f) (fi_limit f);
  if is_null iterator then
    burrow_free (mb_burrow s) ref_filters;;
    mret 0%Z
  else
  erase_items self s "delete_queues(): malloc failed: erase_cmd" ref_filters iterator
    (λ erase_cmd,
       modify erase_cmd (λ c, c <| cmd_attributes := NULL |>);;
       modify erase_cmd (λ c, c <| cmd_account := cmd_account cmd |>))
    (λ erase_cmd k,
       modify erase_cmd (λ c, c <| cmd_queue := Some k |>);;
       c ← load erase_cmd;
       _scan_queue self c DELETE IGNORE;;
       mret tt).

Definition burrow_backend_memory_get_accounts (self : ptr) (cmd : burrow_command_st) : M Z :=
  s ← load self;
  ref_filters ← _process_filter self (cmd_filters cmd);
  if is_null ref_filters then mret 0%Z else
  f ← load ref_filters;
  iterator ← dictionary_iter (mb_accounts s) (fi_marker f) (fi_limit f);
  if is_null iterator then
    burrow_free (mb_burrow s) ref_filters;;
    mret 0%Z
  else
  each_item iterator (λ k, burrow_callback_account (mb_burrow s) (Some k));;
  burrow_free (mb_burrow s) ref_filters;;
  free_iterator (mb_burrow s) iterator;;
  mret 0%Z.

Definition burrow_backend_memory_delete_accounts (self : ptr) (cmd : burrow_command_st) : M Z :=
  s ← load self;
  ref_filters ← _process_filter self (cmd_filters cmd);
  if is_null ref_filters then mret 0%Z else
  f ← load ref_filters;
  iterator ← dictionary_iter (mb_accounts s) (fi_marker f) (fi_limit f);
  if is_null iterator then
    burrow_free (mb_burrow s) ref_filters;;
    mret 0%Z
  else
  erase_items self s "delete_accounts(): malloc failed: erase_cmd" ref_filters iterator
    (λ erase_cmd, mret tt)
    (λ erase_cmd k,
       modify erase_cmd (λ c, c <| cmd_account := Some k |>);;
       c ← load erase_cmd;
       burrow_backend_memory_delete_queues self c;;
       mret tt).

Definition burrow_backend_memory_get_messages (self : ptr) (cmd : burrow_command_st) : M Z :=
  _scan_queue self cmd GET REPORT;; mret 0%Z.
Definition burrow_backend_memory_update_messages (self : ptr) (cmd : burrow_command_st) : M Z :=
  _scan_queue self cmd UPDATE REPORT;; mret 0%Z.
Definition burrow_backend_memory_delete_messages (self : ptr) (cmd : burrow_command_st) : M Z :=
  _scan_queue self cmd DELETE REPORT;; mret 0%Z.

(** The second half of [create_message]: a complete message is put in its queue,
    which is made when it is not there, like its account. *)
Definition place_message (s : burrow_backend_memory_st) (cmd : burrow_command_st)
    (new_message body message_id : ptr) : M Z :=
  account ← dictionary_get (mb_accounts s) (cmd_account cmd) CREATE;
  if is_null account then
    burrow_free (mb_burrow s) new_message;;
    burrow_free (mb_burrow s) body;;
    burrow_free (mb_burrow s) message_id;;
    mret 0%Z
  else
  a ← load account;
  queue ← dictionary_get (n_data a) (cmd_queue cmd) CREATE;
  if is_null queue then
    d ← load (T := dictionary_st) (n_data a);
    (if (d_length d =? 0)%Z
     then dictionary_delete_node (mb_accounts s) (cmd_account cmd) else mret tt);;
    burrow_free (mb_burrow s) new_message;;
    burrow_free (mb_burrow s) body;;
    burrow_free (mb_burrow s) message_id;;
    mret 0%Z
  else
  q ← load queue;
  m ← load new_message;
  key ← get_string (m_message_id m);
  message_node ← dictionary_get (n_data q) (Some key) SEARCH;
  (if is_null message_node then
     added ← dictionary_add (n_data q) (Some key) new_message;
     if is_null added then
       d ← load (T := dictionary_st) (n_data q);
       if (d_length d =? 0)%Z then dictionary_delete_node (n_data a) (cmd_queue cmd)
       else mret tt
     else mret tt
   else
     n ← load message_node;
     burrow_free (mb_burrow s) (n_data n);;
     modify message_node (λ n, n <| n_data := new_message |>));;
  mret 0%Z.

(** The ttl of a new message: five minutes by default. *)
Definition creation_ttl (attributes : ptr) (creation_time : Z) : M Z :=
  if is_null attributes then mret (u32 (creation_time + 300)) else
  a ← load attributes;
  mret (if has_flag (at_set a) BURROW_ATTRIBUTES_TTL
        then u32 (creation_time + at_ttl a) else u32 (creation_time + 300)).

(** The value assigned to its hide after the initial 0, if any. *)
Definition creation_hide (attributes : ptr) (creation_time : Z) : M (option Z) :=
  if is_null attributes then mret None else
  a ← load attributes;
  mret (if has_flag (at_set a) BURROW_ATTRIBUTES_HIDE && negb (at_hide a =? 0)%Z
        then Some (u32 (creation_time + at_hide a)) else None).

Definition burrow_backend_memory_create_message (self : ptr) (cmd : burrow_command_st) : M Z :=
  creation_time ← time_now;
  s ← load self;
  new_message ← burrow_malloc (mb_burrow s) uninit_message;
  body ← burrow_malloc (mb_burrow s) (uninit_chars (cmd_body_size cmd));
  id ← deref_cstr (cmd_message_id cmd);
  message_id ← burrow_malloc (mb_burrow s) (uninit_chars (Z.of_nat (String.length id) + 1));
  if is_null new_message || is_null body || is_null message_id then
    burrow_log_error (mb_burrow s) "create_message(): malloc failed.";;
    burrow_free (mb_burrow s) new_message;;
    burrow_free (mb_burrow s) body;;
    burrow_free (mb_burrow s) message_id;;
    mret 0%Z
  else
  memcpy body (cmd_body cmd) (cmd_body_size cmd);;
  modify new_message (λ m, m <| m_body := body |>);;
  strcpy message_id id;;
  modify new_message (λ m, m <| m_message_id := message_id |>);;
  modify new_message (λ m, m <| m_body_size := cmd_body_size cmd |>);;
  ttl ← creation_ttl (cmd_attributes cmd) creation_time;
  modify new_message (λ m, m <| m_ttl := ttl |>);;
  modify new_message (λ m, m <| m_hide := 0%Z |>);;
  hide ← creation_hide (cmd_attributes cmd) creation_time;
  match hide with
  | Some hide => modify new_message (λ m, m <| m_hide := hide |>)
  | None => mret tt
  end;;
  place_message s cmd new_message body message_id.

(** The chain of lookups of the single-message commands: account, queue, node
    and message, or nothing when one of them is not there. *)
Definition find_message (s : burrow_backend_memory_st) (cmd : burrow_command_st)
    : M (option (ptr * ptr * ptr)) :=
  account ← dictionary_get (mb_accounts s) (cmd_account cmd) SEARCH;
  if is_null account then mret None else
  a ← load account;
  queue ← dictionary_get (n_data a) (cmd_queue cmd) SEARCH;
  if is_null queue then mret None else
  q ← load queue;
  message_node ← dictionary_get (n_data q) (cmd_message_id cmd) SEARCH;
  if is_null message_node then mret None else
  n ← load message_node;
  if is_null (n_data n) then mret None else
  mret (Some (account, queue, n_data n)).

(** Unlinking a message that has been freed, then its queue and account when
    that leaves them empty. *)
Definition unlink_message (s : burrow_backend_memory_st) (cmd : burrow_command_st)
    (account queue : ptr) : M unit :=
  q ← load queue;
  dictionary_delete_node (n_data q) (cmd_message_id cmd);;
  drop_emptied s cmd account queue (
    a ← load account;
    dictionary_delete_node (n_data a) (cmd_queue cmd)).

Definition burrow_backend_memory_update_message (self : ptr) (cmd : burrow_command_st) : M Z :=
  s ← load self;
  current_time ← time_now;
  found ← find_message s cmd;
  match found with
  | None => mret EINVAL
  | Some (account, queue, message) =>
      m ← load message;
      if (m_ttl m <=? current_time)%Z then
        free_message (mb_burrow s) message;;
        unlink_message s cmd account queue;;
        mret 0%Z
      else
      attributes ← update_attributes (cmd_attributes cmd) current_time;
      retime_message attributes.1 attributes.2 message;;
      set ← consult e_junk;
      report_message (mb_burrow s) message current_time set;;
      mret 0%Z
  end.

Definition burrow_backend_memory_get_message (self : ptr) (cmd : burrow_command_st) : M Z :=
  s ← load self;
  current_time ← time_now;
  found ← find_message s cmd;
  match found with
  | None => mret EINVAL
  | Some (account, queue, message) =>
      m ← load message;
      if (m_ttl m <=? current_time)%Z then
        burrow_free (mb_burrow s) message;;
        m ← load (T := burrow_message_st) message;
        burrow_free (mb_burrow s) (m_message_id m);;
        m ← load (T := burrow_message_st) message;
        burrow_free (mb_burrow s) (m_body m);;
        unlink_message s cmd account queue;;
        mret 0%Z
      else
      set ← consult e_junk;
      report_message (mb_burrow s) message current_time set;;
      mret 0%Z
  end.

Definition burrow_backend_memory_delete_message (self : ptr) (cmd : burrow_command_st) : M Z :=
  s ← load self;
  current_time ← time_now;
  found ← find_message s cmd;
  match found with
  | None => mret 0%Z
  | Some (account, queue, message) =>
      m ← load message;
      (if (current_time <? m_ttl m)%Z then
         set ← consult e_junk;
         report_message (mb_burrow s) message current_time set
       else mret tt);;
      free_message (mb_burrow s) message;;
      unlink_message s cmd account queue;;
      mret 0%Z
  end.

Definition burrow_backend_memory_create (self burrow : ptr) : M ptr :=
  self ← (if is_null self then
            self ← burrow_malloc burrow uninit_memory;
            (if is_null self then burrow_log_error burrow "create(): malloc failed."
             else modify self (λ s, s <| mb_selfallocated := 1%Z |>));;
            mret self
          else
            modify self (λ s, s <| mb_selfallocated := 0%Z |>);;
            mret self);
  if is_null self then mret NULL else
  modify self (λ s, s <| mb_burrow := burrow |>);;
  accounts ← dictionary_init NULL burrow;
  modify self (λ s, s <| mb_accounts := accounts |>);;
  mret self.

Definition burrow_backend_memory_free (self : ptr) : M unit :=
  s ← load self;
  erase_cmd ← burrow_malloc (mb_burrow s) uninit_command;
  if is_null erase_cmd then
    burrow_log_error (mb_burrow s) "free(): malloc failed: erase_cmd"
  else
  filters ← _process_filter self NULL;
  modify erase_cmd (λ c, c <| cmd_filters := filters |>);;
  if is_null filters then mret tt else
  c ← load erase_cmd;
  burrow_backend_memory_delete_accounts self c;;
  c ← load erase_cmd;
  burrow_free (mb_burrow s) (cmd_filters c);;
  burrow_free (mb_burrow s) erase_cmd;;
  s ← load self;
  burrow_free (mb_burrow s) (mb_accounts s);;
  if (mb_selfallocated s =? 0)%Z then mret tt else burrow_free (mb_burrow s) self.

Global Arguments _process_filter : simpl never.
Global Arguments report_message : simpl never.
Global Arguments free_message : simpl never.
Global Arguments scan_attributes : simpl never.
Global Arguments update_attributes : simpl never.
Global Arguments retime_message : simpl never.
Global Arguments delete_item : simpl never.
Global Arguments scan_message : simpl never.
Global Arguments scan_step : simpl never.
Global Arguments free_iterator : simpl never.
Global Arguments drop_if_empty : simpl never.
Global Arguments drop_emptied : simpl never.
Global Arguments scan_items : simpl never.
Global Arguments scan_found : simpl never.
Global Arguments _scan_queue : simpl never.
Global Arguments erase_items : simpl never.
Global Arguments each_item : simpl never.
Global Arguments creation_ttl : simpl never.
Global Arguments creation_hide : simpl never.
Global Arguments place_message : simpl never.
Global Arguments find_message : simpl never.
Global Arguments unlink_message : simpl never.
