(* ===== verification/Backends.v ===== *)
(** The table of the memory backend, and the tables of a program: the dummy and
    the memory backend are there, the table of the http backend, which depends on
    libcurl (CurlBackend.v), is given. *)
From S2P Require Import Prelude Types Heap Macros Dictionary Memory Burrow Dummy.

Definition burrow_backend_memory_functions : burrow_backend_functions_st := {|
  be_create := burrow_backend_memory_create;
  be_destroy := burrow_backend_memory_free;
  be_room := λ j, BMemory (uninit_memory j);
  be_set_option := None;
  be_set_option_int := None;
  be_cancel := None;
  be_process := None;
  be_event_raised := None;
  be_command := λ c,
    match c with
    | BURROW_CMD_GET_ACCOUNTS => Some burrow_backend_memory_get_accounts
    | BURROW_CMD_DELETE_ACCOUNTS => Some burrow_backend_memory_delete_accounts
    | BURROW_CMD_GET_QUEUES => Some burrow_backend_memory_get_queues
    | BURROW_CMD_DELETE_QUEUES => Some burrow_backend_memory_delete_queues
    | BURROW_CMD_GET_MESSAGES => Some burrow_backend_memory_get_messages
    | BURROW_CMD_UPDATE_MESSAGES => Some burrow_backend_memory_update_messages
    | BURROW_CMD_DELETE_MESSAGES => Some burrow_backend_memory_delete_messages
    | BURROW_CMD_GET_MESSAGE => Some burrow_backend_memory_get_message
    | BURROW_CMD_UPDATE_MESSAGE => Some burrow_backend_memory_update_message
    | BURROW_CMD_DELETE_MESSAGE => Some burrow_backend_memory_delete_message
    | BURROW_CMD_CREATE_MESSAGE => Some burrow_backend_memory_create_message
    | BURROW_CMD_NONE => None
    end |}.

(** The tables, given the http backend's. *)
Definition backend_tables (http : burrow_backend_functions_st) : Backends := λ name,
  match name with
  | backend_dummy => burrow_backend_dummy_functions
  | backend_http => http
  | backend_memory => burrow_backend_memory_functions
  end.
