(* ===== verification/Server.v ===== *)
(** The abstract message server the memory backend implements: accounts of
    queues of messages as insertion-ordered association lists, and what each
    command does to them. Pure and executable; MemorySpec.v and the files after
    it prove that memory.c refines it. *)
From S2P Require Import Prelude Types Dictionary Memory.

(** ** Association lists *)

Section alist.
Context {A : Type}.
Implicit Types (l : list (string * A)).

Fixpoint alookup (k : string) l : option A :=
  match l with
  | [] => None
  | (k', a) :: l => if String.eqb k' k then Some a else alookup k l
  end.

Fixpoint aremove (k : string) l : list (string * A) :=
  match l with
  | [] => []
  | (k', a) :: l => if String.eqb k' k then l else (k', a) :: aremove k l
  end.

(** Replaces the value in place, or appends a new entry. *)
Fixpoint aset (k : string) (a : A) l : list (string * A) :=
  match l with
  | [] => [(k, a)]
  | (k', a') :: l => if String.eqb k' k then (k, a) :: l else (k', a') :: aset k a l
  end.
End alist.

(** Where a marker starts a range: at its first occurrence, or at the beginning
    when it is [NULL] or absent. *)
Fixpoint key_index (k : string) (keys : list string) : option nat :=
  match keys with
  | [] => None
  | k' :: keys => if String.eqb k' k then Some 0 else S <$> key_index k keys
  end.
Definition range_start (marker : cstr) (keys : list string) : nat :=
  match marker with Some k => default 0 (key_index k keys) | None => 0 end.

(** How many entries a limit selects; 0 means all. *)
Definition range_count (limit : Z) (n : nat) : nat :=
  Z.to_nat (if (limit =? DICTIONARY_LENGTH)%Z then u32 (Z.of_nat n) else limit).

Definition range_before {A} (marker : cstr) (l : list (string * A)) : list (string * A) :=
  take (range_start marker l.*1) l.
Definition range_in {A} (marker : cstr) (limit : Z) (l : list (string * A)) : list (string * A) :=
  take (range_count limit (length l)) (drop (range_start marker l.*1) l).
Definition range_after {A} (marker : cstr) (limit : Z) (l : list (string * A)) : list (string * A) :=
  drop (range_count limit (length l)) (drop (range_start marker l.*1) l).

(** ** State *)

Record message := Msg { msg_body : string; msg_size : Z; msg_ttl : Z; msg_hide : Z }.
Abbreviation messages := (list (string * message)).
Abbreviation queues := (list (string * messages)).
Abbreviation server := (list (string * queues)).

(** What a command's filters select, after [_process_filter]. *)
Record selection := Select { sel_marker : cstr; sel_limit : Z; sel_hidden : bool }.

Definition select (f : option burrow_filters_st) : selection :=
  match f with
  | None => Select None DICTIONARY_LENGTH false
  | Some f => Select (fi_marker f)
      (if has_flag (fi_set f) BURROW_FILTERS_LIMIT then fi_limit f else DICTIONARY_LENGTH)
      (if has_flag (fi_set f) BURROW_FILTERS_MATCH_HIDDEN then fi_match_hidden f else false)
  end.

(** ** Messages *)

Definition expired (now : Z) (m : message) : bool := (msg_ttl m <=? now)%Z.
Definition hidden (now : Z) (m : message) : bool := (now <? msg_hide m)%Z.

(** What the message callback is told of a message. *)
Definition report (now set : Z) (id : string) (m : message) : event :=
  EvMessage (Some id) (Some (msg_body m)) (msg_size m) set
    (u32 (msg_ttl m - now)) (if hidden now m then u32 (msg_hide m - now) else 0%Z).

(** New ttl and hide, 0 leaving the old one. *)
Definition retime (ttl hide : Z) (m : message) : message :=
  Msg (msg_body m) (msg_size m)
    (if (ttl =? 0)%Z then msg_ttl m else ttl) (if (hide =? 0)%Z then msg_hide m else hide).

(** What a scan does to one message: what is left of it and what is reported. *)
Definition scan_one (now : Z) (match_hidden : bool) (ttl hide : Z) (ty : scan_action_t)
    (da : delete_action_t) (set : Z) (id : string) (m : message) : option message * list event :=
  if expired now m then (None, [])
  else if negb match_hidden && hidden now m then (Some m, [])
  else match ty with
       | DELETE => (None, match da with REPORT => [report now set id m] | IGNORE => [] end)
       | UPDATE => (Some (retime ttl hide m), [report now set id (retime ttl hide m)])
       | GET => (Some m, [report now set id m])
       end.

Section scan.
Context (now : Z) (match_hidden : bool) (ttl hide : Z) (ty : scan_action_t)
  (da : delete_action_t) (set : Z).

Definition scan_left (im : string * message) : messages :=
  match (scan_one now match_hidden ttl hide ty da set im.1 im.2).1 with
  | Some m => [(im.1, m)]
  | None => []
  end.
Definition scan_reports (im : string * message) : list event :=
  (scan_one now match_hidden ttl hide ty da set im.1 im.2).2.
End scan.

(** The time fields of the caller's attributes, as absolute times (0: unset). *)
Definition scan_times (now : Z) (a : option burrow_attributes_st) : Z * Z :=
  match a with
  | None => (0, 0)%Z
  | Some a =>
      (if has_flag (at_set a) BURROW_ATTRIBUTES_TTL then u32 (at_ttl a + now) else 0%Z,
       if has_flag (at_set a) BURROW_ATTRIBUTES_HIDE then u32 (at_hide a + now) else 0%Z)
  end.

(** ** Queues and accounts that become empty disappear *)

Definition put_queue (a q : string) (ms : messages) (s : server) : server :=
  match alookup a s with
  | None => s
  | Some qs =>
      match ms with
      | [] => match aremove q qs with [] => aremove a s | qs' => aset a qs' s end
      | _ => aset a (aset q ms qs) s
      end
  end.

Definition queue_of (a q : cstr) (s : server) : option (string * string * messages) :=
  match a, q with
  | Some a, Some q =>
      match alookup a s with
      | Some qs => (λ ms, (a, q, ms)) <$> alookup q qs
      | None => None
      end
  | _, _ => None
  end.

(** ** Commands *)

(** get, update and delete messages (and the deletion of whole queues): [set] is
    the [set] field the reported attributes carry. *)
Definition scan_queue (now : Z) (sel : selection) (times : Z * Z) (ty : scan_action_t)
    (da : delete_action_t) (set : Z) (a q : cstr) (s : server) : server * list event :=
  match queue_of a q s with
  | None => (s, [])
  | Some (a, q, ms) =>
      let range := range_in (sel_marker sel) (sel_limit sel) ms in
      let left := scan_left now (sel_hidden sel) times.1 times.2 ty da set in
      let reports := scan_reports now (sel_hidden sel) times.1 times.2 ty da set in
      (put_queue a q (range_before (sel_marker sel) ms ++ flat_map left range ++
         range_after (sel_marker sel) (sel_limit sel) ms) s,
       flat_map reports range)
  end.

Definition queue_names (sel : selection) (a : cstr) (s : server) : list string :=
  match a with
  | Some a => match alookup a s with
              | Some qs => (range_in (sel_marker sel) (sel_limit sel) qs).*1
              | None => []
              end
  | None => []
  end.

Definition account_names (sel : selection) (s : server) : list string :=
  (range_in (sel_marker sel) (sel_limit sel) s).*1.

(** The selection the deletions of whole queues use: every message that is not
    hidden. *)
Definition everything : selection := select None.

(** Deletes what is not hidden from a list of queues; each scan reads the clock
    again. *)
Fixpoint delete_queue_list (times : list Z) (a : cstr) (qs : list string) (s : server) : server :=
  match qs, times with
  | q :: qs, now :: times =>
      delete_queue_list times a qs
        (scan_queue now everything (0, 0)%Z DELETE IGNORE 0 a (Some q) s).1
  | _, _ => s
  end.

Definition new_ttl (now : Z) (a : option burrow_attributes_st) : Z :=
  match a with
  | Some a => if has_flag (at_set a) BURROW_ATTRIBUTES_TTL then u32 (now + at_ttl a)
              else u32 (now + 300)
  | None => u32 (now + 300)
  end.

Definition new_hide (now : Z) (a : option burrow_attributes_st) : Z :=
  match a with
  | Some a => if has_flag (at_set a) BURROW_ATTRIBUTES_HIDE && negb (at_hide a =? 0)%Z
              then u32 (now + at_hide a) else 0%Z
  | None => 0%Z
  end.

Definition new_message (now : Z) (a : option burrow_attributes_st) (body : string) (size : Z)
    : message :=
  Msg (String.substring 0 (Z.to_nat size) body) size (new_ttl now a) (new_hide now a).

Definition create_message (a q id : string) (m : message) (s : server) : server :=
  let qs := default [] (alookup a s) in
  aset a (aset q (aset id m (default [] (alookup q qs))) qs) s.

Definition message_of (a q id : cstr) (s : server) : option (string * string * messages * string * message) :=
  match queue_of a q s, id with
  | Some (a, q, ms), Some id => (λ m, (a, q, ms, id, m)) <$> alookup id ms
  | _, _ => None
  end.

(** What a new message replaces. *)
Definition replaced (a q id : string) (s : server) : option message :=
  alookup id (default [] (alookup q (default [] (alookup a s)))).

(** The update of a single message treats a ttl of 0 as unset. *)
Definition update_times (now : Z) (a : option burrow_attributes_st) : Z * Z :=
  match a with
  | None => (0, 0)%Z
  | Some a =>
      (if has_flag (at_set a) BURROW_ATTRIBUTES_TTL && (0 <? at_ttl a)%Z
       then u32 (at_ttl a + now) else 0%Z,
       if has_flag (at_set a) BURROW_ATTRIBUTES_HIDE then u32 (at_hide a + now) else 0%Z)
  end.

(** Result, new server and reports of the single-message commands. *)
Definition get_message (now set : Z) (a q id : cstr) (s : server) : Z * server * list event :=
  match message_of a q id s with
  | None => (EINVAL, s, [])
  | Some (a, q, ms, id, m) =>
      if expired now m then (0%Z, put_queue a q (aremove id ms) s, [])
      else (0%Z, s, [report now set id m])
  end.

Definition update_message (now set : Z) (times : Z * Z) (a q id : cstr) (s : server)
    : Z * server * list event :=
  match message_of a q id s with
  | None => (EINVAL, s, [])
  | Some (a, q, ms, id, m) =>
      if expired now m then (0%Z, put_queue a q (aremove id ms) s, [])
      else let m' := retime times.1 times.2 m in
           (0%Z, put_queue a q (aset id m' ms) s, [report now set id m'])
  end.

Definition delete_message (now set : Z) (a q id : cstr) (s : server) : server * list event :=
  match message_of a q id s with
  | None => (s, [])
  | Some (a, q, ms, id, m) =>
      (put_queue a q (aremove id ms) s,
       if expired now m then [] else [report now set id m])
  end.

(** Deletes, account after account, what is not hidden; [tss] are the clock
    readings of each account's scans. *)
Fixpoint delete_account_list (tss : list (list Z)) (accounts : list string) (s : server) : server :=
  match accounts, tss with
  | a :: accounts, times :: tss =>
      delete_account_list tss accounts
        (delete_queue_list times (Some a) (queue_names everything (Some a) s) s)
  | _, _ => s
  end.

(** There is one clock reading for every queue that is scanned. *)
Fixpoint times_fit (tss : list (list Z)) (accounts : list string) (s : server) : Prop :=
  match accounts, tss with
  | [], [] => True
  | a :: accounts, times :: tss =>
      let names := queue_names everything (Some a) s in
      length times = length names ∧
      times_fit tss accounts (delete_queue_list times (Some a) names s)
  | _, _ => False
  end.
