(* ===== verification/Logic.v ===== *)
(** A linear separation logic over the heap of blocks, an instance of Iris's
    [bi] so that its proof mode applies, and a weakest precondition for the
    monad of Heap.v with one rule per primitive. Linear: an assertion describes
    its heap exactly, so a postcondition also says what has been freed. *)
From S2P Require Import Prelude Types Heap.
From iris.algebra Require Import ofe.
From iris.proofmode Require Import environments proofmode.

(** ** Assertions *)

Record hprop := HProp { holds : heap → Prop }.
Global Arguments holds _ _ : simpl never.

Section hprop_ofe.
#[export] Instance hprop_equiv : Equiv hprop := λ P Q, ∀ h, holds P h ↔ holds Q h.
#[export] Instance hprop_equivalence : Equivalence (≡@{hprop}).
Proof.
  split; [intros P h | intros P Q E h | intros P Q R E F h]; firstorder.
Qed.
Canonical Structure hpropO := discreteO hprop.
End hprop_ofe.

(** A record, so that proof-mode tactics do not see through it. *)
Record hentails (P Q : hprop) : Prop := HEntails { hent : ∀ h, holds P h → holds Q h }.
Global Arguments hent {P Q} _ h _.
Definition hemp : hprop := HProp (λ h, h = ∅).
Definition hpure (φ : Prop) : hprop := HProp (λ _, φ).
Definition hand (P Q : hprop) : hprop := HProp (λ h, holds P h ∧ holds Q h).
Definition hor (P Q : hprop) : hprop := HProp (λ h, holds P h ∨ holds Q h).
Definition himpl (P Q : hprop) : hprop := HProp (λ h, holds P h → holds Q h).
Definition hforall A (Φ : A → hprop) : hprop := HProp (λ h, ∀ x, holds (Φ x) h).
Definition hexist A (Φ : A → hprop) : hprop := HProp (λ h, ∃ x, holds (Φ x) h).
Definition hsep (P Q : hprop) : hprop := HProp (λ h, ∃ h1 h2,
  h = h1 ∪ h2 ∧ h1 ##ₘ h2 ∧ holds P h1 ∧ holds Q h2).
Definition hwand (P Q : hprop) : hprop := HProp (λ h, ∀ h',
  h ##ₘ h' → holds P h' → holds Q (h ∪ h')).
Definition hpers (P : hprop) : hprop := hpure (hentails hemp P).

Lemma hsep_split P Q h1 h2 :
  h1 ##ₘ h2 → holds P h1 → holds Q h2 → holds (hsep P Q) (h1 ∪ h2).
Proof. intros. by exists h1, h2. Qed.

Lemma hprop_bi_mixin : BiMixin hentails hemp hpure hand hor himpl hforall hexist hsep hwand.
Proof.
  split.
  - split; [by intros P | intros P Q R PQ QR]. split=> h H. by apply QR, PQ.
  - intros P Q; split.
    + intros E; split; split=> h; apply E.
    + intros [PQ QP] h; split; [apply PQ | apply QP].
  - intros n φ ψ E h; exact E.
  - intros n P P' EP Q Q' EQ h; split; intros [HP HQ]; split; (apply EP || apply EQ); done.
  - intros n P P' EP Q Q' EQ h; split; (intros [HP|HQ]; [left; by apply EP | right; by apply EQ]).
  - intros n P P' EP Q Q' EQ h; split; intros H HP; apply EQ, H, EP, HP.
  - intros A n Φ Ψ E h; split; intros H x; apply (E x), H.
  - intros A n Φ Ψ E h; split; intros [x H]; exists x; apply (E x), H.
  - intros n P P' EP Q Q' EQ h; split; intros (h1 & h2 & -> & Hd & HP & HQ);
      apply hsep_split; (apply EP || apply EQ || idtac); done.
  - intros n P P' EP Q Q' EQ h; split; intros H h' Hd HP; apply EQ, H, EP, HP; exact Hd.
  - intros φ P Hφ; split=> h _; exact Hφ.
  - intros φ P H; split=> h Hφ; by apply (H Hφ).
  - intros P Q; split=> h [HP _]; exact HP.
  - intros P Q; split=> h [_ HQ]; exact HQ.
  - intros P Q R PQ PR; split=> h HP; split; [by apply PQ | by apply PR].
  - intros P Q; split=> h HP; by left.
  - intros P Q; split=> h HQ; by right.
  - intros P Q R PR QR; split=> h [HP|HQ]; [by apply PR | by apply QR].
  - intros P Q R H; split=> h HP HQ; by apply H.
  - intros P Q R H; split=> h [HP HQ]; by apply (hent H h HP).
  - intros A P Ψ H; split=> h HP x; by apply H.
  - intros A Ψ x; split=> h H; apply H.
  - intros A Ψ x; split=> h H; by exists x.
  - intros A Φ Q H; split=> h [x HΦ]; by apply (H x).
  - intros P P' Q Q' PP QQ; split; intros h (h1 & h2 & -> & Hd & HP & HQ).
    apply hsep_split; [done | by apply PP | by apply QQ].
  - intros P; split=> h HP; rw -(left_id_L ∅ (∪) h).
    apply hsep_split; [apply map_disjoint_empty_l | done..].
  - intros P; split; intros h (h1 & h2 & -> & Hd & -> & HP); by rw (left_id_L ∅ (∪)).
  - intros P Q; split; intros h (h1 & h2 & -> & Hd & HP & HQ).
    rw map_union_comm //; by apply hsep_split.
  - intros P Q R; split; intros h (h' & h3 & -> & Hd & (h1 & h2 & -> & Hd' & HP & HQ) & HR).
    apply map_disjoint_union_l in Hd as [Hd1 Hd2]; rw -(assoc_L (∪)).
    apply hsep_split; [by apply map_disjoint_union_r_2 | done |].
    by apply hsep_split.
  - intros P Q R H; split=> h HP h' Hd HQ; apply H; by apply hsep_split.
  - intros P Q R H; split; intros h (h1 & h2 & -> & Hd & HP & HQ); by apply (hent H h1 HP).
Qed.

Lemma hprop_persistently_mixin :
  BiPersistentlyMixin hentails hemp hand hexist hsep hpers.
Proof.
  eapply bi_persistently_mixin_discrete, hprop_bi_mixin; [done|..|done].
  intros A Φ H. destruct (hent H ∅ eq_refl) as [x Hx]. exists x. by split=> h ->.
Qed.

Lemma hprop_later_mixin :
  BiLaterMixin hentails hpure hor himpl hforall hexist hsep hpers id.
Proof. eapply bi_later_mixin_id, hprop_bi_mixin. done. Qed.

Canonical Structure hpropI : bi :=
  {| bi_ofe_mixin := ofe_mixin_of hprop;
     bi_bi_mixin := hprop_bi_mixin;
     bi_bi_persistently_mixin := hprop_persistently_mixin;
     bi_bi_later_mixin := hprop_later_mixin |}.

#[export] Instance hprop_pure_forall : BiPureForall hpropI.
Proof. intros A φ. split=> h H x. apply H. Qed.

Abbreviation hPropI := (bi_car hpropI).

(** Pure facts that claim no part of the heap. *)
Notation "⟦ φ ⟧" := (bi_affinely (bi_pure φ%type%stdpp)) (at level 0) : bi_scope.

(** [l ↦{o} x]: the heap is one block at [l], owned by [o], holding [x]. *)
Definition pointsto {T} `{Storable T} (l : loc) (o : owner) (x : T) : hPropI :=
  HProp (λ h, h = {[l := (o, inject x)]}).
Notation "l ↦{ o } x" := (pointsto l o x) (at level 20, format "l  ↦{ o }  x") : bi_scope.

Lemma pointsto_ne {T U} `{Storable T, Storable U} l l' o o' (x : T) (y : U) :
  l ↦{o} x ∗ l' ↦{o'} y ⊢ ⌜l ≠ l'⌝.
Proof.
  split; intros h (h1 & h2 & -> & Hd & Hx & Hy). cbv [holds pointsto] in Hx, Hy. subst.
  intros ->. apply map_disjoint_singleton_l in Hd. by rw lookup_singleton_eq in Hd.
Qed.

(** ** Weakest preconditions *)

(** Total correctness with the frame built in: whatever else the heap holds,
    the run ends in a value, leaves the rest alone and establishes [Q]. *)
Definition wp {A} (m : M A) (w : world) (Q : A → world → hPropI) : hPropI :=
  HProp (λ h, ∀ hf, h ##ₘ hf → ∃ a w' h',
    m w (h ∪ hf) = Ret a w' (h' ∪ hf) ∧ h' ##ₘ hf ∧ holds (Q a w') h').

(** What a weakest precondition says of one run of the whole program. *)
Lemma wp_run {A} (m : M A) w Q (P : hPropI) h :
  (P ⊢ wp m w Q) → holds P h →
  ∃ a w' h', m w h = Ret a w' h' ∧ holds (Q a w') h'.
Proof.
  intros HP Hh. destruct (hent HP h Hh ∅) as (a & w' & h' & E & _ & HQ).
  { apply map_disjoint_empty_r. }
  rw !(right_id_L ∅ (∪)) in E. by exists a, w', h'.
Qed.

Lemma wp_wand {A} (m : M A) w Q Q' :
  wp m w Q ⊢ (∀ a w', Q a w' -∗ Q' a w') -∗ wp m w Q'.
Proof.
  split=> h1 Hwp h2 Hd HQ hf Hdf.
  apply map_disjoint_union_l in Hdf as [Hd1 Hd2].
  destruct (Hwp (h2 ∪ hf)) as (a & w' & h' & E & Hd' & HQa).
  { by apply map_disjoint_union_r_2. }
  apply map_disjoint_union_r in Hd' as [Hd'2 Hd'f].
  exists a, w', (h' ∪ h2). rw -!(assoc_L (∪)). split; [exact E|]. split.
  - by apply map_disjoint_union_l_2.
  - rw map_union_comm //. by apply (HQ a w' h').
Qed.

Lemma wp_ret {A} (a : A) w Q : Q a w ⊢ wp (mret a) w Q.
Proof. split=> h HQ hf Hd. by exists a, w, h. Qed.

Lemma wp_bind {A B} (m : M A) (k : A → M B) w Q :
  wp m w (λ a w', wp (k a) w' Q) ⊢ wp (m ≫= k) w Q.
Proof.
  split=> h H hf Hd. destruct (H hf Hd) as (a & w' & h' & E & Hd' & Hk).
  destruct (Hk hf Hd') as (b & w'' & h'' & E' & Hd'' & HQ).
  exists b, w'', h''. split; [|done]. unfold mbind, M_bind. by rw E.
Qed.

Lemma wp_consult {A} (ask : environment → nat → A) w Q :
  Q (ask (w_env w) (w_tick w)) (w <| w_tick := S (w_tick w) |>) ⊢ wp (consult ask) w Q.
Proof. split=> h HQ hf Hd. eexists _, _, h. by split_and!. Qed.

Lemma wp_emit e w Q :
  Q tt (w <| w_trace := w_trace w ++ [e] |>) ⊢ wp (emit e) w Q.
Proof. split=> h HQ hf Hd. eexists _, _, h. by split_and!. Qed.

Section wp_blocks.
Context {T : Type} `{Storable T}.
Implicit Types (x y : T) (l : loc) (o : owner).

Lemma lookup_block l o x hf :
  ({[l := (o, inject x)]} ∪ hf : heap) !! l = Some (o, inject x).
Proof. apply lookup_union_Some_l, lookup_singleton_eq. Qed.

Lemma wp_load l o x w Q :
  l ↦{o} x ∗ (l ↦{o} x -∗ Q x w) ⊢ wp (load (Some l)) w Q.
Proof.
  split; intros h (h1 & h2 & -> & Hd & Hl & HQ) hf Hdf. cbv [holds pointsto] in Hl; subst h1.
  exists x, w, ({[l := (o, inject x)]} ∪ h2). split_and!; [|done|].
  - unfold load. rw -(assoc_L (∪)) lookup_block project_inject. done.
  - rw map_union_comm //. by apply HQ.
Qed.

Lemma wp_store l o x y w Q :
  l ↦{o} x ∗ (l ↦{o} y -∗ Q tt w) ⊢ wp (store (Some l) y) w Q.
Proof.
  split; intros h (h1 & h2 & -> & Hd & Hl & HQ) hf Hdf. cbv [holds pointsto] in Hl; subst h1.
  apply map_disjoint_singleton_l in Hd as Hl2.
  assert (({[l := (o, inject y)]} : heap) ##ₘ h2) as Hd2.
  { by apply map_disjoint_singleton_l. }
  exists tt, w, ({[l := (o, inject y)]} ∪ h2). split_and!.
  - unfold store. rw -(assoc_L (∪)) lookup_block project_inject.
    by rw insert_union_l insert_singleton_eq (assoc_L (∪)).
  - apply map_disjoint_union_l in Hdf as [Hdf ?]. apply map_disjoint_union_l_2; [|done].
    apply map_disjoint_singleton_l. by apply map_disjoint_singleton_l in Hdf.
  - rw map_union_comm //. by apply HQ.
Qed.
End wp_blocks.

(** ** Allocation *)

Lemma alloc_loc_bound (h : heap) l b : h !! l = Some b → (l < alloc_loc h)%positive.
Proof.
  unfold alloc_loc. revert l b.
  apply (map_fold_weak_ind (λ m h, ∀ l b, h !! l = Some b → (l < Pos.succ m)%positive)).
  - intros l b. by rw lookup_empty.
  - intros l b h' m Hl IH l' b' [[<- _]|[Hne Hl']]%lookup_insert_Some; [lia|].
    specialize (IH l' b' Hl'). lia.
Qed.

Lemma alloc_loc_fresh (h : heap) : h !! alloc_loc h = None.
Proof.
  destruct (h !! alloc_loc h) as [b|] eqn:E; [|done].
  apply alloc_loc_bound in E. lia.
Qed.

(** The outcome of the next allocation and the garbage it would hold. *)
Definition malloc_ok (o : owner) (w : world) : bool :=
  match o with User => e_user_malloc | _ => e_malloc end (w_env w) (w_tick w).
Definition junk (w : world) : Z := e_junk (w_env w) (w_tick w).
Definition tick (n : nat) (w : world) : world := w <| w_tick := n + w_tick w |>.

Lemma wp_alloc {T} `{Storable T} o (x : T) w Q :
  (∀ l, l ↦{o} x -∗ Q (Some l) w) ⊢ wp (alloc o x) w Q.
Proof.
  split=> h HQ hf Hd. set (l := alloc_loc (h ∪ hf)).
  assert ((h ∪ hf) !! l = None) as [Hh Hhf]%lookup_union_None by apply alloc_loc_fresh.
  exists (Some l), w, (<[l := (o, inject x)]> h). split_and!.
  - unfold alloc. fold l. by rw insert_union_l.
  - by apply map_disjoint_insert_l_2.
  - rw insert_union_singleton_r //. apply (HQ l); [|done].
    by apply map_disjoint_singleton_r.
Qed.

Lemma wp_malloc {T} `{Storable T} o (uninit : Z → T) w Q :
  (if malloc_ok o w
   then ∀ l, l ↦{o} uninit (junk (tick 1 w)) -∗ Q (Some l) (tick 2 w)
   else Q NULL (tick 1 w)) ⊢ wp (malloc o uninit) w Q.
Proof.
  unfold malloc. rw -wp_bind -wp_consult. fold (malloc_ok o w).
  destruct (malloc_ok o w).
  - rw -wp_bind -wp_consult -wp_alloc. done.
  - rw -wp_ret. done.
Qed.

Lemma wp_release_null o w Q : Q tt w ⊢ wp (release o NULL) w Q.
Proof. split=> h HQ hf Hd. by exists tt, w, h. Qed.

Lemma wp_release {T} `{Storable T} o l (x : T) w Q :
  l ↦{o} x ∗ Q tt w ⊢ wp (release o (Some l)) w Q.
Proof.
  split; intros h (h1 & h2 & -> & Hd & Hl & HQ) hf Hdf. cbv [holds pointsto] in Hl; subst h1.
  apply map_disjoint_union_l in Hdf as [Hdl Hdf].
  apply map_disjoint_singleton_l in Hd, Hdl.
  exists tt, w, h2. split_and!; [|done..].
  unfold release. rw -(assoc_L (∪)) lookup_block decide_True //.
  by rw -insert_union_singleton_l delete_insert_id // lookup_union_None.
Qed.

(** ** Fuel *)

(** At least [n] blocks are owned. *)
Definition at_least (n : nat) : hPropI := HProp (λ h, n ≤ size h).

Lemma at_least_0 P : P ⊢ at_least 0.
Proof. split=> h _. cbv [holds at_least]. lia. Qed.

Lemma at_least_mono n m : n ≤ m → at_least m ⊢ at_least n.
Proof. intros Hle. split=> h. cbv [holds at_least]. lia. Qed.

Lemma at_least_sep n m : at_least n ∗ at_least m ⊢ at_least (n + m).
Proof.
  split; intros h (h1 & h2 & -> & Hd & H1 & H2). cbv [holds at_least] in *.
  rw map_size_disj_union //. lia.
Qed.

#[export] Instance at_least_absorbing n : Absorbing (at_least n).
Proof. unfold Absorbing, bi_absorbingly. rw (at_least_0 True%I) at_least_sep. done. Qed.

Lemma at_least_pointsto {T} `{Storable T} l o (x : T) : l ↦{o} x ⊢ at_least 1.
Proof. split=> h ->. cbv [holds at_least]. by rw map_size_singleton. Qed.

Lemma wp_heap_fuel n w Q :
  at_least n ∧ (∀ k, ⌜n < k⌝ → Q k w) ⊢ wp heap_fuel w Q.
Proof.
  split=> h [Hn HQ] hf Hd. exists (S (size (h ∪ hf))), w, h. split_and!; [done..|].
  apply HQ. change (n ≤ size h) in Hn. change (n < S (size (h ∪ hf))).
  rw map_size_disj_union //. lia.
Qed.

Lemma wp_heap_fuel_own P n w Q :
  (P ⊢ at_least n) →
  P ∗ (∀ k, ⌜n < k⌝ → P -∗ Q k w) ⊢ wp heap_fuel w Q.
Proof.
  intros HP. iIntros "[H HQ]". iApply (wp_heap_fuel n). iSplit.
  - iClear "HQ". by iApply HP.
  - iIntros (k Hk). by iApply "HQ".
Qed.

(** ** Derived operations *)

Lemma wp_modify {T} `{Storable T} l o (x : T) f w Q :
  l ↦{o} x ∗ (l ↦{o} f x -∗ Q tt w) ⊢ wp (modify (Some l) f) w Q.
Proof.
  iIntros "[Hl HQ]". iApply wp_bind. iApply wp_load. iSplitL "Hl"; [done|].
  iIntros "Hl". iApply wp_store. iFrame.
Qed.

Lemma wp_get_string l o c w Q :
  l ↦{o} c ∗ (l ↦{o} c -∗ Q (ch_text c) w) ⊢ wp (get_string (Some l)) w Q.
Proof.
  iIntros "[Hl HQ]". iApply wp_bind. iApply wp_load. iSplitL "Hl"; [done|].
  iIntros "Hl". iApply wp_ret. by iApply "HQ".
Qed.

Lemma wp_strcpy l o c s w Q :
  l ↦{o} c ∗
  (⌜(Z.of_nat (String.length s) + 1 ≤ ch_capacity c)%Z⌝ ∧
   (l ↦{o} Chars (ch_capacity c) s -∗ Q tt w)) ⊢ wp (strcpy (Some l) s) w Q.
Proof.
  iIntros "[Hl HQ]". iApply wp_bind. iApply wp_load. iSplitL "Hl"; [done|].
  iIntros "Hl". iDestruct (bi.and_elim_l with "HQ") as %Hs. iDestruct "HQ" as "[_ HQ]".
  rw (proj2 (Z.leb_le _ _) Hs). iApply wp_store. iFrame.
Qed.

Lemma wp_memcpy l o c s n w Q :
  l ↦{o} c ∗
  (⌜(n ≤ ch_capacity c ∧ n ≤ Z.of_nat (String.length s))%Z⌝ ∧
   (l ↦{o} Chars (ch_capacity c) (String.substring 0 (Z.to_nat n) s) -∗ Q tt w))
  ⊢ wp (memcpy (Some l) (Some s) n) w Q.
Proof.
  iIntros "[Hl HQ]". iApply wp_bind. iApply wp_load. iSplitL "Hl"; [done|].
  iIntros "Hl". iDestruct (bi.and_elim_l with "HQ") as %[Hc Hs]. iDestruct "HQ" as "[_ HQ]".
  rw (proj2 (Z.leb_le _ _) Hc) (proj2 (Z.leb_le _ _) Hs). cbn.
  iApply wp_store. iFrame.
Qed.

Lemma wp_time_now w Q :
  Q (u32 (e_time (w_env w) (w_tick w))) (tick 1 w) ⊢ wp time_now w Q.
Proof.
  iIntros "HQ". iApply wp_bind. iApply wp_consult. iApply wp_ret. done.
Qed.

(** ** How a run moves the world *)

(** [evolves w es w']: the environment is the same, consultations only advance,
    and exactly the events [es] have been observed since. *)
Definition evolves (w : world) (es : list event) (w' : world) : Prop :=
  w_env w' = w_env w ∧ w_tick w ≤ w_tick w' ∧ w_trace w' = w_trace w ++ es.

Lemma evolves_refl w : evolves w [] w.
Proof. split_and!; [done..|]. by rw (right_id_L [] (++)). Qed.

Lemma evolves_trans w1 es1 w2 es2 w3 :
  evolves w1 es1 w2 → evolves w2 es2 w3 → evolves w1 (es1 ++ es2) w3.
Proof.
  intros (E1 & T1 & R1) (E2 & T2 & R2). split_and!; [congruence|lia|].
  by rw R2 R1 (assoc_L (++)).
Qed.

Lemma evolves_tick n w : evolves w [] (tick n w).
Proof. split_and!; cbn; [done|lia|]. by rw (right_id_L [] (++)). Qed.

Lemma evolves_emit w e : evolves w [e] (w <| w_trace := w_trace w ++ [e] |>).
Proof. by split_and!. Qed.

(** Chains of steps without events. *)
Lemma evolves_silent w1 w2 es w3 :
  evolves w1 [] w2 → evolves w2 es w3 → evolves w1 es w3.
Proof. apply (evolves_trans w1 [] w2 es w3). Qed.

Lemma evolves_tick_r n w es w' : evolves w es w' → evolves w es (tick n w').
Proof. intros (E & T & R). split_and!; [done|cbn in *; lia|done]. Qed.

Create HintDb world.
#[export] Hint Resolve evolves_tick_r evolves_refl evolves_tick evolves_emit : world.
#[export] Hint Extern 2 (evolves ?w ?es ?w') =>
  match goal with
  | H : evolves w _ _ |- _ => refine (evolves_silent _ _ _ _ H _)
  end : world.

(** ** Tactics *)

Global Arguments mbind : simpl never.
Global Arguments mret : simpl never.

(** Focus on the first command of a sequence. *)
Ltac wp_focus := cbn beta; repeat lazymatch goal with
  | |- envs_entails _ (wp (@mbind _ _ _ _ _ _) _ _) => iApply wp_bind; cbn beta
  end.

Tactic Notation "wp_take" constr(H) := iSplitL H; [iExact H|]; iIntros H; simpl.

Tactic Notation "wload" constr(H) := wp_focus; iApply wp_load; wp_take H.
Tactic Notation "wstore" constr(H) := wp_focus; iApply wp_store; wp_take H.
Tactic Notation "wmodify" constr(H) := wp_focus; iApply wp_modify; wp_take H.
Tactic Notation "wstring" constr(H) := wp_focus; iApply wp_get_string; wp_take H.
(** String copies leave the capacity check to [tac]. *)
Tactic Notation "wstrcpy" constr(H) "by" tactic3(tac) := wp_focus; iApply wp_strcpy;
  iSplitL H; [iExact H|]; iSplit; [iPureIntro; simpl; tac | iIntros H; simpl].
Tactic Notation "wmemcpy" constr(H) "by" tactic3(tac) := wp_focus; iApply wp_memcpy;
  iSplitL H; [iExact H|]; iSplit; [iPureIntro; simpl; tac | iIntros H; simpl].
Tactic Notation "wret" := wp_focus; iApply wp_ret; simpl.

(** ** Triples

    A heap that satisfies [P], next to any other heap: the run from world [w]
    ends in a value, without undefined behaviour and with enough fuel, leaves
    the other heap as it was, and what has become of the first satisfies [Q]. *)
Definition triple {A} (P : hPropI) (m : M A) (w : world) (Q : A → world → hPropI) : Prop :=
  ∀ h hf, holds P h → h ##ₘ hf → ∃ a w' h',
    m w (h ∪ hf) = Ret a w' (h' ∪ hf) ∧ h' ##ₘ hf ∧ holds (Q a w') h'.

Lemma triple_intro {A} P (m : M A) w Q : (P ⊢ wp m w Q) → triple P m w Q.
Proof. intros HP h hf Hh. by apply (hent HP h Hh). Qed.

(** A triple at a heap of its own. *)
Lemma triple_run {A} P (m : M A) w Q h :
  triple P m w Q → holds P h → ∃ a w' h', m w h = Ret a w' h' ∧ holds (Q a w') h'.
Proof.
  intros HT Hh. destruct (HT h ∅ Hh) as (a & w' & h' & E & _ & HQ).
  { apply map_disjoint_empty_r. }
  rw !(right_id_L ∅ (∪)) in E. by exists a, w', h'.
Qed.

(** A run of a property's program on a heap of its own, evaluated. *)
Ltac run_on HT Hh :=
  let r := fresh "r" in let w := fresh "w" in let h := fresh "h" in
  let E := fresh "E" in let E' := fresh "E" in
  destruct (triple_run _ _ _ _ _ HT Hh) as (r & w & h & E & _);
  pose proof E as E'; vm_compute in E'; injection E' as <- <- <-;
  eexists _, _; split; [exact E|reflexivity].

(** ** Concrete heaps *)

(** The assertion that a list of blocks makes up the heap. *)
Fixpoint blocks (bs : list (loc * (owner * Types.block))) : hPropI :=
  match bs with
  | [] => emp
  | (l, ob) :: bs => HProp (λ h, h = {[l := ob]}) ∗ blocks bs
  end%I.

Lemma blocks_holds bs P :
  bool_decide (NoDup bs.*1) = true → (blocks bs ⊢ P) → holds P (list_to_map bs).
Proof.
  intros Hnd%bool_decide_eq_true HP. apply (hent HP). clear P HP.
  induction bs as [|[l ob] bs IH]; [done|].
  apply NoDup_cons in Hnd as [Hl Hnd]. simpl.
  apply not_elem_of_list_to_map_1 in Hl as Hl'.
  rw insert_union_singleton_l. apply hsep_split; [|done|by apply IH].
  by apply map_disjoint_singleton_l.
Qed.

(** ** Undefined behaviour

    [faults m w f]: run on exactly this heap, [m] ends in the undefined
    behaviour [f]. *)
Definition faults {A} (m : M A) (w : world) (f : fault) : hPropI :=
  HProp (λ h, m w h = Stuck f).

(** The block at [l] is not allocated. *)
Definition absent (l : loc) : hPropI := HProp (λ h, h !! l = None).

Lemma faults_bind {A B} (m : M A) (k : A → M B) w f :
  wp m w (λ a w', faults (k a) w' f) ⊢ faults (m ≫= k) w f.
Proof.
  split=> h H. destruct (H ∅) as (a & w' & h' & E & _ & Hf); [apply map_disjoint_empty_r|].
  rw !(right_id_L ∅ (∪)) in E. cbv [holds faults]. unfold mbind, M_bind. by rw E.
Qed.

Lemma faults_first {A B} (m : M A) (k : A → M B) w f :
  faults m w f ⊢ faults (m ≫= k) w f.
Proof. split=> h E. cbv [holds faults] in *. unfold mbind, M_bind. by rw E. Qed.

Lemma faults_load {T} `{Storable T} l w : absent l ⊢ faults (load (T := T) (Some l)) w BadPointer.
Proof. split=> h E. cbv [holds faults absent] in *. unfold load. by rw E. Qed.

Lemma faults_undefined {A} f w P : P ⊢ faults (undefined (A := A) f) w f.
Proof. by split. Qed.

(** A block is gone after it has been freed. *)
Lemma wp_release_absent {T} `{Storable T} o l (x : T) w P :
  l ↦{o} x ∗ P ⊢ wp (release o (Some l)) w (λ _ w', ⌜w' = w⌝ ∧ P ∧ absent l).
Proof.
  split; intros h (h1 & h2 & -> & Hd & Hl & HP) hf Hdf. cbv [holds pointsto] in Hl; subst h1.
  apply map_disjoint_union_l in Hdf as [Hdl Hdf].
  apply map_disjoint_singleton_l in Hd, Hdl.
  exists tt, w, h2. split; [|by split_and!].
  unfold release. rw -(assoc_L (∪)) lookup_block decide_True //.
  by rw -insert_union_singleton_l delete_insert_id // lookup_union_None.
Qed.

Lemma faults_run {A} (m : M A) w f P h : (P ⊢ faults m w f) → holds P h → m w h = Stuck f.
Proof. intros HP Hh. exact (hent HP h Hh). Qed.
