(* ===== verification/MacrosSpec.v ===== *)
(** Rules for the operations of Macros.v: what allocation, logging and
    callbacks through a burrow do, given the burrow's block. *)
From S2P Require Import Prelude Types Heap Macros Logic.
From iris.proofmode Require Import proofmode.

(** Which allocator a burrow's blocks come from and go back to. *)
Definition alloc_owner (b : burrow_st) : owner :=
  match b_malloc_fn b with Some _ => User | None => Libc end.
Definition free_owner (b : burrow_st) : owner :=
  match b_free_fn b with Some _ => User | None => Libc end.

(** The user set both allocation functions or neither. *)
Definition consistent (b : burrow_st) : Prop := free_owner b = alloc_owner b.

(** What the logging wrappers and the callbacks make observable. *)
Definition log_events (b : burrow_st) (lvl : burrow_verbose_t) (msg : string) : list event :=
  if verbose_code (b_verbose b) <=? verbose_code lvl
  then [match b_log_fn b with None => EvPrint lvl msg | Some _ => EvLog lvl msg end]
  else [].
Definition when_set (f : fnptr) (e : event) : list event :=
  match f with Some _ => [e] | None => [] end.

Section macros.
Context (bl : loc) (bo : owner) (b : burrow_st).

Lemma wp_burrow_malloc {T} `{Storable T} (uninit : Z → T) w Q :
  bl ↦{bo} b ∗
  (if malloc_ok (alloc_owner b) w
   then ∀ l, bl ↦{bo} b -∗ l ↦{alloc_owner b} uninit (junk (tick 1 w)) -∗
             Q (Some l) (tick 2 w)
   else bl ↦{bo} b -∗ Q NULL (tick 1 w))
  ⊢ wp (burrow_malloc (Some bl) uninit) w Q.
Proof.
  iIntros "[Hb HQ]". unfold burrow_malloc. wload "Hb". unfold alloc_owner.
  destruct (b_malloc_fn b); iApply wp_malloc;
    (destruct (malloc_ok _ w); [iIntros (l) "Hl"; iApply ("HQ" with "Hb Hl")
                               | iApply ("HQ" with "Hb")]).
Qed.

Lemma wp_burrow_free_null w Q :
  bl ↦{bo} b ∗ (bl ↦{bo} b -∗ Q tt w) ⊢ wp (burrow_free (Some bl) NULL) w Q.
Proof.
  iIntros "[Hb HQ]". unfold burrow_free. wload "Hb".
  destruct (b_free_fn b); iApply wp_release_null; by iApply "HQ".
Qed.

Lemma wp_burrow_free {T} `{Storable T} l (x : T) w Q :
  consistent b →
  bl ↦{bo} b ∗ l ↦{alloc_owner b} x ∗ (bl ↦{bo} b -∗ Q tt w)
  ⊢ wp (burrow_free (Some bl) (Some l)) w Q.
Proof.
  intros <-. iIntros "(Hb & Hl & HQ)". unfold burrow_free. wload "Hb". unfold free_owner.
  destruct (b_free_fn b); iApply (wp_release _ _ x); iFrame; by iApply "HQ".
Qed.

Lemma wp_log_at lvl msg w Q :
  bl ↦{bo} b ∗
  (∀ w', ⟦ evolves w (log_events b lvl msg) w' ⟧ -∗ bl ↦{bo} b -∗ Q tt w')
  ⊢ wp (log_at lvl (Some bl) msg) w Q.
Proof.
  iIntros "[Hb HQ]". unfold log_at. wload "Hb". unfold log_events.
  destruct (verbose_code (b_verbose b) <=? verbose_code lvl).
  - unfold burrow_internal_log. wload "Hb". destruct (b_log_fn b); iApply wp_emit; iApply ("HQ" with "[%] Hb");
      auto with world.
  - wret. iApply ("HQ" with "[%] Hb"). auto with world.
Qed.

Lemma wp_callback_message id body size set ttl hide w Q :
  bl ↦{bo} b ∗
  (∀ w', ⟦ evolves w (when_set (b_message_fn b) (EvMessage id body size set ttl hide)) w' ⟧
         -∗ bl ↦{bo} b -∗ Q tt w')
  ⊢ wp (burrow_callback_message (Some bl) id body size set ttl hide) w Q.
Proof.
  iIntros "[Hb HQ]". unfold burrow_callback_message. wload "Hb".
  destruct (b_message_fn b); [iApply wp_emit | wret];
    iApply ("HQ" with "[%] Hb"); simpl; auto with world.
Qed.

Lemma wp_callback_queue q w Q :
  bl ↦{bo} b ∗
  (∀ w', ⟦ evolves w (when_set (b_queue_fn b) (EvQueue q)) w' ⟧ -∗ bl ↦{bo} b -∗ Q tt w')
  ⊢ wp (burrow_callback_queue (Some bl) q) w Q.
Proof.
  iIntros "[Hb HQ]". unfold burrow_callback_queue. wload "Hb".
  destruct (b_queue_fn b); [iApply wp_emit | wret];
    iApply ("HQ" with "[%] Hb"); simpl; auto with world.
Qed.

Lemma wp_callback_account a w Q :
  bl ↦{bo} b ∗
  (∀ w', ⟦ evolves w (when_set (b_account_fn b) (EvAccount a)) w' ⟧ -∗ bl ↦{bo} b -∗ Q tt w')
  ⊢ wp (burrow_callback_account (Some bl) a) w Q.
Proof.
  iIntros "[Hb HQ]". unfold burrow_callback_account. wload "Hb".
  destruct (b_account_fn b); [iApply wp_emit | wret];
    iApply ("HQ" with "[%] Hb"); simpl; auto with world.
Qed.
End macros.

(** [burrow_free], remembering that the block is gone. *)
Lemma wp_burrow_free_absent {T} `{Storable T} bl bo b l (x : T) w P :
  consistent b →
  bl ↦{bo} b ∗ l ↦{alloc_owner b} x ∗ P
  ⊢ wp (burrow_free (Some bl) (Some l)) w (λ _ w', ⌜w' = w⌝ ∧ (bl ↦{bo} b ∗ P) ∧ absent l).
Proof.
  intros <-. iIntros "(Hb & Hl & HP)". unfold burrow_free. wload "Hb". unfold free_owner.
  destruct (b_free_fn b); iApply (wp_release_absent _ _ x); iFrame.
Qed.
