(* ===== verification/DictionarySpec.v ===== *)
(** What dictionary.c implements: the list segments behind a dictionary, and a
    rule for each operation in terms of the list of its entries. *)
From S2P Require Import Prelude Types Heap Macros Dictionary Logic MacrosSpec.
From iris.proofmode Require Import proofmode.

(** ** The abstract dictionary: an insertion-ordered list of entries *)

(** An entry with the addresses of its node and of its copy of the key. *)
Record entry := Entry { e_node : loc; e_keybuf : loc; e_key : string; e_data : ptr }.

#[export] Instance entry_eq_dec : EqDecision entry.
Proof. solve_decision. Defined.

(** The first entry with a key. *)
Fixpoint find_entry (k : string) (es : list entry) : option entry :=
  match es with
  | [] => None
  | e :: es => if String.eqb (e_key e) k then Some e else find_entry k es
  end.

(** All entries but the first with the key. *)
Fixpoint remove_entry (k : string) (es : list entry) : list entry :=
  match es with
  | [] => []
  | e :: es => if String.eqb (e_key e) k then es else e :: remove_entry k es
  end.

(** The entries before the first with the key, and from it on. *)
Fixpoint before_key (k : string) (es : list entry) : list entry :=
  match es with
  | [] => []
  | e :: es => if String.eqb (e_key e) k then [] else e :: before_key k es
  end.
Fixpoint from_key (k : string) (es : list entry) : list entry :=
  match es with
  | [] => []
  | e :: es' => if String.eqb (e_key e) k then es else from_key k es'
  end.

(** The range a lower bound selects: from the marker on, or everything when the
    marker is [NULL] or not there. *)
Definition range_skip (marker : cstr) (es : list entry) : list entry :=
  match marker with
  | Some k => match find_entry k es with Some _ => before_key k es | None => [] end
  | None => []
  end.
Definition range_from (marker : cstr) (es : list entry) : list entry :=
  match marker with
  | Some k => match find_entry k es with Some _ => from_key k es | None => es end
  | None => es
  end.

Lemma range_split marker es : range_skip marker es ++ range_from marker es = es.
Proof.
  destruct marker as [k|]; [|done]. cbn. destruct (find_entry k es) as [found|]; [|done].
  induction es as [|e es IH]; [done|]. cbn.
  destruct (String.eqb (e_key e) k); [done|]. cbn. by rw IH.
Qed.

Lemma remove_entry_absent k es : find_entry k es = None → remove_entry k es = es.
Proof.
  induction es as [|e es IH]; cbn; [done|]. destruct (String.eqb (e_key e) k); [done|].
  intros H. by rw IH.
Qed.

Lemma find_entry_split k es e :
  find_entry k es = Some e →
  e_key e = k ∧ ∃ post, from_key k es = e :: post ∧ es = before_key k es ++ e :: post ∧
  remove_entry k es = before_key k es ++ post.
Proof.
  induction es as [|e' es IH]; cbn; [done|].
  destruct (String.eqb_spec (e_key e') k) as [Hk|Hk]; intros E.
  - simplify_eq. split; [done|]. by exists es.
  - destruct (IH E) as (He & post & -> & Hes & Hr). split; [done|]. exists post.
    rw Hr. split_and!; [done| |done]. cbn. by rw -Hes.
Qed.

(** [u_bound] entries, all of them when it is negative. *)
Definition drop_bound (u : Z) (es : list entry) : list entry :=
  if (u <? 0)%Z then [] else drop (Z.to_nat u) es.

Lemma find_entry_NoDup pre e post :
  NoDup (e_key <$> pre ++ e :: post) → find_entry (e_key e) (pre ++ e :: post) = Some e.
Proof.
  induction pre as [|e' pre IH]; cbn; intros Hnd.
  - by rw String.eqb_refl.
  - apply NoDup_cons in Hnd as [Hn Hnd]. rw IH //.
    destruct (String.eqb_spec (e_key e') (e_key e)) as [Hk|]; [|done].
    destruct Hn. rw Hk fmap_app. set_solver.
Qed.

Lemma remove_entry_NoDup pre e post :
  NoDup (e_key <$> pre ++ e :: post) →
  remove_entry (e_key e) (pre ++ e :: post) = pre ++ post.
Proof.
  induction pre as [|e' pre IH]; cbn; intros Hnd.
  - by rw String.eqb_refl.
  - apply NoDup_cons in Hnd as [Hn Hnd]. rw IH //.
    destruct (String.eqb_spec (e_key e') (e_key e)) as [Hk|]; [|done].
    destruct Hn. rw Hk fmap_app. set_solver.
Qed.

Lemma NoDup_keys_drop pre e post :
  NoDup (e_key <$> pre ++ e :: post) → NoDup (e_key <$> pre ++ post).
Proof.
  rw !fmap_app fmap_cons. intros H.
  rw -Permutation_middle in H. by apply NoDup_cons in H as [_ H].
Qed.

(** The keys and data of entries, without the addresses of their nodes. *)
Definition payload (es : list entry) : list (string * ptr) :=
  (λ e, (e_key e, e_data e)) <$> es.

(** The number of entries [dictionary_iter] copies. *)
Definition iter_bound (u : Z) (es : list entry) : nat :=
  Z.to_nat (if (u =? DICTIONARY_LENGTH)%Z then u32 (Z.of_nat (length es)) else u).

Lemma payload_keys es : (payload es).*1 = e_key <$> es.
Proof. unfold payload. by rw -list_fmap_compose. Qed.

(** ** Representation *)

(** The node that precedes the end of a segment, and the one that starts it. *)
Fixpoint last_of (prev : ptr) (es : list entry) : ptr :=
  match es with [] => prev | e :: es => last_of (Some (e_node e)) es end.
Definition first_of (next : ptr) (es : list entry) : ptr :=
  match es with [] => next | e :: _ => Some (e_node e) end.

Lemma last_of_app prev es1 es2 : last_of prev (es1 ++ es2) = last_of (last_of prev es1) es2.
Proof. revert prev. induction es1 as [|e es1 IH]; intros prev; [done|]. apply IH. Qed.

Lemma first_of_app next es1 es2 : first_of next (es1 ++ es2) = first_of (first_of next es2) es1.
Proof. by destruct es1. Qed.

Lemma first_of_Some l es : is_null (first_of (Some l) es) = false.
Proof. by destruct es. Qed.

Section rep.
Context (o : owner).

(** One node with its key buffer. *)
Definition node_at (e : entry) (prev next : ptr) : hPropI :=
  (e_node e ↦{o} DictNode (Some (e_keybuf e)) prev next (e_data e) ∗
   e_keybuf e ↦{o} Chars (Z.of_nat (String.length (e_key e)) + 1) (e_key e))%I.

(** A segment of nodes between [prev] and [next]. *)
Fixpoint dseg (prev next : ptr) (es : list entry) : hPropI :=
  match es with
  | [] => emp
  | e :: es => node_at e prev (first_of next es) ∗ dseg (Some (e_node e)) next es
  end%I.

(** The dictionary at [d] of the burrow at [bl] holds [es], in this order. *)
Definition dict (bl d : loc) (es : list entry) : hPropI :=
  (d ↦{o} Dictionary (first_of NULL es) (last_of NULL es) (Z.of_nat (length es)) (Some bl) ∗
   dseg NULL NULL es)%I.

Lemma dseg_app prev next es1 es2 :
  dseg prev next (es1 ++ es2) ⊣⊢
  dseg prev (first_of next es2) es1 ∗ dseg (last_of prev es1) next es2.
Proof.
  revert prev. induction es1 as [|e es1 IH]; intros prev; simpl.
  - by rw left_id.
  - rw IH first_of_app assoc. done.
Qed.

(** Taking the node of one entry out of a dictionary. *)
Lemma dict_split bl d pre e post :
  dict bl d (pre ++ e :: post) ⊣⊢
  d ↦{o} Dictionary (first_of (Some (e_node e)) pre) (last_of (Some (e_node e)) post)
           (Z.of_nat (length (pre ++ e :: post))) (Some bl) ∗
  dseg NULL (Some (e_node e)) pre ∗
  node_at e (last_of NULL pre) (first_of NULL post) ∗
  dseg (Some (e_node e)) NULL post.
Proof. unfold dict. by rw dseg_app first_of_app last_of_app. Qed.

Lemma dict_open bl d pre e post :
  dict bl d (pre ++ e :: post) ⊢
  d ↦{o} Dictionary (first_of (Some (e_node e)) pre) (last_of (Some (e_node e)) post)
           (Z.of_nat (length (pre ++ e :: post))) (Some bl) ∗
  dseg NULL (Some (e_node e)) pre ∗
  node_at e (last_of NULL pre) (first_of NULL post) ∗
  dseg (Some (e_node e)) NULL post.
Proof. by rw dict_split. Qed.

Lemma at_least_dseg prev next es : dseg prev next es ⊢ at_least (length es).
Proof.
  revert prev. induction es as [|e es IH]; intros prev; simpl.
  - apply at_least_0.
  - rw IH. unfold node_at. rw !at_least_pointsto !at_least_sep.
    apply at_least_mono. lia.
Qed.

Lemma at_least_dict bl d es : dict bl d es ⊢ at_least (length es).
Proof. iIntros "[_ Hs]". by iApply at_least_dseg. Qed.
End rep.

(** ** Rules *)

(** No allocation ever fails. *)
Definition reliable (w : world) : Prop :=
  ∀ n, e_malloc (w_env w) n = true ∧ e_user_malloc (w_env w) n = true.

Lemma reliable_ok w o : reliable w → malloc_ok o w = true.
Proof. intros H. destruct (H (w_tick w)), o; done. Qed.

Lemma reliable_evolves w es w' : evolves w es w' → reliable w' ↔ reliable w.
Proof. intros (E & _). unfold reliable. by rw E. Qed.

(** A run that failed to allocate: nothing but log lines were observed. *)
Definition is_log (e : event) : Prop :=
  match e with EvLog _ _ | EvPrint _ _ => True | _ => False end.
Definition gave_up (w w' : world) : Prop :=
  ¬ reliable w ∧ ∃ es, evolves w es w' ∧ Forall is_log es.

Lemma log_events_log b lvl msg : Forall is_log (log_events b lvl msg).
Proof. unfold log_events. destruct (_ <=? _), (b_log_fn b); repeat constructor. Qed.

Lemma gave_up_intro w o n w' es :
  malloc_ok o w = false → evolves (tick n w) es w' → Forall is_log es → gave_up w w'.
Proof.
  intros Hm He Hl. split.
  - intros Hr. by rw reliable_ok in Hm.
  - exists es. split; [|done]. eapply evolves_silent; [|done]. auto with world.
Qed.

Lemma gave_up_after w1 w2 w3 : evolves w1 [] w2 → gave_up w2 w3 → gave_up w1 w3.
Proof.
  intros H (Hr & es & He & Hl). split; [by rw reliable_evolves in Hr|].
  exists es. split; [|done]. by eapply evolves_silent.
Qed.

Section lookup.
Context (o : owner) (bl : loc).

(** The search loop: it walks [suf], whose nodes follow [length pre] others. *)
Lemma wp_get_loop d k pre suf fuel w Q :
  length suf < fuel →
  dict o bl d (pre ++ suf) ∗
  (dict o bl d (pre ++ suf) -∗ Q (e_node <$> find_entry k suf) w)
  ⊢ wp (loop fuel (get_step (Some d) k) (first_of NULL suf, Z.of_nat (length pre))) w Q.
Proof.
  revert pre suf. induction fuel as [|fuel IH]; intros pre suf Hf; [lia|].
  iIntros "[Hd HQ]". unfold loop; fold (@loop (ptr * Z) ptr). unfold get_step.
  destruct suf as [|e suf]; simpl in *.
  - rw (right_id_L [] (++)). iDestruct "Hd" as "[Hd Hs]". wload "Hd".
    rw Z.ltb_irrefl. wret. wret. iApply "HQ". iFrame.
  - rw dict_split. iDestruct "Hd" as "(Hd & Hpre & [Hn Hk] & Hsuf)". wload "Hd".
    rw (proj2 (Z.ltb_lt _ _)); [|rw length_app /=; lia]. wload "Hn". wstring "Hk".
    destruct (String.eqb (e_key e) k) eqn:Hek.
    + wret. wret. iApply "HQ". iFrame.
    + wret. replace (Z.of_nat (length pre) + 1)%Z with (Z.of_nat (length (pre ++ [e])))
        by (rw length_app /=; lia).
      iApply (IH (pre ++ [e]) suf); [lia|]. rw -(assoc_L (++)) /= dict_split. iFrame.
Qed.

Lemma wp_dictionary_get d es k w Q :
  dict o bl d es ∗ (dict o bl d es -∗ Q (e_node <$> find_entry k es) w)
  ⊢ wp (dictionary_get (Some d) (Some k) SEARCH) w Q.
Proof.
  iIntros "[Hd HQ]". unfold dictionary_get; simpl. iDestruct "Hd" as "[Hd Hs]".
  wload "Hd". wp_focus. iApply (wp_heap_fuel_own _ _ _ _ (at_least_dict o bl d es)).
  iFrame "Hd Hs". iIntros (fuel Hf) "Hd". wp_focus.
  iApply (wp_get_loop d k [] es); [done|]. iFrame "Hd". iIntros "Hd". rw andb_false_r. wret. by iApply "HQ".
Qed.

Lemma wp_get_range d es marker w (Q : ptr → world → hPropI) :
  dict o bl d es ∗
  (dict o bl d es -∗ ∀ p, ⌜(if is_null p then first_of NULL es else p)
                           = first_of NULL (range_from marker es)⌝ → Q p w)
  ⊢ wp (dictionary_get (Some d) marker SEARCH) w Q.
Proof.
  iIntros "[Hd HQ]". destruct marker as [k|]; simpl.
  - iApply wp_dictionary_get. iFrame "Hd". iIntros "Hd".
    iApply ("HQ" with "Hd"). iPureIntro.
    destruct (find_entry k es) as [e|] eqn:E; simpl; [|done].
    destruct (find_entry_split _ _ _ E) as (_ & post & -> & _). done.
  - unfold dictionary_get. wret. by iApply ("HQ" with "Hd").
Qed.
End lookup.

Section rules.
Context (bl : loc) (bo : owner) (b : burrow_st).
Context (Hcons : consistent b).
Let o := alloc_owner b.

Lemma wp_dictionary_init w Q :
  bl ↦{bo} b ∗
  ((∀ d w', ⟦ evolves w [] w' ⟧ -∗ bl ↦{bo} b -∗ dict o bl d [] -∗ Q (Some d) w') ∧
   (∀ w', ⟦ gave_up w w' ⟧ -∗ bl ↦{bo} b -∗ Q NULL w'))
  ⊢ wp (dictionary_init NULL (Some bl)) w Q.
Proof.
  iIntros "[Hb HQ]". unfold dictionary_init; simpl. wp_focus.
  iApply wp_burrow_malloc. iFrame "Hb". destruct (malloc_ok _ w) eqn:Hok.
  - iDestruct "HQ" as "[HQ _]". iIntros (d) "Hb Hd". wret. wret.
    wmodify "Hd". wmodify "Hd". wmodify "Hd". wmodify "Hd". wret.
    iApply ("HQ" with "[%] Hb"); [auto with world|]. unfold dict; simpl. iFrame.
  - iDestruct "HQ" as "[_ HQ]". iIntros "Hb". simpl. wp_focus. iApply wp_log_at.
    iFrame "Hb". iIntros (w' He) "Hb". wret. wret.
    iApply ("HQ" with "[%] Hb"). eapply gave_up_intro; eauto using log_events_log.
Qed.

Lemma wp_dictionary_add d es k data w Q :
  bl ↦{bo} b ∗ dict o bl d es ∗
  ((∀ n kb w', ⟦ evolves w [] w' ⟧ -∗ bl ↦{bo} b -∗
      dict o bl d (es ++ [Entry n kb k data]) -∗ Q (Some n) w') ∧
   (∀ w', ⟦ gave_up w w' ⟧ -∗ bl ↦{bo} b -∗ dict o bl d es -∗ Q NULL w'))
  ⊢ wp (dictionary_add (Some d) (Some k) data) w Q.
Proof.
  iIntros "(Hb & [Hd Hs] & HQ)". unfold dictionary_add; simpl. wload "Hd".
  wp_focus. iApply wp_burrow_malloc. iFrame "Hb". destruct (malloc_ok _ w) eqn:Hok.
  2: { iDestruct "HQ" as "[_ HQ]". iIntros "Hb". simpl. wp_focus. iApply wp_log_at.
       iFrame "Hb". iIntros (w' He) "Hb". wret.
       iApply ("HQ" with "[%] Hb [$Hd $Hs]").
       eapply gave_up_intro; eauto using log_events_log. }
  iIntros (n) "Hb Hn". simpl. unfold deref_cstr. wret. wp_focus.
  iApply wp_burrow_malloc. iFrame "Hb". destruct (malloc_ok _ (tick 2 w)) eqn:Hok'.
  2: { iDestruct "HQ" as "[_ HQ]". iIntros "Hb". wmodify "Hn". wp_focus.
       iApply wp_log_at. iFrame "Hb". iIntros (w' He) "Hb". wp_focus.
       iApply wp_burrow_free; [done|]. iFrame "Hb Hn". iIntros "Hb". wret.
       iApply ("HQ" with "[%] Hb [$Hd $Hs]").
       eapply gave_up_after, gave_up_intro; eauto using log_events_log with world. }
  iDestruct "HQ" as "[HQ _]". iIntros (kb) "Hb Hkb". wmodify "Hn".
  wstrcpy "Hkb" by lia. wmodify "Hn".
  iSpecialize ("HQ" $! n kb (tick 2 (tick 2 w)) with "[%] Hb"); [auto with world|].
  destruct es as [|el es _] using rev_ind; simpl.
  - wret. wmodify "Hd". wmodify "Hd". wmodify "Hn". wmodify "Hn". wmodify "Hd". wret.
    iApply "HQ". unfold dict, node_at; simpl. iFrame.
  - rw !last_of_app !first_of_app /= dseg_app /=. iDestruct "Hs" as "(Hs & [Hl Hlk] & _)".
    wmodify "Hl". wmodify "Hd". rw first_of_Some. wret.
    wmodify "Hn". wmodify "Hn". wmodify "Hd". wret.
    iApply "HQ". unfold dict. rw !last_of_app !first_of_app !dseg_app /=.
    rw !length_app /=. replace (Z.of_nat (length es + 1) + 1)%Z with (Z.of_nat (length es + 1 + 1)) by lia.
    iFrame. by rw last_of_app.
Qed.

Lemma node_at_ne e prev next e' prev' next' :
  node_at o e prev next ∗ node_at o e' prev' next' ⊢ ⌜e_node e ≠ e_node e'⌝.
Proof.
  iIntros "[[H1 K1] [H2 K2]]". iDestruct (pointsto_ne with "[$H1 $H2]") as "H".
  iClear "K1 K2". done.
Qed.

(** Unlinking: the predecessor (or the dictionary's head) is pointed at [x]... *)
Lemma wp_relink_next d e pre l n x w Q :
  d ↦{o} Dictionary (first_of (Some e) pre) l n (Some bl) ∗ dseg o NULL (Some e) pre ∗
  (d ↦{o} Dictionary (first_of x pre) l n (Some bl) -∗ dseg o NULL x pre -∗ Q tt w)
  ⊢ wp (if is_null (last_of NULL pre) then modify (Some d) (λ d, d <| d_first := x |>)
        else modify (last_of NULL pre) (λ p, p <| n_next := x |>)) w Q.
Proof.
  iIntros "(Hd & Hpre & HQ)". destruct pre as [|p pre _] using rev_ind; simpl.
  - wmodify "Hd". iApply ("HQ" with "Hd Hpre").
  - rw last_of_app !first_of_app !dseg_app /=. iDestruct "Hpre" as "(Hpre & [Hp Hk] & _)".
    wmodify "Hp". iApply ("HQ" with "Hd"). by iFrame.
Qed.

(** ...and the successor (or the dictionary's tail) at [x]. *)
Lemma wp_relink_previous d e post f n x w Q :
  d ↦{o} Dictionary f (last_of (Some e) post) n (Some bl) ∗ dseg o (Some e) NULL post ∗
  (d ↦{o} Dictionary f (last_of x post) n (Some bl) -∗ dseg o x NULL post -∗ Q tt w)
  ⊢ wp (if is_null (first_of NULL post) then modify (Some d) (λ d, d <| d_last := x |>)
        else modify (first_of NULL post) (λ q, q <| n_previous := x |>)) w Q.
Proof.
  iIntros "(Hd & Hpost & HQ)". destruct post as [|q post]; simpl.
  - wmodify "Hd". iApply ("HQ" with "Hd Hpost").
  - iDestruct "Hpost" as "[[Hq Hk] Hpost]". wmodify "Hq".
    iApply ("HQ" with "Hd"). iFrame.
Qed.

Lemma wp_dictionary_delete_node d es k w Q :
  bl ↦{bo} b ∗ dict o bl d es ∗
  (bl ↦{bo} b -∗ dict o bl d (remove_entry k es) -∗ Q tt w)
  ⊢ wp (dictionary_delete_node (Some d) (Some k)) w Q.
Proof.
  iIntros "(Hb & Hd & HQ)". unfold dictionary_delete_node; simpl. wp_focus.
  iApply wp_dictionary_get. iFrame "Hd". iIntros "Hd".
  destruct (find_entry k es) as [e|] eqn:E; simpl.
  2: { wret. rw remove_entry_absent //. iApply ("HQ" with "Hb Hd"). }
  destruct (find_entry_split _ _ _ E) as (_ & post & _ & Hes & ->). clear E.
  revert Hes. generalize (before_key k es) as pre. intros pre ->.
  rw dict_split. iDestruct "Hd" as "(Hd & Hpre & [Hn Hk] & Hpost)". wload "Hn".
  wp_focus. iApply wp_relink_next. iFrame "Hd Hpre". iIntros "Hd Hpre".
  wp_focus. iApply wp_relink_previous. iFrame "Hd Hpost". iIntros "Hd Hpost".
  wload "Hd". wp_focus. iApply wp_burrow_free; [done|]. iFrame "Hb Hk". iIntros "Hb".
  wp_focus. iApply wp_burrow_free; [done|]. iFrame "Hb Hn". iIntros "Hb". wmodify "Hd".
  iApply ("HQ" with "Hb"). unfold dict.
  rw first_of_app last_of_app dseg_app !length_app /=.
  replace (Z.of_nat (length pre + S (length post)) - 1)%Z
    with (Z.of_nat (length pre + length post)) by lia. iFrame.
Qed.

(** [dictionary_get] with [CREATE]: the entry found, or a new one whose data
    is a new dictionary. When only the second allocation fails, an entry
    without data stays behind. *)
Lemma wp_dictionary_get_create d es k w Q :
  bl ↦{bo} b ∗ dict o bl d es ∗
  ((∀ e, ⌜find_entry k es = Some e⌝ → bl ↦{bo} b -∗ dict o bl d es -∗
      Q (Some (e_node e)) w) ∧
   (⌜find_entry k es = None⌝ →
     (∀ n kb m w', ⟦ evolves w [] w' ⟧ -∗ bl ↦{bo} b -∗
        dict o bl d (es ++ [Entry n kb k (Some m)]) -∗ dict o bl m [] -∗ Q (Some n) w') ∧
     (∀ es' w', ⟦ gave_up w w' ⟧ -∗
        ⟦ es' = es ∨ ∃ n kb, es' = es ++ [Entry n kb k NULL] ⟧ -∗
        bl ↦{bo} b -∗ dict o bl d es' -∗ Q NULL w')))
  ⊢ wp (dictionary_get (Some d) (Some k) CREATE) w Q.
Proof.
  iIntros "(Hb & Hd & HQ)". unfold dictionary_get; simpl. iDestruct "Hd" as "[Hd Hs]".
  wload "Hd". wp_focus. iApply (wp_heap_fuel_own _ _ _ _ (at_least_dict o bl d es)).
  iFrame "Hd Hs". iIntros (fuel Hf) "Hd". wp_focus.
  iApply (wp_get_loop o bl d k [] es); [done|]. iFrame "Hd". iIntros "Hd".
  destruct (find_entry k es) as [e|] eqn:E; simpl.
  { wret. iDestruct "HQ" as "[HQ _]". by iApply ("HQ" with "[//] Hb"). }
  iDestruct "HQ" as "[_ HQ]". iSpecialize ("HQ" with "[//]"). wp_focus.
  iApply wp_dictionary_add. iFrame "Hb Hd". iSplit.
  2: { iDestruct "HQ" as "[_ HQ]". iIntros (w' Hg) "Hb Hd". wret.
       iApply ("HQ" with "[//] [%] Hb Hd"). by left. }
  iIntros (n kb w' He) "Hb Hd". simpl. wp_focus.
  iApply wp_dictionary_init. iFrame "Hb". iSplit.
  2: { iDestruct "HQ" as "[_ HQ]". iIntros (w'' Hg) "Hb". wret.
       iApply ("HQ" with "[%] [%] Hb Hd"); [by eapply gave_up_after|eauto]. }
  iDestruct "HQ" as "[HQ _]". iIntros (m w'' He') "Hb Hm". simpl.
  iDestruct (dict_open with "Hd") as "(Hd & Hpre & [Hn Hk] & Hpost)". simpl.
  wmodify "Hn". wret. iApply ("HQ" with "[%] Hb [-Hm] Hm"); [eauto using evolves_silent|].
  rw dict_split. iFrame. rw !length_app. done.
Qed.

Lemma wp_delete_loop d pre suf u fuel w Q :
  length suf < fuel → NoDup (e_key <$> pre ++ suf) →
  bl ↦{bo} b ∗ dict o bl d (pre ++ suf) ∗
  (bl ↦{bo} b -∗ dict o bl d (pre ++ drop_bound u suf) -∗ Q tt w)
  ⊢ wp (loop fuel (delete_step (Some d)) (first_of NULL suf, u)) w Q.
Proof.
  revert suf u. induction fuel as [|fuel IH]; intros suf u Hf Hnd; [lia|].
  iIntros "(Hb & Hd & HQ)". unfold loop; fold (@loop (ptr * Z) unit). unfold delete_step.
  destruct suf as [|e suf]; simpl in *.
  - wret. wret. unfold drop_bound. rw drop_nil. destruct (u <? 0)%Z; iApply ("HQ" with "Hb Hd").
  - destruct (Z.eqb_spec u 0) as [->|Hu]; simpl.
    { wret. wret. iApply ("HQ" with "Hb Hd"). }
    rw dict_split. iDestruct "Hd" as "(Hd & Hpre & [Hn Hk] & Hsuf)".
    wload "Hn". wstring "Hk". wp_focus. iApply (wp_dictionary_delete_node d (pre ++ e :: suf)).
    iFrame "Hb". iSplitL "Hd Hpre Hn Hk Hsuf"; [rw dict_split; iFrame|].
    iIntros "Hb Hd". wret. rw remove_entry_NoDup //.
    iApply (IH suf (u - 1)%Z with "[-]"); [lia|by eapply NoDup_keys_drop|].
    iFrame "Hb Hd". iIntros "Hb Hd". iApply ("HQ" with "Hb").
    replace (drop_bound u (e :: suf)) with (drop_bound (u - 1) suf); [done|].
    unfold drop_bound. destruct (Z.ltb_spec (u-1) 0), (Z.ltb_spec u 0); [done|lia..|].
    replace (Z.to_nat u) with (S (Z.to_nat (u - 1))) by lia. done.
Qed.

Lemma wp_dictionary_delete d es marker u w Q :
  NoDup (e_key <$> es) →
  bl ↦{bo} b ∗ dict o bl d es ∗
  (bl ↦{bo} b -∗
   dict o bl d (range_skip marker es ++ drop_bound u (range_from marker es)) -∗ Q tt w)
  ⊢ wp (dictionary_delete (Some d) marker u) w Q.
Proof.
  iIntros (Hnd) "(Hb & Hd & HQ)". unfold dictionary_delete; simpl.
  iDestruct "Hd" as "[Hd Hs]". wload "Hd".
  destruct (Z.eqb_spec (Z.of_nat (length es)) 0) as [Hl|Hl].
  { wret. destruct es; [|done]. destruct marker; unfold drop_bound;
      rw /= drop_nil; destruct (u <? 0)%Z; iApply ("HQ" with "Hb"); iFrame. }
  wp_focus. iApply (wp_get_range o bl d es marker). iFrame "Hd Hs".
  iIntros "Hd" (p Hp). rw Hp. wp_focus.
  iApply (wp_heap_fuel_own _ _ _ _ (at_least_dict o bl d es)). iFrame "Hd".
  iIntros (fuel Hf) "Hd".
  pose proof (range_split marker es) as Hes.
  iApply (wp_delete_loop d (range_skip marker es)).
  { apply (f_equal length) in Hes. rw length_app in Hes. lia. }
  { by rw Hes. }
  rw Hes. iFrame.
Qed.

(** Deleting [length] entries from the start empties the dictionary. *)
Lemma wp_dictionary_clear d es w Q :
  NoDup (e_key <$> es) →
  bl ↦{bo} b ∗ dict o bl d es ∗ (bl ↦{bo} b -∗ dict o bl d [] -∗ Q tt w)
  ⊢ wp (dictionary_delete (Some d) None (Z.of_nat (length es))) w Q.
Proof.
  iIntros (Hnd) "(Hb & Hd & HQ)". iApply wp_dictionary_delete; [done|]. iFrame "Hb Hd".
  iIntros "Hb Hd". iApply ("HQ" with "Hb").
  unfold drop_bound; simpl. rw (proj2 (Z.ltb_ge _ _)); [|lia].
  by rw Nat2Z.id drop_all.
Qed.

Lemma wp_iter_loop d d' pre suf acc u fuel w Q :
  length suf < fuel → (0 ≤ u)%Z → NoDup (e_key <$> acc ++ suf) →
  bl ↦{bo} b ∗ dict o bl d (pre ++ suf) ∗ dict o bl d' acc ∗
  (∀ es' w',
     ⟦ (evolves w [] w' ∧ payload es' = payload (acc ++ take (Z.to_nat u) suf))
       ∨ (gave_up w w' ∧ es' = []) ⟧ -∗
     bl ↦{bo} b -∗ dict o bl d (pre ++ suf) -∗ dict o bl d' es' -∗ Q tt w')
  ⊢ wp (loop fuel (iter_step (Some d')) (first_of NULL suf, u)) w Q.
Proof.
  revert pre suf acc u w. induction fuel as [|fuel IH]; intros pre suf acc u w Hf Hu Hnd; [lia|].
  iIntros "(Hb & Hd & Hd' & HQ)". unfold loop; fold (@loop (ptr * Z) unit). unfold iter_step.
  destruct suf as [|e suf]; simpl in *.
  - wret. wret. iApply ("HQ" with "[%] Hb Hd Hd'"). left.
    rw take_nil (right_id_L [] (++)). auto with world.
  - destruct (Z.eqb_spec u 0) as [->|Hu0]; simpl.
    { wret. wret. iApply ("HQ" with "[%] Hb Hd Hd'"). left.
      rw (right_id_L [] (++)). auto with world. }
    iDestruct (dict_open with "Hd") as "(Hd & Hpre & [Hn Hk] & Hsuf)".
    wload "Hn". wstring "Hk".
    wp_focus. iApply wp_dictionary_add. iFrame "Hb Hd'". iSplit.
    + iIntros (n kb w' He) "Hb Hd'". simpl. wload "Hn". wret.
      iApply (IH (pre ++ [e]) suf (acc ++ [Entry n kb (e_key e) (e_data e)]) (u - 1)%Z with "[-]");
        [lia..| |].
      { move: Hnd. by rw !fmap_app -(assoc_L (++)). }
      iFrame "Hb Hd'". iSplitL "Hd Hpre Hn Hk Hsuf".
      { rw -(assoc_L (++)) /= dict_split. iFrame. }
      iIntros (es' w'' Hres) "Hb Hd Hd'". rw -(assoc_L (++)) /=.
      iApply ("HQ" with "[%] Hb Hd Hd'").
      destruct Hres as [[He' Hes]|[Hg ->]]; [left|right].
      * split; [by eapply evolves_silent|]. rw Hes.
        replace (Z.to_nat u) with (S (Z.to_nat (u - 1))) by lia.
        by rw /payload !fmap_app -(assoc_L (++)).
      * split; [by eapply gave_up_after|done].
    + iIntros (w' Hg) "Hb [Hd' Hds]". simpl. wload "Hd'". wp_focus.
      iApply (wp_dictionary_clear d' acc).
      { rw fmap_app in Hnd. by apply NoDup_app in Hnd as [? _]. }
      iFrame "Hb Hd' Hds". iIntros "Hb Hd'". wret. wret.
      iApply ("HQ" with "[%] Hb [Hd Hpre Hn Hk Hsuf] Hd'"); [by right|].
      rw dict_split. iFrame.
Qed.

Lemma wp_dictionary_iter d es marker u w Q :
  (0 ≤ u)%Z → NoDup (e_key <$> es) →
  bl ↦{bo} b ∗ dict o bl d es ∗
  ((∀ d' es' w',
     ⟦ (evolves w [] w' ∧
        payload es' = payload (take (iter_bound u es) (range_from marker es)))
       ∨ (gave_up w w' ∧ es' = []) ⟧ -∗
     bl ↦{bo} b -∗ dict o bl d es -∗ dict o bl d' es' -∗ Q (Some d') w') ∧
   (∀ w', ⟦ gave_up w w' ⟧ -∗ bl ↦{bo} b -∗ dict o bl d es -∗ Q NULL w'))
  ⊢ wp (dictionary_iter (Some d) marker u) w Q.
Proof.
  iIntros (Hu Hnd) "(Hb & Hd & HQ)". unfold dictionary_iter; simpl.
  iDestruct "Hd" as "[Hd Hs]". wload "Hd". wp_focus. iApply wp_dictionary_init.
  iFrame "Hb". iSplit.
  2: { iDestruct "HQ" as "[_ HQ]". iIntros (w' Hg) "Hb". wret.
       iApply ("HQ" with "[//] Hb"). iFrame. }
  iDestruct "HQ" as "[HQ _]". iIntros (d' w' He) "Hb Hd'". simpl. wp_focus.
  iApply (wp_get_range o bl d es marker). iFrame "Hd Hs". iIntros "Hd" (p Hp). rw Hp. wp_focus.
  iApply (wp_heap_fuel_own _ _ _ _ (at_least_dict o bl d es)). iFrame "Hd".
  iIntros (fuel Hf) "Hd". wp_focus.
  pose proof (range_split marker es) as Hes.
  iApply (wp_iter_loop d d' (range_skip marker es) (range_from marker es) []).
  { apply (f_equal length) in Hes. rw length_app in Hes. lia. }
  { destruct (_ =? _)%Z; [apply u32_range|done]. }
  { move: Hnd. rw -{1}Hes fmap_app. by intros (_ & _ & H)%NoDup_app. }
  rw Hes. iFrame "Hb Hd Hd'". iIntros (es' w'' Hres) "Hb Hd Hd'". wret.
  iApply ("HQ" with "[%] Hb Hd Hd'").
  destruct Hres as [[He' Hres]|[Hg ->]]; [left|right]; split; try done.
  - by eapply evolves_silent.
  - by eapply gave_up_after.
Qed.

End rules.
