(* ===== verification/UserBufferSpec.v ===== *)
(** Rules for the bytes of a block: those user_buffer.c and json_processing.c copy
    in and out. *)
From S2P Require Import Prelude Types Heap UserBuffer Logic DictionarySpec.
From iris.proofmode Require Import proofmode.

Lemma wp_write_first l o pre mid post src n w Q :
  length mid = n → n ≤ length src →
  l ↦{o} (pre ++ mid ++ post) ∗ (l ↦{o} (pre ++ take n src ++ post) -∗ Q tt w)
  ⊢ wp (write_bytes (Some l) (Z.of_nat (length pre)) src (Z.of_nat n)) w Q.
Proof.
  iIntros (<- Hn) "[Hl HQ]". unfold write_bytes. wload "Hl".
  rw (proj2 (Z.leb_le _ _)); [|rw !length_app; lia]. rw (proj2 (Z.leb_le _ _)); [|lia]. simpl.
  iApply wp_store. iFrame "Hl". iIntros "Hl". iApply "HQ".
  rw -Nat2Z.inj_add !Nat2Z.id take_app_length (assoc_L (++) pre mid).
  by rw drop_app_length'; [|rw length_app].
Qed.

Lemma wp_write_bytes l o pre mid post src w Q :
  length mid = length src →
  l ↦{o} (pre ++ mid ++ post) ∗ (l ↦{o} (pre ++ src ++ post) -∗ Q tt w)
  ⊢ wp (write_bytes (Some l) (Z.of_nat (length pre)) src (Z.of_nat (length src))) w Q.
Proof. iIntros (Hm) "H". iApply (wp_write_first l o pre mid post src); [done..|]. by rw firstn_all. Qed.

Lemma wp_read_bytes l o bs k n w Q :
  k + n ≤ length bs →
  l ↦{o} bs ∗ (l ↦{o} bs -∗ Q (take n (drop k bs)) w)
  ⊢ wp (read_bytes (Some l) (Z.of_nat k) (Z.of_nat n)) w Q.
Proof.
  iIntros (Hn) "[Hl HQ]". unfold read_bytes. wload "Hl".
  rw (proj2 (Z.leb_le _ _)); [|lia]. wret. rw !Nat2Z.id. by iApply "HQ".
Qed.

(** The whole of a block. *)
Lemma wp_fill_bytes l o (old src : bytes) w Q :
  length old = length src →
  l ↦{o} old ∗ (l ↦{o} src -∗ Q tt w)
  ⊢ wp (write_bytes (Some l) 0 src (Z.of_nat (length src))) w Q.
Proof.
  iIntros (Hl) "[H HQ]". iApply (wp_write_bytes l o [] old [] src); [done|].
  rw !app_nil_r !app_nil_l. iFrame.
Qed.

(** A [malloc] that does not fail. *)
Lemma wp_malloc_reliable {T} `{Storable T} o (uninit : Z → T) w Q :
  reliable w →
  (∀ l j w', ⟦ evolves w [] w' ⟧ -∗ l ↦{o} uninit j -∗ Q (Some l) w') ⊢ wp (malloc o uninit) w Q.
Proof.
  iIntros (Hr) "HQ". iApply wp_malloc. rw reliable_ok //. iIntros (l) "Hl".
  iApply ("HQ" with "[%] Hl"). auto with world.
Qed.
