(* ===== verification/JsonSpec.v ===== *)
(** Rules for JSON_parser.c: how a parser lies in the heap, its parse buffer, its
    stack, and the tokens it hands to a callback. *)
From S2P Require Import Prelude JsonData Types Heap JsonParser JsonMachine JsonFacts Logic MacrosSpec DictionarySpec.
From iris.proofmode Require Import proofmode.

(** ** The structure and its parse buffer *)

(** A parser with other buffer fields. *)
Definition with_buffer (p : JSON_parser_struct) (buf : array_ptr) (cap cnt : Z) (sb : bytes)
    : JSON_parser_struct :=
  p <| js_parse_buffer := buf |> <| js_parse_buffer_capacity := cap |>
    <| js_parse_buffer_count := cnt |> <| js_static_parse_buffer := sb |>.

Section buffer.
Context (jl : loc) (F : allocator).
Implicit Types (p : JSON_parser_struct) (bs t rest : bytes).

(** A parser whose buffer, in the structure or in a block, is [bs]. *)
Definition contents (buf : array_ptr) (sb bs : bytes) : hPropI :=
  match buf with
  | ANull => ⌜False⌝
  | AStatic => ⟦ sb = bs ⟧
  | ADynamic l => l ↦{owner_of F} bs
  end%I.
Definition raw p (cnt : Z) bs : hPropI :=
  (∃ buf sb, jl ↦{owner_of F} with_buffer p buf (Z.of_nat (length bs)) cnt sb ∗ contents buf sb bs)%I.

(** The capacity only grows, and its double is a [size_t]. *)
Definition fits bs : Prop := (3500 ≤ Z.of_nat (length bs) < 4611686018427387904)%Z.

(** The buffer begins with [t] and has [n] characters of room; and, in [holding],
    [t] is terminated. *)
Definition writable (n : nat) p t : hPropI :=
  (∃ rest, ⟦ n ≤ length rest ∧ fits (t ++ rest) ⟧ ∗ raw p (Z.of_nat (length t)) (t ++ rest))%I.
Definition holding (n : nat) p t : hPropI :=
  (∃ rest, ⟦ n ≤ length rest ∧ fits (t ++ Ascii.zero :: rest) ⟧ ∗
     raw p (Z.of_nat (length t)) (t ++ Ascii.zero :: rest))%I.

Lemma raw_access p cnt bs :
  raw p cnt bs ⊢ ∃ buf sb, jl ↦{owner_of F} with_buffer p buf (Z.of_nat (length bs)) cnt sb ∗
    (∀ p' cnt', jl ↦{owner_of F} with_buffer p' buf (Z.of_nat (length bs)) cnt' sb -∗ raw p' cnt' bs).
Proof.
  iIntros "(%buf & %sb & Hj & Hb)". iExists buf, sb. iFrame "Hj". iIntros (p' cnt') "Hj".
  iExists buf, sb. iFrame.
Qed.

Lemma wp_raw_load p cnt bs w Q :
  raw p cnt bs ∗
  (∀ buf sb, raw p cnt bs -∗ Q (with_buffer p buf (Z.of_nat (length bs)) cnt sb) w)
  ⊢ wp (load (Some jl)) w Q.
Proof.
  iIntros "[Hr HQ]". iDestruct (raw_access with "Hr") as (buf sb) "[Hj Hr]".
  iApply wp_load. iFrame "Hj". iIntros "Hj". iApply "HQ". by iApply "Hr".
Qed.

Lemma wp_raw_modify g p p' cnt cnt' bs w Q :
  (∀ buf cap sb, g (with_buffer p buf cap cnt sb) = with_buffer p' buf cap cnt' sb) →
  raw p cnt bs ∗ (raw p' cnt' bs -∗ Q tt w) ⊢ wp (modify (Some jl) g) w Q.
Proof.
  iIntros (Hg) "[Hr HQ]". iDestruct (raw_access with "Hr") as (buf sb) "[Hj Hr]".
  iApply wp_modify. iFrame "Hj". rw Hg. iIntros "Hj". iApply "HQ". by iApply "Hr".
Qed.

Lemma wp_buffer_bytes_at p cnt cap buf sb bs w Q :
  jl ↦{owner_of F} with_buffer p buf cap cnt sb ∗ contents buf sb bs ∗
  (jl ↦{owner_of F} with_buffer p buf cap cnt sb -∗ contents buf sb bs -∗ Q bs w)
  ⊢ wp (buffer_bytes (Some jl)) w Q.
Proof.
  iIntros "(Hj & Hb & HQ)". unfold buffer_bytes. wload "Hj". unfold contents.
  destruct buf as [| |l]; simpl; [by iDestruct "Hb" as %[]|..].
  - iDestruct "Hb" as %->. wret. by iApply ("HQ" with "Hj").
  - iApply wp_load. iFrame "Hb". iApply ("HQ" with "Hj").
Qed.

(** The old buffer is freed unless it is in the structure. *)
Lemma wp_release_contents buf sb bs w Q :
  contents buf sb bs ∗ Q tt w
  ⊢ wp (match buf with ADynamic l => js_release F (Some l) | _ => mret tt end) w Q.
Proof.
  iIntros "[Hb HQ]". destruct buf as [| |l]; simpl; [by iDestruct "Hb" as %[]|..].
  - iDestruct "Hb" as "_". wret. iExact "HQ".
  - iApply (wp_release _ _ bs). iFrame.
Qed.

Lemma wp_buffer_bytes p cnt bs w Q :
  raw p cnt bs ∗ (raw p cnt bs -∗ Q bs w) ⊢ wp (buffer_bytes (Some jl)) w Q.
Proof.
  iIntros "[(%buf & %sb & Hj & Hb) HQ]". iApply wp_buffer_bytes_at. iFrame "Hj Hb".
  iIntros "Hj Hb". iApply "HQ". iExists buf, sb. iFrame.
Qed.

Lemma in_bounds_nat i n : i < n → in_bounds (Z.of_nat i) n = true.
Proof. intros Hi. apply andb_true_intro. split; [apply Z.leb_le|apply Z.ltb_lt]; lia. Qed.

Lemma wp_buffer_get p cnt bs i c w Q :
  bs !! i = Some c →
  raw p cnt bs ∗ (raw p cnt bs -∗ Q c w) ⊢ wp (buffer_get (Some jl) (Z.of_nat i)) w Q.
Proof.
  iIntros (Hi) "[Hr HQ]". unfold buffer_get. wp_focus. iApply wp_buffer_bytes. iFrame "Hr".
  iIntros "Hr". rw in_bounds_nat; [|by eapply lookup_lt_Some]. wret.
  rw Nat2Z.id (nth_lookup_Some _ _ _ _ Hi). by iApply "HQ".
Qed.

Lemma wp_buffer_set p cnt bs i c w Q :
  raw p cnt bs ∗ ⟦ i < length bs ⟧ ∗ (raw p cnt (<[i:=c]> bs) -∗ Q tt w)
  ⊢ wp (buffer_set (Some jl) (Z.of_nat i) c) w Q.
Proof.
  iIntros "(Hr & %Hi & HQ)". unfold buffer_set. wp_focus. iApply wp_buffer_bytes. iFrame "Hr".
  iIntros "Hr". rw in_bounds_nat // Nat2Z.id. iDestruct "Hr" as "(%buf & %sb & Hj & Hb)". wload "Hj".
  unfold contents. destruct buf as [| |l]; simpl; [by iDestruct "Hb" as %[]|..].
  - wmodify "Hj". iApply "HQ". iExists AStatic, (<[i:=c]> bs). rw length_insert. by iFrame.
  - iApply wp_store. iFrame "Hb". iIntros "Hb". iApply "HQ". iExists (ADynamic l), sb.
    rw length_insert. iFrame.
Qed.
End buffer.

Global Arguments raw : simpl never.

(** ** The parse buffer as a growing text *)

Section text.
Context (jl : loc) (F : allocator).
Implicit Types (p : JSON_parser_struct) (bs t rest : bytes).

Abbreviation raw := (raw jl F).
Abbreviation writable := (writable jl F).
Abbreviation holding := (holding jl F).

Lemma holding_writable n p t : holding n p t ⊢ writable (S n) p t.
Proof.
  iIntros "(%rest & (%Hn & %Hf) & H)". iExists (Ascii.zero :: rest). iFrame. iPureIntro.
  split; [simpl; lia|done].
Qed.

Lemma holding_weaken n m p t : m ≤ n → holding n p t ⊢ holding m p t.
Proof.
  iIntros (Hle) "(%rest & (%Hn & %Hf) & H)". iExists rest. iFrame. iPureIntro. split; [lia|done].
Qed.

(** The fields other than the buffer's are read and assigned as in any structure. *)
Lemma wp_parser_load n p t w Q :
  holding n p t ∗
  (∀ buf cap sb, ⟦ Z.of_nat (length t + n) < cap ∧ cap < 4611686018427387904 ⟧%Z -∗ holding n p t -∗
     Q (with_buffer p buf cap (Z.of_nat (length t)) sb) w)
  ⊢ wp (load (Some jl)) w Q.
Proof.
  iIntros "[(%rest & (%Hn & %Hf) & H) HQ]". iApply wp_raw_load. iFrame "H". iIntros (buf sb) "H".
  iApply ("HQ" with "[%] [H]"); [|iExists rest; by iFrame].
  destruct Hf as [_ Hf]. split; [|done]. rw length_app /=. lia.
Qed.

Lemma wp_parser_modify g n p t w Q :
  (∀ buf cap cnt sb, g (with_buffer p buf cap cnt sb) = with_buffer (g p) buf cap cnt sb) →
  holding n p t ∗ (holding n (g p) t -∗ Q tt w) ⊢ wp (modify (Some jl) g) w Q.
Proof.
  iIntros (Hg) "[(%rest & %Hf & H) HQ]". iApply (wp_raw_modify _ _ g _ (g p)); [done|]. iFrame "H".
  iIntros "H". iApply "HQ". iExists rest. by iFrame.
Qed.

Lemma wp_holding_bytes n p t w Q :
  holding n p t ∗ (∀ rest, holding n p t -∗ Q (t ++ Ascii.zero :: rest) w)
  ⊢ wp (buffer_bytes (Some jl)) w Q.
Proof.
  iIntros "[(%rest & %Hf & H) HQ]". iApply wp_buffer_bytes. iFrame "H". iIntros "H". iApply "HQ".
  iExists rest. by iFrame.
Qed.

Lemma wp_clear n p t w Q :
  holding n p t ∗ (holding n p [] -∗ Q tt w) ⊢ wp (parse_buffer_clear (Some jl)) w Q.
Proof.
  iIntros "[(%rest & (%Hn & %Hf) & H) HQ]". unfold parse_buffer_clear. wp_focus.
  iApply (wp_raw_modify _ _ _ p p _ 0); [done|]. iFrame "H". iIntros "H".
  iApply (wp_buffer_set _ _ _ _ _ 0). iFrame "H".
  iSplitR; [iPureIntro; rw length_app /=; lia|]. iIntros "H".
  iApply "HQ". iExists (tail (t ++ Ascii.zero :: rest)). unfold fits in *.
  rw !length_app /= in Hf *. destruct t as [|c t]; simpl in *; iFrame; iPureIntro; rw ?length_app /=; lia.
Qed.

Lemma insert_snoc t c rest : <[length t:=c]> (t ++ rest) = t ++ <[0:=c]> rest.
Proof. by rw -{1}(Nat.add_0_r (length t)) insert_app_r. Qed.

Lemma wp_pop_back n p t c w Q :
  writable n p (t ++ [c]) ∗ (holding n p t -∗ Q tt w)
  ⊢ wp (parse_buffer_pop_back_char (Some jl)) w Q.
Proof.
  iIntros "[(%rest & (%Hn & %Hf) & H) HQ]". unfold parse_buffer_pop_back_char. wp_focus.
  iApply wp_raw_load. iFrame "H". iIntros (buf sb) "H". simpl. unfold check.
  rw length_app /= (proj2 (Z.leb_le _ _)); [|lia]. wret. wp_focus.
  iApply (wp_raw_modify _ _ _ p p _ (Z.of_nat (length t))); [|iFrame "H"].
  { intros. unfold with_buffer. simpl. f_equal. lia. }
  iIntros "H". wp_focus. iApply wp_raw_load. iFrame "H". iIntros (buf' sb') "H". simpl.
  rw -!(assoc_L (++)) /=. iApply wp_buffer_set. iFrame "H".
  iSplitR; [iPureIntro; rw length_app /=; lia|]. iIntros "H".
  rw insert_snoc /=. iApply "HQ". iExists rest. unfold fits in *.
  rw !length_app /= in Hf *. iFrame. iPureIntro. lia.
Qed.

Lemma wp_buffer_append n p t c w Q :
  writable (S n) p t ∗ (writable n p (t ++ [c]) -∗ Q tt w) ⊢ wp (buffer_append (Some jl) c) w Q.
Proof.
  iIntros "[(%rest & (%Hn & %Hf) & H) HQ]". unfold buffer_append. wp_focus.
  iApply wp_raw_load. iFrame "H". iIntros (buf sb) "H". simpl. wp_focus.
  destruct rest as [|r rest]; [simpl in Hn; lia|]. unfold fits in *. rw length_app /= in Hf.
  iApply (wp_raw_modify _ _ _ p p _ (Z.of_nat (length t + 1))); [|iFrame "H"].
  { intros. unfold with_buffer. simpl. f_equal. rw u64_small; lia. }
  iIntros "H". iApply wp_buffer_set. iFrame "H".
  iSplitR; [iPureIntro; rw length_app /=; lia|]. iIntros "H".
  rw insert_snoc /=. iApply "HQ". iExists rest. unfold fits. rw -(assoc_L (++)) !length_app /=. iFrame.
  iPureIntro. simpl in Hn. lia.
Qed.

Lemma wp_buffer_terminate n p t w Q :
  writable (S n) p t ∗ (holding n p t -∗ Q tt w) ⊢ wp (buffer_terminate (Some jl)) w Q.
Proof.
  iIntros "[(%rest & (%Hn & %Hf) & H) HQ]". unfold buffer_terminate. wp_focus.
  iApply wp_raw_load. iFrame "H". iIntros (buf sb) "H". simpl.
  destruct rest as [|r rest]; [simpl in Hn; lia|]. unfold fits in *. rw length_app /= in Hf.
  iApply wp_buffer_set. iFrame "H".
  iSplitR; [iPureIntro; rw length_app /=; lia|]. iIntros "H".
  rw insert_snoc /=. iApply "HQ". iExists rest. unfold fits. rw !length_app /=. iFrame.
  iPureIntro. simpl in Hn. lia.
Qed.

Lemma has_space p buf cap t sb :
  (Z.of_nat (length t + 2) ≤ cap)%Z → (cap < 4611686018427387904)%Z →
  parse_buffer_has_space_for (with_buffer p buf cap (Z.of_nat (length t)) sb) 1 = true.
Proof.
  intros H1 H2. unfold parse_buffer_has_space_for. simpl. apply Z.leb_le. rw u64_small; lia.
Qed.

(** The fields are read while there is room for [n] characters. *)
Lemma wp_writable_load n p t w Q :
  writable n p t ∗
  (∀ buf cap sb, ⟦ Z.of_nat (length t + n) ≤ cap ∧ cap < 4611686018427387904 ⟧%Z -∗ writable n p t -∗
     Q (with_buffer p buf cap (Z.of_nat (length t)) sb) w)
  ⊢ wp (load (Some jl)) w Q.
Proof.
  iIntros "[(%rest & (%Hn & %Hf) & H) HQ]". iApply wp_raw_load. iFrame "H". iIntros (buf sb) "H".
  iApply ("HQ" with "[%] [H]"); [|iExists rest; by iFrame].
  destruct Hf as [_ Hf]. split; [|done]. rw length_app. lia.
Qed.

Lemma wp_writable_modify g n p t w Q :
  (∀ buf cap cnt sb, g (with_buffer p buf cap cnt sb) = with_buffer (g p) buf cap cnt sb) →
  writable n p t ∗ (writable n (g p) t -∗ Q tt w) ⊢ wp (modify (Some jl) g) w Q.
Proof.
  iIntros (Hg) "[(%rest & %Hf & H) HQ]". iApply (wp_raw_modify _ _ g _ (g p)); [done|]. iFrame "H".
  iIntros "H". iApply "HQ". iExists rest. by iFrame.
Qed.

Lemma wp_check_space {B} n p t (k : M B) w Q :
  writable (S (S n)) p t ∗ (writable (S (S n)) p t -∗ wp k w Q)
  ⊢ wp (p ← load (Some jl); check (parse_buffer_has_space_for p 1);; k) w Q.
Proof.
  iIntros "[H HQ]". wp_focus. iApply wp_writable_load. iFrame "H".
  iIntros (buf cap sb [Hc Hm]) "H". unfold check. rw has_space //; [|lia]. wret. by iApply "HQ".
Qed.

Lemma wp_push_back n p t c w Q :
  writable (S (S n)) p t ∗ (holding n p (t ++ [c]) -∗ Q tt w)
  ⊢ wp (parse_buffer_push_back_char (Some jl) c) w Q.
Proof.
  iIntros "[H HQ]". unfold parse_buffer_push_back_char. iApply wp_check_space. iFrame "H".
  iIntros "H". wp_focus. iApply wp_buffer_append. iFrame "H". iIntros "H".
  iApply wp_buffer_terminate. by iFrame.
Qed.

Lemma wp_push_back_chars n p t cs w Q :
  holding (length cs + n) p t ∗ (holding n p (t ++ cs) -∗ Q tt w)
  ⊢ wp (push_back_chars (Some jl) cs) w Q.
Proof.
  iIntros "[H HQ]". iInduction cs as [|c cs] "IH" forall (t); simpl.
  - wret. rw app_nil_r. by iApply "HQ".
  - iDestruct (holding_writable with "H") as "H".
    wp_focus. iApply wp_push_back. iFrame "H". iIntros "H". iApply ("IH" with "H").
    by rw -(assoc_L (++)) /=.
Qed.

(** ** Escapes *)

Lemma wp_read_hex p cnt cs pre post uc w Q :
  Forall (λ c, hex_value c < 16)%Z cs →
  raw p cnt (pre ++ cs ++ post) ∗ (raw p cnt (pre ++ cs ++ post) -∗ Q (hex_number cs uc) w)
  ⊢ wp (read_hex (length cs) (Some jl) (Z.of_nat (length pre)) uc) w Q.
Proof.
  iIntros (Hcs) "[H HQ]". iInduction cs as [|c cs] "IH" forall (pre uc).
  - wret. by iApply "HQ".
  - apply Forall_cons in Hcs as [Hc Hcs]. cbn [read_hex length hex_number]. wp_focus.
    iApply (wp_buffer_get _ _ _ _ _ (length pre) c); [by apply list_lookup_middle|]. iFrame "H".
    iIntros "H". unfold check. rw (proj2 (Z.ltb_lt _ _)); [|done]. wret.
    replace (Z.of_nat (length pre) + 1)%Z with (Z.of_nat (length (pre ++ [c])));
      [|rw length_app /=; lia].
    change (pre ++ c :: cs ++ post) with (pre ++ [c] ++ cs ++ post). rw (assoc_L (++) pre).
    by iApply ("IH" with "[//] H").
Qed.

Lemma wp_append_trail m n p t uc w Q :
  writable (n + m) p t ∗ (writable m p (t ++ trail n uc) -∗ Q tt w)
  ⊢ wp (append_trail n (Some jl) uc) w Q.
Proof.
  iIntros "[H HQ]". iInduction n as [|n] "IH" forall (t).
  - wret. rw app_nil_r. by iApply "HQ".
  - cbn [append_trail trail]. wp_focus. iApply wp_buffer_append. iFrame "H". iIntros "H".
    iApply ("IH" with "H"). by rw -(assoc_L (++)) /=.
Qed.

Lemma wp_append_utf8 m n p t uc w Q :
  holding (S (n + m)) p t ∗ (holding m p (t ++ utf8 uc n) -∗ Q true w)
  ⊢ wp (append_utf8 (Some jl) uc n) w Q.
Proof.
  iIntros "[H HQ]". unfold append_utf8. iDestruct (holding_writable with "H") as "H". wp_focus.
  iApply wp_buffer_append. iFrame "H". iIntros "H". wp_focus.
  iApply (wp_append_trail (S m)). rw Nat.add_succ_r. iFrame "H". iIntros "H".
  wp_focus. iApply wp_buffer_terminate. iFrame "H". iIntros "H". wret. iApply "HQ".
  by rw -(assoc_L (++)).
Qed.

(** The last six characters make way for the bytes they stand for. *)
Lemma wp_cut {B} (k : M B) p t u w Q :
  length u = 6 →
  holding 0 p (t ++ u) ∗ (holding 6 p t -∗ wp k w Q)
  ⊢ wp (modify (Some jl) (λ p, p <| js_parse_buffer_count := (js_parse_buffer_count p - 6)%Z |>);;
        buffer_terminate (Some jl);; k) w Q.
Proof.
  iIntros (Hu) "[(%rest & (_ & %Hf) & H) HQ]". rw -(assoc_L (++)) in Hf *. wp_focus.
  iApply (wp_raw_modify _ _ _ p p _ (Z.of_nat (length t))); [|iFrame "H"].
  { intros. unfold with_buffer. simpl. f_equal. rw length_app. lia. }
  iIntros "H". wp_focus. iApply (wp_buffer_terminate 6). iSplitL "H"; [|done].
  iExists (u ++ Ascii.zero :: rest). iFrame. iPureIntro. split; [|done]. rw length_app /=. lia.
Qed.

(** ** Room for one more character *)

(** The texts a parser can hold. *)
Definition small t : Prop := (Z.of_nat (length t) < 1152921504606846976)%Z.

Lemma wp_parse_buffer_grow p t w Q :
  js_malloc p = F → js_free p = F → small t → fits (t ++ [Ascii.zero]) →
  raw p (Z.of_nat (length t)) (t ++ [Ascii.zero]) ∗
  ((∀ w', ⟦ evolves w [] w' ⟧ -∗ writable 2 p t -∗ Q true w') ∧
   (∀ w', ⟦ evolves w [] w' ∧ ¬ reliable w ⟧ -∗ holding 0 (p <| js_error := JSON_E_OUT_OF_MEMORY |>) t -∗
      Q false w'))
  ⊢ wp (parse_buffer_grow (Some jl)) w Q.
Proof.
  iIntros (Hm Hf Hs Hfit) "[H HQ]". unfold parse_buffer_grow. unfold fits in Hfit. rw length_app /= in Hfit.
  unfold small in Hs. iDestruct "H" as "(%buf & %sb & Hj & Hb)". rw length_app /=. wload "Hj".
  unfold js_alloc. rw Hm Hf. set (cap := u64 _).
  assert (∃ m, m = 2 * (length t + 1)) as [m Hlen] by eauto.
  assert (cap = Z.of_nat m) as Hcap by (unfold cap; rw u64_small; lia).
  wp_focus. iApply wp_malloc. destruct (malloc_ok (owner_of F) w) eqn:Hok.
  2: { simpl. unfold fail_with. wmodify "Hj". wret. iDestruct "HQ" as "[_ HQ]".
       iApply ("HQ" with "[%] [Hj Hb]").
       { split; [auto with world|]. intros Hr. by rw reliable_ok in Hok. }
       { iExists []. iSplitR; [iPureIntro; unfold fits; rw length_app /=; lia|].
         iExists buf, sb. rw length_app /=. iFrame "Hb". iEval (rw Hm Hf) in "Hj". iExact "Hj". } }
  iIntros (l) "Hl". simpl. unfold check. rw (proj2 (Z.ltb_lt 0 cap)); [|lia]. wret.
  wp_focus. iApply (wp_buffer_bytes_at jl F p). iFrame "Hj Hb". iIntros "Hj Hb". wload "Hl". rw Nat2Z.id.
  unfold uninit_buffer. rw length_replicate Hcap Nat2Z.id !(proj2 (Nat.ltb_ge _ _)) /=;
    [|rw ?length_app /=; lia..].
  wstore "Hl". wp_focus. iApply (wp_release_contents with "[$Hb Hj Hl HQ]").
  wmodify "Hj". wmodify "Hj". wret. iDestruct "HQ" as "[HQ _]".
  iApply ("HQ" with "[%] [Hj Hl]"); [auto with world|]. rw take_app_length drop_replicate.
  iExists (replicate (m - length t) _). rw length_replicate. iSplitR.
  { iPureIntro. unfold fits. rw length_app length_replicate. lia. }
  iExists (ADynamic l), sb. iFrame "Hl". rw length_app length_replicate.
  replace (length t + (m - length t)) with m by lia. iExact "Hj".
Qed.

(** What a successful reservation leaves: after the buffer has been copied its
    text, which is not empty then, has no terminator. *)
Definition reserved p t : hPropI :=
  if decide (t = []) then holding 1 p t else writable 2 p t.

Lemma reserved_writable p t : reserved p t ⊢ writable 2 p t.
Proof. unfold reserved. destruct (decide _); [apply holding_writable|done]. Qed.

Lemma reserved_empty p : reserved p [] ⊢ holding 1 p [].
Proof. done. Qed.

Lemma wp_reserve p t w Q :
  js_malloc p = F → js_free p = F → small t →
  holding 0 p t ∗
  ((∀ w', ⟦ evolves w [] w' ⟧ -∗ reserved p t -∗ Q true w') ∧
   (∀ w', ⟦ evolves w [] w' ∧ ¬ reliable w ⟧ -∗ holding 0 (p <| js_error := JSON_E_OUT_OF_MEMORY |>) t -∗
      Q false w'))
  ⊢ wp (parse_buffer_reserve_for (Some jl) 1) w Q.
Proof.
  iIntros (Hm Hf Hs) "[(%rest & (_ & %Hfit) & H) HQ]". unfold parse_buffer_reserve_for.
  remember 63 as n eqn:Hn. clear Hn. simpl. wp_focus. iApply wp_raw_load. iFrame "H".
  iIntros (buf sb) "H". simpl. pose proof Hfit as Hfit'. unfold fits in Hfit. rw length_app /= in Hfit *.
  unfold small in Hs. rw u64_small; [|lia]. destruct rest as [|r rest]; simpl in *.
  - rw (proj2 (Z.ltb_lt _ _)); [|lia]. wp_focus.
    iApply (wp_parse_buffer_grow p t with "[$H HQ]"); [done..|]. iSplit.
    + iIntros (w' He) "H". wret. wp_focus. iApply wp_writable_load. iFrame "H".
      iIntros (buf' cap sb' [Hc Hm']) "H". simpl. rw u64_small; [|lia].
      rw (proj2 (Z.ltb_ge _ _)); [|lia]. wret. wret. iDestruct "HQ" as "[HQ _]".
      iApply ("HQ" with "[//]"). unfold reserved. rw decide_False //. intros ->. simpl in Hfit. lia.
    + iIntros (w' He) "H". wp_focus. iApply wp_parser_load. iFrame "H". iIntros (buf' cap sb' _) "H".
      wret. wret. wret. iDestruct "HQ" as "[_ HQ]". by iApply ("HQ" with "[//]").
  - rw (proj2 (Z.ltb_ge _ _)); [|lia]. wret. wret. iDestruct "HQ" as "[HQ _]".
    iApply ("HQ" with "[%]"); [auto with world|]. unfold reserved.
    assert (holding 1 p t ⊢ reserved p t) as Hr.
    { unfold reserved. destruct (decide _); [done|]. rw holding_writable. done. }
    iApply Hr. iExists (r :: rest). iFrame. iPureIntro. split; [simpl; lia|done].
Qed.
End text.

Global Arguments parse_buffer_reserve_for : simpl never.
Global Arguments read_hex : simpl never.

(** ** The stack *)

(** The stack of a parser whose depth is bounded, the top of [ms] first. *)
Definition stack_rep (o : options) (ms : list modes) (p : JSON_parser_struct) : Prop :=
  js_stack p = AStatic ∧ js_depth p = Z.of_nat (op_depth o) ∧
  js_stack_capacity p = Z.of_nat (op_depth o) ∧ js_top p = (Z.of_nat (length ms) - 1)%Z ∧
  length (js_static_stack p) = JSON_PARSER_STACK_SIZE ∧
  take (length ms) (js_static_stack p) = Some <$> reverse ms.

(** Depths whose stack fits into the structure with one slot more than the
    depth, which [push] can use. *)
Definition depth_ok (o : options) : Prop := 1 ≤ op_depth o ∧ op_depth o < JSON_PARSER_STACK_SIZE.

Definition after_pop (p : JSON_parser_struct) : JSON_parser_struct :=
  p <| js_top := (js_top p - 1)%Z |>.
Definition after_push (m : modes) (p : JSON_parser_struct) : JSON_parser_struct :=
  p <| js_top := (js_top p + 1)%Z |>
    <| js_static_stack := <[Z.to_nat (js_top p + 1) := Some m]> (js_static_stack p) |>.

Lemma stack_rep_pop o m ms p : stack_rep o (m :: ms) p → stack_rep o ms (after_pop p).
Proof.
  intros (H1 & H2 & H3 & H4 & H5 & H6). split_and!; simpl; [done..| |done|].
  - rw H4 /=. lia.
  - apply (f_equal (take (length ms))) in H6. rw take_take /= in H6.
    rw Nat.min_l in H6; [|lia]. rw H6 reverse_cons fmap_app take_app_le ?length_fmap ?length_reverse //.
    by rw take_ge ?length_fmap ?length_reverse.
Qed.

Lemma stack_rep_push o m ms p :
  depth_ok o → length ms ≤ op_depth o → stack_rep o ms p → stack_rep o (m :: ms) (after_push m p).
Proof.
  intros [_ Hd] Hlen (H1 & H2 & H3 & H4 & H5 & H6). split_and!; simpl; [done..| |by rw length_insert|].
  - rw H4. lia.
  - rw H4. replace (Z.to_nat _) with (length ms) by lia.
    rw (take_S_r _ _ (Some m)); [|apply list_lookup_insert_eq; lia].
    by rw take_insert_ge // H6 reverse_cons fmap_app.
Qed.

(** Fields that have nothing to do with the stack. *)
Lemma stack_rep_top o m ms p :
  length ms ≤ op_depth o → depth_ok o → stack_rep o (m :: ms) p →
  js_static_stack p !! length ms = Some (Some m).
Proof.
  intros Hlen [_ Hd] (_ & _ & _ & _ & H5 & H6). simpl in H6.
  rw -(lookup_take_lt _ (S (length ms))); [|lia]. rw H6 reverse_cons fmap_app /=.
  rw lookup_app_r ?length_fmap ?length_reverse //. by rw Nat.sub_diag.
Qed.

Section stack.
Context (jl : loc) (F : allocator) (o : options) (Hd : depth_ok o).
Implicit Types (p : JSON_parser_struct) (t : bytes) (ms : list modes).

Lemma wp_stack_get n p t m ms w Q :
  stack_rep o (m :: ms) p → length ms ≤ op_depth o →
  holding jl F n p t ∗ (holding jl F n p t -∗ Q (Some m) w)
  ⊢ wp (stack_get (Some jl) (js_top p)) w Q.
Proof.
  iIntros (Hr Hlen) "[H HQ]". unfold stack_get, stack_slots. wp_focus. iApply wp_parser_load.
  iFrame "H". iIntros (buf cap sb _) "H". simpl. pose proof (stack_rep_top o m ms p Hlen Hd Hr) as Htop.
  destruct Hr as (H1 & _ & _ & H4 & H5 & _). rw H1. wret. rw H4 /=.
  replace (Z.of_nat (S (length ms)) - 1)%Z with (Z.of_nat (length ms)) by lia.
  rw in_bounds_nat; [|by eapply lookup_lt_Some]. wret. rw Nat2Z.id (nth_lookup_Some _ _ _ _ Htop).
  by iApply "HQ".
Qed.

Lemma wp_stack_top n p t m ms w Q :
  stack_rep o (m :: ms) p → length ms ≤ op_depth o →
  holding jl F n p t ∗ (holding jl F n p t -∗ Q (Some m) w) ⊢ wp (stack_top (Some jl)) w Q.
Proof.
  iIntros (Hr Hlen) "[H HQ]". unfold stack_top. wp_focus. iApply wp_parser_load. iFrame "H".
  iIntros (buf cap sb _) "H". simpl. iApply (wp_stack_get with "[$H $HQ]"); done.
Qed.

Lemma wp_pop m n p t ms w Q :
  stack_rep o ms p → ms ≠ [] → length ms ≤ S (op_depth o) →
  holding jl F n p t ∗
  match popped m ms with
  | Some ms' => ⟦ stack_rep o ms' (after_pop p) ⟧ -∗ holding jl F n (after_pop p) t -∗ Q true w
  | None => holding jl F n p t -∗ Q false w
  end ⊢ wp (pop (Some jl) m) w Q.
Proof.
  iIntros (Hr Hne Hlen) "[H HQ]". unfold pop. wp_focus. iApply wp_parser_load. iFrame "H".
  iIntros (buf cap sb _) "H". simpl. destruct ms as [|m' ms]; [done|]. simpl in *.
  assert (js_top p = Z.of_nat (length ms)) as Ht.
  { destruct Hr as (_ & _ & _ & -> & _). simpl. lia. }
  rw (proj2 (Z.ltb_ge (js_top p) 0)); [|lia]. wp_focus.
  iApply (wp_stack_get with "[-]"); [done|lia|]. iFrame "H". iIntros "H".
  destruct (decide (m' = m)) as [->|Hm].
  - rw decide_False; [|by intros []]. wp_focus. iApply wp_parser_modify; [done|]. iFrame "H".
    iIntros "H". wret. iApply ("HQ" with "[%] H"). by apply stack_rep_pop in Hr.
  - rw decide_True; [|congruence]. wret. by iApply "HQ".
Qed.

Lemma wp_push m n p t ms w Q :
  stack_rep o ms p → length ms ≤ S (op_depth o) →
  holding jl F n p t ∗
  match pushed o m ms with
  | Some ms' => ⟦ stack_rep o ms' (after_push m p) ⟧ -∗ holding jl F n (after_push m p) t -∗ Q true w
  | None => holding jl F n (p <| js_error := JSON_E_NESTING_DEPTH_REACHED |>) t -∗ Q false w
  end ⊢ wp (push (Some jl) m) w Q.
Proof.
  iIntros (Hr Hlen) "[H HQ]". unfold push, pushed. wp_focus. iApply wp_parser_load. iFrame "H".
  iIntros (buf cap sb _) "H". simpl. pose proof Hr as (H1 & H2 & H3 & H4 & H5 & H6).
  unfold check. rw (proj2 (Z.leb_le (js_top p) _)); [|lia]. wret.
  rw (proj2 (Z.ltb_ge (js_depth p) _)); [|lia].
  destruct (decide (length ms = S (op_depth o))) as [Hf|Hf].
  - rw (proj2 (Z.eqb_eq (js_top p) _)); [|lia]. unfold fail_with. wp_focus. iApply wp_parser_modify; [done|].
    iFrame "H". iIntros "H". wret. wret. by iApply "HQ".
  - rw (proj2 (Z.eqb_neq (js_top p) _)); [|lia]. wret. wp_focus. iApply wp_parser_modify; [done|].
    iFrame "H". iIntros "H". wp_focus. iApply wp_parser_load. iFrame "H". iIntros (buf' cap' sb' _) "H".
    simpl. unfold stack_set, stack_slots. wp_focus. iApply wp_parser_load. iFrame "H".
    iIntros (buf2 cap2 sb2 _) "H". simpl. iEval (rw H1). wret. iEval (rw H5).
    assert (in_bounds (js_top p + 1) JSON_PARSER_STACK_SIZE = true) as Hb.
    { rw H4. destruct Hd. apply andb_true_intro. split; [apply Z.leb_le|apply Z.ltb_lt]; lia. }
    iEval (rw Hb).
    wp_focus. iApply wp_parser_load. iFrame "H". iIntros (buf3 cap3 sb3 _) "H". simpl. iEval (rw H1).
    iApply wp_parser_modify; [done|]. iFrame "H". iIntros "H". wret.
    iApply ("HQ" with "[%] H"). apply stack_rep_push; [done|lia|done].
Qed.
End stack.
