(* ===== verification/JsonCharSpec.v ===== *)
(** JSON_parser_char against the automaton of JsonMachine.v: a parser in the heap
    does what the automaton does, and tells a callback, known by its interface
    only, the same tokens. *)
From S2P Require Import Prelude JsonData Types Heap JsonParser JsonMachine JsonFacts Logic MacrosSpec DictionarySpec JsonSpec.
From iris.proofmode Require Import proofmode.

(** [w'] comes after [w]. *)
Definition onward (w w' : world) : Prop := ∃ es, evolves w es w'.

Lemma onward_refl w : onward w w.
Proof. exists []. apply evolves_refl. Qed.
Lemma onward_trans w1 w2 w3 : onward w1 w2 → onward w2 w3 → onward w1 w3.
Proof. intros [es1 H1] [es2 H2]. exists (es1 ++ es2). by eapply evolves_trans. Qed.
Lemma onward_evolves w es w' : evolves w es w' → onward w w'.
Proof. by exists es. Qed.
Lemma onward_reliable w w' : onward w w' → reliable w → reliable w'.
Proof. intros [es (E & _)]. unfold reliable. by rw E. Qed.

#[export] Hint Resolve onward_refl onward_evolves : world.

(** What a callback promises to the parser. [I ts w]: it has been told [ts] and
    agreed each time; [J ts w]: it refused the last of [ts]. It need only deal
    with tokens that are [allowed] after those before. *)
Class TokenClient (callback : ptr → JSON_type → JSON_value → M bool) (ctx : ptr)
    (I J : list token → world → hPropI) (allowed : list token → token → Prop) : Prop := {
  client_silent ts w w' : evolves w [] w' → I ts w ⊢ I ts w';
  client_call ts ty v w Q : allowed ts (ty, v) →
    I ts w ∗
    ((∀ w', ⟦ onward w w' ⟧ -∗ I (ts ++ [(ty, v)]) w' -∗ Q true w') ∧
     (∀ w', ⟦ onward w w' ⟧ -∗ J (ts ++ [(ty, v)]) w' -∗ Q false w'))
    ⊢ wp (callback ctx ty v) w Q }.

Fixpoint all_allowed (allowed : list token → token → Prop) (ts ts' : list token) : Prop :=
  match ts' with
  | [] => True
  | tok :: ts' => allowed ts tok ∧ all_allowed allowed (ts ++ [tok]) ts'
  end.

Lemma all_allowed_app al ts ts1 ts2 :
  all_allowed al ts (ts1 ++ ts2) ↔ all_allowed al ts ts1 ∧ all_allowed al (ts ++ ts1) ts2.
Proof.
  revert ts. induction ts1 as [|tok ts1 IH]; intros ts; simpl; [rw app_nil_r; tauto|].
  rw IH -(assoc_L (++)) /=. tauto.
Qed.

Section char.
Context (jl : loc) (F : allocator) (o : options) (Hd : depth_ok o) (ctx : ptr) (cb : positive).
Context (callback : ptr → JSON_type → JSON_value → M bool).
Context (I J : list token → world → hPropI) (allowed : list token → token → Prop).
Context `{!TokenClient callback ctx I J allowed}.
Implicit Types (p : JSON_parser_struct) (t : bytes) (a : machine) (ts : list token).

Abbreviation held := (holding jl F).

(** Fields that no character changes. *)
Definition fixed p : Prop :=
  js_callback p = Some cb ∧ js_ctx p = ctx ∧ js_allow_comments p = op_comments o ∧
  js_handle_floats_manually p = op_manual_floats o ∧ js_decimal_point p = op_point o ∧
  js_malloc p = F ∧ js_free p = F.

(** The structure is in the state of the automaton, but for the text. *)
Definition controls a p : Prop :=
  fixed p ∧ js_state p = ma_state a ∧ js_before_comment_state p = ma_before a ∧
  js_type p = ma_type a ∧ js_escaped p = is_escape (ma_state a) ∧
  js_comment p = is_comment (ma_state a) ∧ js_utf16_high_surrogate p = ma_surrogate a ∧
  stack_rep o (ma_modes a) p.

Definition parser a : hPropI := (∃ p, ⟦ controls a p ∧ machine_ok o a ⟧ ∗ held 0 p (ma_text a))%I.

(** A parser that has refused: all that is left to do is to delete it. *)
Definition husk : hPropI := (∃ p t, ⟦ fixed p ∧ js_stack p = AStatic ⟧ ∗ held 0 p t)%I.

(** What becomes of the parser and its client. *)
Definition outcome ts (v : verdict) (ok : bool) (w' : world) : hPropI :=
  (if ok then ∃ a' ts', ⟦ v = Goes a' ts' ⟧ ∗ parser a' ∗ I (ts ++ ts') w'
   else husk ∗ ((∃ ts', ⟦ v = Reject ts' ⟧ ∗ I (ts ++ ts') w') ∨
                (∃ ts1, ⟦ ts1 `prefix_of` tokens_of v ⟧ ∗ J (ts ++ ts1) w')))%I.

(** ** Telling *)

Lemma wp_callback ts tok told w Q :
  all_allowed allowed ts (tok :: told) →
  I ts w ∗
  ((∀ w', ⟦ onward w w' ⟧ -∗ I (ts ++ [tok]) w' -∗ Q true w') ∧
   (∀ w', ⟦ onward w w' ⟧ -∗ J (ts ++ [tok]) w' -∗ Q false w'))
  ⊢ wp (callback ctx tok.1 tok.2) w Q.
Proof. intros [H _]. destruct tok as [ty v]. by apply client_call. Qed.

Lemma wp_tell n p t ty v ts w Q :
  fixed p → allowed ts (ty, v) →
  held n p t ∗ I ts w ∗
  ((∀ w', ⟦ onward w w' ⟧ -∗ held n p t -∗ I (ts ++ [(ty, v)]) w' -∗ Q true w') ∧
   (∀ w', ⟦ onward w w' ⟧ -∗ held n p t -∗ J (ts ++ [(ty, v)]) w' -∗ Q false w'))
  ⊢ wp (tell callback (Some jl) ty v) w Q.
Proof.
  iIntros ((Hcb & Hctx & _) Hal) "(H & HI & HQ)". unfold tell. wp_focus. iApply wp_parser_load.
  iFrame "H". iIntros (buf cap sb _) "H". simpl. rw Hcb Hctx. iApply client_call; [done|]. iFrame "HI".
  iSplit; iIntros (w' Hw) "HI".
  - iDestruct "HQ" as "[HQ _]". by iApply ("HQ" with "[//] H").
  - iDestruct "HQ" as "[_ HQ]". by iApply ("HQ" with "[//] H").
Qed.

Lemma wp_buffer_value n p t w Q :
  held n p t ∗ (held n p t -∗ Q (string_value t) w) ⊢ wp (buffer_value (Some jl)) w Q.
Proof.
  iIntros "[H HQ]". unfold buffer_value. wp_focus. iApply wp_parser_load. iFrame "H".
  iIntros (buf cap sb _) "H". simpl. wp_focus. iApply wp_holding_bytes. iFrame "H".
  iIntros (rest) "H". wret. rw Nat2Z.id. unfold string_value.
  replace (S (length t)) with (length (t ++ [Ascii.zero])) by (rw length_app /=; lia).
  change (t ++ Ascii.zero :: rest) with (t ++ [Ascii.zero] ++ rest).
  rw (assoc_L (++)) take_app_length. by iApply "HQ".
Qed.

(** The value the callback is given is the one of the automaton. *)
Lemma wp_buffered_value n p t told w Q :
  fixed p → (js_type p = JSON_T_INTEGER → scannable t) → flush o (js_type p) t = Some told →
  js_type p ≠ JSON_T_NONE →
  held n p t ∗ (∀ v, ⟦ told = [(js_type p, v)] ⟧ -∗ held n p t -∗ Q v w)
  ⊢ wp (buffered_value (Some jl)) w Q.
Proof.
  iIntros ((_ & _ & _ & Hman & _) Hsc Hfl Hne) "[H HQ]". unfold buffered_value. wp_focus.
  iApply wp_parser_load. iFrame "H". iIntros (buf cap sb _) "H". simpl.
  destruct (js_type p) eqn:Ht; try discriminate Hfl; [done|..]; injection Hfl as <-.
  - wp_focus. iApply wp_holding_bytes. iFrame "H". iIntros (rest) "H". rw c_text_terminated.
    destruct (Hsc eq_refl) as [z Hz]. rw Hz. wret. by iApply ("HQ" with "[%] H").
  - rw Hman. destruct (op_manual_floats o).
    + iApply wp_buffer_value. iFrame "H". iIntros "H". by iApply ("HQ" with "[%] H").
    + wp_focus. iApply wp_holding_bytes. iFrame "H". iIntros (rest) "H". rw c_text_terminated.
      wret. by iApply ("HQ" with "[%] H").
  - iApply wp_buffer_value. iFrame "H". iIntros "H". by iApply ("HQ" with "[%] H").
Qed.

Lemma flush_non_container t ty told :
  flush o ty t = Some told → ty ≠ JSON_T_NONE → is_non_container_type ty = true.
Proof. by destruct ty. Qed.

Lemma wp_parse_parse_buffer n p t told ts w Q :
  fixed p → (js_type p = JSON_T_INTEGER → scannable t) → flush o (js_type p) t = Some told →
  all_allowed allowed ts told →
  held n p t ∗ I ts w ∗
  ((∀ w', ⟦ onward w w' ⟧ -∗ held n p [] -∗ I (ts ++ told) w' -∗ Q true w') ∧
   (∀ w', ⟦ onward w w' ⟧ -∗ held n p t -∗ J (ts ++ told) w' -∗ Q false w'))
  ⊢ wp (parse_parse_buffer callback (Some jl)) w Q.
Proof.
  iIntros (Hfix Hsc Hfl Hal) "(H & HI & HQ)". unfold parse_parse_buffer. wp_focus.
  iApply wp_parser_load. iFrame "H". iIntros (buf cap sb _) "H". simpl.
  pose proof Hfix as (Hcb & Hctx & _). rw Hcb. destruct (decide (js_type p = JSON_T_NONE)) as [Hn|Hn].
  - wret. rw Hn in Hfl. injection Hfl as <-. rw app_nil_r. wp_focus. iApply wp_clear. iFrame "H".
    iIntros "H". wret. iDestruct "HQ" as "[HQ _]". iApply ("HQ" with "[%] H HI"). auto with world.
  - unfold check. rw (flush_non_container _ _ _ Hfl Hn). wret. wp_focus.
    iApply (wp_buffered_value with "[-]"); [done..|]. iFrame "H". iIntros (v ->) "H". rw Hctx. wp_focus.
    iApply client_call; [by destruct Hal|]. iFrame "HI". iSplit; iIntros (w' Hw) "HI".
    + wp_focus. iApply wp_clear. iFrame "H". iIntros "H". wret. iDestruct "HQ" as "[HQ _]".
      by iApply ("HQ" with "[//] H").
    + wret. iDestruct "HQ" as "[_ HQ]". by iApply ("HQ" with "[//] H").
Qed.

(** ** Outcomes *)

Lemma outcome_goes v a' ts' p t ts w :
  v = Goes a' ts' → controls a' p → machine_ok o a' → t = ma_text a' →
  held 0 p t ∗ I (ts ++ ts') w ⊢ outcome ts v true w.
Proof.
  iIntros (-> Hc Hok ->) "[H HI]". iExists a', ts'.
  iSplitR; [done|]. iSplitL "H"; [|iExact "HI"]. iExists p. by iFrame.
Qed.

Lemma husk_intro n p t : fixed p → js_stack p = AStatic → held n p t ⊢ husk.
Proof.
  iIntros (Hf Hs) "H". iExists p, t. iSplitR; [done|]. iApply (holding_weaken with "H"). lia.
Qed.

Lemma outcome_rejects v ts' n p t ts w :
  v = Reject ts' → fixed p → js_stack p = AStatic →
  held n p t ∗ I (ts ++ ts') w ⊢ outcome ts v false w.
Proof.
  iIntros (-> Hf Hs) "[H HI]". iSplitL "H"; [by iApply (husk_intro with "H")|]. iLeft. iExists ts'. by iFrame.
Qed.

Lemma outcome_refused v ts1 n p t ts w :
  ts1 `prefix_of` tokens_of v → fixed p → js_stack p = AStatic →
  held n p t ∗ J (ts ++ ts1) w ⊢ outcome ts v false w.
Proof.
  iIntros (Hp Hf Hs) "[H HI]". iSplitL "H"; [by iApply (husk_intro with "H")|]. iRight. iExists ts1. by iFrame.
Qed.

Lemma controls_static a p : controls a p → js_stack p = AStatic.
Proof. by intros (_ & _ & _ & _ & _ & _ & _ & Hs & _). Qed.

(** The rule of an action. *)
Definition act_rule (x : actions) : Prop := ∀ a p ts w,
  controls a p → act_finds x a → stack_ok o (ma_modes a) →
  (∀ a' ts', act o a x = Goes a' ts' → machine_ok o a') →
  act o a x ≠ Abort_assert → all_allowed allowed ts (tokens_of (act o a x)) →
  held 0 p (ma_text a) ∗ I ts w
  ⊢ wp (perform callback (Some jl) x) w (λ ok w', ⟦ onward w w' ⟧ ∗ outcome ts (act o a x) ok w').

(** Assigns fields outside the buffer. *)
Ltac pmodify H := wp_focus; iApply wp_parser_modify; [done|]; iFrame H; iIntros H.
Ltac pload H := wp_focus; iApply wp_parser_load; iFrame H; iIntros (? ? ? _) H; simpl.
Ltac controlled := split_and!; simpl; (done || congruence || (by eauto)).

(** The start of a number, of a keyword and of an escape. *)
Lemma begin_value_rule a p ty s ts w :
  controls a p → is_escape (ma_state a) = false → is_comment (ma_state a) = false →
  is_escape s = false → is_comment s = false → machine_ok o (with_type a ty s) →
  held 0 p (ma_text a) ∗ I ts w
  ⊢ wp (begin_value (Some jl) ty s) w
      (λ ok w', ⟦ onward w w' ⟧ ∗ outcome ts (Goes (with_type a ty s) []) ok w').
Proof.
  iIntros (Hc He Hm He' Hm' Hok) "[H HI]". unfold begin_value, set_type, set_state.
  pmodify "H". pmodify "H". wret. iSplitR; [by auto with world|].
  iApply (outcome_goes with "[$H HI]"); [done| |done|done|by rw app_nil_r].
  destruct Hc as (Hf & H1 & H2 & H3 & H4 & H5 & H6 & H7). split_and!; simpl; congruence || done.
Qed.

Lemma wp_check_type n p t f w Q :
  f (js_type p) = true → held n p t ∗ (held n p t -∗ Q tt w) ⊢ wp (check_type (Some jl) f) w Q.
Proof.
  iIntros (Hf) "[H HQ]". unfold check_type. pload "H". unfold check. rw Hf. wret. by iApply "HQ".
Qed.

Lemma wp_check_empty n p w Q :
  held n p [] ∗ (held n p [] -∗ Q tt w) ⊢ wp (check_empty (Some jl)) w Q.
Proof. iIntros "[H HQ]". unfold check_empty. pload "H". unfold check. simpl. wret. by iApply "HQ". Qed.

Lemma begin_keyword_rule x a p ty s ts w :
  controls a p → ma_type a = JSON_T_NONE → is_escape (ma_state a) = false → is_comment (ma_state a) = false →
  is_escape s = false → is_comment s = false → machine_ok o (with_type a ty s) →
  act o a x = Goes (with_type a ty s) [] →
  held 0 p (ma_text a) ∗ I ts w
  ⊢ wp (begin_keyword (Some jl) ty s) w (λ ok w', ⟦ onward w w' ⟧ ∗ outcome ts (act o a x) ok w').
Proof.
  iIntros (Hc Ht He Hm He' Hm' Hok ->) "[H HI]". unfold begin_keyword. wp_focus.
  iApply wp_check_type; [|iFrame "H"; iIntros "H"; iApply (begin_value_rule with "[$H $HI]"); done].
  unfold is_type. apply bool_decide_eq_true. destruct Hc as (_ & _ & _ & -> & _). done.
Qed.

(** Splits the premises of an action's rule. *)
Ltac rule := iIntros (a p ts w Hc [Hx [?|[He Hm]]] Hst Hok Hna Hal) "[H HI]"; [done|];
  cbn [act perform] in *.

Lemma number_rule x ty s :
  perform callback (Some jl) x = begin_value (Some jl) ty s →
  (∀ a, act o a x = Goes (with_type a ty s) []) →
  x ≠ __ → x ≠ CE → is_escape s = false → is_comment s = false → act_rule x.
Proof.
  iIntros (Hp Ha Hn Hce He' Hm' a p ts w Hc [_ [?|[He Hm]]] Hst Hok Hna Hal) "[H HI]"; [done|].
  rw Hp Ha in Hok *. iApply (begin_value_rule with "[$H $HI]"); try done; [by destruct x|by eapply Hok].
Qed.

Lemma keyword_rule x ty s :
  perform callback (Some jl) x = begin_keyword (Some jl) ty s →
  (∀ a, act o a x = Goes (with_type a ty s) []) → (∀ a, act_finds x a → ma_type a = JSON_T_NONE) →
  x ≠ __ → x ≠ CE → is_escape s = false → is_comment s = false → act_rule x.
Proof.
  iIntros (Hp Ha Ht Hn Hce He' Hm' a p ts w Hc Hx Hst Hok Hna Hal) "[H HI]".
  pose proof Hx as [_ [?|[He Hm]]]; [done|]. rw Hp. rw Ha in Hok.
  iApply (begin_keyword_rule with "[$H $HI]"); try done; [by apply Ht|by destruct x|by eapply Hok].
Qed.

Lemma escape_rule : act_rule EX.
Proof.
  rule. unfold set_state. pmodify "H". pmodify "H". wret. iSplitR; [by auto with world|].
  iApply (outcome_goes with "[$H HI]"); [done| |by eapply Hok|done|by rw app_nil_r].
  destruct Hc as (Hf & H1 & H2 & H3 & H4 & H5 & H6 & H7). split_and!; simpl; congruence || done.
Qed.

Lemma exponent_rule : act_rule DE.
Proof.
  rule. wp_focus. iApply wp_check_type; [|iFrame "H"; iIntros "H"].
  { by destruct Hc as (_ & _ & _ & -> & _). }
  iApply (begin_value_rule with "[$H $HI]"); try done. by eapply Hok.
Qed.

Lemma wp_localise_point p u w Q :
  fixed p → held 0 p (u ++ [to_char 46]) ∗ (held 0 p (localised o (u ++ [to_char 46])) -∗ Q tt w)
  ⊢ wp (localise_point (Some jl)) w Q.
Proof.
  iIntros ((_ & _ & _ & Hman & Hpt & _)) "[H HQ]". unfold localise_point, localised. pload "H". rw Hman.
  destruct (op_manual_floats o); [wret; by iApply "HQ"|]. rw length_app /=.
  replace (Z.of_nat (length u + 1) - 1)%Z with (Z.of_nat (length u)) by lia.
  iDestruct "H" as "(%rest & (%Hn & %Hf) & H)". wp_focus.
  iApply (wp_buffer_get _ _ p _ ((u ++ [to_char 46]) ++ Ascii.zero :: rest) _ (to_char 46) with "[$H HQ]").
  { by rw -(assoc_L (++)) list_lookup_middle. }
  iIntros "H". unfold check. wret. iApply wp_buffer_set. iFrame "H".
  iSplitR; [iPureIntro; rw !length_app /=; lia|]. iIntros "H". iApply "HQ".
  rw -(assoc_L (++)) insert_snoc /= removelast_last Hpt. iExists rest. unfold fits in *.
  rw -(assoc_L (++)) /=. rw !length_app /= in Hf *. iFrame. iPureIntro. lia.
Qed.

Lemma fraction_rule : act_rule DF.
Proof.
  rule. destruct Hx as [Hx [u Hu]]. wp_focus. iApply wp_check_type; [|iFrame "H"; iIntros "H"].
  { by destruct Hc as (_ & _ & _ & -> & _). }
  iEval (rw Hu) in "H". wp_focus. iApply wp_localise_point; [by destruct Hc|]. iFrame "H".
  rw -Hu. iIntros "H".
  unfold begin_value, set_type, set_state. pmodify "H". pmodify "H". wret. iSplitR; [by auto with world|].
  iApply (outcome_goes with "[$H HI]"); [done| |by eapply Hok|done|by rw app_nil_r].
  destruct Hc as (Hf & H1 & H2 & H3 & H4 & H5 & H6 & H7). split_and!; simpl; congruence || done.
Qed.

Lemma string_rule : act_rule SB.
Proof.
  rule. wp_focus. iApply wp_clear. iFrame "H". iIntros "H". unfold begin_keyword. wp_focus.
  iApply wp_check_type; [|iFrame "H"; iIntros "H"].
  { unfold is_type. apply bool_decide_eq_true. by destruct Hc as (_ & _ & _ & -> & _). }
  unfold begin_value, set_type, set_state. pmodify "H". pmodify "H". wret. iSplitR; [by auto with world|].
  iApply (outcome_goes with "[$H HI]"); [done| |by eapply Hok|done|by rw app_nil_r].
  destruct Hc as (Hf & H1 & H2 & H3 & H4 & H5 & H6 & H7). split_and!; simpl; congruence || done.
Qed.

Lemma end_comment_rule : act_rule CE.
Proof.
  rule. destruct Hx as ([Ht Hu] & Hbe & Hbc). unfold end_comment. pmodify "H". rw Hu.
  wp_focus. iApply wp_check_empty. iFrame "H". iIntros "H".
  wp_focus. iApply wp_check_type; [|iFrame "H"; iIntros "H"].
  { unfold is_type. apply bool_decide_eq_true. simpl. by destruct Hc as (_ & _ & _ & -> & _). }
  pmodify "H". wret. iSplitR; [by auto with world|].
  iApply (outcome_goes with "[$H HI]"); [done| |by eapply Hok|done|by rw app_nil_r].
  destruct Hc as (Hf & H1 & H2 & H3 & H4 & H5 & H6 & H7). split_and!; simpl; congruence || done.
Qed.

Lemma wp_pop_text n p t w Q :
  t ≠ [] → held n p t ∗ (held n p (removelast t) -∗ Q tt w)
  ⊢ wp (parse_buffer_pop_back_char (Some jl)) w Q.
Proof.
  iIntros (Hne) "[H HQ]". destruct t as [|c t _] using rev_ind; [done|]. rw removelast_last.
  iDestruct (holding_writable with "H") as "H". iApply wp_pop_back. iFrame "H". iIntros "H".
  iApply "HQ". iApply (holding_weaken with "H"). lia.
Qed.

(** The rules carry the world along: what happens from [w] on, to a [w''] from
    which the rest goes. *)
Lemma onward_post {A} (m : M A) w w'' (Q : A → world → hPropI) :
  onward w w'' →
  wp m w'' (λ x w', ⟦ onward w'' w' ⟧ ∗ Q x w') ⊢ wp m w'' (λ x w', ⟦ onward w w' ⟧ ∗ Q x w').
Proof.
  iIntros (Hw) "H". iApply (wp_wand with "H"). iIntros (x w') "[%H $]". iPureIntro.
  by eapply onward_trans.
Qed.

Lemma controls_modes a p : controls a p → stack_rep o (ma_modes a) p.
Proof. by intros (_ & _ & _ & _ & _ & _ & _ & H). Qed.
Lemma stack_ok_nonempty ms : stack_ok o ms → ms ≠ [].
Proof. intros [(ms' & -> & _) _]. by destruct ms'. Qed.
Lemma stack_ok_length ms : stack_ok o ms → length ms ≤ S (op_depth o).
Proof. by intros [_ H]. Qed.

(** The token ends the value read and the collection. *)
Lemma end_collection_rule x ty m :
  perform callback (Some jl) x = end_collection callback (Some jl) ty m →
  (∀ a, act o a x = act_end o a ty m) → (∀ a, act_finds x a → value_flushed a) →
  x ≠ __ → x ≠ CE → act_rule x.
Proof.
  iIntros (Hp Ha Hv Hn Hce a p ts w Hc Hx Hst Hok Hna Hal) "[H HI]".
  pose proof (Hv _ Hx) as (Hne & _ & Hsc). destruct Hx as [_ [?|[He Hm]]]; [done|].
  assert (is_comment (ma_state a) = false) as Hm' by (by destruct x).
  rw Hp. rw Ha in Hok Hna Hal *. clear Hp Ha Hv. unfold act_end in *.
  destruct (flush o (ma_type a) (removelast (ma_text a))) as [told|] eqn:Hfl; [|done].
  assert (all_allowed allowed ts (told ++ [(ty, VNull)])) as [Hal1 [Hal2 _]]%all_allowed_app.
  { by destruct (popped m (ma_modes a)). }
  assert (tokens_of (match popped m (ma_modes a) with
    | Some ms => Goes (cleared (with_type a JSON_T_NONE OK) <| ma_modes := ms |>) (told ++ [(ty, VNull)])
    | None => Reject (told ++ [(ty, VNull)]) end) = told ++ [(ty, VNull)]) as Htok.
  { by destruct (popped m (ma_modes a)). }
  pose proof (controls_static _ _ Hc) as Hstat. pose proof Hc as (Hf & H1 & H2 & H3 & H4 & H5 & H6 & H7).
  unfold end_collection. wp_focus. iApply wp_pop_text; [done|]. iFrame "H". iIntros "H".
  rw -H3 in Hfl Hsc. wp_focus.
  iApply (wp_parse_parse_buffer with "[$H $HI]"); [done..|]. iSplit; iIntros (w1 Hw1) "H HI".
  2: { wret. iSplitR; [done|]. iApply (outcome_refused with "[$H $HI]"); [|done..].
       rw Htok. by apply prefix_app_r. }
  wp_focus. iApply (wp_tell with "[$H $HI]"); [done..|]. rw -(assoc_L (++)). iSplit; iIntros (w2 Hw2) "H HI".
  2: { wret. iSplitR; [iPureIntro; by eapply onward_trans|].
       iApply (outcome_refused with "[$H $HI]"); [by rw Htok|done..]. }
  assert (onward w w2) as Hw by (by eapply onward_trans). wp_focus.
  iApply wp_pop; [done..|by apply stack_ok_nonempty|by apply stack_ok_length|]. iFrame "H".
  destruct (popped m (ma_modes a)) as [ms|] eqn:Hpop.
  - iIntros "%Hr H". simpl. unfold set_type, set_state. pmodify "H". pmodify "H". wret. iSplitR; [done|].
    iApply (outcome_goes with "[$H $HI]"); [done| |by eapply Hok|done].
    split_and!; simpl; congruence || done.
  - iIntros "H". simpl. unfold fail_with. pmodify "H". wret. iSplitR; [done|].
    by iApply (outcome_rejects with "[$H $HI]").
Qed.

Lemma begin_collection_rule x ty m st :
  perform callback (Some jl) x = begin_collection callback (Some jl) ty m st →
  (∀ a, act o a x = act_begin o a ty m st) →
  (∀ a, act_finds x a → ma_text a ≠ [] ∧ ma_type a = JSON_T_NONE) →
  is_escape st = false → is_comment st = false → x ≠ __ → x ≠ CE → act_rule x.
Proof.
  iIntros (Hp Ha Hv Hse Hsm Hn Hce a p ts w Hc Hx Hst Hok Hna Hal) "[H HI]".
  destruct (Hv _ Hx) as [Hne Ht]. destruct Hx as [_ [?|[He Hm]]]; [done|].
  assert (is_comment (ma_state a) = false) as Hm' by (by destruct x).
  rw Hp. rw Ha in Hok Hna Hal *. clear Hp Ha Hv. unfold act_begin in *.
  assert (tokens_of (match pushed o m (ma_modes a) with
    | Some ms => Goes (a <| ma_text := removelast (ma_text a) |> <| ma_modes := ms |> <| ma_state := st |>) [(ty, VNull)]
    | None => Reject [(ty, VNull)] end) = [(ty, VNull)]) as Htok.
  { by destruct (pushed o m (ma_modes a)). }
  rw Htok in Hal. destruct Hal as [Hal _].
  pose proof (controls_static _ _ Hc) as Hstat. pose proof Hc as (Hf & H1 & H2 & H3 & H4 & H5 & H6 & H7).
  unfold begin_collection. wp_focus. iApply wp_pop_text; [done|]. iFrame "H". iIntros "H".
  wp_focus. iApply (wp_tell with "[$H $HI]"); [done..|]. iSplit; iIntros (w1 Hw1) "H HI".
  2: { wret. iSplitR; [done|]. iApply (outcome_refused with "[$H $HI]"); [by rw Htok|done..]. }
  wp_focus. iApply wp_push; [done..|by apply stack_ok_length|]. iFrame "H".
  destruct (pushed o m (ma_modes a)) as [ms|] eqn:Hpush.
  - iIntros "%Hr H". simpl. wp_focus. iApply wp_check_type; [|iFrame "H"; iIntros "H"].
    { apply bool_decide_eq_true. simpl. congruence. }
    unfold set_state. pmodify "H". wret. iSplitR; [done|].
    iApply (outcome_goes with "[$H $HI]"); [done| |by eapply Hok|done].
    split_and!; simpl; congruence || done.
  - iIntros "H". wret. iSplitR; [done|]. by iApply (outcome_rejects with "[$H $HI]").
Qed.

Lemma begin_comment_rule : act_rule CB.
Proof.
  rule. destruct Hx as (Hne & Hns & Hsc). unfold act_comment in *.
  pose proof (controls_static _ _ Hc) as Hstat. pose proof Hc as (Hf & H1 & H2 & H3 & H4 & H5 & H6 & H7).
  pose proof Hf as (_ & _ & Hcom & _). unfold begin_comment. pload "H". rw Hcom.
  destruct (op_comments o); simpl in *.
  2: { wret. iSplitR; [by auto with world|].
       iApply (outcome_rejects with "[$H HI]"); [done..|by rw app_nil_r]. }
  destruct (flush o (ma_type a) (removelast (ma_text a))) as [told|] eqn:Hfl; [|done].
  wp_focus. iApply wp_pop_text; [done|]. iFrame "H". iIntros "H". rw -H3 in Hfl Hsc. wp_focus.
  iApply (wp_parse_parse_buffer with "[$H $HI]"); [done..|]. iSplit; iIntros (w1 Hw1) "H HI".
  2: { wret. iSplitR; [done|]. by iApply (outcome_refused with "[$H $HI]"). }
  wp_focus. iApply wp_check_empty. iFrame "H". iIntros "H".
  wp_focus. iApply wp_check_type; [|iFrame "H"; iIntros "H"].
  { apply bool_decide_eq_true. congruence. }
  pose proof (stack_ok_nonempty _ Hst) as Hmne. pose proof (stack_ok_length _ Hst) as Hlen.
  unfold mode_top in *.
  destruct (ma_modes a) as [|m ms] eqn:Hms; [done|]. simpl in Hlen.
  wp_focus. iApply (wp_stack_top with "[-]"); [done..|lia|]. iFrame "H". iIntros "H".
  pmodify "H". unfold set_type, set_state. pmodify "H". pmodify "H". pmodify "H". wret. iSplitR; [done|].
  iApply (outcome_goes with "[$H $HI]"); [done| |by eapply Hok|done].
  split_and!; simpl; rw ?H1; congruence || done.
Qed.

Lemma end_string_rule : act_rule m4.
Proof.
  rule. destruct Hx as [Hne Ht]. unfold act_string, mode_top in *.
  pose proof (controls_static _ _ Hc) as Hstat. pose proof Hc as (Hf & H1 & H2 & H3 & H4 & H5 & H6 & H7).
  pose proof Hf as (Hcb & Hctx & _).
  pose proof (stack_ok_nonempty _ Hst) as Hmne. pose proof (stack_ok_length _ Hst) as Hlen.
  unfold end_string. wp_focus. iApply wp_pop_text; [done|]. iFrame "H". iIntros "H".
  destruct (ma_modes a) as [|m ms] eqn:Hms; [done|]. simpl in Hlen.
  wp_focus. iApply (wp_stack_top with "[-]"); [done..|lia|]. iFrame "H". iIntros "H". rw Ht in H3.
  assert (is_type JSON_T_STRING (js_type p) = true) as Hstr by (by apply bool_decide_eq_true).
  destruct m; simpl.
  - wp_focus. iApply wp_check_type; [done|]. iFrame "H". iIntros "H". wp_focus.
    iApply (wp_parse_parse_buffer _ _ _ [(JSON_T_STRING, string_value (removelast (ma_text a)))] with "[$H $HI]");
      [done|by rw H3|by rw H3|done|]. iSplit; iIntros (w1 Hw1) "H HI".
    2: { wret. iSplitR; [done|]. by iApply (outcome_refused with "[$H $HI]"). }
    unfold set_type, set_state. pmodify "H". pmodify "H". wret. iSplitR; [done|].
    iApply (outcome_goes with "[$H $HI]"); [done| |by eapply Hok|done].
    split_and!; simpl; rw ?Hms; congruence || done.
  - wret. iSplitR; [by auto with world|].
    iApply (outcome_rejects with "[$H HI]"); [done..|by rw app_nil_r].
  - wp_focus. iApply wp_check_type; [done|]. iFrame "H". iIntros "H".
    unfold set_type, set_state. pmodify "H". pmodify "H". pload "H".
    iEval (rw Hcb Hctx).
    wp_focus. iApply wp_buffer_value. iFrame "H". iIntros "H". wp_focus.
    iApply client_call; [by destruct Hal|]. iFrame "HI". iSplit; iIntros (w1 Hw1) "HI".
    2: { wret. iSplitR; [done|]. by iApply (outcome_refused with "[$H $HI]"). }
    wp_focus. iApply wp_clear. iFrame "H". iIntros "H". wret. iSplitR; [done|].
    iApply (outcome_goes with "[$H $HI]"); [done| |by eapply Hok|done].
    split_and!; simpl; rw ?Hms; congruence || done.
  - wp_focus. iApply wp_check_type; [done|]. iFrame "H". iIntros "H". wp_focus.
    iApply (wp_parse_parse_buffer _ _ _ [(JSON_T_STRING, string_value (removelast (ma_text a)))] with "[$H $HI]");
      [done|by rw H3|by rw H3|done|]. iSplit; iIntros (w1 Hw1) "H HI".
    2: { wret. iSplitR; [done|]. by iApply (outcome_refused with "[$H $HI]"). }
    unfold set_type, set_state. pmodify "H". pmodify "H". wret. iSplitR; [done|].
    iApply (outcome_goes with "[$H $HI]"); [done| |by eapply Hok|done].
    split_and!; simpl; rw ?Hms; congruence || done.
Qed.

Lemma comma_rule : act_rule m3.
Proof.
  rule. destruct Hx as (Hne & Hns & Hsc). unfold act_comma in *.
  pose proof (controls_static _ _ Hc) as Hstat. pose proof Hc as (Hf & H1 & H2 & H3 & H4 & H5 & H6 & H7).
  destruct (flush o (ma_type a) (removelast (ma_text a))) as [told|] eqn:Hfl; [|done].
  pose proof (stack_ok_nonempty _ Hst) as Hmne. pose proof (stack_ok_length _ Hst) as Hlen.
  destruct (ma_modes a) as [|m ms] eqn:Hms; [done|]. simpl in Hlen.
  match goal with |- context [outcome ts ?v] =>
    assert (tokens_of v = told) as Htok by (by destruct m); rw Htok in Hal end.
  unfold comma. wp_focus. iApply wp_pop_text; [done|]. iFrame "H". iIntros "H". rw -H3 in Hfl Hsc.
  wp_focus. iApply (wp_parse_parse_buffer with "[$H $HI]"); [done..|]. iSplit; iIntros (w1 Hw1) "H HI".
  2: { wret. iSplitR; [done|]. iApply (outcome_refused with "[$H $HI]"); [by rw Htok|done..]. }
  wp_focus. iApply (wp_stack_top with "[-]"); [done..|lia|]. iFrame "H". iIntros "H".
  assert (bool_decide (js_type p ≠ JSON_T_STRING) = true) as Hty.
  { apply bool_decide_eq_true. congruence. }
  destruct m; simpl.
  - wp_focus. iApply wp_check_type; [done|]. iFrame "H". iIntros "H". unfold set_type, set_state.
    pmodify "H". pmodify "H". wret. iSplitR; [done|].
    iApply (outcome_goes with "[$H $HI]"); [done| |by eapply Hok|done].
    split_and!; simpl; rw ?Hms; congruence || done.
  - wret. iSplitR; [done|]. by iApply (outcome_rejects with "[$H $HI]").
  - wret. iSplitR; [done|]. by iApply (outcome_rejects with "[$H $HI]").
  - wp_focus. iApply (wp_pop with "[-]"); [done..|simpl; lia|]. iFrame "H". simpl.
    iIntros "%Hr H". simpl. wp_focus. iApply (wp_push with "[-]"); [done..|simpl; lia|]. iFrame "H".
    unfold pushed. rw decide_False; [|simpl; lia]. iIntros "%Hr' H". simpl.
    wp_focus. iApply wp_check_type; [|iFrame "H"; iIntros "H"]; [done|]. unfold set_type, set_state.
    pmodify "H". pmodify "H". wret. iSplitR; [done|].
    iApply (outcome_goes with "[$H $HI]"); [done| |by eapply Hok|done].
    split_and!; simpl; congruence || done.
Qed.

Lemma colon_rule : act_rule m2.
Proof.
  rule. destruct Hx as [Hne Ht]. unfold act_colon in *.
  pose proof (controls_static _ _ Hc) as Hstat. pose proof Hc as (Hf & H1 & H2 & H3 & H4 & H5 & H6 & H7).
  pose proof (stack_ok_length _ Hst) as Hlen.
  unfold colon. wp_focus. iApply wp_pop_text; [done|]. iFrame "H". iIntros "H". wp_focus.
  iApply wp_pop; [done..|by apply stack_ok_nonempty|done|]. iFrame "H".
  destruct (popped MODE_KEY (ma_modes a)) as [ms|] eqn:Hpop.
  - apply popped_cons in Hpop. rw Hpop /= in Hlen. iIntros "%Hr H". simpl. wp_focus.
    iApply (wp_push with "[-]"); [done..|lia|]. iFrame "H".
    unfold pushed. rw decide_False; [|lia]. iIntros "%Hr' H". simpl.
    wp_focus. iApply wp_check_type; [|iFrame "H"; iIntros "H"].
    { apply bool_decide_eq_true. simpl. congruence. }
    unfold set_state. pmodify "H". wret. iSplitR; [by auto with world|].
    iApply (outcome_goes with "[$H HI]"); [done| |by eapply Hok|done|by rw app_nil_r].
    split_and!; simpl; congruence || done.
  - iIntros "H". wret. iSplitR; [by auto with world|].
    iApply (outcome_rejects with "[$H HI]"); [done..|by rw app_nil_r].
Qed.

Lemma empty_object_rule : act_rule m9.
Proof.
  rule. pose proof (controls_static _ _ Hc) as Hstat. pose proof Hc as (Hf & H1 & H2 & H3 & H4 & H5 & H6 & H7).
  match goal with |- context [outcome ts ?v] =>
    assert (tokens_of v = [(JSON_T_OBJECT_END, VNull)]) as Htok by (by destruct (popped _ _)) end.
  rw Htok in Hal. destruct Hal as [Hal _].
  wp_focus. iApply wp_clear. iFrame "H". iIntros "H".
  wp_focus. iApply (wp_tell with "[$H $HI]"); [done..|]. iSplit; iIntros (w1 Hw1) "H HI".
  2: { wret. iSplitR; [done|]. iApply (outcome_refused with "[$H $HI]"); [by rw Htok|done..]. }
  wp_focus. iApply wp_pop; [done..|by apply stack_ok_nonempty|by apply stack_ok_length|]. iFrame "H".
  destruct (popped MODE_KEY (ma_modes a)) as [ms|] eqn:Hpop.
  - iIntros "%Hr H". simpl. unfold set_state. pmodify "H". wret. iSplitR; [done|].
    iApply (outcome_goes with "[$H $HI]"); [done| |by eapply Hok|done].
    split_and!; simpl; congruence || done.
  - iIntros "H". wret. iSplitR; [done|]. by iApply (outcome_rejects with "[$H $HI]").
Qed.

(** Four hexadecimal digits have been read. *)
Lemma wp_decode p t u hs w Q :
  length u = 2 → length hs = 4 → Forall (λ c, hex_value c < 16)%Z hs →
  held 0 p (t ++ u ++ hs) ∗
  (∀ n, match decode_utf16 (js_utf16_high_surrogate p) (hex_number hs 0) with
   | Some (cs, sur) => held n (p <| js_utf16_high_surrogate := sur |>) (t ++ cs) -∗ Q true w
   | None => held n p t -∗ Q false w
   end) ⊢ wp (decode_unicode_char (Some jl)) w Q.
Proof.
  iIntros (Hu Hn Hhs) "[H HQ]". unfold decode_unicode_char. pload "H".
  rw !length_app Hu Hn. unfold check. rw (proj2 (Z.leb_le 6 _)); [|lia]. wret. wp_focus.
  replace (Z.of_nat (length t + 6) - 4)%Z with (Z.of_nat (length (t ++ u)));
    [|rw length_app; lia].
  iDestruct "H" as "(%rest & %Hf & H)". rw (assoc_L (++)) -(assoc_L (++) _ hs) -[X in read_hex X]Hn.
  iApply wp_read_hex; [done|]. iFrame "H". iIntros "H".
  iApply (wp_cut _ F _ p t (u ++ hs)); [by rw length_app Hu Hn|]. iSplitL "H".
  { iExists rest. rw -!(assoc_L (++)) in Hf *. iSplitR; [done|iExact "H"]. }
  iIntros "H". pload "H". unfold decode_utf16. destruct (js_utf16_high_surrogate p =? 0)%Z eqn:Hz; simpl.
  - assert (p <| js_utf16_high_surrogate := 0%Z |> = p) as Hp.
    { apply Z.eqb_eq in Hz. rw -Hz. by destruct p. }
    simpl in Hp.
    destruct (hex_number hs 0 <? 128)%Z; [iApply (wp_append_utf8 _ _ 5); iFrame "H"; rw Hp; iApply "HQ"|].
    destruct (hex_number hs 0 <? 2048)%Z; [iApply (wp_append_utf8 _ _ 4); iFrame "H"; rw Hp; iApply "HQ"|].
    destruct (IS_HIGH_SURROGATE _); [pmodify "H"; wret; rw app_nil_r; by iApply "HQ"|].
    destruct (IS_LOW_SURROGATE _); [wret; by iApply "HQ"|].
    iApply (wp_append_utf8 _ _ 3). iFrame "H". rw Hp. iApply "HQ".
  - destruct (IS_LOW_SURROGATE _); [|wret; by iApply "HQ"].
    pmodify "H". iApply (wp_append_utf8 _ _ 2). iFrame "H". iApply "HQ".
Qed.

Lemma decode_rule : act_rule UC.
Proof.
  rule. destruct Hx as [Hlen Hhex]. unfold act_decode in *. set (n := length (ma_text a)) in *.
  pose proof (controls_static _ _ Hc) as Hstat. pose proof Hc as (Hf & H1 & H2 & H3 & H4 & H5 & H6 & H7).
  set (hs := drop (n - 4) (ma_text a)) in *.
  assert (ma_text a = take (n - 6) (ma_text a) ++ take 2 (drop (n - 6) (ma_text a)) ++ hs) as Htext.
  { unfold hs. replace (n - 4) with ((n - 6) + 2) by lia. by rw -drop_drop !take_drop. }
  iEval (rw Htext) in "H". wp_focus.
  iApply (wp_decode _ _ (take 2 (drop (n - 6) (ma_text a))) hs with "[-]"); [| |done|].
  { rw length_take length_drop -/n. lia. }
  { rw length_drop -/n. lia. }
  iFrame "H". rw H6. iIntros (m). destruct (decode_utf16 (ma_surrogate a) (hex_number hs 0)) as [[cs sur]|] eqn:Hdec.
  - iIntros "H". simpl. pload "H". unfold set_state. pmodify "H". wret.
    iSplitR; [by auto with world|]. iDestruct (holding_weaken _ _ _ 0 with "H") as "H"; [lia|].
    iApply (outcome_goes with "[$H HI]"); [done| |by eapply Hok|done|by rw app_nil_r].
    simpl in Hm. split_and!; simpl; try done; destruct (sur =? 0)%Z; simpl; congruence.
  - iIntros "H". simpl. unfold fail_with. pmodify "H". wret. iSplitR; [by auto with world|].
    iApply (outcome_rejects with "[$H HI]"); [done..|by rw app_nil_r].
Qed.

Lemma error_rule a p ts w :
  fixed p → js_stack p = AStatic →
  held 0 p (ma_text a) ∗ I ts w
  ⊢ wp (perform callback (Some jl) __) w (λ ok w', ⟦ onward w w' ⟧ ∗ outcome ts (Reject []) ok w').
Proof.
  iIntros (Hf Hs) "[H HI]". simpl. unfold set_error. wp_focus. iApply wp_parser_modify; [done|].
  iFrame "H". iIntros "H". wret. iSplitR; [by auto with world|].
  iApply (outcome_rejects with "[$H HI]"); [done..|by rw app_nil_r].
Qed.
Lemma perform_rule x : act_rule x.
Proof.
  destruct x.
  - exact begin_comment_rule.
  - exact end_comment_rule.
  - apply (keyword_rule _ JSON_T_FALSE F1); try done. by intros a [H _].
  - apply (keyword_rule _ JSON_T_TRUE T1); try done. by intros a [H _].
  - apply (keyword_rule _ JSON_T_NULL N1); try done. by intros a [H _].
  - exact exponent_rule.
  - exact fraction_rule.
  - exact string_rule.
  - by apply (number_rule _ JSON_T_INTEGER MI).
  - by apply (number_rule _ JSON_T_INTEGER ZE).
  - by apply (number_rule _ JSON_T_INTEGER IT).
  - exact escape_rule.
  - exact decode_rule.
  - exact empty_object_rule.
  - apply (end_collection_rule _ JSON_T_OBJECT_END MODE_OBJECT); try done. by intros a [H _].
  - apply (end_collection_rule _ JSON_T_ARRAY_END MODE_ARRAY); try done. by intros a [H _].
  - apply (begin_collection_rule _ JSON_T_OBJECT_BEGIN MODE_KEY OB); try done. by intros a [H _].
  - apply (begin_collection_rule _ JSON_T_ARRAY_BEGIN MODE_ARRAY AR); try done. by intros a [H _].
  - exact end_string_rule.
  - exact comma_rule.
  - exact colon_rule.
  - intros a p ts w Hc _ _ _ _ _. apply error_rule; [by destruct Hc|by eapply controls_static].
Qed.

(** ** Taking in a character *)

Lemma wp_escaped n p t c w Q :
  t ≠ [] →
  writable jl F (S (S n)) p t ∗
  match unescape_char c with
  | Some cs => held 0 (p <| js_escaped := false |>) (removelast t ++ cs) -∗ Q true w
  | None => held 0 (p <| js_escaped := false |>) (removelast t) -∗ Q false w
  end ⊢ wp (add_escaped_char_to_parse_buffer (Some jl) c) w Q.
Proof.
  iIntros (Ht) "[H HQ]". unfold add_escaped_char_to_parse_buffer. iApply wp_check_space. iFrame "H".
  iIntros "H". wp_focus. iApply wp_writable_modify; [done|]. iFrame "H". iIntros "H".
  destruct t as [|b t _] using rev_ind; [done|]. rw removelast_last. wp_focus. iApply wp_pop_back.
  iFrame "H". iIntros "H". destruct (unescape_char c) as [cs|] eqn:Hu; 
    [|wret; iApply "HQ"; iApply (holding_weaken with "H"); lia].
  apply unescape_length in Hu. wp_focus. iApply (wp_push_back_chars _ _ 0). iSplitL "H".
  { iApply (holding_weaken with "H"). lia. }
  iIntros "H". wret. by iApply "HQ".
Qed.
(** The fields after a character has been taken in. *)
Abbreviation unescaped p := (p <| js_escaped := false |>).

Lemma unescaped_id p : js_escaped p = false → unescaped p = p.
Proof. intros H. rw -H. by destruct p. Qed.

(** Nothing is taken in only where there is no text. *)
Lemma skipped_empty a k :
  state_ok a →
  negb (is_comment (ma_state a)) && (bool_decide (ma_type a ≠ JSON_T_NONE) || negb (is_space_class k)) = false →
  ma_text a = [].
Proof.
  intros Hs Hk. destruct a as [s b t sur u ms]. apply andb_false_iff in Hk as [Hk|Hk].
  - destruct s; try discriminate Hk; by destruct Hs as [[_ ?] _].
  - apply orb_false_iff in Hk as [Hk _]. apply bool_decide_eq_false, dec_stable in Hk. simpl in Hk.
    subst t. destruct s; cbn [state_ok ma_state blank value_read] in Hs; unfold blank in Hs; by destruct_and?.
Qed.

Lemma wp_add_char a p c k w Q :
  controls a p → state_ok a → small (ma_text a) →
  held 0 p (ma_text a) ∗
  ((∀ w', ⟦ evolves w [] w' ⟧ -∗
      match absorb a c k with
      | Some text => held 0 (unescaped p) text -∗ Q true w'
      | None => ∀ p' t, ⟦ fixed p' ∧ js_stack p' = AStatic ⟧ -∗ held 0 p' t -∗ Q false w'
      end) ∧
   (∀ w', ⟦ evolves w [] w' ∧ ¬ reliable w ⟧ -∗ held 0 (p <| js_error := JSON_E_OUT_OF_MEMORY |>) (ma_text a) -∗
      Q false w'))
  ⊢ wp (add_char_to_parse_buffer (Some jl) c k) w Q.
Proof.
  iIntros (Hc Hs Hsm) "[H HQ]". pose proof (controls_static _ _ Hc) as Hstat.
  pose proof Hc as (Hf & H1 & H2 & H3 & H4 & H5 & H6 & H7). pose proof Hf as (_ & _ & _ & _ & _ & Hma & Hfr).
  unfold add_char_to_parse_buffer. wp_focus. iApply wp_reserve; [done..|]. iFrame "H". iSplit.
  2: { iIntros (w' He) "H". simpl. pload "H". wret. wret. iDestruct "HQ" as "[_ HQ]".
       by iApply ("HQ" with "[//]"). }
  iIntros (w' He) "H". iDestruct "HQ" as "[HQ _]". iDestruct ("HQ" with "[//]") as "HQ". simpl.
  assert (reserved jl F p (ma_text a) ⊢ writable jl F 2 p (ma_text a)) as Hw by apply reserved_writable.
  wp_focus. unfold absorb. destruct (is_escape (ma_state a)) eqn:He'.
  - (* After a backslash. *)
    assert (ma_text a ≠ []) as Hne.
    { unfold state_ok in Hs. destruct (ma_state a); try done. by destruct Hs. }
    iDestruct (Hw with "H") as "H". iApply wp_writable_load. iFrame "H". iIntros (? ? ? _) "H".
    simpl. rw H4 ?He'. wp_focus. iApply wp_escaped; [done|]. iFrame "H".
    destruct (unescape_char c); iIntros "H"; simpl.
    + wret. by iApply "HQ".
    + unfold fail_with. pmodify "H". wret. iApply ("HQ" with "[] H"). done.
  - pose proof (unescaped_id p H4) as Hid. simpl in Hid.
    destruct (negb (is_comment (ma_state a)) && _) eqn:Hpush.
    + iDestruct (Hw with "H") as "H". iApply wp_writable_load. iFrame "H". iIntros (? ? ? _) "H".
      simpl. iEval (rw H4 ?He' H5 H3 Hpush). wp_focus. iApply wp_push_back. iFrame "H". iIntros "H". wret.
      rw Hid. by iApply "HQ".
    + pose proof (skipped_empty _ _ Hs Hpush) as Ht. rw Ht. iDestruct (reserved_empty with "H") as "H".
      iApply wp_parser_load. iFrame "H". iIntros (? ? ? _) "H".
      simpl. iEval (rw H4 ?He' H5 H3 Hpush). wret. wret. rw Hid.
      iApply "HQ". iApply (holding_weaken with "H"). lia.
Qed.
(** ** A character *)

Lemma goto_keeps s k s' :
  state_transition_table s k = Goto s' →
  is_escape s' = false ∧ (is_escape s = false → is_comment s' = is_comment s) ∧
  (is_escape s = true → is_comment s' = false).
Proof. by destruct s; destruct k; intros E; try discriminate E; injection E as <-. Qed.

Lemma escape_not_comment s : is_escape s = true → is_comment s = false.
Proof. by destruct s. Qed.

(** The parser and its client after memory has run out. *)
Definition exhausted ts w (ok : bool) w' : hPropI :=
  (⟦ ok = false ∧ ¬ reliable w ⟧ ∗ husk ∗ I ts w')%I.
Definition char_post ts w (v : verdict) (ok : bool) w' : hPropI :=
  (⟦ onward w w' ⟧ ∗ (outcome ts v ok w' ∨ exhausted ts w ok w'))%I.

Lemma refused_early n p t ts w w' :
  fixed p → js_stack p = AStatic → onward w w' →
  held n p t ∗ I ts w' ⊢ char_post ts w (Reject []) false w'.
Proof.
  iIntros (Hf Hs Hw) "[H HI]". iSplitR; [done|]. iLeft.
  iApply (outcome_rejects with "[$H HI]"); [done..|by rw app_nil_r].
Qed.

(** The character has been taken in. *)
Lemma act_on_rule a p k ts w w' text :
  controls a p → machine_ok o a →
  (∀ x, state_transition_table (ma_state a) k = Act x → act_finds x (a <| ma_text := text |>)) →
  let v := match state_transition_table (ma_state a) k with
    | Goto s => Goes (a <| ma_text := text |> <| ma_state := s |>) []
    | Act x => act o (a <| ma_text := text |>) x
    end in
  (∀ a' ts', v = Goes a' ts' → machine_ok o a') →
  v ≠ Abort_assert → all_allowed allowed ts (tokens_of v) → onward w w' →
  held 0 (unescaped p) text ∗ I ts w'
  ⊢ wp (p ← load (Some jl);
        match state_transition_table (js_state p) k with
        | Goto s => set_state (Some jl) s;; mret true
        | Act x => perform callback (Some jl) x
        end) w' (λ ok w', char_post ts w v ok w').
Proof.
  iIntros (Hc [_ Hst] Hfind v Hok Hna Hal Hw) "[H HI]". pload "H".
  pose proof (controls_static _ _ Hc) as Hstat. pose proof Hc as (Hf & H1 & H2 & H3 & H4 & H5 & H6 & H7). iEval (rw H1). unfold v in *. clear v.
  destruct (state_transition_table (ma_state a) k) as [s|x] eqn:Ht.
  - unfold set_state. pmodify "H". wret. iSplitR; [done|]. iLeft.
    iApply (outcome_goes with "[$H HI]"); [done| |by eapply Hok|done|by rw app_nil_r].
    destruct (goto_keeps _ _ _ Ht) as (He & Hm1 & Hm2). split_and!; simpl; try done.
    rw H5. destruct (is_escape (ma_state a)) eqn:E; [|by rw Hm1].
    rw Hm2 //. by apply escape_not_comment.
  - assert (wp (perform callback (Some jl) x) w'
      (λ ok w'', ⟦ onward w' w'' ⟧ ∗ outcome ts (act o (a <| ma_text := text |>) x) ok w'')
      ⊢ wp (perform callback (Some jl) x) w'
      (λ ok w'', char_post ts w (act o (a <| ma_text := text |>) x) ok w'')) as Hmono.
    { iIntros "H". iApply (wp_wand with "H"). iIntros (ok w'') "[%Hw' H]".
      iSplitR; [iPureIntro; by eapply onward_trans|]. by iLeft. }
    iApply Hmono. pose proof (Hfind x eq_refl) as Hx.
    pose proof Hx as [_ [->|[He _]]].
    + iApply (error_rule (a <| ma_text := text |>) with "[$H $HI]"); [by destruct Hc|done].
    + iApply (perform_rule x (a <| ma_text := text |>) with "[$H $HI]"); try done.
Qed.

Lemma JSON_parser_char_rule a c ts w :
  small (ma_text a) → step o a c ≠ Abort_assert → all_allowed allowed ts (tokens_of (step o a c)) →
  parser a ∗ I ts w
  ⊢ wp (JSON_parser_char callback (Some jl) c) w (λ ok w', char_post ts w (step o a c) ok w').
Proof.
  iIntros (Hsm Hna Hal) "[(%p & (%Hc0 & %Hok) & H) HI]". unfold JSON_parser_char.
  pmodify "H". set (p0 := (p <| js_current_char := c |>)).
  assert (controls a p0) as Hc by done. change (held 0 _ (ma_text a)) with (held 0 p0 (ma_text a)).
  clearbody p0. clear p Hc0. pose proof Hok as [Hs Hst].
  pose proof (controls_static _ _ Hc) as Hstat. pose proof Hc as (Hf & _).
  pose proof (λ a' ts', step_ok o a c a' ts' Hok) as Hkeep. unfold step in *.
  destruct (Z.ltb_spec c 0) as [|Hpos].
  { unfold fail_with. pmodify "H". wret. iApply (refused_early with "[$H $HI]"); auto with world. }
  destruct (class_of c) as [k|] eqn:Hk.
  2: { unfold set_error. pmodify "H". wret. iApply (refused_early with "[$H $HI]"); auto with world. }
  wp_focus. iApply (wp_add_char _ _ _ k); [done..|]. iFrame "H".
  iSplit.
  2: { iIntros (w' Hw) "H". wret. iSplitR; [iPureIntro; by eexists; apply Hw|]. iRight. destruct Hw as [Hw Hr]. iSplitR; [done|].
       iSplitL "H"; [by iApply (husk_intro with "H")|]. by iApply client_silent. }
  iIntros (w' Hw). iDestruct (client_silent _ _ _ Hw with "HI") as "HI".
  destruct (absorb a c k) as [text|] eqn:Ha; simpl.
  2: { iIntros (p' t [Hf' Hs']) "H". wret. iApply (refused_early with "[$H $HI]"); eauto with world. }
  iIntros "H".
  iApply (act_on_rule a p0 k ts w w' text with "[$H $HI]"); try done; [|by eexists].
  intros x Hx. by eapply act_finds_ok.
Qed.
End char.
