(* ===== verification/JsonTextSpec.v ===== *)
(** Whole texts: making a parser, feeding it, asking whether the text is complete
    and deleting it. *)
From S2P Require Import Prelude JsonData Types Heap JsonParser JsonProcessing JsonMachine JsonFacts Logic MacrosSpec DictionarySpec JsonSpec JsonCharSpec.
From iris.proofmode Require Import proofmode.

(** ** Feeding *)

Section feed.
Context {curl : Libcurl}.
Context (jl : loc) (F : allocator) (o : options) (Hd : depth_ok o) (ctx : ptr) (cb : positive).
Context (I J : list token → world → hPropI) (allowed : list token → token → Prop).
Context `{!TokenClient burrow_backend_http_json_callback ctx I J allowed}.

Abbreviation parser := (parser jl F o ctx cb).
Abbreviation husk := (husk jl F o ctx cb).
Abbreviation outcome := (outcome jl F o ctx cb I J).
Abbreviation char_post := (char_post jl F o ctx cb I J).

(** What is left to read, given how fast the text grows. *)
Definition room (n : nat) (t : bytes) : Prop := (Z.of_nat (length t + 6 * n) < 1152921504606846976)%Z.

Lemma outcome_after ts ts1 v v' ok w :
  (∀ a ts', v = Goes a ts' → v' = Goes a (ts1 ++ ts')) →
  (∀ ts', v = Reject ts' → v' = Reject (ts1 ++ ts')) → v ≠ Abort_assert →
  outcome (ts ++ ts1) v ok w ⊢ outcome ts v' ok w.
Proof.
  iIntros (Hg Hr Hna) "H". destruct ok.
  - iDestruct "H" as (a ts' ->) "[H HI]". iExists a, (ts1 ++ ts'). rw (assoc_L (++)). iFrame.
    iPureIntro. by apply Hg.
  - iDestruct "H" as "[$ [(%ts' & -> & HI)|(%ts' & %Hp & HJ)]]".
    + iLeft. iExists (ts1 ++ ts'). rw (assoc_L (++)). iFrame. iPureIntro. by apply Hr.
    + iRight. iExists (ts1 ++ ts'). rw (assoc_L (++)). iFrame. iPureIntro.
      assert (tokens_of v' = ts1 ++ tokens_of v) as ->.
      { destruct v; [by erewrite Hg|by erewrite Hr|done]. }
      by apply prefix_app.
Qed.

Lemma feed_rule cs rest a ts w :
  reliable w → room (length cs) (ma_text a) →
  run o a (signed_char <$> cs) ≠ Abort_assert →
  all_allowed allowed ts (tokens_of (run o a (signed_char <$> cs))) →
  parser a ∗ I ts w
  ⊢ wp (feed (length cs) (Some jl) (cs ++ rest)) w (λ ok w',
      ⟦ onward w w' ⟧ ∗ outcome ts (run o a (signed_char <$> cs)) ok w').
Proof.
  iIntros (Hrel Hroom Hna Hal) "[H HI]".
  iInduction cs as [|c cs] "IH" forall (a ts w Hrel Hroom Hna Hal); simpl in *.
  - wret. iSplitR; [by auto with world|]. iExists a, []. rw app_nil_r. by iFrame.
  - set (v := step o a (signed_char c)) in *.
    assert (v ≠ Abort_assert) as Hv by (intros E; by rw E in Hna).
    wp_focus. iApply (wp_wand with "[H HI]").
    { iApply (JSON_parser_char_rule jl F o Hd ctx cb _ I J allowed with "[$H $HI]"); [|done|].
      - unfold room, small in *. lia.
      - fold v. destruct v as [a1 ts1| |]; [|done..].
        destruct (run o a1 _); [|..|done]; apply all_allowed_app in Hal as [Hal _]; exact Hal. }
    fold v. unfold JsonCharSpec.char_post, exhausted.
    iIntros (ok w') "[%Hw [H|H]]"; [|iDestruct "H" as ([_ Hr]) "H"; by destruct (Hr Hrel)].
    destruct ok; simpl.
    + iDestruct "H" as (a1 ts1 Hv') "[H HI]".
      pose proof (step_length o a (signed_char c) a1 ts1 Hv') as Hlen. fold v in Hv'.
      rw Hv' in Hna Hal *. iApply (wp_wand with "[H HI]").
      { iApply ("IH" with "[%] [%] [%] [%] H HI").
        - by eapply onward_reliable.
        - unfold room in *. lia.
        - by destruct (run o a1 _).
        - by destruct (run o a1 _); [| |done]; apply all_allowed_app in Hal as [_ Hal]. }
      iIntros (ok w'') "[%Hw' H]". iSplitR; [iPureIntro; by eapply onward_trans|].
      set (v' := run o a1 _) in *. iApply (outcome_after with "H"); by destruct v'; intros; simplify_eq.
    + wret. iSplitR; [done|]. iDestruct "H" as "[$ [(%ts' & %E & HI)|(%ts1 & %Hp & HJ)]]".
      * iLeft. iExists ts'. rw E. by iFrame.
      * iRight. iExists ts1. iFrame. iPureIntro. destruct v as [a1 ts'| |]; [|done..].
        by destruct (run o a1 _); [| |done]; apply prefix_app_r.
Qed.
End feed.

(** ** The end of the text, and of the parser *)

Section life.
Context (jl : loc) (F : allocator) (o : options) (Hd : depth_ok o) (ctx : ptr) (cb : positive).

Abbreviation parser := (parser jl F o ctx cb).
Abbreviation husk := (husk jl F o ctx cb).

Lemma wp_JSON_parser_done a w Q :
  parser a ∗ (husk -∗ Q (complete a) w) ⊢ wp (JSON_parser_done (Some jl)) w Q.
Proof.
  iIntros "[(%p & (%Hc & %Hok) & H) HQ]". destruct Hok as [_ Hst]. unfold JSON_parser_done.
  wp_focus. iApply wp_parser_load. iFrame "H". iIntros (buf cap sb _) "H". simpl.
  pose proof Hc as (Hf & H1 & _). iEval (rw H1). unfold complete.
  pose proof (controls_static _ _ _ _ _ _ Hc) as Hstat.
  assert (∀ e, holding jl F 0 (p <| js_error := e |>) (ma_text a) ⊢ husk) as Herr.
  { iIntros (e) "H". by iApply (husk_intro with "H"). }
  destruct (bool_decide (ma_state a = OK ∨ ma_state a = GO)); simpl.
  2: { wret. unfold fail_with. wp_focus. iApply wp_parser_modify; [done|]. iFrame "H". iIntros "H". wret.
       iApply "HQ". by iApply Herr. }
  wp_focus. iApply (wp_pop _ _ o Hd); [by eapply controls_modes|by eapply stack_ok_nonempty|
    by eapply stack_ok_length|]. iFrame "H".
  destruct (popped MODE_DONE (ma_modes a)) as [ms|] eqn:Hp.
  - iIntros "%Hr H". simpl. wret. apply popped_cons in Hp. rw Hp bool_decide_eq_true_2 //.
    iApply "HQ". by iApply (husk_intro with "H").
  - iIntros "H". simpl. unfold fail_with. wp_focus. iApply wp_parser_modify; [done|]. iFrame "H".
    iIntros "H". wret. rw bool_decide_eq_false_2.
    + iApply "HQ". by iApply Herr.
    + destruct (ma_modes a) as [|m ms]; [done|]. by intros [= ->].
Qed.

Lemma wp_delete_JSON_parser w Q :
  husk ∗ Q tt w ⊢ wp (delete_JSON_parser (Some jl)) w Q.
Proof.
  iIntros "[(%p & %t & (%Hf & %Hs) & (%rest & %Hfit & (%buf & %sb & Hj & Hb))) HQ]".
  unfold delete_JSON_parser. simpl. destruct Hf as (_ & _ & _ & _ & _ & _ & Hfr).
  wload "Hj". iEval (rw Hs). wret. wload "Hj". iEval (rw Hfr).
  destruct buf as [| |l]; simpl; [by iDestruct "Hb" as %[]|..].
  - iDestruct "Hb" as %E. wret. wload "Hj". iEval (rw Hfr). iApply (wp_release (T := JSON_parser_struct)). iFrame "Hj". iExact "HQ".
  - wp_focus. iApply (wp_release (T := bytes)). iFrame "Hb". wload "Hj". iEval (rw Hfr).
    iApply (wp_release (T := JSON_parser_struct)). iFrame "Hj". iExact "HQ".
Qed.
End life.

(** ** The start *)

(** The options a configuration stands for. *)
Definition options_of (point : Ascii.ascii) (cf : JSON_config) : options :=
  Options (Z.to_nat (cf_depth cf)) (negb (cf_allow_comments cf =? 0)%Z)
    (negb (cf_handle_floats_manually cf =? 0)%Z) point.

(** A parser before [JSON_parser_reset]. *)
Definition configured (point : Ascii.ascii) (cf : JSON_config) (F : allocator)
    (slots : list (option modes)) (buf : bytes) : JSON_parser_struct :=
  (JsonParser NULL NULL GO GO JSON_T_NONE false false false false JSON_E_NONE Ascii.zero
    0 0 0 0 0 ANull ANull 0 0 slots buf F F)
    <| js_malloc := F |> <| js_free := F |> <| js_callback := cf_callback cf |>
    <| js_ctx := cf_callback_ctx cf |> <| js_allow_comments := negb (cf_allow_comments cf =? 0)%Z |>
    <| js_handle_floats_manually := negb (cf_handle_floats_manually cf =? 0)%Z |>
    <| js_decimal_point := point |> <| js_depth := cf_depth cf |>.

Section start.
Context (F : allocator) (point : Ascii.ascii) (cf : JSON_config).
Context (Hdepth : (1 ≤ cf_depth cf < Z.of_nat JSON_PARSER_STACK_SIZE)%Z).

Lemma options_depth_ok : depth_ok (options_of point cf).
Proof using Hdepth. unfold depth_ok. simpl. lia. Qed.

Lemma wp_JSON_parser_reset jl cb slots rest w Q :
  cf_callback cf = Some cb → length slots = JSON_PARSER_STACK_SIZE →
  length (Ascii.zero :: rest) = JSON_PARSER_PARSE_BUFFER_SIZE →
  jl ↦{owner_of F} configured point cf F slots (Ascii.zero :: rest) ∗
  (parser jl F (options_of point cf) (cf_callback_ctx cf) cb machine_start -∗ Q true w)
  ⊢ wp (JSON_parser_reset (Some jl)) w Q.
Proof using Hdepth.
  iIntros (Hcb Hslots Hbuf) "[Hj HQ]". unfold JSON_parser_reset. simpl. wmodify "Hj". wmodify "Hj". wload "Hj".
  rw (proj2 (Z.ltb_lt 0 _)); [|lia]. wmodify "Hj". rw (proj2 (Z.leb_le _ _)); [|lia].
  wmodify "Hj". wret. wmodify "Hj". wmodify "Hj". wret.
  pose proof options_depth_ok as Hd. set (o := options_of point cf) in *.
  set (p := JsonParser _ _ _ _ _ _ _ _ _ _ _ _ _ _ _ _ _ _ _ _ _ _ _ _).
  iAssert (holding jl F 0 p []) with "[Hj]" as "H".
  { iExists rest. iSplitR; [iPureIntro; unfold fits, JSON_PARSER_PARSE_BUFFER_SIZE in *; simpl app; lia|].
    iExists AStatic, (Ascii.zero :: rest). iSplitL "Hj"; [|done]. rw Hbuf. iExact "Hj". }
  assert (stack_rep o [] p) as Hr.
  { split_and!; [done|simpl; lia|simpl; lia|done|exact Hslots|done]. }
  wp_focus. iApply (wp_push jl F o Hd with "[-]"); [exact Hr|simpl; lia|]. iFrame "H".
  change (pushed o MODE_DONE []) with (Some [MODE_DONE]). iIntros "%Hr' H". wp_focus. iApply wp_clear. iFrame "H".
  iIntros "H". wret. iApply "HQ". iExists (after_push MODE_DONE p). iSplitR; [|iExact "H"].
  iPureIntro. split; [|apply machine_start_ok]. by split_and!.
Qed.

Lemma wp_new_JSON_parser cb w Q :
  cf_callback cf = Some cb → cf_malloc cf = Some F → cf_free cf = Some F →
  (if malloc_ok (owner_of F) w
   then ∀ jl, parser jl F (options_of point cf) (cf_callback_ctx cf) cb machine_start -∗ Q (Some jl) (tick 2 w)
   else Q NULL (tick 1 w))
  ⊢ wp (new_JSON_parser point (Some cf)) w Q.
Proof using Hdepth.
  iIntros (Hcb Hm Hf) "HQ". unfold new_JSON_parser. simpl. rw Hm Hf. wp_focus. unfold js_alloc.
  iApply wp_malloc. destruct (malloc_ok (owner_of F) w); [|simpl; by wret].
  iIntros (jl) "Hj". change (is_null (Some jl)) with false. cbv iota.
  assert (∃ slots rest, zeroed_parser = JsonParser NULL NULL GO GO JSON_T_NONE false false false false
    JSON_E_NONE Ascii.zero 0 0 0 0 0 ANull ANull 0 0 slots (Ascii.zero :: rest) libc_functions libc_functions ∧
    length slots = JSON_PARSER_STACK_SIZE ∧ length (Ascii.zero :: rest) = JSON_PARSER_PARSE_BUFFER_SIZE)
    as (slots & rest & Hz & Hslots & Hrest).
  { eexists _, (replicate 3499 Ascii.zero). split; [reflexivity|]. by vm_compute. }
  rw Hz. clear Hz. wp_focus. iApply (wp_store with "[$Hj HQ]"). iIntros "Hj".
  do 8 wmodify "Hj". rw (proj2 (Z.eqb_neq (cf_depth cf) 0)); [|lia].
  wp_focus. iApply (wp_JSON_parser_reset jl cb slots rest); [done..|]. iFrame "Hj". iIntros "H". simpl.
  wret. by iApply "HQ".
Qed.
End start.
