(* ===== verification/JsonReport.v ===== *)
(** What json_processing.c makes of the tokens, without its memory: the pure
    reference against which JsonReportSpec.v proves it. Executable. *)
From S2P Require Import Prelude JsonData Types Heap Macros JsonParser JsonProcessing JsonMachine Logic MacrosSpec.

(** What has been collected of the message being read. Its body is not: the code
    that copies one overruns its block. *)
Record collected := Collected {
  co_is_key : bool; co_key : option bytes; co_id : option string;
  co_set : Z; co_ttl : Z; co_hide : Z }.
#[export] Instance eta_collected : Eta collected := λ c,
  Collected (co_is_key c) (co_key c) (co_id c) (co_set c) (co_ttl c) (co_hide c).

Definition nothing_collected : collected := Collected false None None BURROW_ATTRIBUTES_NONE 0 0.

(** A token's effect: what is collected then, what the user is told, and whether
    parsing goes on; [None] when the code relies on what does not hold. *)
Definition report : Type := option (collected * list event * bool).

(** The length of the value is that of its bytes, terminator included. *)
Definition fitting (value : bytes) (len : Z) : bool :=
  ((0 <=? len) && (len + 1 =? Z.of_nat (length value)) && (len + 1 <? 18446744073709551616))%Z.
(** A string that is its own C string. *)
Definition is_c_string (s : string) : bool :=
  bool_decide (text_of (with_terminator s) = Some s) &&
  (Z.of_nat (String.length s) + 1 <? 18446744073709551616)%Z.

Section report.
Context (b : burrow_st) (unescape : string → string).

Definition complain (msg : string) : list event := log_events b BURROW_VERBOSE_ERROR msg.

Definition report_string (c : collected) (value : bytes) : report :=
  if co_is_key c then
    let c := c <| co_is_key := false |> in
    key ← co_key c ≫= text_of;
    if String.eqb key "id" then
      s ← text_of value;
      if is_c_string (unescape s) then Some (c <| co_id := Some (unescape s) |>, [], true) else None
    else if String.eqb key "body" then None
    else Some (c, complain "ERROR!  unrecognized string valued key \'%s\'=\'%s\'\n", false)
  else Some (c, [], false).

Definition report_integer (c : collected) (n : Z) : report :=
  if co_is_key c then
    let c := c <| co_is_key := false |> in
    key ← co_key c ≫= text_of;
    if String.eqb key "hide" then
      Some (c <| co_hide := u32 n |> <| co_set := Z.lor (co_set c) BURROW_ATTRIBUTES_HIDE |>, [], true)
    else if String.eqb key "ttl" then
      Some (c <| co_ttl := u32 n |> <| co_set := Z.lor (co_set c) BURROW_ATTRIBUTES_TTL |>, [], true)
    else Some (c, complain "WARNING! JSON parsing found unrecognized integer key \'%s\'=%d\n", false)
  else Some (c, [], true).

Definition unexpected (c : collected) : report :=
  Some (c, complain "WARNING! JSON parsing found unexpected type = %d\n", false).

Definition report_message (c : collected) (tok : token) : report :=
  match tok with
  | (JSON_T_ARRAY_BEGIN, _) | (JSON_T_ARRAY_END, _) => Some (c, [], true)
  | (JSON_T_OBJECT_BEGIN, _) =>
      Some (c <| co_set := BURROW_ATTRIBUTES_NONE |> <| co_ttl := 0%Z |> <| co_hide := 0%Z |>, [], true)
  | (JSON_T_OBJECT_END, _) =>
      Some (c <| co_id := None |> <| co_set := BURROW_ATTRIBUTES_NONE |>,
            when_set (b_message_fn b) (EvMessage (co_id c) None 0 (co_set c) (co_ttl c) (co_hide c)), true)
  | (JSON_T_KEY, VString value len) =>
      if fitting value len then Some (c <| co_is_key := true |> <| co_key := Some value |>, [], true)
      else None
  | (JSON_T_STRING, VString value _) => report_string c value
  | (JSON_T_INTEGER, VInteger n) => report_integer c n
  | (JSON_T_KEY, _) | (JSON_T_STRING, _) | (JSON_T_INTEGER, _) => None
  | _ => unexpected c
  end.

Definition report_list (command : burrow_command_t) (c : collected) (tok : token) : report :=
  match tok with
  | (JSON_T_ARRAY_BEGIN, _) | (JSON_T_ARRAY_END, _) => Some (c, [], true)
  | (JSON_T_STRING, VString value _) =>
      s ← text_of value;
      Some (c, match command with
               | BURROW_CMD_GET_ACCOUNTS => when_set (b_account_fn b) (EvAccount (Some (unescape s)))
               | _ => when_set (b_queue_fn b) (EvQueue (Some (unescape s)))
               end, true)
  | (JSON_T_STRING, _) => None
  | _ => unexpected c
  end.

Definition report_token (c : collected) (tok : token) : report :=
  match cmd_command (b_cmd b) with
  | BURROW_CMD_GET_MESSAGE | BURROW_CMD_GET_MESSAGES | BURROW_CMD_UPDATE_MESSAGE
  | BURROW_CMD_UPDATE_MESSAGES | BURROW_CMD_DELETE_MESSAGE | BURROW_CMD_DELETE_MESSAGES =>
      report_message c tok
  | (BURROW_CMD_GET_QUEUES | BURROW_CMD_GET_ACCOUNTS) as command => report_list command c tok
  | _ => Some (c, [], true)
  end.

(** All tokens, until one is refused. *)
Fixpoint deliver (c : collected) (toks : list token) : report :=
  match toks with
  | [] => Some (c, [], true)
  | tok :: toks =>
      match report_token c tok with
      | Some (c, es, true) =>
          match deliver c toks with
          | Some (c, es', ok) => Some (c, es ++ es', ok)
          | None => None
          end
      | r => r
      end
  end.

(** What burrow_backend_http_parse_json answers, what the user is told, and
    whether the parser and the collector are freed. *)
Definition parse_result (o : options) (cs : list Z) : option (Z * list event * bool) :=
  let v := run o machine_start cs in
  r ← match v with Abort_assert => None | _ => deliver nothing_collected (tokens_of v) end;
  let '(_, es, ok) := r in
  match v, ok with
  | Goes a _, true =>
      if complete a then Some (0%Z, es, true)
      else Some (EINVAL, es ++ complain "WARNING! JSON_parser_end indicates JSON syntax error\n", true)
  | _, _ => Some (EINVAL, es ++ complain "WARNING! JSON_parser_char (%d) at byte %d (%d = '%c')\n", false)
  end.
End report.

(** The configuration of burrow_backend_http_parse_json. *)
Definition json_options (point : Ascii.ascii) : options := Options 19 true false point.

(** ** Delivering one text after another *)

Section deliver.
Context (b : burrow_st) (unescape : string → string).

Lemma deliver_app c0 c es ts ts' :
  deliver b unescape c0 ts = Some (c, es, true) →
  deliver b unescape c0 (ts ++ ts') =
    match deliver b unescape c ts' with Some (c', es', ok) => Some (c', es ++ es', ok) | None => None end.
Proof.
  revert c0 es. induction ts as [|t ts IH]; intros c0 es; simpl.
  - intros [= -> <-]. by destruct (deliver b unescape c ts') as [[[]]|].
  - destruct (report_token b unescape c0 t) as [[[c1 es1] []]|]; [|done..].
    destruct (deliver b unescape c1 ts) as [[[c2 es2] ok2]|] eqn:Hd; [|done]. intros [= -> <- ->].
    erewrite IH by exact Hd. destruct (deliver b unescape c ts') as [[[]]|]; [|done]. by rewrite (assoc_L (++)).
Qed.

Lemma deliver_refused c0 c es ts ts' :
  deliver b unescape c0 ts = Some (c, es, false) → deliver b unescape c0 (ts ++ ts') = Some (c, es, false).
Proof.
  revert c0 es. induction ts as [|t ts IH]; intros c0 es; simpl; [done|].
  destruct (report_token b unescape c0 t) as [[[c1 es1] []]|]; [|done..].
  destruct (deliver b unescape c1 ts) as [[[c2 es2] ok2]|] eqn:Hd; [|done]. intros [= -> <- ->].
  by erewrite IH by exact Hd.
Qed.

Lemma deliver_prefix c0 ts ts' :
  is_Some (deliver b unescape c0 (ts ++ ts')) → is_Some (deliver b unescape c0 ts).
Proof.
  revert c0. induction ts as [|t ts IH]; intros c0; simpl; [done|].
  destruct (report_token b unescape c0 t) as [[[c1 es1] []]|]; [|done..].
  specialize (IH c1). destruct (deliver b unescape c1 (ts ++ ts')) as [[[]]|]; [|by intros []].
  intros _. destruct IH as [[[] ] ->]; eauto.
Qed.
End deliver.
