(* ===== verification/JsonListing.v ===== *)
(** JSON listings of names: how they are written, and what the automaton reads in
    them. *)
From S2P Require Import Prelude JsonData Types Heap JsonParser JsonProcessing JsonMachine JsonFacts JsonReport Logic MacrosSpec.

(** ** Writing *)

Definition hex_digit (n : Z) : Ascii.ascii := to_char (if (n <? 10)%Z then n + 48 else n + 87)%Z.

(** A character in a JSON string. *)
Definition quote_char (c : Ascii.ascii) : bytes :=
  let n := signed_char c in
  if (n =? 34)%Z || (n =? 92)%Z then [to_char 92; c]
  else if (n <? 32)%Z
  then [to_char 92; to_char 117; to_char 48; to_char 48; hex_digit (n `div` 16); hex_digit (n `mod` 16)]
  else [c].
Definition quote (t : bytes) : bytes := to_char 34 :: (t ≫= quote_char) ++ [to_char 34].

Fixpoint listing_rest (names : list bytes) : bytes :=
  match names with
  | [] => [to_char 93]
  | n :: names => to_char 44 :: quote n ++ listing_rest names
  end.
Definition listing (names : list bytes) : bytes :=
  to_char 91 :: match names with [] => [to_char 93] | n :: names => quote n ++ listing_rest names end.

(** The characters a name may have: those of ASCII but NUL. *)
Definition name_char (c : Ascii.ascii) : bool := (0 <? signed_char c)%Z.

(** ** Reading *)

Section reading.
Context (o : options) (Hdepth : 1 ≤ op_depth o).

Lemma run_app a cs cs' :
  run o a (cs ++ cs') =
    match run o a cs with
    | Goes a1 ts1 =>
        match run o a1 cs' with
        | Goes a2 ts2 => Goes a2 (ts1 ++ ts2)
        | Reject ts2 => Reject (ts1 ++ ts2)
        | Abort_assert => Abort_assert
        end
    | v => v
    end.
Proof.
  revert a. induction cs as [|c cs IH]; intros a; simpl.
  - by destruct (run o a cs').
  - destruct (step o a c) as [a1 ts1| |]; [|done..]. rewrite IH.
    destruct (run o a1 cs) as [a2 ts2| |]; [|done..].
    destruct (run o a2 cs'); [| |done]; by rewrite (assoc_L (++)).
Qed.

Lemma run_goes a a1 a2 ts1 ts2 cs cs' :
  run o a cs = Goes a1 ts1 → run o a1 cs' = Goes a2 ts2 → run o a (cs ++ cs') = Goes a2 (ts1 ++ ts2).
Proof. intros H1 H2. by rewrite run_app, H1, H2. Qed.

(** An escape sequence at the end of the text. *)
Lemma act_decode_tail s bf ty sur t b u h1 h2 h3 h4 ms :
  act_decode (Machine s bf ty sur (t ++ [b; u; h1; h2; h3; h4]) ms) =
    match decode_utf16 sur (hex_number [h1; h2; h3; h4] 0) with
    | Some (cs, sur) => Goes (Machine (if (sur =? 0)%Z then ST else D1) bf ty sur (t ++ cs) ms) []
    | None => Reject []
    end.
Proof.
  unfold act_decode. cbn [ma_text ma_surrogate]. rewrite length_app. cbn [length].
  replace (length t + 6 - 4) with (length (t ++ [b; u])) by (rewrite length_app; simpl; lia).
  replace (length t + 6 - 6) with (length t) by lia. rewrite take_app_length.
  change (t ++ [b; u; h1; h2; h3; h4]) with (t ++ [b; u] ++ [h1; h2; h3; h4]).
  by rewrite (assoc_L (++)), drop_app_length.
Qed.

Definition in_string bf ms t : machine := Machine ST bf JSON_T_STRING 0 t ms.

(** After a backslash. *)
Lemma step_escaped c k cs s bf ms t b :
  (c <? 0)%Z = false → class_of c = Some k → unescape_char c = Some cs →
  state_transition_table ES k = Goto s →
  step o (Machine ES bf JSON_T_STRING 0 (t ++ [b]) ms) c = Goes (Machine s bf JSON_T_STRING 0 (t ++ cs) ms) [].
Proof.
  intros Hc Hk Hu Ht. unfold step. rewrite Hc, Hk. unfold absorb. cbn [is_escape ma_state].
  rewrite Hu. cbn -[state_transition_table removelast]. rewrite Ht. cbn -[removelast].
  by rewrite removelast_last.
Qed.

Lemma hex_class_goes k : is_hex_class k = true →
  state_transition_table U3 k = Goto U4 ∧ state_transition_table U4 k = Act UC.
Proof. by destruct k. Qed.

Lemma run_zeros bf ms u :
  run o (Machine U1 bf JSON_T_STRING 0 u ms) [48; 48]%Z =
    Goes (Machine U3 bf JSON_T_STRING 0 ((u ++ [to_char 48]) ++ [to_char 48]) ms) [].
Proof. reflexivity. Qed.

(** A character that is taken in, in a string. *)
Lemma step_in_string s bf ms t c k :
  (c <? 0)%Z = false → class_of c = Some k → is_escape s = false → is_comment s = false →
  step o (Machine s bf JSON_T_STRING 0 t ms) c =
    match state_transition_table s k with
    | Goto s' => Goes (Machine s' bf JSON_T_STRING 0 (t ++ [to_char c]) ms) []
    | Act x => act o (Machine s bf JSON_T_STRING 0 (t ++ [to_char c]) ms) x
    end.
Proof.
  intros Hc Hk He Hm. unfold step. rewrite Hc, Hk. unfold absorb. cbn [ma_state].
  rewrite He, Hm. reflexivity.
Qed.

Lemma run_unicode bf ms t x y kx ky :
  (x <? 0)%Z = false → (y <? 0)%Z = false → class_of x = Some kx → class_of y = Some ky →
  is_hex_class kx = true → is_hex_class ky = true →
  run o (in_string bf ms t) [92; 117; 48; 48; x; y]%Z =
    match decode_utf16 0 (hex_number (to_char <$> [48; 48; x; y]%Z) 0) with
    | Some (cs, sur) => Goes (Machine (if (sur =? 0)%Z then ST else D1) bf JSON_T_STRING sur (t ++ cs) ms) []
    | None => Reject []
    end.
Proof.
  intros Hx Hy Hkx Hky [Htx _]%hex_class_goes [_ Hty]%hex_class_goes.
  assert (run o (in_string bf ms t) [92; 117; 48; 48]%Z =
    Goes (Machine U3 bf JSON_T_STRING 0 (t ++ (to_char <$> [92; 117; 48; 48]%Z)) ms) []) as H1.
  { apply (run_goes _ (Machine ES bf JSON_T_STRING 0 (t ++ [to_char 92]) ms) _ [] [] [92%Z]); [done|].
    change [117; 48; 48]%Z with ([117] ++ [48; 48])%Z.
    eapply (run_goes _ _ _ [] []); [cbn [run]; by erewrite step_escaped by reflexivity|].
    rewrite run_zeros. by rewrite <-!(assoc_L (++)). }
  rewrite (run_app _ [92; 117; 48; 48]%Z [x; y]), H1. cbn [run].
  rewrite (step_in_string _ _ _ _ _ kx), Htx by done. cbn [run].
  rewrite (step_in_string _ _ _ _ _ ky), Hty by done. cbn [act].
  rewrite <-!(assoc_L (++)). cbn [fmap list_fmap app].
  rewrite act_decode_tail. by destruct (decode_utf16 _ _) as [[]|].
Qed.

Lemma run_escaped bf ms t c k :
  (c <? 0)%Z = false → class_of c = Some k → unescape_char c = Some [to_char c] →
  state_transition_table ES k = Goto ST →
  run o (in_string bf ms t) [92; c]%Z = Goes (in_string bf ms (t ++ [to_char c])) [].
Proof.
  intros Hc Hk Hu Ht. apply (run_goes _ (Machine ES bf JSON_T_STRING 0 (t ++ [to_char 92]) ms) _ [] [] [92%Z]); [done|].
  cbn [run]. by erewrite step_escaped by done.
Qed.

Lemma run_quote_char bf ms t c :
  name_char c = true →
  run o (in_string bf ms t) (signed_char <$> quote_char c) = Goes (in_string bf ms (t ++ [c])) [].
Proof.
  destruct c as [[] [] [] [] [] [] [] []]; intros Hc; try discriminate Hc; try reflexivity;
    match goal with |- run _ _ ?cs = _ => let cs' := eval vm_compute in cs in change cs with cs' end;
    (by erewrite run_unicode by reflexivity) || by erewrite run_escaped by reflexivity.
Qed.

Lemma run_quoted_chars bf ms t name :
  forallb name_char name = true →
  run o (in_string bf ms t) (signed_char <$> (name ≫= quote_char)) = Goes (in_string bf ms (t ++ name)) [].
Proof.
  revert t. induction name as [|c name IH]; intros t; [by rewrite app_nil_r|].
  intros [Hc Hn]%andb_prop. rewrite bind_cons, fmap_app.
  apply (run_goes _ _ _ [] [] _ _ (run_quote_char _ _ _ _ Hc)). rewrite (IH _ Hn).
  by rewrite <-(assoc_L (++)).
Qed.

(** A name, where an array takes a value. *)
Lemma run_quote s ms bf name :
  s = AR ∨ s = VA → forallb name_char name = true →
  run o (Machine s bf JSON_T_NONE 0 [] (MODE_ARRAY :: ms)) (signed_char <$> quote name) =
    Goes (Machine OK bf JSON_T_NONE 0 [] (MODE_ARRAY :: ms)) [(JSON_T_STRING, string_value name)].
Proof.
  intros Hs Hn. unfold quote. rewrite fmap_cons, fmap_app.
  apply (run_goes _ (in_string bf (MODE_ARRAY :: ms) []) _ [] _ [34%Z]); [by destruct Hs as [-> | ->]|].
  apply (run_goes _ _ _ [] _ _ _ (run_quoted_chars _ _ _ _ Hn)).
  cbn [fmap list_fmap run app]. unfold in_string. rewrite (step_in_string _ _ _ _ _ C_QUOTE) by done. cbn [app].
  change (state_transition_table ST C_QUOTE) with (Act m4). cbn [act]. unfold act_string.
  cbn [ma_text]. by rewrite removelast_last.
Qed.

Definition name_tokens (names : list bytes) : list token :=
  (λ name, (JSON_T_STRING, string_value name)) <$> names.

Lemma run_listing_rest ms bf names :
  Forall (λ name, forallb name_char name = true) names →
  run o (Machine OK bf JSON_T_NONE 0 [] (MODE_ARRAY :: ms)) (signed_char <$> listing_rest names) =
    Goes (Machine OK bf JSON_T_NONE 0 [] ms) (name_tokens names ++ [(JSON_T_ARRAY_END, VNull)]).
Proof.
  induction 1 as [|name names Hn Hns IH]; [done|]. cbn [listing_rest].
  rewrite fmap_cons, fmap_app.
  apply (run_goes _ (Machine VA bf JSON_T_NONE 0 [] (MODE_ARRAY :: ms)) _ [] _ [44%Z]); [done|].
  eapply (run_goes _ _ _ [_]); [by apply run_quote; [right|]|]. exact IH.
Qed.

(** A listing is an array of its names, and complete. *)
Lemma run_listing names :
  Forall (λ name, forallb name_char name = true) names →
  run o machine_start (signed_char <$> listing names) =
    Goes (Machine OK GO JSON_T_NONE 0 [] [MODE_DONE])
      ((JSON_T_ARRAY_BEGIN, VNull) :: name_tokens names ++ [(JSON_T_ARRAY_END, VNull)]).
Proof using Hdepth.
  intros Hns. unfold listing. rewrite fmap_cons.
  assert (pushed o MODE_ARRAY [MODE_DONE] = Some [MODE_ARRAY; MODE_DONE]) as Hp.
  { unfold pushed. rewrite decide_False; [done|]. simpl. lia. }
  apply (run_goes _ (Machine AR GO JSON_T_NONE 0 [] [MODE_ARRAY; MODE_DONE]) _ [_] _ [91%Z]).
  { transitivity (match pushed o MODE_ARRAY [MODE_DONE] with
      | Some ms => Goes (Machine AR GO JSON_T_NONE 0 [] ms) [(JSON_T_ARRAY_BEGIN, VNull)]
      | None => Reject [(JSON_T_ARRAY_BEGIN, VNull)]
      end); [|by rewrite Hp].
    cbn [run]. by destruct (pushed o MODE_ARRAY [MODE_DONE]) eqn:E; vm_compute; vm_compute in E; rewrite ?E. }
  destruct Hns as [|name names Hn Hns]; [done|]. rewrite fmap_app.
  eapply (run_goes _ _ _ [_]); [by apply run_quote; [left|]|]. by apply run_listing_rest.
Qed.
End reading.

(** The tokens of a listing, delivered to the user of the two commands that ask
    for one. *)
Definition listed (b : burrow_st) (name : string) : list event :=
  match cmd_command (b_cmd b) with
  | BURROW_CMD_GET_ACCOUNTS => when_set (b_account_fn b) (EvAccount (Some name))
  | _ => when_set (b_queue_fn b) (EvQueue (Some name))
  end.
Definition asks_for_names (b : burrow_st) : Prop :=
  cmd_command (b_cmd b) = BURROW_CMD_GET_QUEUES ∨ cmd_command (b_cmd b) = BURROW_CMD_GET_ACCOUNTS.

Lemma text_of_value name :
  forallb name_char name = true →
  text_of (name ++ [Ascii.zero]) = Some (String.string_of_list_ascii name).
Proof.
  induction name as [|c name IH]; [done|]. intros [Hc Hn]%andb_prop. simpl.
  destruct (Ascii.eqb_spec c Ascii.zero) as [->|_]; [done|]. by rewrite IH.
Qed.

Lemma report_begin b unescape c :
  asks_for_names b → report_token b unescape c (JSON_T_ARRAY_BEGIN, VNull) = Some (c, [], true).
Proof. intros Hb. unfold report_token. by destruct Hb as [-> | ->]. Qed.

Lemma report_name b unescape c name :
  asks_for_names b → forallb name_char name = true →
  report_token b unescape c (JSON_T_STRING, string_value name) =
    Some (c, listed b (unescape (String.string_of_list_ascii name)), true).
Proof.
  intros Hb Hn. unfold report_token, listed, string_value.
  destruct Hb as [-> | ->]; unfold report_list; by rewrite (text_of_value _ Hn).
Qed.

Lemma deliver_listing b unescape c names :
  asks_for_names b → Forall (λ name, forallb name_char name = true) names →
  deliver b unescape c (name_tokens names ++ [(JSON_T_ARRAY_END, VNull)]) =
    Some (c, names ≫= λ name, listed b (unescape (String.string_of_list_ascii name)), true).
Proof.
  intros Hb. induction 1 as [|name names Hn Hns IH].
  - cbn [name_tokens fmap list_fmap app deliver]. unfold report_token. by destruct Hb as [-> | ->].
  - rewrite bind_cons. change (name_tokens (name :: names)) with ((JSON_T_STRING, string_value name) :: name_tokens names).
    cbn [app deliver]. by rewrite report_name, IH.
Qed.
