(* ===== verification/HttpAnswer.v ===== *)
(** What the http backend makes of an answer of the server, without its memory:
    the result of the command and what the user is told. Pure and executable. *)
From S2P Require Import Prelude JsonData Types Heap Macros JsonParser JsonProcessing JsonMachine JsonReport Logic MacrosSpec.
From S2P Require Import CurlData Burrow CurlBackend HttpProtocol.

(** The commands that make something of an answer; a deletion of accounts or queues
    does not. *)
Definition answered_command (k : burrow_command_t) : bool :=
  match k with
  | BURROW_CMD_NONE | BURROW_CMD_CREATE_MESSAGE | BURROW_CMD_DELETE_ACCOUNTS | BURROW_CMD_DELETE_QUEUES => false
  | _ => true
  end.

(** The result, and what the user is told; [None] when the code relies on what
    does not hold: a refused text is printed although nothing ends it. *)
Section answer.
Context (b : burrow_st) (unescape : string → string) (point : Ascii.ascii) (body_only : bool).

Definition answer_of (text : bytes) : option (Z * list event) :=
  if negb (answered_command (cmd_command (b_cmd b))) then Some (0%Z, []) else
  if body_only then
    let body := match text with [] => None | _ => Some (String.string_of_list_ascii text) end in
    Some (0%Z, when_set (b_message_fn b) (EvMessagePlain None body (Z.of_nat (length text))))
  else
  match text with
  | [] => Some (0%Z, [])
  | _ =>
      '(r, es, _) ← parse_result b unescape (json_options point) (signed_char <$> text);
      if (0 <? r)%Z then
        _ ← (if verbose_code (b_verbose b) <=? verbose_code BURROW_VERBOSE_ERROR then text_of text else Some "");
        Some (r, es ++ complain b "Error occured while trying to parse JSON message: \'%s\'\n")
      else Some (0%Z, es)
  end.

(** The same for a transfer that may not have been completed. *)
Definition outcome_of (e : ending) : option (Z * list event) :=
  match e with
  | Completed ios => answer_of (received ios)
  | Abandoned => Some (0%Z, [])
  | Failed => Some (EINVAL, [])
  end.
End answer.
