(* ===== verification/JsonReportSpec.v ===== *)
(** json_processing.c against the reference of JsonReport.v: the callback as a
    client of the parser, and the whole of a text. *)
From S2P Require Import Prelude JsonData Types Heap Macros Managed Attributes UserBuffer JsonParser JsonProcessing JsonMachine JsonFacts JsonReport Logic MacrosSpec DictionarySpec UserBufferSpec JsonSpec JsonCharSpec JsonTextSpec.
From iris.proofmode Require Import proofmode.

(** What the code relies on of libcurl: a C string without the percent escapes,
    or NULL. Here it does not fail. *)
Class Unescapes (curl : Libcurl) (unescape : string → string) : Prop :=
  wp_curl_easy_unescape h s w Q :
    (∀ w', ⟦ evolves w [] w' ⟧ -∗ Q (Some (unescape s)) w') ⊢ wp (curl_easy_unescape h s) w Q.

Section client.
Context {curl : Libcurl} (unescape : string → string) `{!Unescapes curl unescape}.
Context (sl bl jp : loc) (so bo : owner) (s : burrow_backend_st) (b : burrow_st) (handle : positive).
Context (Hburrow : hb_burrow s = Some bl) (Hhandle : hb_chandle s = Some handle).
Implicit Types (c : collected).

(** The backend and its burrow. *)
Definition http : hPropI := (sl ↦{so} s ∗ bl ↦{bo} b)%I.

(** A block when there is something to hold. *)
Definition maybe (p : ptr) (bs : option bytes) : hPropI :=
  match p, bs with
  | Some l, Some bs => l ↦{Libc} bs
  | None, None => emp
  | _, _ => ⌜False⌝
  end%I.

Definition processing c (id key : ptr) (al : loc) : json_processing_st :=
  JsonProcessing (Some sl) NULL 0 id (co_is_key c) key (Some al).

(** The id is a C string. *)
Definition id_ok c : Prop := ∀ x, co_id c = Some x → text_of (with_terminator x) = Some x.

(** The collector at [jp], and what it owns. *)
Definition collector c : hPropI :=
  (∃ id key al n p, jp ↦{Libc} processing c id key al ∗
     al ↦{Libc} Attributes (co_set c) (co_ttl c) (co_hide c) NULL n p ∗
     (maybe id (with_terminator <$> co_id c) ∗ ⟦ id_ok c ⟧) ∗ maybe key (co_key c) ∗ http)%I.

(** ** The accessors *)

Lemma wp_get_burrow w Q :
  http ∗ (http -∗ Q (Some bl) w) ⊢ wp (burrow_backend_http_get_burrow (Some sl)) w Q.
Proof using Hburrow.
  iIntros "[[Hs Hb] HQ]". unfold burrow_backend_http_get_burrow. wload "Hs". wret. rw Hburrow.
  iApply "HQ". iFrame.
Qed.

Lemma wp_get_command w Q :
  http ∗ (http -∗ Q (cmd_command (b_cmd b)) w) ⊢ wp (burrow_backend_http_get_command (Some sl)) w Q.
Proof using Hburrow.
  iIntros "[[Hs Hb] HQ]". unfold burrow_backend_http_get_command. wload "Hs". iEval (rw Hburrow).
  wload "Hb". wret. iApply "HQ". iFrame.
Qed.

Lemma wp_get_handle w Q :
  http ∗ (http -∗ Q (Some handle) w) ⊢ wp (burrow_backend_http_get_curl_easy_handle (Some sl)) w Q.
Proof using Hhandle.
  iIntros "[[Hs Hb] HQ]". unfold burrow_backend_http_get_curl_easy_handle. wload "Hs".
  iEval (rw Hhandle). simpl. wret. wload "Hs". wret. rw Hhandle. iApply "HQ". iFrame.
Qed.

Lemma wp_refuse err msg w Q :
  http ∗ (∀ w', ⟦ evolves w (complain b msg) w' ⟧ -∗ http -∗ Q false w')
  ⊢ wp (refuse (Some sl) err msg) w Q.
Proof using Hburrow.
  iIntros "[H HQ]". unfold refuse. wp_focus. iApply wp_get_burrow. iFrame "H". iIntros "[Hs Hb]".
  unfold burrow_error. wp_focus. iApply wp_log_at. iFrame "Hb". iIntros (w') "Hw Hb". wret.
  iApply ("HQ" with "Hw"). iFrame.
Qed.

Lemma wp_get_text v x w Q : text_of v = Some x → Q x w ⊢ wp (get_text v) w Q.
Proof. iIntros (H) "HQ". unfold get_text. rw H. by wret. Qed.

(** Freeing what there is. *)
Lemma wp_free_maybe {B} p bs (k : M B) w Q :
  maybe p bs ∗ wp k w Q
  ⊢ wp ((if is_null p then mret tt else release Libc p);; k) w Q.
Proof.
  iIntros "[Hm HQ]". destruct p as [l|], bs as [bs|]; simpl; try by iDestruct "Hm" as %[].
  - wp_focus. iApply (wp_release (T := bytes)). iFrame "Hm". iExact "HQ".
  - wret. iExact "HQ".
Qed.
(** ** The handlers *)

Lemma fitting_length v len : fitting v len = true → u64 (len + 1) = Z.of_nat (length v).
Proof.
  unfold fitting. intros [[H1%Z.leb_le H2%Z.eqb_eq]%andb_prop H3%Z.ltb_lt]%andb_prop.
  rw u64_small; lia.
Qed.

Lemma c_string_terminated x :
  is_c_string x = true → text_of (with_terminator x) = Some x ∧
  u64 (Z.of_nat (String.length x) + 1) = Z.of_nat (length (with_terminator x)).
Proof.
  unfold is_c_string. intros [H1%bool_decide_eq_true H2%Z.ltb_lt]%andb_prop. split; [done|].
  unfold with_terminator. rw length_app /= u64_small; [|lia].
  enough (length (String.list_ascii_of_string x) = String.length x) by lia.
  clear. induction x as [|a x IH]; simpl; [done|]. by rw IH.
Qed.

(** A new block with a copy of some bytes. *)
Lemma wp_copy (v : bytes) n (assign : ptr → json_processing_st → json_processing_st) j msg back w Q :
  n = Z.of_nat (length v) → reliable w →
  jp ↦{Libc} j ∗
  (∀ l w', ⟦ evolves w [] w' ⟧ -∗ jp ↦{Libc} assign (Some l) j -∗ l ↦{Libc} v -∗ Q true w')
  ⊢ wp (p ← malloc Libc (uninit_bytes n);
        modify (Some jp) (assign p);;
        if is_null p then refuse back ENOMEM msg else write_bytes p 0 v n;; mret true) w Q.
Proof.
  iIntros (-> Hr) "[Hj HQ]". wp_focus. iApply wp_malloc_reliable; [done|]. iIntros (l u w' Hw) "Hl".
  wmodify "Hj". wp_focus. iApply (wp_fill_bytes _ _ (uninit_bytes (Z.of_nat (length v)) u) v).
  { unfold uninit_bytes. by rw length_replicate Nat2Z.id. }
  iFrame "Hl". iIntros "Hl". wret. by iApply ("HQ" with "[//] Hj Hl").
Qed.

Lemma wp_key_found c v len w Q :
  fitting v len = true → reliable w →
  collector c ∗
  (∀ w', ⟦ evolves w [] w' ⟧ -∗ collector (c <| co_is_key := true |> <| co_key := Some v |>) -∗ Q true w')
  ⊢ wp (key_found (Some jp) v len) w Q.
Proof.
  iIntros (Hv Hr) "[(%id & %key & %al & %n & %p & Hj & Ha & Hid & Hkey & H) HQ]". unfold key_found.
  wmodify "Hj". wload "Hj". iApply wp_free_maybe. iFrame "Hkey".
  iApply (wp_copy v _ (λ p j, j <| jp_key := p |>) with "[-]");
    [by apply fitting_length|done|]. iFrame "Hj". iIntros (l w' Hw) "Hj Hl".
  iApply ("HQ" with "[//]"). iExists id, (Some l), al, n, p. iFrame.
Qed.
Lemma wp_id_found c v x w Q :
  text_of v = Some x → is_c_string (unescape x) = true → reliable w →
  collector c ∗
  (∀ w', ⟦ evolves w [] w' ⟧ -∗ collector (c <| co_id := Some (unescape x) |>) -∗ Q true w')
  ⊢ wp (id_found (Some jp) v) w Q.
Proof using All.
  iIntros (Hx Hc Hr) "[(%id & %key & %al & %n & %p & Hj & Ha & Hid & Hkey & H) HQ]". unfold id_found.
  destruct (c_string_terminated _ Hc) as [Hid' Hlen]. iDestruct "Hid" as "[Hid _]".
  wload "Hj". wp_focus. iApply wp_get_handle. iFrame "H". iIntros "H". wp_focus.
  iApply wp_get_text; [done|]. wp_focus. iApply wp_curl_easy_unescape. iIntros (w1 Hw1).
  iApply wp_free_maybe. iFrame "Hid". iApply (wp_copy _ _ (λ p j, j <| jp_message_id := p |>) with "[-]");
    [exact Hlen| |].
  { by eapply reliable_evolves. }
  iFrame "Hj". iIntros (l w2 Hw2) "Hj Hl".
  iApply ("HQ" with "[%]"); [auto with world|]. iExists (Some l), key, al, n, p. iFrame.
  iPureIntro. by intros ? [= <-].
Qed.

(** The key is read when a value follows it. *)
Lemma wp_load_key p v k w Q :
  text_of v = Some k → maybe p (Some v) ∗ (maybe p (Some v) -∗ Q k w) ⊢ wp (load_text p) w Q.
Proof.
  iIntros (Hk) "[Hm HQ]". destruct p as [l|]; simpl; [|by iDestruct "Hm" as %[]].
  unfold load_text. wload "Hm". iApply wp_get_text; [done|]. by iApply "HQ".
Qed.

Lemma wp_string_found c v len c' es ok w Q :
  report_string b unescape c v = Some (c', es, ok) → reliable w →
  collector c ∗ (∀ w', ⟦ evolves w es w' ⟧ -∗ collector c' -∗ Q ok w')
  ⊢ wp (string_found (Some jp) v len) w Q.
Proof using All.
  iIntros (Hrep Hr) "[(%id & %key & %al & %n & %p & Hj & Ha & Hid & Hkey & H) HQ]". destruct c as [ik ck i cs ct ch].
  unfold string_found.
  wload "Hj". unfold report_string in Hrep. simpl in Hrep. destruct ik.
  2: { simplify_eq. wret. iApply ("HQ" with "[%]"); [auto with world|]. iExists id, key, al, n, p. iFrame. }
  wmodify "Hj". destruct ck as [kb|]; [|done].
  change (Some kb ≫= text_of) with (text_of kb) in Hrep. destruct (text_of kb) as [k|] eqn:Hkt; [|done].
  cbv beta iota delta [mbind option_bind] in Hrep.
  wp_focus. iApply wp_load_key; [done|]. iFrame "Hkey". iIntros "Hkey".
  destruct (String.eqb k "id").
  - destruct (text_of v) as [x|] eqn:Hx; [|done].
    destruct (is_c_string (unescape x)) eqn:Hc; [|done]. simplify_eq.
    iApply (wp_id_found (Collected false (Some kb) i cs ct ch) with "[-]"); [done..|]. iSplitR "HQ"; [|iExact "HQ"].
    iExists id, key, al, n, p. simpl. iFrame.
  - destruct (String.eqb k "body"); [done|]. simplify_eq.
    iApply wp_refuse. iFrame "H". iIntros (w' Hw) "H". iApply ("HQ" with "[//]").
    iExists id, key, al, n, p. simpl. iFrame.
Qed.

Lemma wp_integer_found c v c' es ok w Q :
  report_integer b c v = Some (c', es, ok) →
  collector c ∗ (∀ w', ⟦ evolves w es w' ⟧ -∗ collector c' -∗ Q ok w')
  ⊢ wp (integer_found (Some jp) v) w Q.
Proof using Hburrow.
  iIntros (Hrep) "[(%id & %key & %al & %n & %p & Hj & Ha & Hid & Hkey & H) HQ]". destruct c as [ik ck i cs ct ch].
  unfold integer_found.
  wload "Hj". unfold report_integer in Hrep. simpl in Hrep. destruct ik.
  2: { simplify_eq. wret. iApply ("HQ" with "[%]"); [auto with world|]. iExists id, key, al, n, p. iFrame. }
  wmodify "Hj". destruct ck as [kb|]; [|done].
  change (Some kb ≫= text_of) with (text_of kb) in Hrep. destruct (text_of kb) as [k|] eqn:Hkt; [|done].
  cbv beta iota delta [mbind option_bind] in Hrep.
  wp_focus. iApply wp_load_key; [done|]. iFrame "Hkey". iIntros "Hkey".
  destruct (String.eqb k "hide"); [|destruct (String.eqb k "ttl")]; simplify_eq.
  1: unfold burrow_attributes_set_hide.
  2: unfold burrow_attributes_set_ttl.
  1,2: wmodify "Ha"; wmodify "Ha"; wret; iApply ("HQ" with "[%]"); [auto with world|];
    iExists id, key, al, n, p; simpl; iFrame.
  iApply wp_refuse. iFrame "H". iIntros (w' Hw) "H". iApply ("HQ" with "[//]").
  iExists id, key, al, n, p. simpl. iFrame.
Qed.
(** The message is handed over, and its id let go of. *)
Lemma wp_text_or_null p id w Q :
  (∀ x, id = Some x → text_of (with_terminator x) = Some x) →
  maybe p (with_terminator <$> id) ∗ (maybe p (with_terminator <$> id) -∗ Q id w)
  ⊢ wp (text_or_null p) w Q.
Proof.
  iIntros (Hid) "[Hm HQ]". unfold text_or_null.
  destruct p as [l|], id as [x|]; simpl; try by iDestruct "Hm" as %[].
  - wp_focus. iApply (wp_load_key (Some l)); [by apply Hid|]. iFrame "Hm". iIntros "Hm". wret. by iApply "HQ".
  - wret. by iApply "HQ".
Qed.

Lemma wp_object_end c w Q :
  collector c ∗
  (∀ w', ⟦ evolves w (when_set (b_message_fn b)
             (EvMessage (co_id c) None 0 (co_set c) (co_ttl c) (co_hide c))) w' ⟧ -∗
     collector (c <| co_id := None |> <| co_set := BURROW_ATTRIBUTES_NONE |>) -∗ Q true w')
  ⊢ wp (object_end (Some jp)) w Q.
Proof using Hburrow.
  iIntros "[(%id & %key & %al & %n & %p & Hj & Ha & [Hid %Hok] & Hkey & H) HQ]".
  destruct c as [ik ck i cs ct ch]. unfold object_end. wload "Hj".
  wp_focus. iApply wp_get_burrow. iFrame "H". iIntros "[Hs Hb]".
  wp_focus. iApply wp_text_or_null; [exact Hok|]. iFrame "Hid". iIntros "Hid".
  wret. unfold message_callback. simpl. wp_focus. wload "Ha".
  iApply wp_callback_message. iFrame "Hb". iIntros (w' Hw) "Hb". wload "Hj".
  iAssert (∀ Q' : unit → world → hPropI, jp ↦{Libc} processing (Collected ik ck i cs ct ch) id key al -∗
    maybe id (with_terminator <$> i) -∗
    (jp ↦{Libc} processing (Collected ik ck i cs ct ch) NULL key al -∗ Q' tt w') -∗
    wp (if is_null id then mret tt else
        release Libc id;; modify (Some jp) (λ j, j <| jp_message_id := NULL |>)) w' Q')%I as "Hfree".
  { iIntros (Q') "Hj Hid HQ". destruct id as [l|], i as [x|]; simpl; try by iDestruct "Hid" as %[].
    - wp_focus. iApply (wp_release (T := bytes)). iFrame "Hid". iApply wp_modify. iFrame "Hj". iExact "HQ".
    - wret. by iApply "HQ". }
  wp_focus. iApply ("Hfree" with "Hj Hid"). iIntros "Hj". wload "Hj". wret. wmodify "Hj". wload "Hj".
  unfold burrow_attributes_unset_all. wmodify "Ha". wret. iApply ("HQ" with "[//]").
  iExists NULL, key, al, n, p. iFrame. by iSplitR.
Qed.

Lemma wp_attributes_reset al (a : burrow_attributes_st) w Q :
  al ↦{Libc} a ∗ (∀ n p, al ↦{Libc} Attributes BURROW_ATTRIBUTES_NONE 0 0 NULL n p -∗ Q (Some al) w)
  ⊢ wp (burrow_attributes_create (Some al) NULL) w Q.
Proof.
  iIntros "[Ha HQ]". unfold burrow_attributes_create, managed_create. simpl. wret.
  do 3 wmodify "Ha". wret. do 3 wmodify "Ha". wret. by iApply "HQ".
Qed.

Lemma wp_unexpected_type c c' es ok w Q :
  unexpected b c = Some (c', es, ok) →
  collector c ∗ (∀ w', ⟦ evolves w es w' ⟧ -∗ collector c' -∗ Q ok w')
  ⊢ wp (unexpected_type (Some jp)) w Q.
Proof using Hburrow.
  iIntros ([= <- <- <-]) "[(%id & %key & %al & %n & %p & Hj & Ha & Hid & Hkey & H) HQ]".
  unfold unexpected_type. wload "Hj". iApply wp_refuse. iFrame "H". iIntros (w' Hw) "H".
  iApply ("HQ" with "[//]"). iExists id, key, al, n, p. iFrame.
Qed.

Lemma wp_message_token c ty v c' es ok w Q :
  report_message b unescape c (ty, v) = Some (c', es, ok) → reliable w →
  collector c ∗ (∀ w', ⟦ evolves w es w' ⟧ -∗ collector c' -∗ Q ok w')
  ⊢ wp (message_token (Some jp) ty v) w Q.
Proof using All.
  iIntros (Hrep Hr) "[H HQ]". unfold message_token.
  destruct ty; try (iApply wp_unexpected_type; [exact Hrep|iFrame]; done).
  - simplify_eq/=. wret. iApply ("HQ" with "[%] H"). auto with world.
  - simplify_eq/=. wret. iApply ("HQ" with "[%] H"). auto with world.
  - simplify_eq/=. iDestruct "H" as "(%id & %key & %al & %n & %p & Hj & Ha & Hid & Hkey & H)".
    wload "Hj". wp_focus. iApply wp_attributes_reset. iFrame "Ha". iIntros (n' p') "Ha". wmodify "Hj". wret.
    iApply ("HQ" with "[%]"); [auto with world|]. iExists id, key, al, n', p'. iFrame.
  - simplify_eq/=. iApply wp_object_end. iFrame.
  - destruct v; try discriminate Hrep. by iApply wp_integer_found; [|iFrame].
  - destruct v; try discriminate Hrep. by iApply wp_string_found; [| |iFrame].
  - destruct v; try discriminate Hrep. simpl in Hrep. destruct (fitting _ _) eqn:Hf; [|done]. simplify_eq.
    by iApply wp_key_found; [| |iFrame].
Qed.

Lemma wp_list_token c ty v c' es ok w Q :
  cmd_command (b_cmd b) = BURROW_CMD_GET_ACCOUNTS ∨ cmd_command (b_cmd b) = BURROW_CMD_GET_QUEUES →
  report_list b unescape (cmd_command (b_cmd b)) c (ty, v) = Some (c', es, ok) →
  collector c ∗ (∀ w', ⟦ evolves w es w' ⟧ -∗ collector c' -∗ Q ok w')
  ⊢ wp (list_token (Some jp) (cmd_command (b_cmd b)) ty v) w Q.
Proof using All.
  iIntros (Hcmd Hrep) "[H HQ]". unfold list_token.
  destruct ty; try (iApply wp_unexpected_type; [exact Hrep|iFrame]; done).
  - simplify_eq/=. wret. iApply ("HQ" with "[%] H"). auto with world.
  - simplify_eq/=. wret. iApply ("HQ" with "[%] H"). auto with world.
  - destruct v as [| | |v len]; try discriminate Hrep. simpl in Hrep.
    destruct (text_of v) as [x|] eqn:Hx; cbv beta iota delta [mbind option_bind] in Hrep; [|done]. simplify_eq.
    iDestruct "H" as "(%id & %key & %al & %n & %p & Hj & Ha & Hid & Hkey & H)".
    wload "Hj". wp_focus. iApply wp_get_handle. iFrame "H". iIntros "H". wp_focus.
    iApply wp_get_text; [done|]. wp_focus. iApply wp_curl_easy_unescape. iIntros (w1 Hw1).
    wp_focus. iApply wp_get_burrow. iFrame "H". iIntros "[Hs Hb]".
    destruct Hcmd as [-> | ->]; simpl; wp_focus;
      [iApply wp_callback_account|iApply wp_callback_queue]; iFrame "Hb"; iIntros (w2 Hw2) "Hb"; wret;
      (iApply ("HQ" with "[%]"); [auto with world|iExists id, key, al, n, p; iFrame]).
Qed.

Lemma wp_json_callback c ty v c' es ok w Q :
  report_token b unescape c (ty, v) = Some (c', es, ok) → reliable w →
  collector c ∗ (∀ w', ⟦ evolves w es w' ⟧ -∗ collector c' -∗ Q ok w')
  ⊢ wp (burrow_backend_http_json_callback (Some jp) ty v) w Q.
Proof using All.
  iIntros (Hrep Hr) "[H HQ]". unfold burrow_backend_http_json_callback.
  iDestruct "H" as "(%id & %key & %al & %n & %p & Hj & Ha & Hid & Hkey & H)".
  wload "Hj". wp_focus. iApply wp_get_command. iFrame "H". iIntros "H".
  iAssert (collector c) with "[-HQ]" as "H"; [iExists id, key, al, n, p; iFrame|].
  unfold report_token in Hrep.
  destruct (cmd_command (b_cmd b)) eqn:Hc;
    try (iApply wp_message_token; [exact Hrep|done|iFrame]; done);
    try (iEval (rw -Hc); iApply wp_list_token; [auto|by rw Hc|iFrame]; done);
    (simplify_eq; wret; iApply ("HQ" with "[%] H"); auto with world).
Qed.

(** ** The callback as a client of the parser *)

Context (w0 : world).

(** The tokens so far have been taken, or the last of them refused. *)
Definition told (ok : bool) (ts : list token) (w : world) : hPropI :=
  (∃ c es, ⟦ deliver b unescape nothing_collected ts = Some (c, es, ok) ∧ evolves w0 es w ∧ reliable w ⟧ ∗
     collector c)%I.
Definition heard : list token → world → hPropI := told true.
Definition balked : list token → world → hPropI := told false.

(** A token whose effect is defined, after those before. *)
Definition expected (ts : list token) (tok : token) : Prop :=
  ∀ c es, deliver b unescape nothing_collected ts = Some (c, es, true) → is_Some (report_token b unescape c tok).

Lemma deliver_snoc ts tok c es c' es' ok :
  deliver b unescape nothing_collected ts = Some (c, es, true) → report_token b unescape c tok = Some (c', es', ok) →
  deliver b unescape nothing_collected (ts ++ [tok]) = Some (c', es ++ es', ok).
Proof.
  intros Hd Hr. rw (deliver_app _ _ _ _ _ _ _ Hd) /= Hr. destruct ok; [by rw app_nil_r|done].
Qed.

(** Tokens that can be delivered are expected. *)
Lemma all_expected ts ts' :
  is_Some (deliver b unescape nothing_collected (ts ++ ts')) → all_allowed expected ts ts'.
Proof.
  revert ts. induction ts' as [|tok ts' IH]; intros ts Hd; simpl; [done|]. split.
  - intros c es Hts. apply (f_equal (λ r, r)) in Hts. rw (deliver_app _ _ _ _ _ _ _ Hts) /= in Hd.
    destruct (report_token b unescape c tok); [done|by destruct Hd].
  - apply IH. by rw -(assoc_L (++)).
Qed.

Lemma json_callback_client :
  TokenClient burrow_backend_http_json_callback (Some jp) heard balked expected.
Proof using All.
  split.
  - iIntros (ts w w' Hw) "(%c & %es & (%Hd & %He & %Hr) & H)". iExists c, es. iFrame. iPureIntro.
    split_and!; [done| |by apply (reliable_evolves _ _ _ Hw)]. rw -(app_nil_r es). by eapply evolves_trans.
  - iIntros (ts ty v w Q Hex) "[(%c & %es & (%Hd & %He & %Hr) & H) HQ]".
    destruct (Hex _ _ Hd) as [[[c' es'] ok] Hrep].
    iApply wp_json_callback; [done..|]. iFrame "H". iIntros (w' Hw) "H".
    assert (evolves w0 (es ++ es') w') as Hw' by (by eapply evolves_trans).
    assert (reliable w') as Hr' by (by apply (reliable_evolves _ _ _ Hw)).
    pose proof (deliver_snoc _ _ _ _ _ _ _ Hd Hrep) as Hd'.
    destruct ok; [iDestruct "HQ" as "[HQ _]"|iDestruct "HQ" as "[_ HQ]"];
      (iApply ("HQ" with "[%]"); [by eexists|]; iExists c', (es ++ es'); by iFrame).
Qed.
End client.

(** ** Creation and destruction *)

Section life.
Context {curl : Libcurl} (sl bl : loc) (so bo : owner) (s : burrow_backend_st) (b : burrow_st).

Abbreviation http := (http sl bl so bo s b).
Abbreviation collector jp := (collector sl bl jp so bo s b).

Lemma wp_json_st_create w Q :
  reliable w →
  http ∗ (∀ jp w', ⟦ evolves w [] w' ⟧ -∗ collector jp nothing_collected -∗ Q (Some jp) w')
  ⊢ wp (burrow_easy_json_st_create (Some sl)) w Q.
Proof.
  iIntros (Hr) "[H HQ]". unfold burrow_easy_json_st_create. wp_focus. iApply wp_malloc_reliable; [done|].
  iIntros (jp j w1 Hw1) "Hj". simpl. do 6 wmodify "Hj". wp_focus.
  unfold burrow_attributes_create, managed_create. simpl. wp_focus.
  iApply wp_malloc_reliable; [by eapply reliable_evolves|]. iIntros (al j2 w2 Hw2) "Ha". simpl.
  do 3 wmodify "Ha". wret. do 3 wmodify "Ha". wret. wmodify "Hj". wret.
  iApply ("HQ" with "[%]"); [auto with world|]. iExists NULL, NULL, al, _, _. iFrame. by iSplitR.
Qed.

Lemma wp_json_st_destroy jp c w Q :
  collector jp c ∗ (http -∗ Q tt w) ⊢ wp (burrow_easy_json_st_destroy (Some jp)) w Q.
Proof.
  iIntros "[(%id & %key & %al & %n & %p & Hj & Ha & [Hid _] & Hkey & H) HQ]".
  unfold burrow_easy_json_st_destroy. wload "Hj". wret. wload "Hj". iApply wp_free_maybe. iFrame "Hid".
  wload "Hj". iApply wp_free_maybe. iFrame "Hkey". wload "Hj".
  unfold burrow_attributes_destroy, managed_destroy. simpl. wload "Ha".
  wp_focus. iApply (wp_release (T := burrow_attributes_st)). iFrame "Ha".
  iApply (wp_release (T := json_processing_st)). iFrame "Hj". by iApply "HQ".
Qed.
End life.
