(* ===== verification/JsonParseSpec.v ===== *)
(** burrow_backend_http_parse_json against the reference of JsonReport.v. *)
From S2P Require Import Prelude JsonData Types Heap Macros UserBuffer JsonParser JsonProcessing JsonMachine JsonFacts JsonReport Logic MacrosSpec DictionarySpec UserBufferSpec JsonSpec JsonCharSpec JsonTextSpec JsonReportSpec.
From iris.proofmode Require Import proofmode.

(** The configuration of burrow_backend_http_parse_json. *)
Definition parse_config (ctx : ptr) : JSON_config :=
  (init_JSON_config default_config) <| cf_depth := 19%Z |> <| cf_callback := Some 1%positive |>
    <| cf_callback_ctx := ctx |> <| cf_allow_comments := 1%Z |> <| cf_handle_floats_manually := 0%Z |>.

(** ** A whole text *)

Section parse_json.
Context {curl : Libcurl} (unescape : string → string) `{!Unescapes curl unescape}.
Context (sl bl : loc) (so bo : owner) (s : burrow_backend_st) (b : burrow_st) (handle : positive).

Abbreviation http := (http sl bl so bo s b).
Abbreviation collector jp := (collector sl bl jp so bo s b).

(** What is never freed when the text is refused. *)
Definition leaked (point : Ascii.ascii) : hPropI :=
  (∃ jl jp c, husk jl libc_functions (json_options point) (Some jp) 1 ∗ collector jp c)%I.

Lemma collector_http jp c : collector jp c ⊢ http ∗ (http -∗ collector jp c).
Proof.
  iIntros "(%id & %key & %al & %n & %p & Hj & Ha & Hid & Hkey & $) H".
  iExists id, key, al, n, p. iFrame.
Qed.

(** A complaint through the backend's burrow, before [k]. *)
Lemma wp_complain {B} (k : M B) err msg jp c w Q :
  hb_burrow s = Some bl →
  collector jp c ∗ (∀ w', ⟦ evolves w (complain b msg) w' ⟧ -∗ collector jp c -∗ wp k w' Q)
  ⊢ wp (burrow ← burrow_backend_http_get_burrow (Some sl); burrow_error burrow err msg;; k) w Q.
Proof.
  iIntros (Hb) "[H HQ]". iDestruct (collector_http with "H") as "[H Hc]". wp_focus.
  iApply (wp_get_burrow sl bl so bo s b Hb). iFrame "H". iIntros "[Hs Hb]". wp_focus. unfold burrow_error.
  iApply wp_log_at. iFrame "Hb". iIntros (w' Hw) "Hb". iApply ("HQ" with "[//]"). iApply "Hc". iFrame.
Qed.

(** Both are freed. *)
Lemma wp_free_both {B} (k : M B) jl F o ctx cb jp c w Q :
  husk jl F o ctx cb ∗ collector jp c ∗ (http -∗ wp k w Q)
  ⊢ wp (delete_JSON_parser (Some jl);; burrow_easy_json_st_destroy (Some jp);; k) w Q.
Proof.
  iIntros "(Hh & Hc & HQ)". wp_focus. iApply wp_delete_JSON_parser. iFrame "Hh".
  wp_focus. iApply wp_json_st_destroy. iFrame.
Qed.

Lemma json_depth_ok point : depth_ok (json_options point).
Proof. split; apply Nat.leb_le; reflexivity. Qed.
Lemma parse_config_depth ctx : (1 ≤ cf_depth (parse_config ctx) < Z.of_nat JSON_PARSER_STACK_SIZE)%Z.
Proof. split; [|reflexivity]. by apply Z.leb_le. Qed.

(** After the characters have been read. *)
Lemma wp_after_feed jl jp o w v c es r es' freed ok w1 :
  hb_burrow s = Some bl → deliver b unescape nothing_collected (tokens_of v) = Some (c, es, ok) →
  (match v, ok with
   | Goes a _, true =>
       if complete a then Some (0%Z, es, true)
       else Some (EINVAL, es ++ complain b "WARNING! JSON_parser_end indicates JSON syntax error\n", true)
   | _, _ => Some (EINVAL, es ++ complain b "WARNING! JSON_parser_char (%d) at byte %d (%d = '%c')\n", false)
   end) = Some (r, es', freed) → depth_ok o → v ≠ Abort_assert →
  ∀ taken,
  outcome jl libc_functions o (Some jp) 1 (heard unescape sl bl jp so bo s b w) (balked unescape sl bl jp so bo s b w)
    [] v taken w1
  ⊢ wp (if negb taken then
          burrow ← burrow_backend_http_get_burrow (Some sl);
          burrow_error burrow EINVAL "WARNING! JSON_parser_char (%d) at byte %d (%d = '%c')\n";;
          mret EINVAL
        else
        done ← JSON_parser_done (Some jl);
        if negb done then
          burrow ← burrow_backend_http_get_burrow (Some sl);
          burrow_error burrow EINVAL "WARNING! JSON_parser_end indicates JSON syntax error\n";;
          delete_JSON_parser (Some jl);;
          burrow_easy_json_st_destroy (Some jp);;
          mret EINVAL
        else
        delete_JSON_parser (Some jl);;
        burrow_easy_json_st_destroy (Some jp);;
        mret 0%Z) w1
    (λ r' w', ⟦ r' = r ∧ evolves w es' w' ⟧ ∗
       if (freed : bool) then http
       else ∃ jl jp c, husk jl libc_functions o (Some jp) 1 ∗ collector jp c)%I.
Proof.
  iIntros (Hb Hd Hres Ho Hna taken) "H". destruct taken; simpl.
  - iDestruct "H" as (a ts -> ) "[Hp (%c1 & %es1 & (%Hd1 & %He & %Hr) & Hc)]".
    simpl in Hd, Hd1. rw Hd in Hd1. simplify_eq. wp_focus. iApply (wp_JSON_parser_done jl _ o Ho).
    iFrame "Hp". iIntros "Hh". destruct (complete a); simplify_eq; simpl.
    + iApply wp_free_both. iFrame. iIntros "H". wret. by iFrame.
    + iApply wp_complain; [done|]. iFrame "Hc". iIntros (w2 Hw2) "Hc". iApply wp_free_both. iFrame.
      iIntros "H". wret. iFrame. iPureIntro. split; [done|]. by eapply evolves_trans.
  - iAssert (∃ c1, ⟦ evolves w es w1 ∧ freed = false ∧ r = EINVAL ∧
        es' = es ++ complain b "WARNING! JSON_parser_char (%d) at byte %d (%d = '%c')\n" ⟧ ∗
        husk jl libc_functions o (Some jp) 1 ∗ collector jp c1)%I with "[H]" as (c1 (He & -> & -> & ->)) "[Hh Hc]".
    + iDestruct "H" as "[$ [(%ts & -> & (%c1 & %es1 & (%Hd1 & %He & %Hr) & Hc))|(%ts1 & [%ts2 %Hp] & (%c1 & %es1 & (%Hd1 & %He & %Hr) & Hc))]]".
      * simpl in Hd, Hd1. rw Hd in Hd1. simplify_eq. iExists c1. by iFrame.
      * simpl in Hd1. rw Hp (deliver_refused _ _ _ _ _ _ _ Hd1) in Hd. simplify_eq.
        iExists c. iFrame. iPureIntro. destruct v; simplify_eq; by split_and!.
    + iApply wp_complain; [done|]. iFrame "Hc". iIntros (w2 Hw2) "Hc". wret. iSplitR.
      * iPureIntro. split; [done|]. by eapply evolves_trans.
      * iExists jl, jp, c1. iFrame.
Qed.

(** The text is [size] characters long: all of [text], or a part of it. *)
Lemma wp_parse_json point text size r es freed w :
  hb_burrow s = Some bl → hb_chandle s = Some handle → reliable w →
  (0 ≤ size < 2147483648)%Z → (size ≤ Z.of_nat (length text))%Z →
  parse_result b unescape (json_options point) (signed_char <$> take (Z.to_nat size) text) = Some (r, es, freed) →
  http ⊢ wp (burrow_backend_http_parse_json point (Some sl) text size) w
    (λ r' w', ⟦ r' = r ∧ evolves w es w' ⟧ ∗ if (freed : bool) then http else leaked point)%I.
Proof using All.
  intros Hb Hh Hr Hsize Hlen Hres. iIntros "H".
  assert (i32 size = size) as Hi by (unfold i32; rw Z.mod_small; lia).
  set (cs := take (Z.to_nat size) text) in *.
  assert (length cs = Z.to_nat size) as Hcs by (unfold cs; rw length_take; lia).
  unfold parse_result in Hres. set (v := run _ machine_start _) in *.
  assert (v ≠ Abort_assert) as Hna by (intros E; by rw E in Hres).
  destruct (deliver b unescape nothing_collected (tokens_of v)) as [[[c es'] ok]|] eqn:Hd; [|by destruct v].
  unfold burrow_backend_http_parse_json. wp_focus. iApply wp_json_st_create; [done|]. iFrame "H".
  iIntros (jp w1 Hw1) "H".
  change (new_JSON_parser point (Some _)) with (new_JSON_parser point (Some (parse_config (Some jp)))).
  assert (reliable w1) as Hr1 by (by eapply reliable_evolves).
  wp_focus. iApply (wp_new_JSON_parser libc_functions point _ (parse_config_depth (Some jp)) 1); [done..|].
  rw reliable_ok //. iIntros (jl) "Hp". change (cf_callback_ctx (parse_config _)) with (Some jp).
  change (options_of point (parse_config _)) with (json_options point).
  wp_focus. rw Hi -Hcs -{1}(take_drop (Z.to_nat size) text) -/cs.
  pose proof (json_callback_client unescape sl bl jp so bo s b handle Hb Hh w) as Hclient.
  iApply (wp_wand with "[Hp H]").
  { iApply (feed_rule jl libc_functions (json_options point) (json_depth_ok point) (Some jp) 1 _ _ _ cs
      (drop (Z.to_nat size) text) machine_start [] with "[$Hp H]"); [done| |done| |].
    - unfold room. simpl. lia.
    - apply all_expected. eexists. exact Hd.
    - iExists nothing_collected, []. iFrame. iPureIntro. split_and!; [done| |done].
      by apply (evolves_trans w [] w1 [] _ Hw1), evolves_tick. }
  iIntros (taken w2) "[_ H]". fold v. clearbody v. iApply (wp_after_feed with "H"); [done|exact Hd| |apply json_depth_ok|done].
  by destruct v; [destruct ok| |].
Qed.
End parse_json.
