(* ===== verification/CurlSpec.v ===== *)
(** What is relied on of libcurl: the class [CurlLaws], from its documentation. *)
From S2P Require Import Prelude JsonData CurlData Types Heap Macros UserBuffer JsonParser JsonProcessing CurlBackend HttpProtocol Logic MacrosSpec DictionarySpec UserBufferSpec JsonReportSpec.
From iris.proofmode Require Import proofmode.

(** ** The callbacks libcurl makes

    They follow from the options; a later one replaces an earlier one. *)
Definition last_of {A} (get : CURLoption → option A) (opts : list CURLoption) : option A :=
  last (omap get opts).
Definition write_data (opts : list CURLoption) : option ptr :=
  last_of (λ o, match o with CURLOPT_WRITEDATA p => Some p | _ => None end) opts.
Definition read_data (opts : list CURLoption) : option ptr :=
  last_of (λ o, match o with CURLOPT_READDATA p => Some p | _ => None end) opts.
Definition debug_data (opts : list CURLoption) : option ptr :=
  last_of (λ o, match o with CURLOPT_DEBUGDATA p => Some p | _ => None end) opts.
Definition write_function (opts : list CURLoption) : option curl_function :=
  last_of (λ o, match o with CURLOPT_WRITEFUNCTION f => Some f | _ => None end) opts.
Definition read_function (opts : list CURLoption) : option curl_function :=
  last_of (λ o, match o with CURLOPT_READFUNCTION f => Some f | _ => None end) opts.
Definition debug_function (opts : list CURLoption) : option curl_function :=
  last_of (λ o, match o with CURLOPT_DEBUGFUNCTION f => Some f | _ => None end) opts.
Definition verbose (opts : list CURLoption) : bool :=
  default false (last_of (λ o, match o with CURLOPT_VERBOSE on => Some on | _ => None end) opts).

(** Data that has come in is written, to standard output when there is no function
    for it: whether all of it was taken. *)
Definition on_recv (opts : list CURLoption) (data : bytes) : M bool :=
  match write_function opts with
  | Some fn_user_buffer_curl_write_function =>
      n ← user_buffer_curl_write_function data 1 (Z.of_nat (length data)) (default NULL (write_data opts));
      mret (bool_decide (n = Z.of_nat (length data)))
  | Some _ => undefined WrongType
  | None => mret true
  end.

(** Data to send is read into memory of libcurl's, from standard input when there
    is no function for it. *)
Definition on_send (opts : list CURLoption) (room : nat) : M bytes :=
  match read_function opts with
  | Some fn_user_buffer_curl_read_function =>
      dst ← alloc Caller (replicate room Ascii.zero);
      n ← user_buffer_curl_read_function dst 1 (Z.of_nat room) (default NULL (read_data opts));
      data ← load dst;
      release Caller dst;;
      mret (take (Z.to_nat n) data)
  | Some fn_user_buffer_curl_read_nothing_function =>
      n ← user_buffer_curl_read_nothing_function NULL 1 (Z.of_nat room) (default NULL (read_data opts));
      mret []
  | Some _ => undefined WrongType
  | None => mret []
  end.

Definition on_info (opts : list CURLoption) (type : curl_infotype) (text : bytes) : M unit :=
  if verbose opts then
    match debug_function opts with
    | Some fn_burrow_backend_http_curldebug =>
        burrow_backend_http_curldebug NULL type text (Z.of_nat (length text)) (default NULL (debug_data opts));;
        mret tt
    | Some _ => undefined WrongType
    | None => mret tt
    end
  else mret tt.

(** What has been sent, and whether everything that came in was taken. *)
Fixpoint run_callbacks (opts : list CURLoption) (ios : list io) : M (bytes * bool) :=
  match ios with
  | [] => mret ([], true)
  | Recv data :: ios =>
      ok ← on_recv opts data;
      if (ok : bool) then run_callbacks opts ios else mret ([], false)
  | Send room :: ios =>
      sent ← on_send opts room;
      r ← run_callbacks opts ios;
      mret (sent ++ r.1, r.2)
  | Info type text :: ios =>
      on_info opts type text;;
      run_callbacks opts ios
  end.

(** A transfer after a step, with what [curl_multi_perform] answers: the code, and
    how many transfers still run. *)
Definition performed (t : transfer) (st : step) (steps : list step) (r : bytes * bool) : transfer * (Z * Z) :=
  let t := t <| tr_sent := tr_sent t ++ r.1 |> in
  let ended code := (t <| tr_steps := [] |> <| tr_results := tr_results t ++ [code] |>, (CURLM_OK, 0%Z)) in
  if r.2 then
    match st_verdict st with
    | Again => (t <| tr_steps := steps |>, (CURLM_CALL_MULTI_PERFORM, 1%Z))
    | Running f => (t <| tr_steps := steps |> <| tr_waits := f |>, (CURLM_OK, 1%Z))
    | Ended code => ended code
    | Broken code => (t <| tr_steps := steps |>, (code, 1%Z))
    end
  else ended CURLE_WRITE_ERROR.

Definition no_waits : fdsets := FdSets [] [] [] (-1).
Definition fresh_transfer (steps : list step) : transfer := Transfer steps [] [] no_waits.

(** Easy and multi handles belong to libcurl: [easy] and [multi] stand for them. A
    multi handle that drives an easy handle has that one's too. How the server
    goes about a request is [server]. Memory does not run out. *)
Class CurlLaws (curl : LibcurlMulti) (escape unescape : string → string) (server : request → list step) := {
  laws_unescapes :: Unescapes multi_libcurl unescape;
  easy : positive → list CURLoption → hPropI;
  multi : positive → option (positive * list CURLoption * transfer) → hPropI;
  wp_curl_easy_escape h s w Q : reliable w →
    (∀ w', ⟦ evolves w [] w' ⟧ -∗ Q (Some (escape s)) w') ⊢ wp (curl_easy_escape h (Some s)) w Q;
  wp_curl_easy_init w Q : reliable w →
    (∀ h w', ⟦ evolves w [] w' ⟧ -∗ easy h [] -∗ Q (Some h) w') ⊢ wp curl_easy_init w Q;
  wp_curl_easy_setopt h opts o w Q : reliable w →
    easy h opts ∗ (∀ r w', ⟦ evolves w [] w' ⟧ -∗ easy h (opts ++ [o]) -∗ Q r w')
    ⊢ wp (curl_easy_setopt (Some h) o) w Q;
  wp_curl_easy_cleanup h opts w Q :
    easy h opts ∗ (∀ w', ⟦ evolves w [] w' ⟧ -∗ Q tt w') ⊢ wp (curl_easy_cleanup (Some h)) w Q;
  wp_curl_multi_init w Q : reliable w →
    (∀ m w', ⟦ evolves w [] w' ⟧ -∗ multi m None -∗ Q (Some m) w') ⊢ wp curl_multi_init w Q;
  wp_curl_multi_cleanup m w Q :
    multi m None ∗ (∀ r w', ⟦ evolves w [] w' ⟧ -∗ Q r w') ⊢ wp (curl_multi_cleanup (Some m)) w Q;
  wp_curl_multi_add_handle m h opts w Q : reliable w →
    multi m None ∗ easy h opts ∗
    (∀ r w', ⟦ evolves w [] w' ⟧ -∗
       multi m (Some (h, opts, fresh_transfer (server (request_of opts)))) -∗ Q r w')
    ⊢ wp (curl_multi_add_handle (Some m) (Some h)) w Q;
  multi_exclusive m h opts t h' opts' : multi m (Some (h, opts, t)) ∗ easy h' opts' ⊢ ⌜h ≠ h'⌝;
  wp_curl_multi_remove_handle m h opts t w Q :
    multi m (Some (h, opts, t)) ∗
    (∀ r w', ⟦ evolves w [] w' ⟧ -∗ multi m None -∗ easy h opts -∗ Q r w')
    ⊢ wp (curl_multi_remove_handle (Some m) (Some h)) w Q;
  wp_curl_multi_perform m h opts t st steps w Q : tr_steps t = st :: steps →
    multi m (Some (h, opts, t)) ∗
    wp (run_callbacks opts (st_io st)) w (λ r w1, ∀ w', ⟦ evolves w1 [] w' ⟧ -∗
       multi m (Some (h, opts, (performed t st steps r).1)) -∗ Q (performed t st steps r).2 w')
    ⊢ wp (curl_multi_perform (Some m)) w Q;
  wp_curl_multi_perform_idle m h opts t w Q : tr_steps t = [] →
    multi m (Some (h, opts, t)) ∗
    (∀ w', ⟦ evolves w [] w' ⟧ -∗ multi m (Some (h, opts, t)) -∗ Q (CURLM_OK, 0%Z) w')
    ⊢ wp (curl_multi_perform (Some m)) w Q;
  wp_curl_multi_info_read m h opts t w Q :
    multi m (Some (h, opts, t)) ∗
    (∀ w', ⟦ evolves w [] w' ⟧ -∗ multi m (Some (h, opts, t <| tr_results := tail (tr_results t) |>)) -∗
       Q (head (tr_results t)) w')
    ⊢ wp (curl_multi_info_read (Some m)) w Q;
  wp_curl_multi_fdset m h opts t w Q :
    multi m (Some (h, opts, t)) ∗
    (∀ w', ⟦ evolves w [] w' ⟧ -∗ multi m (Some (h, opts, t)) -∗ Q (tr_waits t) w')
    ⊢ wp (curl_multi_fdset (Some m)) w Q }.
