(* ===== verification/CurlSample.v ===== *)
(** A libcurl to run the library with: its handles are blocks of the heap, its
    percent encoding escapes what is not a letter or a digit, and how a server
    goes about a request is a parameter. It has the laws of CurlSpec.v. *)
From S2P Require Import Prelude JsonData CurlData Types Heap Macros UserBuffer JsonParser JsonProcessing CurlBackend HttpProtocol Logic MacrosSpec DictionarySpec UserBufferSpec JsonReportSpec CurlSpec.
From iris.proofmode Require Import proofmode.

(** ** Percent encoding *)

Definition hex_digit (n : nat) : Ascii.ascii :=
  Ascii.ascii_of_nat (if n <? 10 then 48 + n else 55 + n).
Definition unreserved (c : Ascii.ascii) : bool :=
  let n := Ascii.nat_of_ascii c in
  ((48 <=? n) && (n <=? 57)) || ((65 <=? n) && (n <=? 90)) || ((97 <=? n) && (n <=? 122)).
Fixpoint percent_encode (s : string) : string :=
  match s with
  | EmptyString => EmptyString
  | String c s =>
      if unreserved c then String c (percent_encode s) else
      let n := Ascii.nat_of_ascii c in
      String (Ascii.ascii_of_nat 37) (String (hex_digit (n / 16)) (String (hex_digit (n mod 16)) (percent_encode s)))
  end.

(** Percent escapes resolved. *)
Fixpoint percent_decode (s : string) : string :=
  match s with
  | EmptyString => EmptyString
  | String c s' =>
      match s' with
      | String h (String l rest) =>
          if Ascii.eqb c (to_char 37)
          then String (to_char (hex_value h * 16 + hex_value l)) (percent_decode rest)
          else String c (percent_decode s')
      | _ => String c (percent_decode s')
      end
  end.

(** ** Handles as blocks *)

Section sample.
Context (server : request → list step).

Definition sample_setopt (h : ptr) (o : CURLoption) : M Z :=
  c ← load h;
  match c with
  | CurlEasy opts => store h (CurlEasy (opts ++ [o]));; mret 0%Z
  | _ => undefined WrongType
  end.

Definition sample_add (m h : ptr) : M Z :=
  c ← load h;
  match c, h with
  | CurlEasy opts, Some l => store m (CurlMulti (Some (l, fresh_transfer (server (request_of opts)))));; mret 0%Z
  | _, _ => undefined WrongType
  end.

(** What a multi handle drives: the easy handle, its options and its transfer. *)
Definition driven (m : ptr) : M (option (positive * list CURLoption * transfer)) :=
  c ← load m;
  match c with
  | CurlMulti None => mret None
  | CurlMulti (Some (h, t)) =>
      e ← load (Some h);
      match e with CurlEasy opts => mret (Some (h, opts, t)) | _ => undefined WrongType end
  | _ => undefined WrongType
  end.

Definition sample_perform (m : ptr) : M (Z * Z) :=
  d ← driven m;
  match d with
  | None => mret (CURLM_OK, 0%Z)
  | Some (h, opts, t) =>
      match tr_steps t with
      | [] => mret (CURLM_OK, 0%Z)
      | st :: steps =>
          r ← run_callbacks opts (st_io st);
          store m (CurlMulti (Some (h, (performed t st steps r).1)));;
          mret (performed t st steps r).2
      end
  end.

Definition sample_info_read (m : ptr) : M (option Z) :=
  d ← driven m;
  match d with
  | None => mret None
  | Some (h, opts, t) =>
      store m (CurlMulti (Some (h, t <| tr_results := tail (tr_results t) |>)));;
      mret (head (tr_results t))
  end.

Definition sample_fdset (m : ptr) : M fdsets :=
  d ← driven m; mret (match d with Some (_, _, t) => tr_waits t | None => no_waits end).

Definition sample_libcurl : LibcurlMulti := {|
  multi_libcurl := {| curl_easy_init := alloc Caller (CurlEasy []);
                      curl_easy_unescape := λ _ s, mret (Some (percent_decode s)) |};
  curl_easy_escape := λ _ s, mret (percent_encode <$> s);
  curl_easy_setopt := sample_setopt;
  curl_easy_cleanup := release Caller;
  curl_multi_init := alloc Caller (CurlMulti None);
  curl_multi_cleanup := λ m, release Caller m;; mret 0%Z;
  curl_multi_add_handle := sample_add;
  curl_multi_remove_handle := λ m _, store m (CurlMulti None);; mret 0%Z;
  curl_multi_perform := sample_perform;
  curl_multi_info_read := sample_info_read;
  curl_multi_fdset := sample_fdset |}.

Definition sample_easy (h : positive) (opts : list CURLoption) : hPropI := h ↦{Caller} CurlEasy opts.
Definition sample_multi (m : positive) (d : option (positive * list CURLoption * transfer)) : hPropI :=
  match d with
  | None => m ↦{Caller} CurlMulti None
  | Some (h, opts, t) => m ↦{Caller} CurlMulti (Some (h, t)) ∗ sample_easy h opts
  end%I.

Lemma wp_driven m h opts t w Q :
  sample_multi m (Some (h, opts, t)) ∗ (sample_multi m (Some (h, opts, t)) -∗ Q (Some (h, opts, t)) w)
  ⊢ wp (driven (Some m)) w Q.
Proof.
  iIntros "[[Hm Hh] HQ]". unfold driven. wload "Hm". iUnfold sample_easy in "Hh". wload "Hh". wret.
  iApply "HQ". iFrame.
Qed.

#[export] Instance sample_unescapes : Unescapes (@multi_libcurl sample_libcurl) percent_decode.
Proof. intros h s w Q. iIntros "HQ". simpl. wret. iApply "HQ". auto with world. Qed.

#[export] Program Instance sample_laws : CurlLaws sample_libcurl percent_encode percent_decode server := {|
  easy := sample_easy; multi := sample_multi |}.
Next Obligation. iIntros (h s w Q _) "HQ". simpl. wret. iApply "HQ". auto with world. Qed.
Next Obligation.
  iIntros (w Q _) "HQ". simpl. iApply wp_alloc. iIntros (h) "Hh". iApply ("HQ" with "[%] Hh"). auto with world.
Qed.
Next Obligation.
  iIntros (h opts o w Q _) "[Hh HQ]". simpl. unfold sample_setopt. iUnfold sample_easy in "Hh". wload "Hh".
  wstore "Hh". wret. iApply ("HQ" with "[%] Hh"). auto with world.
Qed.
Next Obligation.
  iIntros (h opts w Q) "[Hh HQ]". simpl. iApply (wp_release (T := curl_block)). iFrame "Hh".
  iApply "HQ". auto with world.
Qed.
Next Obligation.
  iIntros (w Q _) "HQ". simpl. iApply wp_alloc. iIntros (h) "Hh". iApply ("HQ" with "[%] Hh"). auto with world.
Qed.
Next Obligation.
  iIntros (m w Q) "[Hm HQ]". simpl. wp_focus. iApply (wp_release (T := curl_block)). iFrame "Hm".
  wret. iApply "HQ". auto with world.
Qed.
Next Obligation.
  iIntros (m h opts w Q _) "(Hm & Hh & HQ)". simpl. unfold sample_add. iUnfold sample_easy in "Hh".
  wload "Hh". wstore "Hm". wret. iApply ("HQ" with "[%] [Hm Hh]"); [auto with world|]. iFrame.
Qed.
Next Obligation.
  iIntros (m h opts t h' opts') "[[_ Hh] Hh']". iApply (pointsto_ne with "[$Hh $Hh']").
Qed.
Next Obligation.
  iIntros (m h opts t w Q) "[[Hm Hh] HQ]". simpl. wstore "Hm". wret.
  iApply ("HQ" with "[%] Hm Hh"). auto with world.
Qed.
Next Obligation.
  iIntros (m h opts t st steps w Q Hst) "[H HQ]". simpl. unfold sample_perform. wp_focus.
  iApply wp_driven. iFrame "H". iIntros "[Hm Hh]". rw Hst. wp_focus. iApply (wp_wand with "HQ").
  iIntros (r w1) "HQ". wstore "Hm". wret. iApply ("HQ" with "[%] [Hm Hh]"); [auto with world|]. iFrame.
Qed.
Next Obligation.
  iIntros (m h opts t w Q Hst) "[H HQ]". simpl. unfold sample_perform. wp_focus.
  iApply wp_driven. iFrame "H". iIntros "H". rw Hst. wret. iApply ("HQ" with "[%] H"). auto with world.
Qed.
Next Obligation.
  iIntros (m h opts t w Q) "[H HQ]". simpl. unfold sample_info_read. wp_focus. iApply wp_driven. iFrame "H".
  iIntros "[Hm Hh]". wstore "Hm". wret. iApply ("HQ" with "[%] [Hm Hh]"); [auto with world|]. iFrame.
Qed.
Next Obligation.
  iIntros (m h opts t w Q) "[H HQ]". simpl. unfold sample_fdset. wp_focus. iApply wp_driven. iFrame "H".
  iIntros "H". wret. iApply ("HQ" with "[%] H"). auto with world.
Qed.
End sample.
