(* ===== verification/QuerySpec.v ===== *)
(** Rules for printing into buffers, and for the attributes and the filters of a
    request, against the items of HttpProtocol.v. *)
From stdpp Require Import pretty.
From S2P Require Import Prelude JsonData CurlData Types Heap Macros Attributes Filters Burrow UserBuffer JsonParser JsonProcessing CurlBackend HttpProtocol TextFacts Logic MacrosSpec DictionarySpec UserBufferSpec JsonReportSpec CurlSpec.
From iris.proofmode Require Import proofmode.

#[local] Arguments malloc_ok : simpl never.

(** ** [snprintf] *)

Lemma printed_small s : (Z.of_nat (String.length s) ≤ 2147483647)%Z → printed s = Z.of_nat (String.length s).
Proof. intros H. unfold printed. rw (proj2 (Z.leb_le _ _)) //. apply u64_small. lia. Qed.

(** Printed behind what is there, as far as there is room. *)
Lemma print_into_append (cap : nat) x s n :
  String.length x < cap → n = Z.of_nat (cap - String.length x) →
  print_into (Chars (Z.of_nat cap) x) (Z.of_nat (String.length x)) n s =
    Some (Chars (Z.of_nat cap) (x +:+ String.substring 0 (cap - String.length x - 1) s)).
Proof.
  intros Hx ->. unfold print_into. simpl. rw (proj2 (Z.eqb_neq _ _)); [|lia].
  replace (Z.to_nat (Z.of_nat (cap - String.length x) - 1)) with (cap - String.length x - 1) by lia.
  rw (proj2 (Z.leb_le _ _)); [|rw length_substring; lia]. rw Z.leb_refl Nat2Z.id.
  by rw -{2}(string_app_nil_r x) substring_app_l.
Qed.

Lemma print_into_fits cap x s n :
  String.length x + String.length s < cap → n = Z.of_nat (cap - String.length x) →
  print_into (Chars (Z.of_nat cap) x) (Z.of_nat (String.length x)) n s = Some (Chars (Z.of_nat cap) (x +:+ s)).
Proof. intros H Hn. rw print_into_append //; [|lia]. by rw substring_all; [|lia]. Qed.

Section printing.
Context (l : loc) (o : owner).

Lemma wp_snprintf cap x s n w Q :
  String.length x + String.length s < cap → n = Z.of_nat (cap - String.length x) → (Z.of_nat (String.length s) ≤ 2147483647)%Z →
  l ↦{o} Chars (Z.of_nat cap) x ∗
  (l ↦{o} Chars (Z.of_nat cap) (x +:+ s) -∗ Q (Z.of_nat (String.length s)) w)
  ⊢ wp (snprintf (Some l) (Z.of_nat (String.length x)) n s) w Q.
Proof.
  iIntros (Hx Hn Hs) "[Hl HQ]". unfold snprintf. wload "Hl". rw print_into_fits //. wstore "Hl". wret.
  rw printed_small //. by iApply "HQ".
Qed.

Lemma wp_append_url cap x s w Q :
  String.length x + String.length s < cap → (Z.of_nat cap ≤ 2147483648)%Z →
  l ↦{o} Chars (Z.of_nat cap) x ∗
  (l ↦{o} Chars (Z.of_nat cap) (x +:+ s) -∗ Q (Z.of_nat (String.length (x +:+ s))) w)
  ⊢ wp (append_url (Some l) (Z.of_nat cap) (Z.of_nat (String.length x)) s) w Q.
Proof.
  iIntros (Hx Hc) "[Hl HQ]". unfold append_url. wp_focus. iApply wp_snprintf; [done| |lia|].
  { rw u64_small; lia. }
  iFrame "Hl". iIntros "Hl". wret. rw u64_small; [|lia]. rw -Nat2Z.inj_add -string_length_app. by iApply "HQ".
Qed.
End printing.

(** ** Texts among the local variables *)

Definition text (x : string) : local_text := (Chars 1024 x, Z.of_nat (String.length x)).

Lemma wp_print_at off x s w Q :
  off = Z.of_nat (String.length x) → String.length x + String.length s < 1024 →
  Q (Chars 1024 (x +:+ s), Z.of_nat (String.length s)) w ⊢ wp (print_at off s (text x)) w Q.
Proof.
  iIntros (-> Hx) "HQ". unfold print_at. simpl.
  rw (print_into_fits 1024); [|done|rw u64_small; lia]. wret. rw printed_small; [|lia]. done.
Qed.

Lemma wp_print_on x s w Q :
  String.length x + String.length s < 1024 →
  Q (text (x +:+ s)) w ⊢ wp (print_on s (text x)) w Q.
Proof.
  iIntros (Hx) "HQ". unfold print_on. wp_focus. iApply wp_print_at; [done..|]. wret.
  rw u64_small; [|lia]. by rw -Nat2Z.inj_add -string_length_app.
Qed.

(** The first item stands alone, the others behind an ampersand. *)
Lemma wp_print_item (xs : list string) off s w Q :
  Forall (λ s, s ≠ "") xs → (xs = [] → off = 0%Z) → String.length (joined (xs ++ [s])) < 1024 →
  Q (text (joined (xs ++ [s]))) w
  ⊢ wp (if (0 <? (text (joined xs)).2)%Z then print_on ("&" +:+ s) (text (joined xs))
        else print_at off s (text (joined xs))) w Q.
Proof.
  iIntros (Hxs Hoff Hlen) "HQ". rw joined_snoc in Hlen |- *. destruct xs as [|x xs].
  - rw Hoff //. iApply wp_print_at; [done|simpl in *; lia|]. done.
  - pose proof (joined_nonempty _ Hxs ltac:(done)) as Hpos. rw (proj2 (Z.ltb_lt _ _)); [|simpl; lia].
    iApply wp_print_on; [rw string_length_app in Hlen; lia|]. done.
Qed.

Lemma wp_keep_text x w Q :
  String.length x < 1024 →
  (if malloc_ok Libc w
   then ∀ p, p ↦{Libc} Chars (Z.of_nat (String.length x) + 1) x -∗ Q (Some p, Z.of_nat (String.length x)) (tick 2 w)
   else Q (NULL, ENOMEM) (tick 1 w))
  ⊢ wp (keep_text (text x)) w Q.
Proof.
  iIntros (Hx) "HQ". unfold keep_text. simpl. rw u64_small; [|lia]. wp_focus. iApply wp_malloc.
  destruct (malloc_ok Libc w); [|simpl; wret; by iApply "HQ"]. iIntros (p) "Hp". simpl. wp_focus. unfold copy_local.
  wload "Hp". rw (proj2 (Z.leb_le _ _)); [|done]. rw (proj2 (Z.leb_le _ _)); [|lia]. simpl.
  rw substring_all; [|lia]. wstore "Hp". wret. unfold i32. rw Z.mod_small; [|lia].
  replace (Z.of_nat (String.length x) + 2147483648 - 2147483648)%Z with (Z.of_nat (String.length x)) by lia.
  by iApply "HQ".
Qed.

(** *** A text that does not fit *)

Lemma wp_print_at_cut x off s w Q :
  off = Z.of_nat (String.length x) → String.length x < 1024 → (Z.of_nat (String.length s) < 2147483648)%Z →
  (∀ y, Q (Chars 1024 y, Z.of_nat (String.length s)) w) ⊢ wp (print_at off s (text x)) w Q.
Proof.
  iIntros (-> Hx Hs) "HQ". unfold print_at. simpl.
  rw (print_into_append 1024); [|done|rw u64_small; lia]. wret. rw printed_small; [|lia]. iApply "HQ".
Qed.

Lemma wp_print_item_cut (xs : list string) off s w Q :
  Forall (λ s, s ≠ "") xs → (xs = [] → off = 0%Z) → String.length (joined xs) < 1024 →
  (Z.of_nat (String.length (joined (xs ++ [s]))) < 2147483648)%Z →
  (∀ y, Q (Chars 1024 y, Z.of_nat (String.length (joined (xs ++ [s])))) w)
  ⊢ wp (if (0 <? (text (joined xs)).2)%Z then print_on ("&" +:+ s) (text (joined xs))
        else print_at off s (text (joined xs))) w Q.
Proof.
  iIntros (Hxs Hoff Hlen Hs) "HQ". rw joined_snoc in Hs |- *. destruct xs as [|x xs].
  - rw Hoff //. by iApply wp_print_at_cut.
  - pose proof (joined_nonempty _ Hxs ltac:(done)) as Hpos. rw (proj2 (Z.ltb_lt _ _)); [|simpl; lia].
    rw string_length_app in Hs |- *. unfold print_on. wp_focus. iApply wp_print_at_cut; [done|done|lia|]. iIntros (y).
    wret. simpl. rw u64_small; [|simpl in *; lia]. rw -Nat2Z.inj_add. iApply "HQ".
Qed.

Lemma faults_keep_text y n w P :
  (1024 ≤ n < 2147483648)%Z → reliable w → P ⊢ faults (keep_text (Chars 1024 y, n)) w OutOfBounds.
Proof.
  iIntros (Hn Hr) "HP". unfold keep_text. simpl. rw u64_small; [|lia]. iApply faults_bind.
  iApply wp_malloc_reliable; [done|]. iIntros (p j w' Hw) "Hp". simpl. iApply faults_first. unfold copy_local.
  iApply faults_bind. wload "Hp". rw (proj2 (Z.leb_gt (n + 1) 1024)); [|lia]. rw andb_false_r.
  iApply (faults_undefined with "[-]"). iCombine "HP Hp" as "H". iExact "H".
Qed.

(** The items as a string in memory of its own, or why there is none. *)
Definition as_string (items : list string) (none : Z) (w : world) (Q : ptr * Z → world → hPropI) : hPropI :=
  match items with
  | [] => Q (NULL, none) w
  | _ =>
      if malloc_ok Libc w
      then ∀ p, p ↦{Libc} Chars (Z.of_nat (String.length (joined items)) + 1) (joined items) -∗
             Q (Some p, Z.of_nat (String.length (joined items))) (tick 2 w)
      else Q (NULL, ENOMEM) (tick 1 w)
  end%I.

Lemma wp_keep_items items none w Q :
  Forall (λ s, s ≠ "") items → String.length (joined items) < 1024 →
  as_string items none w Q
  ⊢ wp (if ((text (joined items)).2 =? 0)%Z then mret (NULL, none) else keep_text (text (joined items))) w Q.
Proof.
  iIntros (Hne Hlen) "HQ". destruct items as [|x xs]; [by wret|].
  pose proof (joined_nonempty _ Hne ltac:(done)) as Hpos. rw (proj2 (Z.eqb_neq _ _)); [|simpl; lia].
  by iApply wp_keep_text.
Qed.

(** An item that is there only when [cond] holds. *)
Lemma wp_optional {B} (cond : bool) (m : M local_text) (xs item : list string) (k : local_text → M B) (P : hPropI) w Q :
  (P ⊢ if cond then wp m w (λ t w', ⟦ t = text (joined (xs ++ item)) ∧ w' = w ⟧ ∗ P) else ⟦ item = [] ⟧ ∗ P) →
  P ∗ (P -∗ wp (k (text (joined (xs ++ item)))) w Q)
  ⊢ wp (t ← (if cond then m else mret (text (joined xs))); k t) w Q.
Proof.
  iIntros (HP) "[H HQ]". iDestruct (HP with "H") as "H". wp_focus. destruct cond.
  - iApply (wp_wand with "H"). iIntros (t w') "[%Ht H]". destruct Ht as [-> ->]. by iApply "HQ".
  - iDestruct "H" as (->) "H". wret. rw app_nil_r. by iApply "HQ".
Qed.

(** ** Attributes *)

Section attributes.
Context (al : loc) (o : owner) (a : burrow_attributes_st).

Lemma items_of_attributes_nonempty : Forall (λ s, s ≠ "") (items_of_attributes a).
Proof.
  unfold items_of_attributes, attribute_items.
  destruct (has_flag _ _), (has_flag _ _); repeat constructor; done.
Qed.

Lemma length_items_of_attributes :
  (0 ≤ at_ttl a < 4294967296)%Z → (0 ≤ at_hide a < 4294967296)%Z →
  String.length (joined (items_of_attributes a)) ≤ 64.
Proof.
  intros Ht Hh. etransitivity; [apply length_joined|].
  pose proof (length_pretty_int (at_ttl a)). pose proof (length_pretty_int (at_hide a)).
  unfold items_of_attributes, attribute_items.
  destruct (has_flag _ _), (has_flag _ _); cbn [app sum_list_with]; rw ?string_length_app; simpl; lia.
Qed.

Lemma wp_attributes_to_string size w Q :
  (0 ≤ at_ttl a < 4294967296)%Z → (0 ≤ at_hide a < 4294967296)%Z →
  al ↦{o} a ∗ (al ↦{o} a -∗ as_string (items_of_attributes a) size w Q)
  ⊢ wp (burrow_backend_http_attributes_to_string (Some al) size) w Q.
Proof.
  iIntros (Ht Hh) "[Ha HQ]". pose proof (length_items_of_attributes Ht Hh) as Hlen.
  pose proof items_of_attributes_nonempty as Hne.
  unfold burrow_backend_http_attributes_to_string, burrow_attributes_isset_ttl, burrow_attributes_get_ttl,
    burrow_attributes_isset_hide, burrow_attributes_get_hide. simpl.
  unfold items_of_attributes, attribute_items in *. wload "Ha". wret.
  set (ttl := if has_flag (at_set a) BURROW_ATTRIBUTES_TTL then _ else _) in *.
  set (hide := if has_flag (at_set a) BURROW_ATTRIBUTES_HIDE then _ else _) in *.
  pose proof Hne as Hne'. apply Forall_app in Hne' as [Hne1 _]. pose proof (length_joined_app ttl hide).
  iApply (wp_optional _ _ [] ttl). 2: iSplitL "Ha"; [iExact "Ha"|].
  { iIntros "Ha". subst ttl. destruct (has_flag _ BURROW_ATTRIBUTES_TTL); [|by iFrame]. wload "Ha". wret.
    iApply (wp_print_at _ ""); [done|simpl in *; lia|by iFrame]. }
  iIntros "Ha". wload "Ha". wret. iApply (wp_optional _ _ ttl hide). 2: iSplitL "Ha"; [iExact "Ha"|].
  { iIntros "Ha". subst hide. destruct (has_flag _ BURROW_ATTRIBUTES_HIDE); [|by iFrame]. wload "Ha". wret.
    iApply wp_print_item; [done..|lia|by iFrame]. }
  iIntros "Ha". iApply wp_keep_items; [done|lia|by iApply "HQ"].
Qed.
End attributes.

(** ** Filters *)

Lemma wp_print_number name v (xs : list string) w Q :
  Forall (λ s, s ≠ "") xs → String.length (joined (xs ++ [name +:+ "=" +:+ pretty (i32 v)])) < 1024 →
  Q (text (joined (xs ++ [name +:+ "=" +:+ pretty (i32 v)]))) w
  ⊢ wp (print_number name v (text (joined xs))) w Q.
Proof. intros Hne Hlen. unfold print_number. apply wp_print_item; [done| |done]. by intros ->. Qed.

(** The ampersand on its own. *)
Definition separated (xs : list string) : string := match xs with [] => "" | _ => joined xs +:+ "&" end.

Lemma separated_snoc xs y : separated xs +:+ y = joined (xs ++ [y]).
Proof. rw joined_snoc. destruct xs; [done|]. by rw /= string_app_assoc. Qed.

Lemma wp_separator (xs : list string) w Q :
  Forall (λ s, s ≠ "") xs → String.length (separated xs) < 1024 →
  Q (text (separated xs)) w
  ⊢ wp (if (0 <? (text (joined xs)).2)%Z then print_on "&" (text (joined xs)) else mret (text (joined xs))) w Q.
Proof.
  iIntros (Hne Hlen) "HQ". destruct xs as [|x xs]; [by wret|].
  pose proof (joined_nonempty _ Hne ltac:(done)) as Hpos. rw (proj2 (Z.ltb_lt _ _)); [|simpl; lia].
  iApply wp_print_on; [|done]. unfold separated in Hlen. rw string_length_app in Hlen. lia.
Qed.

Lemma joined_prefix xs ys n : String.length (joined (xs ++ ys)) < n → String.length (joined xs) < n.
Proof. pose proof (length_joined_app xs ys). lia. Qed.

Section filters.
Context (fl : loc) (o : owner) (f : burrow_filters_st).

Lemma plain_items_nonempty : Forall (λ s, s ≠ "") (plain_items f).
Proof.
  unfold plain_items. rw !Forall_app.
  split_and!; destruct (has_flag _ _); repeat constructor; done.
Qed.

Lemma length_plain_items : String.length (joined (plain_items f)) ≤ 128.
Proof.
  etransitivity; [apply length_joined|]. unfold plain_items.
  pose proof (length_pretty_int (i32 (fi_limit f))). pose proof (length_pretty_int (i32 (fi_wait f))).
  pose proof (i32_bounds (fi_limit f)). pose proof (i32_bounds (fi_wait f)).
  rw !sum_list_with_app.
  repeat (destruct (has_flag _ _)); destruct (fi_match_hidden f), (fi_detail f); cbn [sum_list_with];
    rw ?string_length_app; simpl; lia.
Qed.

Lemma wp_print_plain_filters w Q :
  fl ↦{o} f ∗ (fl ↦{o} f -∗ Q (text (joined (plain_items f))) w) ⊢ wp (print_plain_filters (Some fl)) w Q.
Proof.
  iIntros "[Hf HQ]". pose proof plain_items_nonempty as Hne. pose proof length_plain_items as Hlen.
  assert (String.length (joined (plain_items f)) < 1024) as Hlen4 by lia. clear Hlen.
  unfold print_plain_filters, burrow_filters_isset_match_hidden, burrow_filters_get_match_hidden,
    burrow_filters_isset_limit, burrow_filters_get_limit, burrow_filters_isset_wait, burrow_filters_get_wait,
    burrow_filters_isset_detail, burrow_filters_get_detail, test_flag. unfold plain_items in *.
  set (hidden := if has_flag (fi_set f) BURROW_FILTERS_MATCH_HIDDEN then _ else _) in *.
  set (limit := if has_flag (fi_set f) BURROW_FILTERS_LIMIT then _ else _) in *.
  set (wait := if has_flag (fi_set f) BURROW_FILTERS_WAIT then _ else _) in *.
  set (detail := if has_flag (fi_set f) BURROW_FILTERS_DETAIL then _ else _) in *.
  rw !(assoc_L (++)) in Hlen4 Hne |- *.
  pose proof (joined_prefix _ _ _ Hlen4) as Hlen3. pose proof (joined_prefix _ _ _ Hlen3) as Hlen2.
  pose proof (proj1 (proj1 (Forall_app _ _ _) Hne)) as Hne3.
  pose proof (proj1 (proj1 (Forall_app _ _ _) Hne3)) as Hne2.
  pose proof (proj1 (proj1 (Forall_app _ _ _) Hne2)) as Hne1.
  wload "Hf". wret. iApply (wp_optional _ _ [] hidden). 2: iSplitL "Hf"; [iExact "Hf"|].
  { iIntros "Hf". subst hidden. destruct (has_flag _ BURROW_FILTERS_MATCH_HIDDEN); [|by iFrame]. wload "Hf". wret.
    destruct (fi_match_hidden f); (iApply (wp_print_at _ ""); [done|simpl; lia|by iFrame]). }
  iIntros "Hf". wload "Hf". wret. iApply (wp_optional _ _ hidden limit). 2: iSplitL "Hf"; [iExact "Hf"|].
  { iIntros "Hf". subst limit. destruct (has_flag _ BURROW_FILTERS_LIMIT); [|by iFrame]. wload "Hf". wret.
    iApply (wp_print_number "limit"); [done|done|by iFrame]. }
  iIntros "Hf". wload "Hf". wret. iApply (wp_optional _ _ (hidden ++ limit) wait). 2: iSplitL "Hf"; [iExact "Hf"|].
  { iIntros "Hf". subst wait. destruct (has_flag _ BURROW_FILTERS_WAIT); [|by iFrame]. wload "Hf". wret.
    iApply (wp_print_number "wait"); [done|done|by iFrame]. }
  iIntros "Hf". wload "Hf". wret. subst detail. destruct (has_flag _ BURROW_FILTERS_DETAIL).
  - rw -separated_snoc string_length_app in Hlen4. wp_focus. iApply wp_separator; [done|lia|]. wload "Hf". wret.
    iApply wp_print_on; [done|]. rw separated_snoc. by iApply "HQ".
  - wret. rw app_nil_r. by iApply "HQ".
Qed.

Context {curl : LibcurlMulti} {escape unescape : string → string} {server : request → list step}
  `{!CurlLaws curl escape unescape server}.
Context (sl : loc) (so : owner) (s : burrow_backend_st).

Lemma wp_filters_to_string w Q :
  String.length (joined (items_of_filters escape f)) < 1024 → reliable w →
  fl ↦{o} f ∗ sl ↦{so} s ∗
  (∀ w', ⟦ evolves w [] w' ⟧ -∗ fl ↦{o} f -∗ sl ↦{so} s -∗ as_string (items_of_filters escape f) 0 w' Q)
  ⊢ wp (burrow_backend_http_filters_to_string (Some sl) (Some fl)) w Q.
Proof.
  iIntros (Hlen Hr) "(Hf & Hs & HQ)". pose proof plain_items_nonempty as Hne.
  unfold burrow_backend_http_filters_to_string, burrow_filters_get_marker. simpl. wp_focus.
  iApply wp_print_plain_filters. iFrame "Hf". iIntros "Hf". wload "Hf". wret.
  unfold items_of_filters in *. destruct (fi_marker f) as [m|].
  - wload "Hs". wp_focus. iApply wp_curl_easy_escape; [done|]. iIntros (w' Hw). wret.
    wp_focus. iApply wp_print_item; [done..|]. iApply wp_keep_items; [|done|].
    { apply Forall_app. split; [done|]. by repeat constructor. }
    by iApply ("HQ" with "[%] Hf Hs").
  - wret. rw app_nil_r in Hlen |- *. iApply wp_keep_items; [done..|].
    iApply ("HQ" with "[%] Hf Hs"). auto with world.
Qed.

(** The marker is too long. *)
Lemma faults_filters_to_string mk w :
  fi_marker f = Some mk → 1024 ≤ String.length (joined (items_of_filters escape f)) →
  (Z.of_nat (String.length (joined (items_of_filters escape f))) < 2147483648)%Z → reliable w →
  fl ↦{o} f ∗ sl ↦{so} s ⊢ faults (burrow_backend_http_filters_to_string (Some sl) (Some fl)) w OutOfBounds.
Proof.
  iIntros (Hm Hlen Hmax Hr) "[Hf Hs]". pose proof plain_items_nonempty as Hne. pose proof length_plain_items as Hp.
  unfold burrow_backend_http_filters_to_string, burrow_filters_get_marker. simpl. iApply faults_bind.
  iApply wp_print_plain_filters. iFrame "Hf". iIntros "Hf". iApply faults_bind. wload "Hf". wret.
  unfold items_of_filters in *. rw Hm in Hlen Hmax |- *. iApply faults_bind. wload "Hs". wp_focus.
  iApply wp_curl_easy_escape; [done|]. iIntros (w' Hw). wret. wp_focus.
  iApply wp_print_item_cut; [done|done|lia|done|]. iIntros (y). simpl. rw (proj2 (Z.eqb_neq _ _)); [|lia].
  iApply (faults_keep_text with "[-]"); [lia|by eapply reliable_evolves|]. iCombine "Hf Hs" as "H". iExact "H".
Qed.
End filters.
