(* ===== verification/JsonSound.v ===== *)
(** The invariant of a parser in terms of its structure, its buffer and its stack,
    and that it is what the automaton's invariant says of a parser in the heap. *)
From S2P Require Import Prelude JsonData Types Heap JsonParser JsonMachine JsonFacts Logic MacrosSpec DictionarySpec JsonSpec JsonCharSpec.
From iris.proofmode Require Import proofmode.

(** The automaton's state that a structure with the buffer [bs] stands for. *)
Definition machine_of (p : JSON_parser_struct) (bs : bytes) : machine :=
  Machine (js_state p) (js_before_comment_state p) (js_type p) (js_utf16_high_surrogate p)
    (take (Z.to_nat (js_parse_buffer_count p)) bs)
    (reverse (omap id (take (Z.to_nat (js_top p + 1)) (js_static_stack p)))).

(** The buffer has the capacity it claims, its text is shorter and terminated. *)
Definition buffer_sound (p : JSON_parser_struct) (bs : bytes) : Prop :=
  js_parse_buffer_capacity p = Z.of_nat (length bs) ∧ fits bs ∧
  (0 ≤ js_parse_buffer_count p)%Z ∧ bs !! Z.to_nat (js_parse_buffer_count p) = Some Ascii.zero.

(** The stack is in the structure, its top within the depth; [MODE_DONE] is at the
    bottom, and collections are above. *)
Definition stack_sound (o : options) (p : JSON_parser_struct) : Prop :=
  js_stack p = AStatic ∧ length (js_static_stack p) = JSON_PARSER_STACK_SIZE ∧
  js_depth p = Z.of_nat (op_depth o) ∧ js_stack_capacity p = Z.of_nat (op_depth o) ∧
  (0 ≤ js_top p ≤ js_depth p)%Z ∧
  ∀ i, (Z.of_nat i ≤ js_top p)%Z →
    ∃ m, js_static_stack p !! i = Some (Some m) ∧ (m = MODE_DONE ↔ i = 0).

(** The flags agree with the state, and the text with both. *)
Definition sound (o : options) (ctx : ptr) (cb : positive) (F : allocator)
    (p : JSON_parser_struct) (bs : bytes) : Prop :=
  fixed F o ctx cb p ∧ js_escaped p = is_escape (js_state p) ∧ js_comment p = is_comment (js_state p) ∧
  buffer_sound p bs ∧ stack_sound o p ∧ state_ok (machine_of p bs).

(** The structure and its buffer. *)
Definition parser_at (jl : loc) (F : allocator) (p : JSON_parser_struct) (bs : bytes) : hPropI :=
  (jl ↦{owner_of F} p ∗ contents F (js_parse_buffer p) (js_static_parse_buffer p) bs)%I.

Lemma omap_some {A} (l : list (option A)) :
  Forall is_Some l → l = Some <$> omap id l.
Proof. induction 1 as [|x l [y ->] Hl IH]; [done|]. simpl. by rw {1}IH. Qed.

Lemma stack_sound_rep o p bs :
  depth_ok o → stack_sound o p →
  stack_rep o (ma_modes (machine_of p bs)) p ∧ stack_ok o (ma_modes (machine_of p bs)).
Proof.
  intros [_ Hd] (H1 & H2 & H3 & H4 & H5 & H6). simpl. set (n := Z.to_nat (js_top p + 1)).
  set (l := take n (js_static_stack p)). assert (length l = n) as Hn by (unfold l; rw length_take; lia).
  assert (l = Some <$> omap id l) as Hl.
  { apply omap_some, Forall_lookup. intros i x Hi. pose proof (lookup_lt_Some _ _ _ Hi).
    apply lookup_take_Some in Hi as [Hi _]. destruct (H6 i) as (m & Hm & _); [lia|]. simplify_eq. by eexists. }
  assert (length (omap id l) = n) as Hlen by (by rw -(length_fmap Some) -Hl).
  split.
  - split_and!; try done; rw length_reverse Hlen; [lia|]. by rw reverse_involutive.
  - split; [|rw length_reverse Hlen; lia].
    destruct (omap id l) as [|m ms] eqn:E; [simpl in Hlen; lia|]. rw reverse_cons.
    assert (∀ i m', (m :: ms) !! i = Some m' → (m' = MODE_DONE ↔ i = 0)) as Hms.
    { intros i m' Hi. pose proof (lookup_lt_Some _ _ _ Hi) as Hlt.
      assert (l !! i = Some (Some m')) as Hli by (by rw Hl list_lookup_fmap Hi).
      apply lookup_take_Some in Hli as [Hli _]. destruct (H6 i) as (m2 & Hm2 & Hiff); [lia|]. by simplify_eq. }
    exists (reverse ms). split; [by rw (proj2 (Hms 0 m eq_refl) eq_refl)|].
    apply Forall_reverse, Forall_lookup. intros i m' Hi ->.
    by pose proof (proj1 (Hms (S i) MODE_DONE Hi) eq_refl).
Qed.

Lemma stack_rep_sound o ms p :
  depth_ok o → stack_rep o ms p → stack_ok o ms →
  stack_sound o p ∧ reverse (omap id (take (Z.to_nat (js_top p + 1)) (js_static_stack p))) = ms.
Proof.
  intros [_ Hd] (H1 & H2 & H3 & H4 & H5 & H6) [(ms' & -> & Hms) Hlen].
  rw length_app /= in Hlen. rw length_app /= in H4.
  replace (Z.to_nat (js_top p + 1)) with (length (ms' ++ [MODE_DONE])) by (rw length_app /=; lia).
  split.
  - split_and!; try done; [lia..|]. intros i Hi.
    destruct (lookup_lt_is_Some_2 (reverse (ms' ++ [MODE_DONE])) i) as [m Hm].
    { rw length_reverse length_app /=. lia. }
    exists m. split.
    + assert (take (length (ms' ++ [MODE_DONE])) (js_static_stack p) !! i = Some (Some m)) as Ht.
      { by rw H6 list_lookup_fmap Hm. }
      by apply lookup_take_Some in Ht as [Ht _].
    + rw reverse_app /= in Hm. destruct i as [|i]; simpl in Hm; [by simplify_eq|].
      split; [|done]. intros ->. apply list_elem_of_lookup_2 in Hm. rw elem_of_reverse in Hm.
      rw Forall_forall in Hms. by destruct (Hms _ Hm).
  - rw H6. assert (∀ l : list modes, omap id (Some <$> l) = l) as ->; [|by rw reverse_involutive].
    induction l as [|m l IH]; [done|]. simpl. by f_equal.
Qed.

Section sound.
Context (jl : loc) (F : allocator) (o : options) (Hd : depth_ok o) (ctx : ptr) (cb : positive).

Lemma parser_at_parser p bs :
  sound o ctx cb F p bs → parser_at jl F p bs ⊢ parser jl F o ctx cb (machine_of p bs).
Proof using Hd.
  iIntros ((Hf & He & Hc & (Hcap & Hfit & Hpos & Hz) & Hst & Hs)) "[Hj Hb]".
  destruct (stack_sound_rep o p bs Hd Hst) as [Hrep Hok]. iExists p. iSplitR; [done|]. simpl.
  set (n := Z.to_nat (js_parse_buffer_count p)) in *.
  pose proof (lookup_lt_Some _ _ _ Hz) as Hn. pose proof (take_drop_middle _ _ _ Hz) as Hbs.
  iExists (drop (S n) bs). rw Hbs. iSplitR; [iPureIntro; split; [lia|done]|].
  iExists (js_parse_buffer p), (js_static_parse_buffer p). iFrame "Hb".
  rw length_take_le; [|lia]. unfold n. rw Z2Nat.id // -Hcap. by destruct p.
Qed.

Lemma parser_parser_at a :
  parser jl F o ctx cb a ⊢ ∃ p bs, ⟦ sound o ctx cb F p bs ∧ machine_of p bs = a ⟧ ∗ parser_at jl F p bs.
Proof using Hd.
  iIntros "(%p & (%Hc & [%Hs %Hok]) & (%rest & (_ & %Hfit) & (%buf & %sb & Hj & Hb)))".
  destruct Hc as (Hf & H1 & H2 & H3 & H4 & H5 & H6 & H7).
  set (bs := ma_text a ++ Ascii.zero :: rest) in *.
  set (p' := with_buffer p buf (Z.of_nat (length bs)) (Z.of_nat (length (ma_text a))) sb).
  iExists p', bs. iSplitR; [|iFrame]. iPureIntro.
  destruct (stack_rep_sound o _ p' Hd H7 Hok) as [Hst Hms].
  assert (machine_of p' bs = a) as Hm.
  { unfold machine_of. rw Hms. simpl. rw Nat2Z.id H1 H2 H3 H6 take_app_length. by destruct a. }
  split; [|done]. split; [exact Hf|]. split; [simpl; congruence|]. split; [simpl; congruence|].
  split; [|split; [exact Hst|by rw Hm]].
  split; [done|]. split; [exact Hfit|]. simpl. split; [lia|]. rw Nat2Z.id. by apply list_lookup_middle.
Qed.
End sound.
