(* ===== verification/ManagedSpec.v ===== *)
(** What the managed lists implement: rules for creation and destruction against
    the interface of Managed.v, for any structure that satisfies its laws. *)
From S2P Require Import Prelude Types Heap Macros Managed Attributes Filters Logic MacrosSpec DictionarySpec.
From iris.proofmode Require Import proofmode.

(** What the accessors promise. *)
Class ManagedLaws (T V : Type) `{Managed T V} := {
  get_burrow_build v b n p : get_burrow (build v b n p) = b;
  get_next_build v b n p : get_next (build v b n p) = n;
  get_prev_build v b n p : get_prev (build v b n p) = p;
  set_burrow_build q v b n p : set_burrow q (build v b n p) = build v q n p;
  set_next_build q v b n p : set_next q (build v b n p) = build v b q p;
  set_prev_build q v b n p : set_prev q (build v b n p) = build v b n q;
  build_surjective t : ∃ v, t = build v (get_burrow t) (get_next t) (get_prev t);
  get_set_list q b : get_list (set_list q b) = q;
  set_set_list q q' b : set_list q (set_list q' b) = set_list q b;
  set_get_list b : set_list (get_list b) b = b;
  set_list_malloc q b : b_malloc_fn (set_list q b) = b_malloc_fn b;
  set_list_free q b : b_free_fn (set_list q b) = b_free_fn b }.

#[export] Instance attributes_laws : ManagedLaws burrow_attributes_st attributes_value.
Proof.
  split; try done; [|by intros []].
  intros [s t h b n p]. by exists (AttributesValue s t h).
Qed.

#[export] Instance filters_laws : ManagedLaws burrow_filters_st filters_value.
Proof.
  split; try done; [|by intros []].
  intros [s mh l m d w b n p]. by exists (FiltersValue s mh l m d w).
Qed.

Section managed.
Context {T V : Type} {ST : Storable T} {MT : Managed T V} {LT : ManagedLaws T V}.
Context (bl : loc) (bo : owner).
Implicit Types (l : list (loc * V)).

(** The object a list starts with. *)
Definition head_of l : ptr := match l with [] => NULL | (x, _) :: _ => Some x end.
Fixpoint end_of (prev : ptr) l : ptr :=
  match l with [] => prev | (x, _) :: l => end_of (Some x) l end.
Definition head_or (next : ptr) l : ptr := match l with [] => next | (x, _) :: _ => Some x end.

(** Objects linked in both directions, between [prev] and [next]. *)
Fixpoint chain (o : owner) (prev next : ptr) l : hPropI :=
  match l with
  | [] => emp
  | (x, v) :: l => x ↦{o} build v (Some bl) (head_or next l) prev ∗ chain o (Some x) next l
  end%I.

(** The burrow at [bl] manages the objects [l], most recent first. *)
Definition manages (b : burrow_st) l : hPropI :=
  (⟦ get_list b = head_of l ⟧ ∗ bl ↦{bo} b ∗ chain (alloc_owner b) NULL NULL l)%I.

Lemma chain_app o prev next l1 l2 :
  chain o prev next (l1 ++ l2) ⊣⊢
  chain o prev (head_or next l2) l1 ∗ chain o (end_of prev l1) next l2.
Proof.
  revert prev. induction l1 as [|[x v] l1 IH]; intros prev; simpl.
  - by rw left_id.
  - rw IH assoc. by destruct l1 as [|[]].
Qed.

Lemma end_of_app prev l1 l2 : end_of prev (l1 ++ l2) = end_of (end_of prev l1) l2.
Proof. revert prev. induction l1 as [|[x v] l1 IH]; intros prev; [done|]. apply IH. Qed.

Lemma head_of_or l : head_of l = head_or NULL l.
Proof. by destruct l as [|[]]. Qed.

Lemma head_or_app next l1 l2 : head_or next (l1 ++ l2) = head_or (head_or next l2) l1.
Proof. by destruct l1 as [|[]]. Qed.

Lemma alloc_owner_set_list q b : alloc_owner (set_list q b) = alloc_owner b.
Proof. unfold alloc_owner. by rw set_list_malloc. Qed.

Lemma consistent_set_list q b : consistent b → consistent (set_list q b).
Proof. unfold consistent, free_owner, alloc_owner. by rw set_list_malloc set_list_free. Qed.

(** A new managed object goes to the front. *)
Lemma wp_managed_create b l w Q :
  manages b l ∗
  ((∀ x v w', ⟦ evolves w [] w' ⟧ -∗ manages (set_list (Some x) b) ((x, v) :: l) -∗ Q (Some x) w') ∧
   (∀ w', ⟦ ¬ reliable w ∧ evolves w [] w' ⟧ -∗ manages b l -∗ Q NULL w'))
  ⊢ wp (managed_create T V NULL (Some bl)) w Q.
Proof.
  iIntros "[(%Hhd & Hb & Hl) HQ]". unfold managed_create; simpl. wp_focus.
  iApply wp_burrow_malloc. iFrame "Hb". destruct (malloc_ok _ w) eqn:Hok.
  2: { iDestruct "HQ" as "[_ HQ]". iIntros "Hb". simpl. wret.
       iApply ("HQ" with "[%] [$Hb $Hl //]"). split; [|auto with world].
       intros Hr. by rw reliable_ok in Hok. }
  iDestruct "HQ" as "[HQ _]". iIntros (x) "Hb Hx". simpl.
  destruct (build_surjective (uninit T V (junk (tick 1 w)))) as [v Hv]. rw Hv.
  wmodify "Hx". rw set_burrow_build. wmodify "Hx". rw set_prev_build. wload "Hb".
  wmodify "Hx". rw set_next_build. wmodify "Hb". wload "Hx". rw get_next_build Hhd.
  iSpecialize ("HQ" $! x v (tick 2 w) with "[%]"); [auto with world|].
  unfold manages. rw get_set_list alloc_owner_set_list /=.
  destruct l as [|[y u] l]; simpl.
  - wret. wret. iApply "HQ". by iFrame.
  - iDestruct "Hl" as "[Hy Hl]". wmodify "Hy". rw set_prev_build. wret.
    iApply "HQ". by iFrame.
Qed.

(** Destroying one unlinks it and frees it. *)
Lemma wp_managed_destroy b l1 x v l2 w Q :
  consistent b →
  manages b (l1 ++ (x, v) :: l2) ∗
  (∀ b', ⟦ b' = set_list (head_of (l1 ++ l2)) b ⟧ -∗ manages b' (l1 ++ l2) -∗ Q tt w)
  ⊢ wp (managed_destroy T V (Some x)) w Q.
Proof.
  intros Hc. iIntros "[(%Hhd & Hb & Hl) HQ]". unfold managed_destroy.
  rw chain_app /=. iDestruct "Hl" as "(H1 & Hx & H2)".
  wload "Hx". rw get_burrow_build get_next_build get_prev_build. simpl.
  iAssert (⌜head_or NULL l2 ≠ Some x⌝)%I as %Hne.
  { destruct l2 as [|[y u] l2]; simpl; [done|]. iDestruct "H2" as "[Hy H2]".
    iDestruct (pointsto_ne with "[$Hx $Hy]") as %Hne. iPureIntro. congruence. }
  rw bool_decide_eq_false_2 //.
  (* The successor's back link... *)
  wp_focus. iApply (wp_wand _ _ (λ _ w', ⟦ w' = w ⟧ ∗ chain (alloc_owner b) (end_of NULL l1) NULL l2)%I
    with "[H2]").
  { destruct l2 as [|[y u] l2]; simpl; [wret; by iFrame|]. iDestruct "H2" as "[Hy H2]".
    wmodify "Hy". rw set_prev_build. by iFrame. }
  iIntros ([] w') "[-> H2]".
  (* ...the predecessor's forward link or the head of the list. *)
  iApply (wp_wand _ _ (λ _ w', ⟦ w' = w ⟧ ∗ bl ↦{bo} set_list (head_of (l1 ++ l2)) b ∗
    chain (alloc_owner b) NULL (head_or NULL l2) l1)%I with "[Hb H1]").
  { destruct l1 as [|[y u] l1 _] using rev_ind; simpl.
    - wmodify "Hb". rw head_of_or. by iFrame.
    - assert (set_list (head_of ((l1 ++ [(y, u)]) ++ l2)) b = b) as ->.
      { rw -{2}(set_get_list b) Hhd. f_equal. rw !head_of_or !head_or_app //. }
      rw end_of_app chain_app /=. iDestruct "H1" as "(H1 & Hy & _)". wmodify "Hy".
      rw set_next_build chain_app /=. by iFrame. }
  iIntros ([] w') "(-> & Hb & H1)".
  iApply wp_burrow_free; [by apply consistent_set_list|]. rw alloc_owner_set_list.
  iFrame "Hb Hx". iIntros "Hb". iApply ("HQ" with "[//]"). unfold manages.
  rw get_set_list alloc_owner_set_list chain_app. by iFrame.
Qed.

(** One object of the list, to be read or given another value. *)
Lemma manages_access b l1 x v l2 :
  manages b (l1 ++ (x, v) :: l2) ⊢
  ∃ n p, x ↦{alloc_owner b} build v (Some bl) n p ∗
    (∀ v', x ↦{alloc_owner b} build v' (Some bl) n p -∗ manages b (l1 ++ (x, v') :: l2)).
Proof.
  iIntros "(%Hhd & Hb & Hl)". rw chain_app /=. iDestruct "Hl" as "(H1 & Hx & H2)".
  iExists _, _. iFrame "Hx". iIntros (v') "Hx". unfold manages. rw chain_app /=.
  iFrame. iPureIntro. rw Hhd. by destruct l1 as [|[]].
Qed.

Lemma wp_load_managed b l1 x v l2 w Q :
  manages b (l1 ++ (x, v) :: l2) ∗
  (∀ n p, manages b (l1 ++ (x, v) :: l2) -∗ Q (build v (Some bl) n p) w)
  ⊢ wp (load (T := T) (Some x)) w Q.
Proof.
  iIntros "[Hm HQ]". iDestruct (manages_access with "Hm") as (n p) "[Hx Hm]". wload "Hx".
  iApply "HQ". by iApply "Hm".
Qed.

Lemma wp_modify_managed f g b l1 x v l2 w Q :
  (∀ n p, f (build v (Some bl) n p) = build (g v) (Some bl) n p) →
  manages b (l1 ++ (x, v) :: l2) ∗ (manages b (l1 ++ (x, g v) :: l2) -∗ Q tt w)
  ⊢ wp (modify (T := T) (Some x) f) w Q.
Proof.
  iIntros (Hf) "[Hm HQ]". iDestruct (manages_access with "Hm") as (n p) "[Hx Hm]".
  wmodify "Hx". rw Hf. iApply "HQ". by iApply "Hm".
Qed.

(** Objects linked in both directions are distinct blocks, so following their
    list takes no more steps than there are blocks. *)
Lemma chain_at_least o prev next l : chain o prev next l ⊢ at_least (length l).
Proof.
  revert prev. induction l as [|[x v] l IH]; intros prev; simpl; [apply at_least_0|].
  rw IH at_least_pointsto at_least_sep. done.
Qed.
End managed.
