(* ===== verification/LifecycleSpec.v ===== *)
(** Rules for the creation and the destruction of a burrow. *)
From S2P Require Import Prelude Types Heap Macros Managed Attributes Filters Burrow Lifecycle Logic MacrosSpec DictionarySpec ManagedSpec.
From iris.proofmode Require Import proofmode.

(** ** The allocation of a burrow and of the room behind it *)

Lemma wp_alloc_burrow {T} `{Storable T} b (x : T) w Q :
  (∀ l, l ↦{Libc} b -∗ Pos.succ l ↦{Caller} x -∗ Q (Some l) w)
  ⊢ wp (alloc_burrow b (inject x)) w Q.
Proof.
  split=> h HQ hf Hd. set (l := alloc_loc (h ∪ hf)).
  assert (∀ l', (l ≤ l')%positive → h !! l' = None ∧ hf !! l' = None) as Hfresh.
  { intros l' Hl'. apply lookup_union_None. destruct ((h ∪ hf) !! l') as [x'|] eqn:E; [|done].
    apply alloc_loc_bound in E. fold l in E. lia. }
  destruct (Hfresh l) as [Hh Hhf]; [lia|]. destruct (Hfresh (Pos.succ l)) as [Hh' Hhf']; [lia|].
  assert (l ≠ Pos.succ l) as Hne by lia.
  exists (Some l), w, (<[l := (Libc, BBurrow b)]> (<[Pos.succ l := (Caller, inject x)]> h)). split_and!.
  - unfold alloc_burrow. fold l. by rw !insert_union_l.
  - apply map_disjoint_insert_l_2; [done|]. by apply map_disjoint_insert_l_2.
  - rw insert_insert_ne // insert_union_singleton_r; [|by rw lookup_insert_ne].
    rw insert_union_singleton_r //. apply (HQ l); [by apply map_disjoint_singleton_r|done| |done].
    apply map_disjoint_union_l_2; apply map_disjoint_singleton_r; [done|by rw lookup_singleton_ne].
Qed.

Lemma wp_malloc_burrow {T} `{Storable T} (room_of : Z → T) w Q :
  (if malloc_ok Libc w
   then ∀ l, l ↦{Libc} uninit_burrow (junk (tick 1 w)) -∗
             Pos.succ l ↦{Caller} room_of (junk (tick 1 w)) -∗ Q (Some l) (tick 2 w)
   else Q NULL (tick 1 w))
  ⊢ wp (malloc_burrow (λ j, inject (room_of j))) w Q.
Proof.
  iIntros "HQ". unfold malloc_burrow. wp_focus. iApply wp_consult.
  fold (malloc_ok Libc w). destruct (malloc_ok Libc w); simpl.
  - wp_focus. iApply wp_consult. by iApply wp_alloc_burrow.
  - by wret.
Qed.

Lemma wp_vacate {T} `{Storable T} l o (x : T) w Q :
  l ↦{o} x ∗ Q tt w ⊢ wp (vacate (Some l)) w Q.
Proof.
  split; intros h (h1 & h2 & -> & Hd & Hl & HQ) hf Hdf. cbv [holds pointsto] in Hl; subst h1.
  apply map_disjoint_union_l in Hdf as [Hdl Hdf]. apply map_disjoint_singleton_l in Hd, Hdl.
  exists tt, w, h2. split_and!; [|done..].
  unfold vacate. rw -(assoc_L (∪)). by rw -insert_union_singleton_l delete_insert_id // lookup_union_None.
Qed.

(** ** Emptying the list of managed objects *)

Section destroy.
Context {T V : Type} {ST : Storable T} {MT : Managed T V} {LT : ManagedLaws T V}.
Context (bl : loc) (bo : owner).
Implicit Types (l : list (loc * V)).

Lemma manages_nil b : manages (T := T) bl bo b [] ⊢ bl ↦{bo} b.
Proof. iIntros "(_ & $ & $)". Qed.

Lemma wp_destroy_loop n b l w Q :
  consistent b → length l < n →
  manages (T := T) bl bo b l ∗ (bl ↦{bo} set_list NULL b -∗ Q tt w)
  ⊢ wp (loop n (λ _ : unit, b ← load (Some bl);
      if is_null (get_list b) then mret (inr tt)
      else managed_destroy T V (get_list b);; mret (inl tt)) tt) w Q.
Proof.
  revert b l. induction n as [|n IH]; [lia|]. intros b l.
  iIntros (Hc Hn) "[(%Hhd & Hb & Hl) HQ]". simpl. wp_focus. wload "Hb". rw Hhd.
  destruct l as [|[x v] l]; simpl.
  - wret. wret. iDestruct "Hl" as "_". iApply "HQ". rw -{1}(set_get_list b) Hhd /=. done.
  - wp_focus. iApply (wp_managed_destroy bl bo b [] x v l); [done|]. iSplitL "Hb Hl".
    { unfold manages; simpl. by iFrame. }
    iIntros (b' ->) "Hm". wret. simpl in Hn. iApply (IH (set_list (head_of l) b) l); [by apply consistent_set_list|by apply Nat.succ_lt_mono|].
    iFrame "Hm". by rw set_set_list.
Qed.

Lemma wp_destroy_list b l w Q :
  consistent b →
  manages (T := T) bl bo b l ∗ (bl ↦{bo} set_list NULL b -∗ Q tt w)
  ⊢ wp (destroy_list (Some bl) get_list (managed_destroy T V)) w Q.
Proof.
  iIntros (Hc) "[Hm HQ]". unfold destroy_list. wp_focus.
  iApply (wp_heap_fuel_own (manages bl bo b l) (length l)).
  { iIntros "(_ & Hb & Hl)". rw chain_at_least. iApply (at_least_mono (length l) (0 + length l)); [lia|].
    iApply at_least_sep. iSplitL "Hb"; [iApply (at_least_0 with "Hb")|done]. }
  iFrame "Hm". iIntros (k Hk) "Hm". iApply wp_destroy_loop; [done..|]. iFrame.
Qed.
End destroy.
