(* ===== verification/BurrowSpec.v ===== *)
(** Rules for the frontend of Burrow.v: starting a command, and processing it on
    a backend of which only the interface is known. *)
From S2P Require Import Prelude Types Heap Macros Burrow Logic MacrosSpec DictionarySpec.
From iris.proofmode Require Import proofmode.

(** ** The commands, by description *)

Definition required (c : burrow_command_st) : bool :=
  match cmd_command c with
  | BURROW_CMD_GET_ACCOUNTS | BURROW_CMD_DELETE_ACCOUNTS | BURROW_CMD_NONE => true
  | BURROW_CMD_GET_QUEUES | BURROW_CMD_DELETE_QUEUES => given (cmd_account c)
  | BURROW_CMD_GET_MESSAGES | BURROW_CMD_DELETE_MESSAGES =>
      given (cmd_account c) && given (cmd_queue c)
  | BURROW_CMD_UPDATE_MESSAGES =>
      given (cmd_account c) && given (cmd_queue c) && negb (is_null (cmd_attributes c))
  | BURROW_CMD_GET_MESSAGE | BURROW_CMD_DELETE_MESSAGE =>
      given (cmd_account c) && given (cmd_queue c) && given (cmd_message_id c)
  | BURROW_CMD_UPDATE_MESSAGE =>
      given (cmd_account c) && given (cmd_queue c) && given (cmd_message_id c) &&
      negb (is_null (cmd_attributes c))
  | BURROW_CMD_CREATE_MESSAGE =>
      given (cmd_account c) && given (cmd_queue c) && given (cmd_message_id c) &&
      given (cmd_body c)
  end.

(** The command structure a call leaves in the burrow: what it does not set is
    still there from before. *)
Definition takes_account (c : burrow_command_t) : bool :=
  match c with
  | BURROW_CMD_GET_ACCOUNTS | BURROW_CMD_DELETE_ACCOUNTS | BURROW_CMD_NONE => false
  | _ => true
  end.
Definition takes_queue (c : burrow_command_t) : bool :=
  match c with
  | BURROW_CMD_GET_QUEUES | BURROW_CMD_DELETE_QUEUES => false
  | _ => takes_account c
  end.
Definition takes_message_id (c : burrow_command_t) : bool :=
  match c with
  | BURROW_CMD_GET_MESSAGE | BURROW_CMD_UPDATE_MESSAGE | BURROW_CMD_DELETE_MESSAGE
  | BURROW_CMD_CREATE_MESSAGE => true
  | _ => false
  end.
Definition takes_body (c : burrow_command_t) : bool :=
  match c with BURROW_CMD_CREATE_MESSAGE => true | _ => false end.
Definition takes_filters (c : burrow_command_t) : bool :=
  match c with BURROW_CMD_CREATE_MESSAGE | BURROW_CMD_NONE => false | _ => true end.
Definition takes_attributes (c : burrow_command_t) : bool :=
  match c with
  | BURROW_CMD_CREATE_MESSAGE | BURROW_CMD_UPDATE_MESSAGE | BURROW_CMD_UPDATE_MESSAGES => true
  | _ => false
  end.

Definition filled (fn : option burrow_command_t) (c old : burrow_command_st) : burrow_command_st :=
  let k := cmd_command c in
  let pick {A} (takes : burrow_command_t → bool) (field : burrow_command_st → A) :=
    if takes k then field c else field old in
  Command k fn (pick takes_account cmd_account) (pick takes_queue cmd_queue)
    (pick takes_message_id cmd_message_id) (pick takes_body cmd_body)
    (pick takes_body cmd_body_size) (pick takes_filters cmd_filters)
    (pick takes_attributes cmd_attributes).

Definition command_name (c : burrow_command_t) : string :=
  match c with
  | BURROW_CMD_GET_ACCOUNTS => "burrow_get_accounts"
  | BURROW_CMD_DELETE_ACCOUNTS => "burrow_delete_accounts"
  | BURROW_CMD_GET_QUEUES => "burrow_get_queues"
  | BURROW_CMD_DELETE_QUEUES => "burrow_delete_queues"
  | BURROW_CMD_GET_MESSAGES => "burrow_get_messages"
  | BURROW_CMD_UPDATE_MESSAGES => "burrow_update_messages"
  | BURROW_CMD_DELETE_MESSAGES => "burrow_delete_messages"
  | BURROW_CMD_GET_MESSAGE => "burrow_get_message"
  | BURROW_CMD_UPDATE_MESSAGE => "burrow_update_message"
  | BURROW_CMD_DELETE_MESSAGE => "burrow_delete_message"
  | BURROW_CMD_CREATE_MESSAGE => "burrow_create_message"
  | BURROW_CMD_NONE => ""
  end.

Lemma required_filled fn c old : required (filled fn c old) = required c.
Proof. by destruct c as [[] ????????]. Qed.

(** The flag set and cleared again. *)
Lemma processing_set fl : has_flag (Z.lor fl BURROW_FLAG_PROCESSING) BURROW_FLAG_PROCESSING = true.
Proof.
  unfold has_flag. apply negb_true_iff, Z.eqb_neq. intros E.
  apply (f_equal (λ z, Z.testbit z 1)) in E. rw Z.land_spec Z.lor_spec in E.
  by rw orb_true_r in E.
Qed.

Lemma processing_cleared fl :
  has_flag fl BURROW_FLAG_PROCESSING = false →
  Z.lxor (Z.lor fl BURROW_FLAG_PROCESSING) BURROW_FLAG_PROCESSING = fl.
Proof.
  unfold has_flag. intros E%negb_false_iff%Z.eqb_eq. rw -(Z.lor_0_r fl) -{1}(Z.lor_0_r fl).
  apply Z.bits_inj'. intros n Hn. rw Z.lxor_spec !Z.lor_spec Z.bits_0.
  apply (f_equal (λ z, Z.testbit z n)) in E. rw Z.land_spec Z.bits_0 in E.
  destruct (Z.testbit fl n), (Z.testbit BURROW_FLAG_PROCESSING n); done.
Qed.

Lemma triple_wp {A} P (m : M A) w Q : triple P m w Q → P ⊢ wp m w Q.
Proof. intros HT. split=> h Hh hf Hd. by apply HT. Qed.

Section frontend.
Context {backends : Backends} (bl : loc) (bo : owner).
Implicit Types (b : burrow_st) (c : burrow_command_st).

(** The burrow once the command [c] has been set up. *)
Definition slot_of b (k : burrow_command_t) : option burrow_command_t :=
  match be_command (functions_of b) k with Some _ => Some k | None => None end.
Definition started c b : burrow_st :=
  b <| b_cmd := filled (slot_of b (cmd_command c)) c (b_cmd b) |> <| b_state := BURROW_STATE_START |>.

(** What a call of a command comes to: [Q] with its refusal, or the burrow left
    to [proc] when it processes by itself. *)
Lemma wp_call_command proc c b w Q :
  cmd_command c ≠ BURROW_CMD_NONE →
  bl ↦{bo} b ∗
  (if decide (b_state b ≠ BURROW_STATE_IDLE) then
     ∀ w', ⟦ evolves w (log_events b BURROW_VERBOSE_ERROR
               (command_name (cmd_command c) +:+ ": burrow not idle")) w' ⟧ -∗
       bl ↦{bo} b -∗ Q EINPROGRESS w'
   else if negb (required c) then
     ∀ w', ⟦ evolves w (log_events b BURROW_VERBOSE_ERROR
               (command_name (cmd_command c) +:+ ": invalid parameters")) w' ⟧ -∗
       bl ↦{bo} b -∗ Q EINVAL w'
   else bl ↦{bo} started c b -∗
     if has_flag (b_options b) BURROW_OPT_AUTOPROCESS then wp (proc (Some bl)) w Q else Q 0%Z w)
  ⊢ wp (call_command proc (Some bl) c) w Q.
Proof.
  iIntros (Hc) "[Hb HQ]".
  assert (call_command proc (Some bl) c =
    start_command proc (Some bl) (command_name (cmd_command c)) (required c) (cmd_command c)
      (λ old, (filled (cmd_command_fn old) c old) <| cmd_command := cmd_command old |>)) as ->.
  { destruct c as [[] ????????]; [reflexivity..|by destruct Hc]. }
  unfold start_command. wload "Hb". case_decide.
  { wp_focus. iApply wp_log_at. iFrame "Hb". iIntros (w') "He Hb". wret. iApply ("HQ" with "He Hb"). }
  destruct (required c); simpl.
  2: { wp_focus. iApply wp_log_at. iFrame "Hb". iIntros (w') "He Hb". wret. iApply ("HQ" with "He Hb"). }
  wmodify "Hb". wmodify "Hb". wmodify "Hb". wmodify "Hb". wload "Hb".
  iSpecialize ("HQ" with "Hb"). destruct (has_flag (b_options b) BURROW_OPT_AUTOPROCESS); [done|].
  by wret.
Qed.

(** A burrow that is already processing. *)
Lemma wp_process_busy fuel b w Q :
  0 < fuel → has_flag (b_flags b) BURROW_FLAG_PROCESSING = true →
  bl ↦{bo} b ∗ (bl ↦{bo} b -∗ Q EAGAIN w) ⊢ wp (burrow_process fuel (Some bl)) w Q.
Proof.
  iIntros (Hf Hp) "[Hb HQ]". destruct fuel as [|fuel]; [lia|]. simpl. wload "Hb". rw Hp.
  wret. by iApply "HQ".
Qed.

(** A burrow as the state machine moves it: everything but the state, the flags
    and the command is that of [b0]. *)
Definition at_state b0 (st : burrow_state_t) (fl : Z) (cmd : burrow_command_st) : burrow_st :=
  b0 <| b_state := st |> <| b_flags := fl |> <| b_cmd := cmd |>.

Lemma at_state_self b : at_state b (b_state b) (b_flags b) (b_cmd b) = b.
Proof. by destruct b. Qed.

(** What a backend that never waits promises to the frontend: every command it
    is given with its required parameters runs to an end other than [EAGAIN] and
    keeps the backend's invariant [I]. [accepts] restricts what the commands may
    carry; the frontend keeps it. *)
Class SyncBackend (b0 : burrow_st) (E : environment) (accepts : burrow_command_st → Prop)
    (I : hPropI) : Prop := {
  sync_commands k : k ≠ BURROW_CMD_NONE → is_Some (be_command (functions_of b0) k);
  sync_filled fn c old : accepts c → accepts old → accepts (filled fn c old);
  sync_idle c : accepts c → accepts (c <| cmd_command := BURROW_CMD_NONE |>);
  sync_run k f cmd st fl w :
    be_command (functions_of b0) k = Some f → cmd_command cmd = k →
    required cmd = true → accepts cmd → w_env w = E →
    bl ↦{bo} at_state b0 st fl cmd ∗ I ⊢
    wp (f (b_backend_context b0) cmd) w (λ r w',
      ⟦ r ≠ EAGAIN ∧ ∃ es, evolves w es w' ⟧ ∗ bl ↦{bo} at_state b0 st fl cmd ∗ I) }.

(** A command that is accepted: given to an idle burrow with its parameters. *)
Definition accepted (idle : bool) (c : burrow_command_st) : bool :=
  idle && required c && bool_decide (cmd_command c ≠ BURROW_CMD_NONE).

(** The calls a completion callback may make to a burrow that is idle or has a
    command of the callback's set up: commands, of which those that are accepted
    are to suit the backend (the others are refused, whatever they are), further
    processing, cancellations as long as no command is set up, and events for a
    backend that ignores them. *)
Definition permitted (b0 : burrow_st) (accepts : burrow_command_st → Prop) (idle : bool)
    (call : api_call) : Prop :=
  match call with
  | CallCommand c => accepted idle c = true → accepts c
  | CallProcess => True
  | CallEventRaised _ _ => be_event_raised (functions_of b0) = None
  | CallCancel => idle = true
  end.

Definition still_idle (idle : bool) (call : api_call) : bool :=
  match call with CallCommand c => idle && negb (accepted idle c) | _ => idle end.

Fixpoint all_permitted (b0 : burrow_st) (accepts : burrow_command_st → Prop) (idle : bool)
    (calls : list api_call) : Prop :=
  match calls with
  | [] => True
  | call :: calls =>
      permitted b0 accepts idle call ∧ all_permitted b0 accepts (still_idle idle call) calls
  end.

Definition state_of (idle : bool) : burrow_state_t :=
  if idle then BURROW_STATE_IDLE else BURROW_STATE_START.

(** A command that is set up. *)
Definition ready (cmd : burrow_command_st) : Prop :=
  cmd_command cmd ≠ BURROW_CMD_NONE ∧ cmd_command_fn cmd = Some (cmd_command cmd) ∧
  required cmd = true.

Section sync.
Context (b0 : burrow_st) (E : environment) (accepts : burrow_command_st → Prop) (I : hPropI).
Context `{!SyncBackend b0 E accepts I}.
Context (fuel : nat) (Hfuel : 0 < fuel).
Context (fl : Z) (Hfl : has_flag fl BURROW_FLAG_PROCESSING = true).

(** Between two turns of the loop. *)
Definition sound (st : burrow_state_t) (cmd : burrow_command_st) : Prop :=
  accepts cmd ∧
  match st with
  | BURROW_STATE_IDLE | BURROW_STATE_FINISH => True
  | BURROW_STATE_START => ready cmd
  | _ => False
  end.

Lemma sound_started c cmd :
  cmd_command c ≠ BURROW_CMD_NONE → required c = true → accepts c → accepts cmd →
  sound BURROW_STATE_START (filled (slot_of b0 (cmd_command c)) c cmd).
Proof using Type*.
  intros Hc Hr Hac Ha. split; [by apply sync_filled|]. split_and!; [done| |by rw required_filled].
  destruct (sync_commands _ Hc) as [f Hf]. unfold slot_of. by rw Hf.
Qed.

(** One call of the user from within the completion callback. *)
Lemma wp_user_call call idle cmd w Q :
  permitted b0 accepts idle call → sound (state_of idle) cmd →
  bl ↦{bo} at_state b0 (state_of idle) fl cmd ∗
  (∀ cmd' es w',
     ⟦ evolves w es w' ∧ sound (state_of (still_idle idle call)) cmd' ⟧ -∗
     bl ↦{bo} at_state b0 (state_of (still_idle idle call)) fl cmd' -∗ Q tt w')
  ⊢ wp (user_call (burrow_process fuel) (Some bl) call) w Q.
Proof using Type*.
  iIntros (Hp Hs) "[Hb HQ]". destruct call as [c| |fd ev|]; simpl in *.
  - wp_focus. destruct (decide (cmd_command c = BURROW_CMD_NONE)) as [En|Hc].
    { unfold call_command. rw En. wret. wret. unfold accepted. rw bool_decide_false; [|by intros []].
      rw !andb_false_r andb_true_r. iApply ("HQ" with "[%] Hb"). auto with world. }
    unfold accepted in *. rw bool_decide_true // in Hp. rw bool_decide_true //. rw andb_true_r in Hp. rw andb_true_r.
    iApply wp_call_command; [done|]. iFrame "Hb". simpl. destruct idle; simpl in *.
    2: { iIntros (w') "%He Hb". wret. by iApply ("HQ" with "[%] Hb"). }
    destruct (required c) eqn:Hr; simpl in *.
    2: { iIntros (w') "%He Hb". wret. by iApply ("HQ" with "[%] Hb"). }
    pose proof (sound_started c cmd Hc Hr (Hp eq_refl) (proj1 Hs)) as Hst'. iIntros "Hb".
    destruct (has_flag (b_options b0) BURROW_OPT_AUTOPROCESS).
    + iApply (wp_process_busy _ (started c (at_state b0 BURROW_STATE_IDLE fl cmd))); [done..|].
      iFrame "Hb". iIntros "Hb". wret. iApply ("HQ" with "[%] Hb"). auto with world.
    + wret. iApply ("HQ" with "[%] Hb"). auto with world.
  - wp_focus. iApply (wp_process_busy _ (at_state b0 (state_of idle) fl cmd)); [done..|].
    iFrame "Hb". iIntros "Hb". wret. iApply ("HQ" with "[%] Hb"). auto with world.
  - wp_focus. unfold burrow_event_raised. wload "Hb". unfold functions_of; simpl.
    fold (functions_of b0). rw Hp. wp_focus. iApply wp_log_at. iFrame "Hb".
    iIntros (w') "%He Hb". wret. wret. by iApply ("HQ" with "[%] Hb").
  - rw Hp. unfold burrow_cancel. wload "Hb". wret. rw Hp in Hs.
    iApply ("HQ" with "[%] Hb"). auto with world.
Qed.

Lemma wp_user_calls calls idle cmd w Q :
  all_permitted b0 accepts idle calls → sound (state_of idle) cmd →
  bl ↦{bo} at_state b0 (state_of idle) fl cmd ∗
  (∀ idle' cmd' es w',
     ⟦ evolves w es w' ∧ sound (state_of idle') cmd' ⟧ -∗
     bl ↦{bo} at_state b0 (state_of idle') fl cmd' -∗ Q tt w')
  ⊢ wp (user_calls (burrow_process fuel) (Some bl) calls) w Q.
Proof using Type*.
  revert idle cmd w. induction calls as [|call calls IH]; intros idle cmd w.
  - iIntros (_ Hs) "[Hb HQ]". simpl. wret. iApply ("HQ" $! idle with "[%] Hb"). auto with world.
  - iIntros ([Hp Hps] Hs) "[Hb HQ]". simpl. wp_focus.
    iApply wp_user_call; [done..|]. iFrame "Hb". iIntros (cmd' es w' (He & Hs')) "Hb".
    iApply (IH (still_idle idle call)); [done..|]. iFrame "Hb". iIntros (idle' cmd'' es' w'' (He' & H)) "Hb".
    iApply ("HQ" with "[%] Hb"). split; [by eapply evolves_trans|done].
Qed.

(** The user's callback makes finitely many calls in all. *)
Context (K : nat) (Hquiet : ∀ n, K ≤ n → e_user E n = []).
Context (Hperm : ∀ n, all_permitted b0 accepts true (e_user E n)).

(** Turns left at most: each command takes two, and each batch of calls one
    consultation of the environment. *)
Definition turns (st : burrow_state_t) (w : world) : nat :=
  3 * (K - w_tick w) +
  match st with BURROW_STATE_START => 2 | BURROW_STATE_FINISH => 1 | _ => 0 end.

(** The completion of a command. *)
Lemma wp_callback_complete cmd w Q :
  w_env w = E → accepts cmd →
  bl ↦{bo} at_state b0 BURROW_STATE_IDLE fl cmd ∗
  (∀ st' cmd' es w',
     ⟦ evolves w es w' ∧ sound st' cmd' ∧ turns st' w' < turns BURROW_STATE_FINISH w ⟧ -∗
     bl ↦{bo} at_state b0 st' fl cmd' -∗ Q tt w')
  ⊢ wp (burrow_callback_complete (burrow_process fuel) (Some bl)) w Q.
Proof using Type*.
  iIntros (HE Ha) "[Hb HQ]". unfold burrow_callback_complete. wload "Hb".
  destruct (b_complete_fn b0).
  2: { wret. iApply ("HQ" $! BURROW_STATE_IDLE with "[%] Hb"). split_and!; [apply evolves_refl|done|].
       unfold turns. lia. }
  wp_focus. iApply wp_emit. wp_focus. iApply wp_consult. simpl.
  pose proof (Hperm (w_tick w)) as Hp. pose proof (Hquiet (w_tick w)) as Hq. rw -HE in Hp Hq.
  destruct (decide (K ≤ w_tick w)) as [HK|HK].
  - rw Hq //. simpl. wret. iApply ("HQ" $! BURROW_STATE_IDLE _ [EvComplete] with "[%] Hb").
    split_and!; [|done|unfold turns; simpl; lia].
    eapply (evolves_trans _ [EvComplete] _ []); auto with world. apply (evolves_tick 1).
  - iApply (wp_user_calls _ true); [done..|]. iFrame "Hb".
    iIntros (idle' cmd' es w' (He & Hs)) "Hb".
    iApply ("HQ" $! _ _ (EvComplete :: es) with "[%] Hb"). split_and!; [|done|].
    + eapply (evolves_trans _ [EvComplete] _ es); [apply evolves_emit|].
      eapply evolves_silent; [apply (evolves_tick 1)|done].
    + destruct He as (_ & Ht & _). unfold turns. simpl in Ht. destruct idle'; simpl; lia.
Qed.

(** One turn of the loop leaves it, idle, or comes closer to that. *)
Lemma wp_process_step st cmd result w Q :
  w_env w = E → sound st cmd →
  bl ↦{bo} at_state b0 st fl cmd ∗ I ∗
  (∀ r st' cmd' es w',
     ⟦ evolves w es w' ∧ sound st' cmd' ∧
       match r with
       | inl _ => turns st' w' < turns st w
       | inr (_, finished) => finished = true ∧ st' = BURROW_STATE_IDLE
       end ⟧ -∗
     bl ↦{bo} at_state b0 st' fl cmd' -∗ I -∗ Q r w')
  ⊢ wp (process_step (burrow_process fuel) (Some bl) result) w Q.
Proof using Type*.
  iIntros (HE Hs) "(Hb & HI & HQ)". unfold process_step. wload "Hb". destruct st; simpl.
  - wret. iApply ("HQ" $! (inr (result, true)) BURROW_STATE_IDLE with "[%] Hb HI"). auto with world.
  - destruct Hs as (Ha & Hc & Hfn & Hr). destruct (sync_commands _ Hc) as [f Hf].
    unfold functions_of; simpl; fold (functions_of b0).
    assert (cmd_command_fn cmd ≫= be_command (functions_of b0) = Some f) as -> by by rw Hfn.
    wp_focus. iApply (wp_wand with "[Hb HI]").
    { iApply (sync_run (cmd_command cmd)); [done..|]. iFrame. }
    iIntros (r w') "([%Hne [%es %He]] & Hb & HI)". simpl. rw decide_False //.
    wmodify "Hb". wret.
    iApply ("HQ" $! (inl r) BURROW_STATE_FINISH with "[%] Hb HI"). split_and!; [done..|].
    destruct He as (_ & Ht & _). unfold turns. lia.
  - by destruct Hs.
  - by destruct Hs.
  - iAssert (∀ w1 es1, ⟦ evolves w es1 w1 ⟧ -∗ bl ↦{bo} at_state b0 BURROW_STATE_FINISH fl cmd -∗
      wp (modify (Some bl) (λ b, b <| b_state := BURROW_STATE_IDLE |>);;
          modify (Some bl) (set_cmd (λ c, c <| cmd_command := BURROW_CMD_NONE |>));;
          burrow_callback_complete (burrow_process fuel) (Some bl);; mret (inl result)) w1 Q)%I
      with "[HI HQ]" as "H".
    { iIntros (w1 es1 He) "Hb". wmodify "Hb". wmodify "Hb". wp_focus.
      iApply (wp_callback_complete (cmd <| cmd_command := BURROW_CMD_NONE |>)).
      { by destruct He as [-> _]. }
      { by apply sync_idle, Hs. }
      iFrame "Hb". iIntros (st' cmd' es w' (He' & Hs' & Ht)) "Hb". wret.
      iApply ("HQ" $! (inl result) with "[%] Hb HI"). split_and!; [by eapply evolves_trans|done|].
      destruct He as (_ & Ht' & _). unfold turns in *. lia. }
    wp_focus. destruct (0 <? b_watch_size b0)%Z.
    + iApply wp_log_at. iFrame "Hb". iIntros (w1) "%He Hb". iApply ("H" with "[//] Hb").
    + wret. iApply ("H" $! w [] with "[%] Hb"). auto with world.
Qed.

Lemma wp_process_loop n st cmd result w Q :
  w_env w = E → sound st cmd → turns st w < n →
  bl ↦{bo} at_state b0 st fl cmd ∗ I ∗
  (∀ r cmd' es w',
     ⟦ evolves w es w' ∧ accepts cmd' ⟧ -∗
     bl ↦{bo} at_state b0 BURROW_STATE_IDLE fl cmd' -∗ I -∗ Q (r, true) w')
  ⊢ wp (loop n (process_step (burrow_process fuel) (Some bl)) result) w Q.
Proof using Type*.
  revert st cmd result w. induction n as [|n IH]; [lia|]. intros st cmd result w.
  iIntros (HE Hs Ht) "(Hb & HI & HQ)". simpl. wp_focus. iApply (wp_process_step with "[-]"); [done..|].
  iFrame "Hb HI". iIntros (r st' cmd' es w' (He & Hs' & Hr)) "Hb HI". destruct r as [r|[r fin]].
  - iApply (IH with "[-]"); [by destruct He as [-> _]|done|lia|]. iFrame "Hb HI".
    iIntros (r' cmd'' es' w'' (He' & Ha)) "Hb HI". iApply ("HQ" with "[%] Hb HI").
    split; [by eapply evolves_trans|done].
  - destruct Hr as [-> ->]. wret. iApply ("HQ" with "[%] Hb HI"). split; [done|apply Hs'].
Qed.
End sync.

(** One command of which the backend's rule is known, no user calls following
    it: the loop is that command and its completion. *)
Lemma wp_loop_one proc n b0 fl cmd k f result w Q :
  b_watch_size b0 = 0%Z → cmd_command_fn cmd = Some k →
  be_command (functions_of b0) k = Some f → (∀ n, e_user (w_env w) n = []) →
  bl ↦{bo} at_state b0 BURROW_STATE_START fl cmd ∗
  (bl ↦{bo} at_state b0 BURROW_STATE_START fl cmd -∗
     wp (f (b_backend_context b0) cmd) w (λ r w1, ⟦ r ≠ EAGAIN ∧ w_env w1 = w_env w ⟧ ∗
       bl ↦{bo} at_state b0 BURROW_STATE_START fl cmd ∗
       (∀ w', ⟦ evolves w1 (when_set (b_complete_fn b0) EvComplete) w' ⟧ -∗
          bl ↦{bo} at_state b0 BURROW_STATE_IDLE fl (cmd <| cmd_command := BURROW_CMD_NONE |>) -∗
          Q (r, true) w')))
  ⊢ wp (loop (S (S (S n))) (process_step proc (Some bl)) result) w Q.
Proof.
  iIntros (Hws Hfn Hf Hu) "[Hb HQ]". cbn [loop]. wp_focus. unfold process_step at 1. wload "Hb".
  unfold functions_of; simpl; fold (functions_of b0).
  assert (cmd_command_fn cmd ≫= be_command (functions_of b0) = Some f) as -> by by rw Hfn.
  iDestruct ("HQ" with "Hb") as "H". wp_focus. iApply (wp_wand with "H").
  iIntros (r w1) "([%Hr %He] & Hb & HQ)". simpl. rw decide_False //. wmodify "Hb". wret.
  wp_focus. unfold process_step at 1. wload "Hb".
  destruct (Z.ltb_spec 0 (b_watch_size b0)) as [Hlt|_]; [lia|]. wret. wmodify "Hb". wmodify "Hb".
  wp_focus. unfold burrow_callback_complete. wload "Hb".
  iApply (wp_wand _ _ (λ _ w', ⟦ evolves w1 (when_set (b_complete_fn b0) EvComplete) w' ⟧)%I).
  { destruct (b_complete_fn b0); [|wret; iPureIntro; auto with world].
    wp_focus. iApply wp_emit. wp_focus. iApply wp_consult. simpl.
    assert (e_user (w_env w1) (w_tick w1) = []) as -> by (rw He; apply Hu). simpl. wret. iPureIntro.
    eapply (evolves_trans _ [EvComplete] _ []); [apply evolves_emit|]. apply (evolves_tick 1). }
  iIntros ([] w2) "%He2". wret. wp_focus. unfold process_step. wload "Hb". wret. wret.
  iApply ("HQ" with "[//] [Hb]"). iExact "Hb".
Qed.

Lemma burrow_process_S fuel p :
  burrow_process (S fuel) p =
  (b ← load p;
   if has_flag (b_flags b) BURROW_FLAG_PROCESSING then mret EAGAIN else
   modify p (λ b, b <| b_flags := Z.lor (b_flags b) BURROW_FLAG_PROCESSING |>);;
   left ← loop fuel (process_step (burrow_process fuel) p) 0%Z;
   let '(result, finished) := left in
   (if (finished : bool)
    then modify p (λ b, b <| b_flags := Z.lxor (b_flags b) BURROW_FLAG_PROCESSING |>)
    else mret tt);;
   mret result).
Proof. done. Qed.

Lemma wp_process_one fuel b0 fl cmd k f w Q :
  4 ≤ fuel → has_flag fl BURROW_FLAG_PROCESSING = false → b_watch_size b0 = 0%Z →
  cmd_command_fn cmd = Some k → be_command (functions_of b0) k = Some f →
  (∀ n, e_user (w_env w) n = []) →
  bl ↦{bo} at_state b0 BURROW_STATE_START fl cmd ∗
  (∀ fl', bl ↦{bo} at_state b0 BURROW_STATE_START fl' cmd -∗
     wp (f (b_backend_context b0) cmd) w (λ r w1, ⟦ r ≠ EAGAIN ∧ w_env w1 = w_env w ⟧ ∗
       bl ↦{bo} at_state b0 BURROW_STATE_START fl' cmd ∗
       (∀ w', ⟦ evolves w1 (when_set (b_complete_fn b0) EvComplete) w' ⟧ -∗
          bl ↦{bo} at_state b0 BURROW_STATE_IDLE fl (cmd <| cmd_command := BURROW_CMD_NONE |>) -∗
          Q r w')))
  ⊢ wp (burrow_process fuel (Some bl)) w Q.
Proof.
  iIntros (Hfuel Hfl Hws Hfn Hf Hu) "[Hb HQ]".
  destruct fuel as [|[|[|[|fuel]]]]; [lia..|]. rw burrow_process_S. remember (S (S (S fuel))) as n eqn:En.
  wload "Hb". rw Hfl. wmodify "Hb". wp_focus. rw En.
  iApply (wp_loop_one _ fuel b0 (Z.lor fl BURROW_FLAG_PROCESSING) cmd); [done..|]. iFrame "Hb".
  iIntros "Hb". iApply (wp_wand with "[HQ Hb]"); [by iApply "HQ"|].
  iIntros (r w1) "($ & $ & HQ)". iIntros (w') "He Hb". wmodify "Hb". wret.
  rw processing_cleared //. iApply ("HQ" with "He Hb").
Qed.
End frontend.
