(* ===== verification/Assoc.v ===== *)
(** Lemmas on the association lists and ranges of Server.v, and how they relate
    to the entries of a dictionary. *)
From S2P Require Import Prelude Types Heap Macros Dictionary Memory Server Logic MacrosSpec DictionarySpec.
From iris.proofmode Require Import proofmode.

Section alist.
Context {A : Type}.
Implicit Types (l pre post : list (string * A)).

Lemma alookup_None k l : alookup k l = None ↔ k ∉ l.*1.
Proof.
  induction l as [|[k' a] l IH]; cbn; [by split; [intros _ ?%elem_of_nil|]|].
  destruct (String.eqb_spec k' k) as [->|Hk].
  - split; [done|]. intros []. constructor.
  - rw IH not_elem_of_cons. by split; [auto|intros []].
Qed.

Lemma alookup_split k l a :
  alookup k l = Some a → ∃ pre post, l = pre ++ (k, a) :: post ∧ k ∉ pre.*1.
Proof.
  induction l as [|[k' a'] l IH]; cbn; [done|].
  destruct (String.eqb_spec k' k) as [->|Hk]; intros E.
  - simplify_eq. exists [], l. split; [done|]. apply not_elem_of_nil.
  - destruct (IH E) as (pre & post & -> & Hpre). exists ((k', a') :: pre), post.
    split; [done|]. cbn. apply not_elem_of_cons. by split; [intros ->|].
Qed.

Section at_key.
Context (k : string) (pre post : list (string * A)) (a : A).
Context (Hpre : k ∉ pre.*1).

Lemma alookup_mid : alookup k (pre ++ (k, a) :: post) = Some a.
Proof using Hpre.
  induction pre as [|[k' a'] pre' IH]; cbn; [by rw String.eqb_refl|].
  apply not_elem_of_cons in Hpre as [Hk Hp].
  destruct (String.eqb_spec k' k); [done|]. by apply IH.
Qed.

Lemma aremove_mid : aremove k (pre ++ (k, a) :: post) = pre ++ post.
Proof using Hpre.
  induction pre as [|[k' a'] pre' IH]; cbn; [by rw String.eqb_refl|].
  apply not_elem_of_cons in Hpre as [Hk Hp].
  destruct (String.eqb_spec k' k); [done|]. by rw IH.
Qed.

Lemma aset_mid a' : aset k a' (pre ++ (k, a) :: post) = pre ++ (k, a') :: post.
Proof using Hpre.
  induction pre as [|[k' x] pre' IH]; cbn; [by rw String.eqb_refl|].
  apply not_elem_of_cons in Hpre as [Hk Hp].
  destruct (String.eqb_spec k' k); [done|]. by rw IH.
Qed.
End at_key.

Lemma aset_absent k a l : k ∉ l.*1 → aset k a l = l ++ [(k, a)].
Proof.
  induction l as [|[k' x] l IH]; cbn; [done|]. intros [Hk Hp]%not_elem_of_cons.
  destruct (String.eqb_spec k' k); [done|]. by rw IH.
Qed.

Lemma alookup_aset k a l : alookup k (aset k a l) = Some a.
Proof.
  induction l as [|[k' x] l IH]; cbn; [by rw String.eqb_refl|].
  destruct (String.eqb k' k) eqn:E; cbn; [by rw String.eqb_refl|]. by rw E.
Qed.

Lemma range_split_at marker limit l :
  range_before marker l ++ range_in marker limit l ++ range_after marker limit l = l.
Proof. unfold range_before, range_in, range_after. by rw !take_drop. Qed.

Lemma range_in_NoDup marker limit l :
  NoDup l.*1 → NoDup (range_in marker limit l).*1.
Proof.
  rw -{1}(range_split_at marker limit l) !fmap_app. by intros (_ & _ & (? & _)%NoDup_app)%NoDup_app.
Qed.
End alist.

(** ** Ranges of entries are ranges of their keys *)

Lemma key_index_find k es :
  key_index k (e_key <$> es) = None ↔ find_entry k es = None.
Proof.
  induction es as [|e es IH]; cbn; [done|]. destruct (String.eqb (e_key e) k); [done|].
  by rw -IH fmap_None.
Qed.

Lemma from_key_drop k es n :
  key_index k (e_key <$> es) = Some n → from_key k es = drop n es.
Proof.
  revert n. induction es as [|e es IH]; cbn; intros n; [done|].
  destruct (String.eqb (e_key e) k); [by intros [= <-]|].
  intros (n' & E & ->)%fmap_Some. by apply IH.
Qed.

Lemma range_from_drop marker es :
  range_from marker es = drop (range_start marker (e_key <$> es)) es.
Proof.
  destruct marker as [k|]; [|done]. unfold range_from, range_start.
  destruct (key_index k (e_key <$> es)) as [n|] eqn:E; cbn.
  - rw (from_key_drop _ _ _ E). destruct (find_entry k es) eqn:F; [done|].
    apply key_index_find in F. congruence.
  - apply key_index_find in E. by rw E.
Qed.

(** The same range, on the entries of a dictionary. *)
Lemma range_from_count marker limit es :
  take (iter_bound limit es) (range_from marker es) =
  take (range_count limit (length es)) (drop (range_start marker (e_key <$> es)) es).
Proof. by rw range_from_drop. Qed.

(** ** Ranges under a map of the values *)

Section range_map.
Context {A B : Type} (f : A → B).
Let on_snd (x : string * A) : string * B := (x.1, f x.2).

Lemma keys_map (l : list (string * A)) : (on_snd <$> l).*1 = l.*1.
Proof. by rw -list_fmap_compose. Qed.

Lemma range_before_map marker (l : list (string * A)) :
  range_before marker (on_snd <$> l) = on_snd <$> range_before marker l.
Proof. unfold range_before. by rw keys_map fmap_take. Qed.

Lemma range_in_map marker limit (l : list (string * A)) :
  range_in marker limit (on_snd <$> l) = on_snd <$> range_in marker limit l.
Proof. unfold range_in. by rw keys_map length_fmap fmap_take fmap_drop. Qed.

Lemma range_after_map marker limit (l : list (string * A)) :
  range_after marker limit (on_snd <$> l) = on_snd <$> range_after marker limit l.
Proof. unfold range_after. by rw keys_map length_fmap !fmap_drop. Qed.
End range_map.

(** [put_queue] on a server split at the account and the queue. *)
Lemma put_queue_split a q (ms ms' : messages) (preA postA : server) (preQ postQ : queues) :
  a ∉ preA.*1 → q ∉ preQ.*1 →
  put_queue a q ms' (preA ++ (a, preQ ++ (q, ms) :: postQ) :: postA) =
  match ms', preQ ++ postQ with
  | [], [] => preA ++ postA
  | [], qs => preA ++ (a, qs) :: postA
  | _, _ => preA ++ (a, preQ ++ (q, ms') :: postQ) :: postA
  end.
Proof.
  intros HA HQ. unfold put_queue. rw alookup_mid // aremove_mid //.
  destruct ms'; [destruct (preQ ++ postQ)|]; rw ?aremove_mid ?aset_mid //; by destruct (preQ ++ postQ).
Qed.

Lemma queue_of_split a q (ms : messages) (preA postA : server) (preQ postQ : queues) :
  a ∉ preA.*1 → q ∉ preQ.*1 →
  queue_of (Some a) (Some q) (preA ++ (a, preQ ++ (q, ms) :: postQ) :: postA) = Some (a, q, ms).
Proof. intros HA HQ. unfold queue_of. by rw alookup_mid // alookup_mid. Qed.

(** Putting back the queue that is there changes nothing. *)
Lemma put_queue_same a q (ms : messages) (s : server) a' q' :
  queue_of a' q' s = Some (a, q, ms) → ms ≠ [] → put_queue a q ms s = s.
Proof.
  unfold queue_of. destruct a' as [a'|], q' as [q'|]; try done.
  destruct (alookup a' s) as [qs|] eqn:EA; [|done]. cbn.
  intros (ms' & EQ & [= -> -> ->])%fmap_Some. intros Hne.
  destruct (alookup_split _ _ _ EA) as (preA & postA & -> & HA).
  destruct (alookup_split _ _ _ EQ) as (preQ & postQ & -> & HQ).
  rw put_queue_split //. by destruct ms'.
Qed.

Lemma message_of_create a q id m s :
  ∃ ms, message_of (Some a) (Some q) (Some id) (create_message a q id m s) = Some (a, q, ms, id, m).
Proof.
  unfold message_of, queue_of, create_message. rw !alookup_aset. cbn. rw alookup_aset.
  by eexists.
Qed.
