(* ===== verification/TreeSpec.v ===== *)
(** Dictionaries whose entries own what their data points to: the shape of each
    level of the memory backend, with a rule for every way memory.c uses one. *)
From S2P Require Import Prelude Types Heap Macros Dictionary Memory Server Logic MacrosSpec DictionarySpec Assoc.
From iris.proofmode Require Import proofmode.

Section tree.
Context (o : owner) (bl : loc) {A : Type} (R : loc → string → A → hPropI).

(** An entry and the pair it stands for. *)
Definition slot (e : entry) (ka : string * A) : hPropI :=
  (⟦ e_key e = ka.1 ⟧ ∗ ∃ p, ⟦ e_data e = Some p ⟧ ∗ R p ka.1 ka.2)%I.

Fixpoint slots (es : list entry) (l : list (string * A)) : hPropI :=
  match es, l with
  | [], [] => emp
  | e :: es, ka :: l => slot e ka ∗ slots es l
  | _, _ => ⟦ False ⟧
  end%I.

(** The dictionary at [d] maps the keys of [l], in this order and each once, to
    blocks that represent its values. *)
Definition tree (d : loc) (l : list (string * A)) : hPropI :=
  (⟦ NoDup l.*1 ⟧ ∗ ∃ es, dict o bl d es ∗ slots es l)%I.

(** A tree whose entry for [k], at node [n], has been opened: its data [p] is
    not part of it. *)
Definition hole (d n kb : loc) (k : string) (p : loc) (pre post : list (string * A)) : hPropI :=
  (⟦ NoDup (pre.*1 ++ k :: post.*1) ⟧ ∗ ∃ es1 es2,
     dict o bl d (es1 ++ Entry n kb k (Some p) :: es2) ∗ slots es1 pre ∗ slots es2 post)%I.

Lemma slots_app es1 l1 es2 l2 :
  slots es1 l1 ∗ slots es2 l2 ⊢ slots (es1 ++ es2) (l1 ++ l2).
Proof.
  revert l1. induction es1 as [|e es1 IH]; intros [|ka l1]; simpl; iIntros "[H1 H2]";
    try done; try (iDestruct "H1" as %[]).
  iDestruct "H1" as "[$ H1]". iApply IH. iFrame.
Qed.

Lemma slots_app_inv es l1 l2 :
  slots es (l1 ++ l2) ⊢ ∃ es1 es2, ⟦ es = es1 ++ es2 ⟧ ∗ slots es1 l1 ∗ slots es2 l2.
Proof.
  revert es. induction l1 as [|ka l1 IH]; intros es; simpl.
  - iIntros "H". iExists [], es. iSplit; [done|]. by iFrame.
  - destruct es as [|e es]; simpl; iIntros "H"; [iDestruct "H" as %[]|].
    iDestruct "H" as "[Hs H]". iDestruct (IH with "H") as (es1 es2 ->) "[H1 H2]".
    iExists (e :: es1), es2. iSplit; [done|]. iFrame.
Qed.

Lemma slots_take_drop n es l :
  slots es l ⊢ slots (take n es) (take n l) ∗ slots (drop n es) (drop n l).
Proof.
  revert es l. induction n as [|n IH]; intros es l; simpl.
  - iIntros "$".
  - destruct es, l; simpl; iIntros "H"; try (iDestruct "H" as %[]).
    + by iFrame.
    + iDestruct "H" as "[$ H]". by iApply IH.
Qed.

Lemma slots_keys es l : slots es l ⊢ ⌜e_key <$> es = l.*1⌝.
Proof.
  revert l. induction es as [|e es IH]; intros [|ka l]; simpl; iIntros "H";
    try done; try (iDestruct "H" as %[]).
  iDestruct "H" as "[[%Hk He] H]". iDestruct (IH with "H") as %Hl.
  iPureIntro. exact (f_equal2 cons Hk Hl).
Qed.

Lemma slots_length es l : slots es l ⊢ ⌜length es = length l⌝.
Proof.
  iIntros "H". iDestruct (slots_keys with "H") as %E. iPureIntro.
  apply (f_equal length) in E. by rw !length_fmap in E.
Qed.

Lemma tree_keys d l : tree d l ⊢ ⌜NoDup l.*1⌝.
Proof. iIntros "[% _]". done. Qed.

(** Closing a hole with a value gives a tree. *)
Lemma hole_close d n kb k p pre post a :
  hole d n kb k p pre post ∗ R p k a ⊢ tree d (pre ++ (k, a) :: post).
Proof.
  iIntros "[[%Hnd H] HR]". iDestruct "H" as (es1 es2) "(Hd & H1 & H2)". iSplit.
  { iPureIntro. by rw fmap_app. }
  iExists _. iFrame "Hd". iApply slots_app. iFrame "H1". simpl. iFrame "H2".
  unfold slot; simpl. iSplit; [done|]. iExists p. by iFrame.
Qed.

Lemma hole_fresh d n kb k p pre post :
  hole d n kb k p pre post ⊢ ⌜(k ∉ pre.*1) ∧ NoDup ((pre ++ post).*1)⌝.
Proof.
  iIntros "[%Hnd _]". iPureIntro. rw fmap_app.
  apply NoDup_app in Hnd as (H1 & H2 & [H3 H4]%NoDup_cons). split.
  - intros Hk. apply (H2 _ Hk). by left.
  - apply NoDup_app. split_and!; [done| |done]. intros x Hx Hx'. apply (H2 x Hx). by right.
Qed.

(** ** Rules *)

(** Opening a tree at one of its entries. *)
Lemma tree_open_at d pre k a post :
  tree d (pre ++ (k, a) :: post) ⊢ ∃ n kb p, hole d n kb k p pre post ∗ R p k a.
Proof.
  iIntros "[%Hnd H]". iDestruct "H" as (es) "[Hd Hs]".
  iDestruct (slots_app_inv with "Hs") as (es1 [|e es2] ->) "[H1 H2]"; simpl;
    [iDestruct "H2" as %[]|].
  iDestruct "H2" as "[Hs H2]". destruct e as [n kb k' data]. unfold slot; simpl.
  iDestruct "Hs" as "[-> H]". iDestruct "H" as (p ->) "HR".
  iExists n, kb, p. iFrame "HR". iSplit.
  { iPureIntro. by rw fmap_app in Hnd. }
  iExists es1, es2. iFrame.
Qed.

(** Opening a tree at a key that is there. *)
Lemma tree_open d l k a :
  alookup k l = Some a →
  tree d l ⊢ ∃ pre post n kb p, ⟦ l = pre ++ (k, a) :: post ⟧ ∗
    hole d n kb k p pre post ∗ R p k a.
Proof.
  intros (pre & post & -> & Hpre)%alookup_split. rw tree_open_at.
  iIntros "H". iDestruct "H" as (n kb p) "[Hh HR]". iExists pre, post, n, kb, p. by iFrame.
Qed.

Lemma find_entry_absent k es : k ∉ (e_key <$> es) → find_entry k es = None.
Proof.
  intros Hk. induction es as [|e es IH]; [done|].
  apply not_elem_of_cons in Hk as [Hne Hk]. cbn.
  destruct (String.eqb_spec (e_key e) k); [by subst|]. by apply IH.
Qed.

Lemma hole_find d n kb k p pre post w Q :
  hole d n kb k p pre post ∗ (hole d n kb k p pre post -∗ Q (Some n) w)
  ⊢ wp (dictionary_get (Some d) (Some k) SEARCH) w Q.
Proof.
  iIntros "[[%Hnd H] HQ]". iDestruct "H" as (es1 es2) "(Hd & H1 & H2)".
  iDestruct (slots_keys with "H1") as %Hk1. iDestruct (slots_keys with "H2") as %Hk2.
  iApply wp_dictionary_get. iFrame "Hd". iIntros "Hd".
  rw (find_entry_NoDup es1 (Entry n kb k (Some p)) es2) /=.
  - iApply "HQ". iSplit; [done|]. iExists es1, es2. iFrame.
  - rw fmap_app fmap_cons Hk1 Hk2. done.
Qed.

Lemma wp_tree_get d l k w Q :
  tree d l ∗
  ((⌜alookup k l = None⌝ → tree d l -∗ Q NULL w) ∧
   (∀ pre a post n kb p, ⌜l = pre ++ (k, a) :: post⌝ → hole d n kb k p pre post -∗
      R p k a -∗ Q (Some n) w))
  ⊢ wp (dictionary_get (Some d) (Some k) SEARCH) w Q.
Proof.
  iIntros "[Ht HQ]". destruct (alookup k l) as [a|] eqn:E.
  - iDestruct "HQ" as "[_ HQ]".
    iDestruct (tree_open _ _ _ _ E with "Ht") as (pre post n kb p ->) "[Hh HR]".
    iApply hole_find. iFrame "Hh". iIntros "Hh". by iApply ("HQ" with "[//] Hh HR").
  - iDestruct "HQ" as "[HQ _]". iDestruct "Ht" as "[%Hnd H]". iDestruct "H" as (es) "[Hd Hs]".
    iDestruct (slots_keys with "Hs") as %Hk.
    iApply wp_dictionary_get. iFrame "Hd". iIntros "Hd".
    rw find_entry_absent /=; [|rw Hk; by apply alookup_None].
    iApply ("HQ" with "[//]"). iSplit; [done|]. iExists es. iFrame.
Qed.

(** Reading the node and the key of the open entry. *)
Lemma wp_hole_load d n kb k p pre post w Q :
  hole d n kb k p pre post ∗
  (∀ prev next, hole d n kb k p pre post -∗ Q (DictNode (Some kb) prev next (Some p)) w)
  ⊢ wp (load (Some n)) w Q.
Proof.
  iIntros "[[%Hnd H] HQ]". iDestruct "H" as (es1 es2) "(Hd & H1 & H2)".
  iDestruct (dict_open with "Hd") as "(Hd & Hpre & [Hn Hk] & Hpost)".
  wload "Hn". iApply "HQ". iSplit; [done|]. iExists es1, es2. iFrame "H1 H2".
  rw dict_split. iFrame.
Qed.

Lemma wp_hole_key d n kb k p pre post w Q :
  hole d n kb k p pre post ∗ (hole d n kb k p pre post -∗ Q k w)
  ⊢ wp (get_string (Some kb)) w Q.
Proof.
  iIntros "[[%Hnd H] HQ]". iDestruct "H" as (es1 es2) "(Hd & H1 & H2)".
  iDestruct (dict_open with "Hd") as "(Hd & Hpre & [Hn Hk] & Hpost)".
  wstring "Hk". iApply "HQ". iSplit; [done|]. iExists es1, es2. iFrame "H1 H2".
  rw dict_split. iFrame.
Qed.

(** Pointing the open entry at other data. *)
Lemma wp_hole_store d n kb k p p' pre post w Q :
  hole d n kb k p pre post ∗ (hole d n kb k p' pre post -∗ Q tt w)
  ⊢ wp (modify (Some n) (λ n, n <| n_data := Some p' |>)) w Q.
Proof.
  iIntros "[[%Hnd H] HQ]". iDestruct "H" as (es1 es2) "(Hd & H1 & H2)".
  iDestruct (dict_open with "Hd") as "(Hd & Hpre & [Hn Hk] & Hpost)".
  wmodify "Hn". iApply "HQ". iSplit; [done|]. iExists es1, es2. iFrame "H1 H2".
  rw dict_split !length_app /=. iFrame.
Qed.

(** Reading the dictionary block itself. *)
Lemma wp_tree_length d l w Q :
  tree d l ∗
  (∀ f la, tree d l -∗ Q (Dictionary f la (Z.of_nat (length l)) (Some bl)) w)
  ⊢ wp (load (Some d)) w Q.
Proof.
  iIntros "[[%Hnd H] HQ]". iDestruct "H" as (es) "[[Hd Hds] Hs]".
  iDestruct (slots_length with "Hs") as %Hl.
  wload "Hd". rw Hl. iApply "HQ". iSplit; [done|]. iExists es. rw -Hl. iFrame.
Qed.
End tree.

Section tree_rules.
Context (bl : loc) (bo : owner) (b : burrow_st) (Hcons : consistent b).
Let o := alloc_owner b.
Context {A : Type} (R : loc → string → A → hPropI).

Lemma wp_hole_delete d n kb k p pre post w Q :
  bl ↦{bo} b ∗ hole o bl R d n kb k p pre post ∗
  (bl ↦{bo} b -∗ tree o bl R d (pre ++ post) -∗ Q tt w)
  ⊢ wp (dictionary_delete_node (Some d) (Some k)) w Q.
Proof using Hcons.
  iIntros "(Hb & Hh & HQ)". iDestruct (hole_fresh with "Hh") as %[Hf Hnd'].
  iDestruct "Hh" as "[%Hnd H]". iDestruct "H" as (es1 es2) "(Hd & H1 & H2)".
  iDestruct (slots_keys with "H1") as %Hk1. iDestruct (slots_keys with "H2") as %Hk2.
  iApply (wp_dictionary_delete_node bl bo b Hcons). iFrame "Hb Hd". iIntros "Hb Hd".
  rw (remove_entry_NoDup es1 (Entry n kb k (Some p)) es2).
  2: { by rw fmap_app fmap_cons Hk1 Hk2. }
  iApply ("HQ" with "Hb"). iSplit; [done|]. iExists _. iFrame "Hd".
  iApply slots_app. iFrame.
Qed.

(** An empty tree is just its dictionary block. *)
Lemma tree_nil d :
  tree o bl R d [] ⊣⊢ d ↦{o} Dictionary NULL NULL 0%Z (Some bl).
Proof.
  iSplit.
  - iIntros "[_ H]". iDestruct "H" as ([|e es]) "[[Hd Hds] Hs]"; simpl;
      [|iDestruct "Hs" as %[]]. iFrame.
  - iIntros "Hd". iSplit; [iPureIntro; constructor|]. iExists []. unfold dict; simpl. iFrame.
Qed.

Lemma hole_append d l n kb k p es :
  k ∉ l.*1 →
  dict o bl d (es ++ [Entry n kb k (Some p)]) ∗ slots R es l ∗ ⟦ NoDup l.*1 ⟧
  ⊢ hole o bl R d n kb k p l [].
Proof.
  iIntros (Hk) "(Hd & Hs & %Hnd)". iSplit.
  { iPureIntro. simpl. apply NoDup_app. split_and!; [done| |apply NoDup_singleton].
    by intros x Hx ->%list_elem_of_singleton. }
  iExists es, []. simpl. iFrame.
Qed.

(** Adding an entry, opened, when memory lasts. *)
Lemma wp_tree_add d l k p w Q :
  reliable w → alookup k l = None →
  bl ↦{bo} b ∗ tree o bl R d l ∗
  (∀ n kb w', ⟦ evolves w [] w' ⟧ -∗ bl ↦{bo} b -∗ hole o bl R d n kb k p l [] -∗
     Q (Some n) w')
  ⊢ wp (dictionary_add (Some d) (Some k) (Some p)) w Q.
Proof using Hcons.
  iIntros (Hr Hk%alookup_None) "(Hb & [%Hnd H] & HQ)". iDestruct "H" as (es) "[Hd Hs]".
  iApply (wp_dictionary_add bl bo b Hcons). iFrame "Hb Hd". iSplit.
  - iIntros (n kb w' He) "Hb Hd". iApply ("HQ" with "[//] Hb"). iApply hole_append; [done|].
    iFrame. done.
  - iIntros (w' [Hn _]). done.
Qed.

(** The entry found or made, opened, when memory lasts. *)
Lemma wp_tree_create d l k w Q :
  reliable w →
  bl ↦{bo} b ∗ tree o bl R d l ∗
  ((∀ pre a post n kb p, ⌜l = pre ++ (k, a) :: post⌝ → bl ↦{bo} b -∗
      hole o bl R d n kb k p pre post -∗ R p k a -∗ Q (Some n) w) ∧
   (∀ n kb p w', ⌜alookup k l = None⌝ → ⟦ evolves w [] w' ⟧ -∗ bl ↦{bo} b -∗
      hole o bl R d n kb k p l [] -∗ p ↦{o} Dictionary NULL NULL 0%Z (Some bl) -∗
      Q (Some n) w'))
  ⊢ wp (dictionary_get (Some d) (Some k) CREATE) w Q.
Proof using Hcons.
  iIntros (Hr) "(Hb & Ht & HQ)". destruct (alookup k l) as [a|] eqn:E.
  - iDestruct "HQ" as "[HQ _]".
    iDestruct (tree_open _ _ _ _ _ _ _ E with "Ht") as (pre post n kb p ->) "[Hh HR]".
    iDestruct "Hh" as "[%Hnd H]". iDestruct "H" as (es1 es2) "(Hd & H1 & H2)".
    iDestruct (slots_keys with "H1") as %Hk1. iDestruct (slots_keys with "H2") as %Hk2.
    iApply (wp_dictionary_get_create bl bo b Hcons). iFrame "Hb Hd".
    rw (find_entry_NoDup es1 (Entry n kb k (Some p)) es2).
    2: { by rw fmap_app fmap_cons Hk1 Hk2. }
    iSplit; [|by iIntros (?)]. iIntros (e [= <-]) "Hb Hd". simpl.
    iApply ("HQ" with "[//] Hb [-HR] HR"). iSplit; [done|]. iExists es1, es2. iFrame.
  - iDestruct "HQ" as "[_ HQ]". apply alookup_None in E as Hk.
    iDestruct "Ht" as "[%Hnd H]". iDestruct "H" as (es) "[Hd Hs]".
    iDestruct (slots_keys with "Hs") as %Hks.
    iApply (wp_dictionary_get_create bl bo b Hcons). iFrame "Hb Hd".
    rw find_entry_absent; [|by rw Hks]. iSplit; [by iIntros (? ?)|]. iIntros "_". iSplit.
    + iIntros (n kb m w' He) "Hb Hd [Hm Hms]". simpl.
      iApply ("HQ" with "[//] [//] Hb [Hd Hs]").
      * iApply hole_append; [done|]. iFrame. done.
      * by iFrame.
    + iIntros (es' w' [Hn _]). done.
Qed.

End tree_rules.

(** ** Trees that show where their values live *)

Section pinned.
Context (o : owner) (bl : loc) {A : Type} (R : loc → string → A → hPropI).

(** The values paired with the data pointers of their entries. *)
Definition pinned (p : loc) (k : string) (qa : loc * A) : hPropI :=
  (⟦ p = qa.1 ⟧ ∗ R p k qa.2)%I.
Definition unpin (x : string * (loc * A)) : string * A := (x.1, x.2.2).
Definition pins (l : list (string * (loc * A))) : list (string * ptr) :=
  (λ x, (x.1, Some x.2.1)) <$> l.

Lemma slots_pin es l :
  slots R es l ⊢ ∃ l', ⟦ unpin <$> l' = l ∧ payload es = pins l' ⟧ ∗ slots pinned es l'.
Proof.
  revert l. induction es as [|e es IH]; intros [|[k a] l]; simpl; iIntros "H";
    try (iDestruct "H" as %[]).
  - iExists []. by iFrame.
  - iDestruct "H" as "[Hs H]". iDestruct (IH with "H") as (l' [<- Hp]) "H".
    unfold slot; simpl. iDestruct "Hs" as "[%Hk Hs]". iDestruct "Hs" as (p Hd) "HR".
    iExists ((k, (p, a)) :: l'). iSplit.
    + iPureIntro. split; [done|]. apply (f_equal2 cons); [|exact Hp]. by rw Hk Hd.
    + simpl. iFrame "H". unfold slot, pinned; simpl. iSplit; [done|].
      iExists p. by iFrame.
Qed.

Lemma slots_unpin es l : slots pinned es l ⊢ slots R es (unpin <$> l).
Proof.
  revert l. induction es as [|e es IH]; intros [|[k [p a]] l]; simpl; iIntros "H";
    try (iDestruct "H" as %[]); [done|].
  iDestruct "H" as "[Hs H]". iDestruct (IH with "H") as "$". unfold slot, pinned; simpl.
  iDestruct "Hs" as "[$ Hs]". iDestruct "Hs" as (p' Hd) "[-> HR]". iExists p. by iFrame.
Qed.

Lemma tree_pin d l :
  tree o bl R d l ⊢ ∃ l', ⟦ unpin <$> l' = l ⟧ ∗ tree o bl pinned d l'.
Proof.
  iIntros "[%Hnd H]". iDestruct "H" as (es) "[Hd Hs]".
  iDestruct (slots_pin with "Hs") as (l' [<- _]) "Hs". iExists l'. iSplit; [done|]. iSplit.
  - iPureIntro. by rw -list_fmap_compose in Hnd.
  - iExists es. iFrame.
Qed.

Lemma unpin_keys (l : list (string * (loc * A))) : (unpin <$> l).*1 = l.*1.
Proof. by rw -list_fmap_compose. Qed.

Lemma unpin_repin (p : loc) (l : list (string * A)) :
  unpin <$> ((λ km, (km.1, (p, km.2))) <$> l) = l.
Proof.
  induction l as [|[k a] l IH]; [done|]. rw !fmap_cons IH. done.
Qed.

Lemma pins_names marker limit es (l : list (string * (loc * A))) :
  payload es = pins (range_in marker limit l) →
  e_key <$> es = (range_in marker limit (unpin <$> l)).*1.
Proof.
  intros Hp. unfold unpin. rw range_in_map -payload_keys Hp /pins -!list_fmap_compose. done.
Qed.

Lemma tree_unpin d l : tree o bl pinned d l ⊢ tree o bl R d (unpin <$> l).
Proof.
  iIntros "[%Hnd H]". iDestruct "H" as (es) "[Hd Hs]". iSplit.
  { by rw unpin_keys. }
  iExists es. iFrame "Hd". by iApply slots_unpin.
Qed.
End pinned.

Section iteration.
Context (bl : loc) (bo : owner) (b : burrow_st) (Hcons : consistent b).
Let o := alloc_owner b.
Context {A : Type} (R : loc → string → A → hPropI).

(** Iterating over a range: a new dictionary with the keys and the data of the
    entries in it; or, when memory runs out, an empty one or none. *)
Lemma wp_tree_iter d l marker limit w Q :
  (0 ≤ limit)%Z →
  bl ↦{bo} b ∗ tree o bl R d l ∗
  ((∀ it es' l' w',
      ⟦ evolves w [] w' ∧ unpin <$> l' = l ∧
        payload es' = pins (range_in marker limit l') ∧ NoDup (e_key <$> es') ⟧ -∗
      bl ↦{bo} b -∗ tree o bl (pinned R) d l' -∗ dict o bl it es' -∗ Q (Some it) w') ∧
   (∀ it w', ⟦ gave_up w w' ⟧ -∗ bl ↦{bo} b -∗ tree o bl R d l -∗ dict o bl it [] -∗
      Q (Some it) w') ∧
   (∀ w', ⟦ gave_up w w' ⟧ -∗ bl ↦{bo} b -∗ tree o bl R d l -∗ Q NULL w'))
  ⊢ wp (dictionary_iter (Some d) marker limit) w Q.
Proof using Hcons.
  iIntros (Hu) "(Hb & [%Hnd H] & HQ)". iDestruct "H" as (es) "[Hd Hs]".
  iDestruct (slots_keys with "Hs") as %Hk.
  iApply (wp_dictionary_iter bl bo b Hcons d es); [done|by rw Hk|]. iFrame "Hb Hd". iSplit.
  2: { iDestruct "HQ" as "(_ & _ & HQ)". iIntros (w' Hg) "Hb Hd".
       iApply ("HQ" with "[//] Hb"). iSplit; [done|]. iExists es. iFrame. }
  iIntros (it es' w' [[He Hes]|[Hg ->]]) "Hb Hd Hit".
  2: { iDestruct "HQ" as "(_ & HQ & _)". iApply ("HQ" with "[//] Hb [Hd Hs] Hit").
       iSplit; [done|]. iExists es. iFrame. }
  iDestruct "HQ" as "[HQ _]". iDestruct (slots_pin with "Hs") as (l' [<- Hp]) "Hs".
  rw unpin_keys in Hk. rw unpin_keys in Hnd.
  assert (payload es' = pins (range_in marker limit l')) as Hes'.
  { apply (f_equal length) in Hk as Hl. rw !length_fmap in Hl.
    rw Hes range_from_count Hk Hl. unfold range_in, pins. rw !fmap_take !fmap_drop.
    unfold payload in *. by rw fmap_take fmap_drop Hp. }
  iApply ("HQ" with "[%] Hb [Hd Hs] Hit").
  - split_and!; [done..|]. rw -payload_keys Hes' /pins -list_fmap_compose.
    by apply range_in_NoDup.
  - iSplit; [done|]. iExists es. iFrame.
Qed.
End iteration.
