(* ===== verification/MemorySpec.v ===== *)
(** What memory.c implements: how the abstract server of Server.v lies in the
    heap, and rules for the pieces the commands are made of. *)
From S2P Require Import Prelude Types Heap Macros Dictionary Memory Server Logic MacrosSpec DictionarySpec Assoc TreeSpec.
From iris.proofmode Require Import proofmode.

(** ** Representation *)

Section rep.
Context (o : owner) (bl : loc).

(** A stored message: its structure, its id and its body. *)
Definition message_at (p : loc) (id : string) (m : message) : hPropI :=
  (∃ li lb, p ↦{o} Message (Some li) (Some lb) (msg_size m) (msg_ttl m) (msg_hide m) ∗
     li ↦{o} Chars (Z.of_nat (String.length id) + 1) id ∗
     lb ↦{o} Chars (msg_size m) (msg_body m))%I.

Definition queue_at (p : loc) (_ : string) (ms : messages) : hPropI := tree o bl message_at p ms.
Definition account_at (p : loc) (_ : string) (qs : queues) : hPropI := tree o bl queue_at p qs.

(** All the backend keeps, below its own structure. *)
Definition accounts_at (d : loc) (s : server) : hPropI := tree o bl account_at d s.
End rep.

(** The filters or attributes a command points to, which the backend only
    reads. *)
Definition optional_at {T} `{Storable T} (ow : owner) (p : ptr) (v : option T) : hPropI :=
  match p, v with
  | None, None => emp
  | Some l, Some x => l ↦{ow} x
  | _, _ => ⟦ False ⟧
  end%I.

(** What callbacks of one kind make observable of a list of reports. *)
Definition observed (f : fnptr) (es : list event) : list event := flat_map (when_set f) es.

Lemma observed_app f es1 es2 : observed f (es1 ++ es2) = observed f es1 ++ observed f es2.
Proof. apply flat_map_app. Qed.

Lemma with_flags_idem set : with_flags (with_flags set) = with_flags set.
Proof.
  unfold with_flags. apply Z.bits_inj'. intros n Hn. rw !Z.lor_spec.
  destruct (Z.testbit set n), (Z.testbit BURROW_ATTRIBUTES_TTL n),
    (Z.testbit BURROW_ATTRIBUTES_HIDE n); done.
Qed.

(** What a scan leaves of a message does not depend on the reported flags. *)
Lemma scan_left_flags now mh ttl hide ty act set set' im :
  scan_left now mh ttl hide ty act set im = scan_left now mh ttl hide ty act set' im.
Proof.
  unfold scan_left, scan_one.
  destruct (expired now im.2), (negb mh && hidden now im.2), ty; done.
Qed.

(** ** Rules *)

Section memory.
Context (bl : loc) (bo : owner) (b : burrow_st) (Hcons : consistent b).
Let o := alloc_owner b.
Context (ml : loc) (mo : owner) (sa : Z) (da : loc).

(** The backend's structure, for the accounts dictionary at [da]. *)
Definition backend_at : hPropI := ml ↦{mo} MemoryBackend sa (Some bl) (Some da).

Lemma has_flag_lor j fl :
  fl = BURROW_FILTERS_LIMIT ∨ fl = BURROW_FILTERS_MATCH_HIDDEN →
  has_flag (Z.lor j (Z.lor BURROW_FILTERS_LIMIT BURROW_FILTERS_MATCH_HIDDEN)) fl = true.
Proof.
  intros Hfl. unfold has_flag. apply negb_true_iff, Z.eqb_neq. intros E.
  destruct Hfl as [-> | ->]; [apply (f_equal (λ z, Z.testbit z 1)) in E | apply (f_equal (λ z, Z.testbit z 0)) in E];
    rw Z.land_spec Z.lor_spec orb_true_r in E; done.
Qed.

(** The filters [_process_filter] makes agree with the selection. *)
Definition selects (f : burrow_filters_st) (sel : selection) : Prop :=
  fi_marker f = sel_marker sel ∧ fi_limit f = sel_limit sel ∧
  fi_match_hidden f = sel_hidden sel ∧ select (Some f) = sel.

Lemma wp_process_filter fo p f w Q :
  bl ↦{bo} b ∗ backend_at ∗ optional_at fo p f ∗
  ((∀ lf flt w', ⟦ evolves w [] w' ∧ selects flt (select f) ⟧ -∗ bl ↦{bo} b -∗ backend_at -∗
      optional_at fo p f -∗ lf ↦{o} flt -∗ Q (Some lf) w') ∧
   (∀ w', ⟦ gave_up w w' ⟧ -∗ bl ↦{bo} b -∗ backend_at -∗ optional_at fo p f -∗ Q NULL w'))
  ⊢ wp (_process_filter (Some ml) p) w Q.
Proof.
  iIntros "(Hb & Hm & Hp & HQ)". unfold _process_filter, backend_at. wload "Hm".
  wp_focus. iApply wp_burrow_malloc. iFrame "Hb". destruct (malloc_ok _ w) eqn:Hok.
  2: { iDestruct "HQ" as "[_ HQ]". iIntros "Hb". simpl. wp_focus. iApply wp_log_at.
       iFrame "Hb". iIntros (w' He) "Hb". wret.
       iApply ("HQ" with "[%] Hb Hm Hp"). eapply gave_up_intro; eauto using log_events_log. }
  iDestruct "HQ" as "[HQ _]". iIntros (lf) "Hb Hf". simpl.
  wmodify "Hf". wmodify "Hf". wmodify "Hf". wmodify "Hf".
  destruct p as [lp|], f as [f|]; simpl; try (iDestruct "Hp" as %[]).
  - wload "Hp".
    iSpecialize ("HQ" $! lf). unfold selects; simpl.
    destruct (fi_marker f) eqn:Em; [wmodify "Hf"|wret];
      (destruct (has_flag _ BURROW_FILTERS_LIMIT) eqn:El; [wmodify "Hf"|wret]);
      (destruct (has_flag _ BURROW_FILTERS_MATCH_HIDDEN) eqn:Eh; [wmodify "Hf"|wret]);
      wret; iApply ("HQ" with "[%] Hb Hm Hp Hf");
      rw ?has_flag_lor; auto with world.
  - wret. wret. iApply ("HQ" with "[%] Hb Hm Hp Hf"). unfold selects; simpl.
    rw !has_flag_lor; auto with world.
Qed.

Lemma wp_report_message p id m now set w Q :
  bl ↦{bo} b ∗ message_at o p id m ∗
  (∀ w', ⟦ evolves w (observed (b_message_fn b) [report now set id m]) w' ⟧ -∗
     bl ↦{bo} b -∗ message_at o p id m -∗ Q tt w')
  ⊢ wp (report_message (Some bl) (Some p) now set) w Q.
Proof.
  iIntros "(Hb & Hm & HQ)". iDestruct "Hm" as (li lb) "(Hm & Hi & Hd)".
  unfold report_message. wload "Hm". wstring "Hi". wstring "Hd".
  iApply wp_callback_message. iFrame "Hb". iIntros (w' He) "Hb".
  iApply ("HQ" with "[%] Hb").
  - unfold observed; simpl. by rw (right_id_L [] (++)).
  - iExists li, lb. iFrame.
Qed.

Lemma wp_free_message p id m w Q :
  bl ↦{bo} b ∗ message_at o p id m ∗ (bl ↦{bo} b -∗ Q tt w)
  ⊢ wp (free_message (Some bl) (Some p)) w Q.
Proof using Hcons.
  iIntros "(Hb & Hm & HQ)". iDestruct "Hm" as (li lb) "(Hm & Hi & Hd)".
  unfold free_message. wload "Hm". wp_focus. iApply wp_burrow_free; [done|]. iFrame "Hb Hi".
  iIntros "Hb". wload "Hm". wp_focus. iApply wp_burrow_free; [done|]. iFrame "Hb Hd".
  iIntros "Hb". iApply wp_burrow_free; [done|]. iFrame.
Qed.

Lemma wp_free_iterator it es w Q :
  NoDup (e_key <$> es) →
  bl ↦{bo} b ∗ dict o bl it es ∗ (bl ↦{bo} b -∗ Q tt w)
  ⊢ wp (free_iterator (Some bl) (Some it)) w Q.
Proof using Hcons.
  iIntros (Hnd) "(Hb & [Hd Hs] & HQ)". unfold free_iterator. wload "Hd". wp_focus.
  iApply (wp_dictionary_clear bl bo b Hcons it es); [done|]. iFrame "Hb Hd Hs".
  iIntros "Hb [Hd Hs]". iApply wp_burrow_free; [done|]. iFrame "Hb Hd". iIntros "Hb".
  simpl. iApply "HQ". iFrame.
Qed.

Lemma wp_retime_message p k m ttl hide w Q :
  message_at o p k m ∗ (message_at o p k (retime ttl hide m) -∗ Q tt w)
  ⊢ wp (retime_message ttl hide (Some p)) w Q.
Proof.
  iIntros "[Hm HQ]". iDestruct "Hm" as (li lb) "(Hm & Hi & Hd)".
  unfold retime, retime_message.
  destruct (ttl =? 0)%Z, (hide =? 0)%Z; repeat (wret || wmodify "Hm");
    iApply "HQ"; iExists li, lb; iFrame.
Qed.

Lemma wp_update_attributes ao p a now w Q :
  optional_at ao p a ∗ (optional_at ao p a -∗ Q (update_times now a) w)
  ⊢ wp (update_attributes p now) w Q.
Proof.
  iIntros "[Hp HQ]". unfold update_attributes. destruct p, a; simpl; try (iDestruct "Hp" as %[]).
  - wload "Hp". wret. by iApply "HQ".
  - wret. by iApply "HQ".
Qed.

Lemma wp_scan_attributes ao p a now w Q :
  optional_at ao p a ∗ (optional_at ao p a -∗ Q (scan_times now a) w)
  ⊢ wp (scan_attributes p now) w Q.
Proof.
  iIntros "[Hp HQ]". unfold scan_attributes. destruct p, a; simpl; try (iDestruct "Hp" as %[]).
  - wload "Hp". wret. by iApply "HQ".
  - wret. by iApply "HQ".
Qed.

(** *** The scan loop *)

Section scan_loop.
Context (dp nq kbq : loc) (kq : string) (dq : loc) (preq postq : queues).
Context (lf : loc) (flt : burrow_filters_st) (it : loc).
Context (now ttl hide : Z) (ty : scan_action_t) (act : delete_action_t).
Let c := Scan (Some ml) (Some nq) (Some lf) (Some it) now ttl hide ty act.
Let left := scan_left now (fi_match_hidden flt) ttl hide ty act.
Let reports := scan_reports now (fi_match_hidden flt) ttl hide ty act.

(** What the loop keeps: the burrow, the backend, the filters, the node of the
    queue. *)
Definition scan_frame : hPropI :=
  (bl ↦{bo} b ∗ backend_at ∗ lf ↦{o} flt ∗
   hole o bl (queue_at o bl) dp nq kbq kq dq preq postq)%I.

(** The queue's messages, with their addresses. *)
Abbreviation pinned_at := (tree o bl (pinned (message_at o)) dq).
Abbreviation scan_hole := (hole o bl (pinned (message_at o)) dq).

(** Unlinking the message at hand: the current item names it. *)
Lemma wp_scan_unlink e prev next n kb p pre post w Q :
  scan_frame ∗ node_at o e prev next ∗ scan_hole n kb (e_key e) p pre post ∗
  (scan_frame -∗ node_at o e prev next -∗ pinned_at (pre ++ post) -∗ Q tt w)
  ⊢ wp (delete_item (Some nq) (Some (e_node e))) w Q.
Proof using Hcons.
  iIntros "((Hb & Hm & Hf & Hq) & [Hn Hk] & Hh & HQ)". unfold delete_item.
  wp_focus. iApply wp_hole_load. iFrame "Hq". iIntros (pv nx) "Hq". simpl.
  wload "Hn". wstring "Hk". iApply (wp_hole_delete bl bo b Hcons). iFrame "Hb Hh".
  iIntros "Hb Ht". iApply ("HQ" with "[Hb Hm Hf Hq] [Hn Hk] Ht"); by iFrame.
Qed.

Lemma scan_hole_close n kb k p m pre post :
  scan_hole n kb k p pre post ∗ message_at o p k m ⊢ pinned_at (pre ++ (k, (p, m)) :: post).
Proof.
  iIntros "[Hh Hm]". iApply hole_close. iFrame "Hh". unfold pinned. by iFrame.
Qed.

(** Reporting the message at hand, which stays. *)
Lemma wp_scan_report p k m set w Q :
  scan_frame ∗ message_at o p k m ∗
  (∀ w', ⟦ evolves w (observed (b_message_fn b) [report now set k m]) w' ⟧ -∗
     scan_frame -∗ message_at o p k m -∗ Q tt w')
  ⊢ wp (report_message (Some bl) (Some p) now set) w Q.
Proof.
  iIntros "([Hb Hfr] & Hm & HQ)". iApply wp_report_message. iFrame "Hb Hm".
  iIntros (w' He) "Hb Hm". iApply ("HQ" with "[//] [$Hb $Hfr] Hm").
Qed.

Lemma wp_scan_message e prev next n kb p m pre post set w Q :
  expired now m = false → negb (fi_match_hidden flt) && hidden now m = false →
  scan_frame ∗ node_at o e prev next ∗ scan_hole n kb (e_key e) p pre post ∗
  message_at o p (e_key e) m ∗
  (∀ set' w', ⟦ with_flags set' = with_flags set ∧
       evolves w (observed (b_message_fn b) (reports (with_flags set) (e_key e, m))) w' ⟧ -∗
     scan_frame -∗ node_at o e prev next -∗
     pinned_at (pre ++ ((λ km, (km.1, (p, km.2))) <$> left set (e_key e, m)) ++ post) -∗
     Q set' w')
  ⊢ wp (scan_message c (Some bl) (Some (e_node e)) (Some p) set) w Q.
Proof using Hcons.
  intros Hexp Hhid. iIntros "(Hfr & Hn & Hh & Hm & HQ)".
  unfold scan_message, left, reports, scan_left, scan_reports, scan_one; simpl.
  rw Hexp Hhid. destruct ty; simpl.
  - wp_focus. iApply wp_retime_message. iFrame "Hm". iIntros "Hm". wp_focus.
    iApply wp_scan_report. iFrame "Hfr Hm". iIntros (w' He) "Hfr Hm". wret.
    iApply ("HQ" with "[%] Hfr Hn [Hh Hm]"); [by rw with_flags_idem|].
    iApply scan_hole_close. iFrame.
  - wret. wp_focus. iApply wp_scan_report. iFrame "Hfr Hm". iIntros (w' He) "Hfr Hm". wret.
    iApply ("HQ" with "[%] Hfr Hn [Hh Hm]"); [by rw with_flags_idem|].
    iApply scan_hole_close. iFrame.
  - wp_focus. iApply wp_scan_unlink. iFrame "Hfr Hn Hh". iIntros "Hfr Hn Ht". wp_focus.
    destruct act; simpl.
    + wp_focus. iApply wp_scan_report. iFrame "Hfr Hm". iIntros (w' He) "[Hb Hfr] Hm". wret. wp_focus.
      iApply wp_free_message. iFrame "Hb Hm". iIntros "Hb". wret.
      iApply ("HQ" with "[%] [$Hb $Hfr] Hn Ht"). by rw with_flags_idem.
    + wret. wp_focus. iDestruct "Hfr" as "[Hb Hfr]".
      iApply wp_free_message. iFrame "Hb Hm". iIntros "Hb". wret.
      iApply ("HQ" with "[%] [$Hb $Hfr] Hn Ht"). auto with world.
Qed.

(** One round: the item at hand, whose message is at [p], is dealt with, and the
    locals move on to the next item. *)
Lemma wp_scan_step e pre' suf' p m pre post set w Q :
  e_data e = Some p →
  scan_frame ∗ dict o bl it (pre' ++ e :: suf') ∗
  pinned_at (pre ++ (e_key e, (p, m)) :: post) ∗
  (∀ set' w', ⟦ with_flags set' = with_flags set ∧
       evolves w (observed (b_message_fn b) (reports (with_flags set) (e_key e, m))) w' ⟧ -∗
     scan_frame -∗ dict o bl it (pre' ++ e :: suf') -∗
     pinned_at (pre ++ ((λ km, (km.1, (p, km.2))) <$> left set (e_key e, m)) ++ post) -∗
     Q (inl (first_of NULL suf', Z.of_nat (length pre' + 1), set')) w')
  ⊢ wp (scan_step c (Some (e_node e), Z.of_nat (length pre'), set)) w Q.
Proof using Hcons.
  intros He. iIntros "(Hfr & Hit & Ht & HQ)". unfold scan_step; simpl.
  iDestruct (dict_open with "Hit") as "(Hit & Hpre & Hn & Hsuf)". wload "Hit".
  rw (proj2 (Z.ltb_lt _ _)); [|rw length_app /=; lia]. simpl.
  iDestruct "Hfr" as "(Hb & Hm & Hfr)". unfold backend_at. wload "Hm".
  iDestruct "Hn" as "[Hn Hk]". wload "Hn". rw He.
  iDestruct (tree_open_at with "Ht") as (n kb q) "[Hh [-> Hms]]". simpl.
  iDestruct "Hms" as (li lb) "(Hms & Hi & Hd)". wload "Hms".
  iAssert (message_at o p (e_key e) m) with "[Hms Hi Hd]" as "Hms".
  { iExists li, lb. iFrame. }
  iAssert scan_frame with "[Hb Hm Hfr]" as "Hfr". { iFrame. }
  iAssert (node_at o e (last_of NULL pre') (first_of NULL suf')) with "[Hn Hk]" as "Hn".
  { unfold node_at. rw He. iFrame. }
  assert (∀ set' w', Q (inl (first_of NULL suf', (Z.of_nat (length pre') + 1)%Z, set')) w' =
    Q (inl (first_of NULL suf', Z.of_nat (length pre' + 1), set')) w') as HQ.
  { intros. by replace (Z.of_nat (length pre') + 1)%Z with (Z.of_nat (length pre' + 1)) by lia. }
  unfold left, reports, scan_left, scan_reports, scan_one; simpl.
  change (msg_ttl m <=? now)%Z with (expired now m).
  change (now <? msg_hide m)%Z with (hidden now m).
  destruct (expired now m) eqn:Hexp; simpl.
  - wp_focus. iApply wp_scan_unlink. iFrame "Hfr Hn Hh". iIntros "Hfr Hn Ht".
    wp_focus. iDestruct "Hfr" as "[Hb Hfr]". iApply wp_free_message. iFrame "Hb Hms".
    iIntros "Hb". iDestruct "Hn" as "[Hn Hk]". wload "Hn". wret. rw HQ.
    iApply ("HQ" with "[%] [$Hb $Hfr] [Hit Hpre Hn Hk Hsuf] Ht"); [auto with world|].
    rw dict_split. iFrame.
  - iDestruct "Hfr" as "(Hb & Hm & Hf & Hfr)". wload "Hf".
    iAssert scan_frame with "[Hb Hm Hf Hfr]" as "Hfr". { iFrame. }
    destruct (negb (fi_match_hidden flt) && hidden now m) eqn:Hhid.
    + iDestruct "Hn" as "[Hn Hk]". wload "Hn". wret. rw HQ.
      iApply ("HQ" with "[%] Hfr [Hit Hpre Hn Hk Hsuf] [Hh Hms]"); [auto with world| |].
      * rw dict_split. iFrame.
      * iApply scan_hole_close. iFrame.
    + wp_focus. iApply (wp_scan_message with "[-]"); [done..|]. iFrame "Hfr Hn Hh Hms".
      iIntros (set' w' [Hset He']) "Hfr [Hn Hk] Ht". wload "Hn". wret. rw HQ.
      iApply ("HQ" with "[%] Hfr [Hit Hpre Hn Hk Hsuf] [Ht]").
      * split; [done|]. move: He'. unfold reports, scan_reports, scan_one; simpl.
        by rw Hexp Hhid.
      * rw dict_split. iFrame.
      * iRevert "Ht". unfold left, scan_left, scan_one; simpl. rw Hexp Hhid. iIntros "$".
Qed.

Lemma observed_reports set set' l :
  with_flags set' = with_flags set → flat_map (reports (with_flags set')) l = flat_map (reports (with_flags set)) l.
Proof. by intros ->. Qed.

(** The whole loop. *)
Lemma wp_scan_loop pre' suf' pre suf post set fuel w Q :
  length suf' < fuel → payload suf' = pins suf →
  scan_frame ∗ dict o bl it (pre' ++ suf') ∗ pinned_at (pre ++ suf ++ post) ∗
  (∀ pinned' w', ⟦ unpin <$> pinned' = flat_map (left set) (unpin <$> suf) ∧
       evolves w (observed (b_message_fn b)
         (flat_map (reports (with_flags set)) (unpin <$> suf))) w' ⟧ -∗
     scan_frame -∗ dict o bl it (pre' ++ suf') -∗ pinned_at (pre ++ pinned' ++ post) -∗
     Q tt w')
  ⊢ wp (loop fuel (scan_step c) (first_of NULL suf', Z.of_nat (length pre'), set)) w Q.
Proof using Hcons.
  revert pre' suf' pre suf set w. induction fuel as [|fuel IH]; intros pre' suf' pre suf set w Hf Hp; [lia|].
  iIntros "(Hfr & Hit & Ht & HQ)". unfold loop; fold (@loop (ptr * Z * Z) unit).
  destruct suf' as [|e suf'], suf as [|[k [p m]] suf]; try done; simpl.
  - unfold scan_step; simpl. iDestruct "Hit" as "[Hit Hits]". wload "Hit".
    rw (right_id_L [] (++)) Z.ltb_irrefl /=. wret. wret.
    iApply ("HQ" $! [] with "[%] Hfr [Hit Hits] Ht"); [auto with world|]. iFrame.
  - unfold payload, pins in Hp. rw !fmap_cons in Hp. injection Hp as <- Hd Hp.
    iApply wp_bind. iApply (wp_scan_step e pre' suf' p m pre (suf ++ post)); [done|].
    iFrame "Hfr Hit Ht". iIntros (set' w' [Hset He]) "Hfr Hit Ht". simpl.
    replace (length pre' + 1) with (length (pre' ++ [e])) by (rw length_app /=; lia).
    rw (assoc_L (++) pre). iApply (IH _ suf' _ suf); [simpl in *; lia|done|].
    iFrame "Hfr". iSplitL "Hit"; [by rw -(assoc_L (++))|].
    iFrame "Ht".
    iIntros (pinned' w'' [Hp' He']) "Hfr Hit Ht".
    iApply ("HQ" $! (((λ km, (km.1, (p, km.2))) <$> left set (e_key e, m)) ++ pinned')
      with "[%] Hfr [Hit] [Ht]").
    + split.
      * rw fmap_app Hp' unpin_repin. f_equal.
        apply flat_map_ext. intros im. apply scan_left_flags.
      * rw observed_app. eapply evolves_trans; [exact He|]. by rw -Hset.
    + by rw -(assoc_L (++)).
    + by rw -!(assoc_L (++)).
Qed.
End scan_loop.

(** *** Emptied queues and accounts *)

Lemma wp_drop_if_empty {A B} (R : loc → string → A → hPropI) (R' : loc → string → B → hPropI)
    d n kb k p pre post l unlink w Q :
  bl ↦{bo} b ∗ hole o bl R d n kb k p pre post ∗ tree o bl R' p l ∗
  ((⌜l ≠ []⌝ → bl ↦{bo} b -∗ hole o bl R d n kb k p pre post -∗ tree o bl R' p l -∗ Q tt w) ∧
   (⌜l = []⌝ → bl ↦{bo} b -∗ hole o bl R d n kb k p pre post -∗ wp unlink w Q))
  ⊢ wp (drop_if_empty (Some bl) (Some n) unlink) w Q.
Proof using Hcons.
  iIntros "(Hb & Hh & Ht & HQ)". unfold drop_if_empty. wp_focus.
  iApply wp_hole_load. iFrame "Hh". iIntros (pv nx) "Hh". simpl. wp_focus.
  iApply wp_tree_length. iFrame "Ht". iIntros (f la) "Ht". simpl. destruct l as [|x l].
  - iDestruct "HQ" as "[_ HQ]". rw tree_nil. simpl. wp_focus.
    iApply wp_burrow_free; [done|]. iFrame "Hb Ht". iIntros "Hb".
    iApply ("HQ" with "[//] Hb Hh").
  - iDestruct "HQ" as "[HQ _]". rw (proj2 (Z.eqb_neq _ _)); [|simpl; lia].
    wret. by iApply ("HQ" with "[//] Hb Hh").
Qed.

Section emptied.
Context (a q : string) (na kba dqs nq kbq dq : loc).
Context (preA postA : server) (preQ postQ : queues).

(** The account and the queue at hand, opened. *)
Abbreviation account_hole := (hole o bl (account_at o bl) da na kba a dqs preA postA).
Abbreviation queue_hole := (hole o bl (queue_at o bl) dqs nq kbq q dq preQ postQ).

Lemma wp_drop_emptied s cmd unlink ms ms' w Q :
  mb_burrow s = Some bl → mb_accounts s = Some da → cmd_account cmd = Some a →
  (∀ w Q, bl ↦{bo} b ∗ account_hole ∗ queue_hole ∗
     (bl ↦{bo} b -∗ account_hole -∗ account_at o bl dqs a (preQ ++ postQ) -∗ Q tt w)
     ⊢ wp unlink w Q) →
  bl ↦{bo} b ∗ account_hole ∗ queue_hole ∗ tree o bl (message_at o) dq ms' ∗
  (bl ↦{bo} b -∗
   accounts_at o bl da (put_queue a q ms' (preA ++ (a, preQ ++ (q, ms) :: postQ) :: postA)) -∗
   Q tt w)
  ⊢ wp (drop_emptied s cmd (Some na) (Some nq) unlink) w Q.
Proof using Hcons.
  intros Eb Ea Ec Hunlink. iIntros "(Hb & HA & HQ & Ht & Hk)".
  iDestruct (hole_fresh with "HA") as %[HfA _]. iDestruct (hole_fresh with "HQ") as %[HfQ _].
  rw put_queue_split //. unfold drop_emptied. rw Eb Ea Ec. wp_focus.
  iApply wp_drop_if_empty. iFrame "Hb HQ Ht". iSplit.
  - iIntros (Hne) "Hb HQ Ht". iDestruct (hole_close with "[$HQ $Ht]") as "Hqs".
    iApply wp_drop_if_empty. iFrame "Hb HA Hqs". iSplit; [|by iIntros ([_ ?]%app_eq_nil)].
    iIntros (_) "Hb HA Hqs". iDestruct (hole_close with "[$HA $Hqs]") as "Hs".
    destruct ms' as [|m ms']; [done|]. iApply ("Hk" with "Hb Hs").
  - iIntros (->) "Hb HQ". iApply Hunlink. iFrame "Hb HA HQ". iIntros "Hb HA Hqs".
    iApply wp_drop_if_empty. iFrame "Hb HA Hqs". iSplit.
    + iIntros (Hne) "Hb HA Hqs". iDestruct (hole_close with "[$HA $Hqs]") as "Hs".
      destruct (preQ ++ postQ); [done|]. iApply ("Hk" with "Hb Hs").
    + iIntros (E) "Hb HA". rw E. iApply (wp_hole_delete bl bo b Hcons). iFrame "Hb HA Hk".
Qed.
End emptied.
End memory.
