(* ===== verification/MemoryScan.v ===== *)
(** Rules for the commands of memory.c that iterate: the scan of a queue and the
    listings and deletions built on it. *)
From S2P Require Import Prelude Types Heap Macros Dictionary Memory Server Logic MacrosSpec DictionarySpec Assoc TreeSpec MemorySpec.
From iris.proofmode Require Import proofmode.

Lemma gave_up_reliable w w' : reliable w → ¬ gave_up w w'.
Proof. intros Hr [Hn _]. done. Qed.

Lemma wp_junk w (Q : Z → world → hPropI) :
  (∀ j, Q j (tick 1 w)) ⊢ wp (consult e_junk) w Q.
Proof. iIntros "HQ". iApply wp_consult. iApply "HQ". Qed.

Section scan.
Context (bl : loc) (bo : owner) (b : burrow_st) (Hcons : consistent b).
Let o := alloc_owner b.
Context (ml : loc) (mo : owner) (sa : Z) (da : loc).
Abbreviation backend := (backend_at bl ml mo sa da).

(** The outcome of a command that scans a queue: what the abstract scan says, or,
    when memory ran out, nothing but the removal of an empty queue. *)
Definition scanned (w : world) (now : Z) (cmd : burrow_command_st) (ty : scan_action_t)
    (act : delete_action_t) (sel : selection) (times : Z * Z) (s s' : server) (w' : world) : Prop :=
  (∃ set, let r := scan_queue now sel times ty act (with_flags set)
                     (cmd_account cmd) (cmd_queue cmd) s in
     s' = r.1 ∧ evolves w (observed (b_message_fn b) r.2) w') ∨
  (gave_up w w' ∧
   (s' = s ∨ ∃ a q ms, queue_of (cmd_account cmd) (cmd_queue cmd) s = Some (a, q, ms) ∧
      s' = put_queue a q ms s)).

Lemma gave_up_log w1 w2 b' lvl msg w3 :
  gave_up w1 w2 → evolves w2 (log_events b' lvl msg) w3 → gave_up w1 w3.
Proof.
  intros (Hr & es & He & Hl) He'. split; [done|]. exists (es ++ log_events b' lvl msg). split.
  - by eapply evolves_trans.
  - apply Forall_app. split; [done|]. apply log_events_log.
Qed.

Lemma gave_up_silent w1 w2 w3 : gave_up w1 w2 → evolves w2 [] w3 → gave_up w1 w3.
Proof.
  intros (Hr & es & He & Hl) He'. split; [done|]. exists es. split; [|done].
  rw -(right_id_L [] (++) es). by eapply evolves_trans.
Qed.

Lemma scanned_later w1 w2 now cmd ty act sel times s s' w' :
  evolves w1 [] w2 → scanned w2 now cmd ty act sel times s s' w' →
  scanned w1 now cmd ty act sel times s s' w'.
Proof.
  intros He [[set [Hs He']]|[Hg Hs]]; [left; exists set|right]; split; try done.
  - by eapply evolves_silent.
  - by eapply gave_up_after.
Qed.

Section found.
Context (a q : string) (na kba dqs nq kbq dq : loc).
Context (preA postA : server) (preQ postQ : queues).
Abbreviation account_hole := (hole o bl (account_at o bl) da na kba a dqs preA postA).
Abbreviation queue_hole := (hole o bl (queue_at o bl) dqs nq kbq q dq preQ postQ).

(** Unlinking the emptied queue the way the scan does. *)
Lemma wp_scan_unlink_queue w Q :
  bl ↦{bo} b ∗ account_hole ∗ queue_hole ∗
  (bl ↦{bo} b -∗ account_hole -∗ account_at o bl dqs a (preQ ++ postQ) -∗ Q tt w)
  ⊢ wp (account ← dictionary_get (Some da) (Some a) SEARCH;
        a ← load account; q ← load (Some nq); k ← get_string (n_key q);
        dictionary_delete_node (n_data a) (Some k)) w Q.
Proof using Hcons.
  iIntros "(Hb & HA & HQ & Hk)". wp_focus. iApply hole_find. iFrame "HA". iIntros "HA". wp_focus.
  iApply wp_hole_load. iFrame "HA". iIntros (pv nx) "HA". simpl. wp_focus.
  iApply wp_hole_load. iFrame "HQ". iIntros (pv' nx') "HQ". simpl. wp_focus.
  iApply wp_hole_key. iFrame "HQ". iIntros "HQ".
  iApply (wp_hole_delete bl bo b Hcons). iFrame "Hb HQ". iIntros "Hb Hqs".
  iApply ("Hk" with "Hb HA Hqs").
Qed.

(** From the iterator on: the messages in the range are scanned, and the queue
    goes when none is left. *)
Lemma wp_scan_items cmd ty act now ttl hide lf flt it es' pre suf post set w Q :
  cmd_account cmd = Some a → payload es' = pins suf → NoDup (e_key <$> es') →
  let ms := unpin <$> pre ++ suf ++ post in
  bl ↦{bo} b ∗ backend ∗ account_hole ∗ queue_hole ∗ lf ↦{o} flt ∗ dict o bl it es' ∗
  tree o bl (pinned (message_at o)) dq (pre ++ suf ++ post) ∗
  (∀ w',
     ⟦ evolves w (observed (b_message_fn b)
         (flat_map (scan_reports now (fi_match_hidden flt) ttl hide ty act (with_flags set))
            (unpin <$> suf))) w' ⟧ -∗
     bl ↦{bo} b -∗ backend -∗
     accounts_at o bl da (put_queue a q ((unpin <$> pre) ++
         flat_map (scan_left now (fi_match_hidden flt) ttl hide ty act set) (unpin <$> suf) ++
         (unpin <$> post))
       (preA ++ (a, preQ ++ (q, ms) :: postQ) :: postA)) -∗ Q 0%Z w')
  ⊢ wp (scan_items (Scan (Some ml) (Some nq) (Some lf) (Some it) now ttl hide ty act)
          (MemoryBackend sa (Some bl) (Some da)) cmd (Some na) set) w Q.
Proof using Hcons.
  intros Ea Hp Hnd ms. iIntros "(Hb & Hm & HA & HQ & Hlf & [Hit Hits] & Hms & Hk)".
  unfold scan_items; simpl. wload "Hit". wp_focus.
  iApply (wp_heap_fuel_own _ _ _ _ (at_least_dict o bl it es')). iFrame "Hit Hits".
  iIntros (fuel Hf) "Hit". wp_focus.
  iApply (wp_scan_loop bl bo b Hcons ml mo sa da dqs nq kbq q dq preQ postQ lf flt it now ttl
    hide ty act [] es' pre suf post); [done..|].
  iFrame "Hb Hm Hlf HQ Hit Hms". iIntros (pinned' w' [Hp' He]) "(Hb & Hm & Hlf & HQ) Hit Hms".
  simpl. wp_focus. iApply wp_burrow_free; [done|]. iFrame "Hb Hlf". iIntros "Hb".
  wp_focus. iApply (wp_free_iterator bl bo b Hcons); [done|]. iFrame "Hb Hit". iIntros "Hb". wp_focus.
  iDestruct (tree_unpin with "Hms") as "Hms". rw !fmap_app Hp'.
  iApply (wp_drop_emptied bl bo b Hcons); [done..| |].
  { intros. rw Ea. apply wp_scan_unlink_queue. }
  iFrame "Hb HA HQ Hms". iIntros "Hb Hs". wret. iApply ("Hk" with "[//] Hb Hm Hs").
Qed.

Lemma wp_scan_found cmd ty act fo f ao at_ now ms w Q :
  (0 ≤ sel_limit (select f))%Z → cmd_account cmd = Some a → cmd_queue cmd = Some q →
  bl ↦{bo} b ∗ backend ∗ account_hole ∗ queue_hole ∗ tree o bl (message_at o) dq ms ∗
  optional_at fo (cmd_filters cmd) f ∗ optional_at ao (cmd_attributes cmd) at_ ∗
  (∀ s' w',
     ⟦ scanned w now cmd ty act (select f) (scan_times now at_)
         (preA ++ (a, preQ ++ (q, ms) :: postQ) :: postA) s' w' ⟧ -∗
     bl ↦{bo} b -∗ backend -∗ accounts_at o bl da s' -∗
     optional_at fo (cmd_filters cmd) f -∗ optional_at ao (cmd_attributes cmd) at_ -∗ Q 0%Z w')
  ⊢ wp (scan_found (Some ml) (MemoryBackend sa (Some bl) (Some da)) cmd ty act now
          (Some na) (Some nq)) w Q.
Proof using Hcons.
  intros Hlim Ea Eq. iIntros "(Hb & Hm & HA & HQ & Hms & Hf & Hat & Hk)".
  iDestruct (hole_fresh with "HA") as %[HfA _]. iDestruct (hole_fresh with "HQ") as %[HfQ _].
  iAssert (account_hole -∗ queue_hole -∗ tree o bl (message_at o) dq ms -∗
    accounts_at o bl da (preA ++ (a, preQ ++ (q, ms) :: postQ) :: postA))%I as "Hclose".
  { iIntros "HA HQ Hms". iDestruct (hole_close with "[$HQ $Hms]") as "Hqs".
    iApply hole_close. iFrame. }
  unfold scan_found. wp_focus. iApply wp_junk. iIntros (set). wp_focus.
  iApply wp_scan_attributes. iFrame "Hat". iIntros "Hat". wp_focus.
  iApply wp_process_filter. iFrame "Hb Hm Hf". iSplit.
  2: { iIntros (w' Hg) "Hb Hm Hf". simpl. wp_focus. iApply wp_log_at. iFrame "Hb".
       iIntros (w'' He) "Hb". wret. iApply ("Hk" with "[%] Hb Hm [-Hf Hat] Hf Hat").
       - right. split; [|by left]. eapply gave_up_log; [|done].
         eapply gave_up_after; [|done]. auto with world.
       - iApply ("Hclose" with "HA HQ Hms"). }
  iIntros (lf flt w1 [He1 Hsel]) "Hb Hm Hf Hlf". simpl. wload "Hlf". wp_focus.
  iApply wp_hole_load. iFrame "HQ". iIntros (pv nx) "HQ". simpl. wp_focus.
  destruct Hsel as (Hmk & Hlm & Hmh & _). rw Hmk Hlm.
  iApply (wp_tree_iter bl bo b Hcons); [done|]. iFrame "Hb Hms". repeat iSplit.
  3: { iIntros (w' Hg) "Hb Hms". simpl. wp_focus. iApply wp_burrow_free; [done|].
       iFrame "Hb Hlf". iIntros "Hb". wret.
       iApply ("Hk" with "[%] Hb Hm [-Hf Hat] Hf Hat").
       - right. split; [|by left]. eapply gave_up_after; [|done]. eapply evolves_silent; [|done].
         auto with world.
       - iApply ("Hclose" with "HA HQ Hms"). }
  - iIntros (it es' l' w2 (He2 & <- & Hp & Hnd)) "Hb Hms Hit". simpl.
    rw -(range_split_at (sel_marker (select f)) (sel_limit (select f)) l').
    iApply (wp_scan_items with "[-]"); [done..|]. iFrame "Hb Hm HA HQ Hlf Hit Hms".
    iIntros (w3 He3) "Hb Hm Hs". iApply ("Hk" with "[%] Hb Hm Hs Hf Hat").
    left. exists set. simpl. rw Ea Eq. unfold scan_queue. rw queue_of_split //.
    unfold unpin. rw range_split_at range_before_map range_in_map range_after_map -Hmh.
    split; [|by eauto using evolves_silent with world].
    simpl. do 2 f_equal. f_equal. apply flat_map_ext. intros im. apply scan_left_flags.
  - iIntros (it w2 Hg) "Hb Hms Hit". simpl.
    iDestruct (tree_pin with "Hms") as (l' <-) "Hms".
    iApply (wp_scan_items _ _ _ _ _ _ _ _ _ [] l' [] [] with "[-]"); [done|done|constructor|].
    rw !(right_id_L [] (++)).  iFrame "Hb Hm HA HQ Hlf Hit Hms".
    iIntros (w3 He3) "Hb Hm Hs". iApply ("Hk" with "[%] Hb Hm Hs Hf Hat").
    right. split; [|right; do 3 eexists; split; [rw Ea Eq; by apply queue_of_split|simpl]].
    + eapply gave_up_silent; [|exact He3]. eapply gave_up_after; [|exact Hg].
      eapply evolves_silent; [|done]. auto with world.
    + done.
Qed.
End found.

Lemma wp_scan_queue cmd ty act fo f ao at_ s w Q :
  (0 ≤ sel_limit (select f))%Z →
  bl ↦{bo} b ∗ backend ∗ accounts_at o bl da s ∗
  optional_at fo (cmd_filters cmd) f ∗ optional_at ao (cmd_attributes cmd) at_ ∗
  (∀ s' w',
     ⟦ let now := u32 (e_time (w_env w) (w_tick w)) in
       scanned w now cmd ty act (select f) (scan_times now at_) s s' w' ⟧ -∗
     bl ↦{bo} b -∗ backend -∗ accounts_at o bl da s' -∗
     optional_at fo (cmd_filters cmd) f -∗ optional_at ao (cmd_attributes cmd) at_ -∗ Q 0%Z w')
  ⊢ wp (_scan_queue (Some ml) cmd ty act) w Q.
Proof using Hcons.
  iIntros (Hlim) "(Hb & Hm & Hs & Hf & Hat & HQ)". unfold _scan_queue. wp_focus.
  iApply wp_time_now. set (now := u32 (e_time (w_env w) (w_tick w))).
  unfold backend_at. wload "Hm". iSimpl in "HQ".
  assert (∀ s', queue_of (cmd_account cmd) (cmd_queue cmd) s' = None → 
    scanned w now cmd ty act (select f) (scan_times now at_) s' s' (tick 1 w)) as Hnone.
  { intros s' E. left. exists 0%Z. unfold scan_queue. rw E. simpl. auto with world. }
  destruct (cmd_account cmd) as [a|] eqn:Ea.
  2: { wp_focus. unfold dictionary_get; simpl. wret. wret.
       iApply ("HQ" with "[%] Hb Hm Hs Hf Hat"). by apply Hnone. }
  wp_focus. iApply wp_tree_get. iFrame "Hs". iSplit.
  { iIntros (Hn) "Hs". simpl. wret. iApply ("HQ" with "[%] Hb Hm Hs Hf Hat").
    apply Hnone. simpl. rw Hn. by destruct (cmd_queue cmd). }
  iIntros (preA qs postA na kba dqs ->) "HA Hqs". simpl. wp_focus.
  iDestruct (hole_fresh with "HA") as %[HfA _].
  iApply wp_hole_load. iFrame "HA". iIntros (pv nx) "HA". simpl.
  destruct (cmd_queue cmd) as [q|] eqn:Eq.
  2: { wp_focus. unfold dictionary_get; simpl. wret. wret.
       iDestruct (hole_close with "[$HA $Hqs]") as "Hs".
       iApply ("HQ" with "[%] Hb Hm Hs Hf Hat"). by apply Hnone. }
  wp_focus. iApply wp_tree_get. iFrame "Hqs". iSplit.
  { iIntros (Hn) "Hqs". simpl. wret. iDestruct (hole_close with "[$HA $Hqs]") as "Hs".
    iApply ("HQ" with "[%] Hb Hm Hs Hf Hat"). apply Hnone. simpl. by rw alookup_mid // Hn. }
  iIntros (preQ ms postQ nq kbq dq ->) "HQ' Hms". simpl.
  iApply (wp_scan_found with "[-]"); [done..|]. iFrame "Hb Hm HA HQ' Hms Hf Hat".
  iIntros (s' w' Hsc) "Hb Hm Hs Hf Hat". iApply ("HQ" with "[%] Hb Hm Hs Hf Hat").
  eapply scanned_later; [|done]. auto with world.
Qed.

(** *** Iterating over names *)

(** Running [act] on every key of an iterator maintains an invariant over the
    keys done so far. *)
Lemma wp_each_loop it act (I : list string → world → hPropI) pre suf fuel w Q :
  length suf < fuel →
  (∀ done k rest w, e_key <$> pre ++ suf = done ++ k :: rest →
     I done w ⊢ wp (act k) w (λ _ w', I (done ++ [k]) w')) →
  dict o bl it (pre ++ suf) ∗ I (e_key <$> pre) w ∗
  (∀ w', dict o bl it (pre ++ suf) -∗ I (e_key <$> pre ++ suf) w' -∗ Q tt w')
  ⊢ wp (loop fuel (each_step (Some it) act) (first_of NULL suf, Z.of_nat (length pre))) w Q.
Proof.
  revert pre suf w. induction fuel as [|fuel IH]; intros pre suf w Hf Hact; [lia|].
  iIntros "(Hd & HI & HQ)". unfold loop; fold (@loop (ptr * Z) unit). unfold each_step.
  destruct suf as [|e suf]; simpl in *.
  - rw (right_id_L [] (++)). iDestruct "Hd" as "[Hd Hs]". wload "Hd".
    rw Z.ltb_irrefl. wret. wret. iApply ("HQ" with "[Hd Hs] HI"). iFrame.
  - iDestruct (dict_open with "Hd") as "(Hd & Hpre & [Hn Hk] & Hsuf)". wload "Hd".
    rw (proj2 (Z.ltb_lt _ _)); [|rw length_app /=; lia]. wload "Hn". wstring "Hk".
    wp_focus. iApply (wp_wand with "[HI]").
    { iApply (Hact (e_key <$> pre) _ (e_key <$> suf) with "HI"). by rw fmap_app. }
    iIntros ([] w') "HI". wload "Hn". wret.
    replace (Z.of_nat (length pre) + 1)%Z with (Z.of_nat (length (pre ++ [e])))
      by (rw length_app /=; lia).
    iApply (IH (pre ++ [e]) suf); [lia|by rw -(assoc_L (++))|].
    rw -(assoc_L (++)) /=. iSplitR "HI HQ"; [rw dict_split; iFrame|].
    iSplitL "HI"; [by rw fmap_app|]. iFrame.
Qed.

Lemma wp_each_item it es act (I : list string → world → hPropI) w Q :
  (∀ done k rest w, e_key <$> es = done ++ k :: rest →
     I done w ⊢ wp (act k) w (λ _ w', I (done ++ [k]) w')) →
  dict o bl it es ∗ I [] w ∗ (∀ w', dict o bl it es -∗ I (e_key <$> es) w' -∗ Q tt w')
  ⊢ wp (each_item (Some it) act) w Q.
Proof.
  intros Hact. iIntros "([Hd Hs] & HI & HQ)". unfold each_item. wload "Hd". wp_focus.
  iApply (wp_heap_fuel_own _ _ _ _ (at_least_dict o bl it es)). iFrame "Hd Hs".
  iIntros (fuel Hf) "Hd". iApply (wp_each_loop it act I [] es); [done..|]. iFrame.
Qed.
End scan.
