(* ===== verification/MemoryLists.v ===== *)
(** Rules for the commands of memory.c that list or delete queues and accounts. *)
From S2P Require Import Prelude Types Heap Macros Dictionary Memory Server Logic MacrosSpec DictionarySpec Assoc TreeSpec MemorySpec MemoryScan.
From iris.proofmode Require Import proofmode.

(** ** The abstract deletions *)

Lemma delete_queue_list_app ts ts' a qs qs' s :
  length ts = length qs →
  delete_queue_list (ts ++ ts') a (qs ++ qs') s =
  delete_queue_list ts' a qs' (delete_queue_list ts a qs s).
Proof.
  revert ts s. induction qs as [|q qs IH]; intros [|t ts] s H; try done.
  simpl. apply IH. by injection H.
Qed.

Lemma delete_account_list_app tss tss' accts accts' s :
  length tss = length accts →
  delete_account_list (tss ++ tss') (accts ++ accts') s =
  delete_account_list tss' accts' (delete_account_list tss accts s).
Proof.
  revert tss s. induction accts as [|a accts IH]; intros [|ts tss] s H; try done.
  simpl. apply IH. by injection H.
Qed.

Lemma times_fit_length tss accts s : times_fit tss accts s → length tss = length accts.
Proof.
  revert tss s. induction accts as [|a accts IH]; intros [|ts tss] s H; try done.
  simpl. f_equal. by eapply IH, H.
Qed.

Lemma times_fit_app tss tss' accts accts' s :
  times_fit tss accts s → times_fit tss' accts' (delete_account_list tss accts s) →
  times_fit (tss ++ tss') (accts ++ accts') s.
Proof.
  revert tss s. induction accts as [|a accts IH]; intros [|ts tss] s H; try done.
  simpl. intros H'. split; [apply H|]. apply IH; [apply H|done].
Qed.

(** A scan that only deletes reports nothing, whatever the flags. *)
Lemma scan_delete_quiet now sel times set a q s :
  scan_queue now sel times DELETE IGNORE set a q s =
  ((scan_queue now sel times DELETE IGNORE 0 a q s).1, []).
Proof.
  unfold scan_queue. destruct (queue_of a q s) as [[[a' q'] ms]|]; [|done]. simpl.
  rw (flat_map_ext _ _ (scan_left_flags now (sel_hidden sel) times.1 times.2 DELETE IGNORE set 0)).
  f_equal. generalize (range_in (sel_marker sel) (sel_limit sel) ms) as l.
  induction l as [|x l IH]; [done|]. simpl. rw IH (right_id_L [] (++)).
  unfold scan_reports, scan_one.
  by destruct (expired now x.2), (negb (sel_hidden sel) && hidden now x.2).
Qed.

(** A reading of the clock between two moments. *)
Definition reading (E : environment) (n n' : nat) (t : Z) : Prop :=
  ∃ k, n ≤ k ≤ n' ∧ t = u32 (e_time E k).

(** A reading of the run's clock on the way from [w] to [w']. *)
Definition clock (w w' : world) : Z → Prop := reading (w_env w) (w_tick w) (w_tick w').

Lemma clock_within w0 es w w' es' w1 t :
  evolves w0 es w → evolves w' es' w1 → clock w w' t → clock w0 w1 t.
Proof.
  intros (E & Hn & _) (_ & Hn' & _) (n & Hk & ->). exists n. split; [lia|]. by rw -E.
Qed.

Lemma clock_now w es w' : evolves w es w' → clock w w' (u32 (e_time (w_env w) (w_tick w))).
Proof. intros (_ & Hn & _). exists (w_tick w). split; [lia|done]. Qed.

Section lists.
Context (bl : loc) (bo : owner) (b : burrow_st) (Hcons : consistent b).
Let o := alloc_owner b.
Context (ml : loc) (mo : owner) (sa : Z) (da : loc).
Abbreviation backend := (backend_at bl ml mo sa da).

(** The tail the two listings share: call back with every key, then free. *)
Lemma wp_list_items lf (flt : burrow_filters_st) it es cb fn (ev : string → event) w Q :
  NoDup (e_key <$> es) →
  (∀ k w Q, bl ↦{bo} b ∗ (∀ w', ⟦ evolves w (when_set fn (ev k)) w' ⟧ -∗ bl ↦{bo} b -∗ Q tt w')
     ⊢ wp (cb k) w Q) →
  bl ↦{bo} b ∗ lf ↦{o} flt ∗ dict o bl it es ∗
  (∀ w', ⟦ evolves w (observed fn (ev <$> (e_key <$> es))) w' ⟧ -∗ bl ↦{bo} b -∗ Q 0%Z w')
  ⊢ wp (each_item (Some it) cb;; burrow_free (Some bl) (Some lf);;
        free_iterator (Some bl) (Some it);; mret 0%Z) w Q.
Proof using Hcons.
  intros Hnd Hcb. iIntros "(Hb & Hlf & Hit & HQ)". wp_focus.
  iApply (wp_each_item bl b it es cb (λ done w',
    ⟦ evolves w (observed fn (ev <$> done)) w' ⟧ ∗ bl ↦{bo} b)%I).
  { intros done k rest w1 _. iIntros "[%He Hb]". iApply Hcb. iFrame "Hb".
    iIntros (w2 He2) "$". iPureIntro. rw fmap_app observed_app.
    eapply evolves_trans; [done|]. simpl. by rw (right_id_L [] (++)). }
  iFrame "Hit Hb". iSplit; [iPureIntro; apply evolves_refl|].
  iIntros (w') "Hit [%He Hb]". wp_focus. iApply wp_burrow_free; [done|]. iFrame "Hb Hlf".
  iIntros "Hb". wp_focus. iApply (wp_free_iterator bl bo b Hcons); [done|]. iFrame "Hb Hit".
  iIntros "Hb". wret. by iApply ("HQ" with "[//] Hb").
Qed.

(** A listing once its filters are there: the names in the range are called back,
    and the tree is as it was. *)
Lemma wp_listing {A} (R : loc → string → A → hPropI) d l marker limit lf (flt : burrow_filters_st)
    cb fn (ev : string → event) w Q :
  (0 ≤ limit)%Z →
  (∀ k w Q, bl ↦{bo} b ∗ (∀ w', ⟦ evolves w (when_set fn (ev k)) w' ⟧ -∗ bl ↦{bo} b -∗ Q tt w')
     ⊢ wp (cb k) w Q) →
  bl ↦{bo} b ∗ tree o bl R d l ∗ lf ↦{o} flt ∗
  (∀ w', ⟦ evolves w (observed fn (ev <$> (range_in marker limit l).*1)) w' ∨ gave_up w w' ⟧ -∗
     bl ↦{bo} b -∗ tree o bl R d l -∗ Q 0%Z w')
  ⊢ wp (iterator ← dictionary_iter (Some d) marker limit;
        if is_null iterator then burrow_free (Some bl) (Some lf);; mret 0%Z else
        each_item iterator cb;; burrow_free (Some bl) (Some lf);;
        free_iterator (Some bl) iterator;; mret 0%Z) w Q.
Proof using Hcons.
  intros Hlim Hcb. iIntros "(Hb & Hs & Hlf & HQ)". wp_focus.
  iApply (wp_tree_iter bl bo b Hcons); [done|]. iFrame "Hb Hs". repeat iSplit.
  - iIntros (it es l' w2 (He2 & <- & Hp%pins_names & Hnd)) "Hb Hs Hit". simpl.
    iApply (wp_list_items _ _ _ _ _ fn ev with "[-]"); [done..|].
    iFrame "Hb Hlf Hit". iIntros (w3 He3) "Hb". iDestruct (tree_unpin with "Hs") as "Hs".
    iApply ("HQ" with "[%] Hb Hs"). left. rw -Hp. by eapply evolves_silent.
  - iIntros (it w2 Hg) "Hb Hs Hit". simpl.
    iApply (wp_list_items _ _ _ [] _ fn ev with "[-]"); [constructor|done|].
    iFrame "Hb Hlf Hit". iIntros (w3 He3) "Hb".
    iApply ("HQ" with "[%] Hb Hs"). right. by eapply gave_up_silent.
  - iIntros (w2 Hg) "Hb Hs". simpl. wp_focus. iApply wp_burrow_free; [done|].
    iFrame "Hb Hlf". iIntros "Hb". wret. iApply ("HQ" with "[%] Hb Hs"). by right.
Qed.

Lemma wp_get_accounts cmd fo f s w Q :
  (0 ≤ sel_limit (select f))%Z →
  bl ↦{bo} b ∗ backend ∗ accounts_at o bl da s ∗ optional_at fo (cmd_filters cmd) f ∗
  (∀ w',
     ⟦ evolves w (observed (b_account_fn b)
                   ((λ a, EvAccount (Some a)) <$> account_names (select f) s)) w'
       ∨ gave_up w w' ⟧ -∗
     bl ↦{bo} b -∗ backend -∗ accounts_at o bl da s -∗ optional_at fo (cmd_filters cmd) f -∗ Q 0%Z w')
  ⊢ wp (burrow_backend_memory_get_accounts (Some ml) cmd) w Q.
Proof using Hcons.
  intros Hlim. iIntros "(Hb & Hm & Hs & Hf & HQ)". unfold burrow_backend_memory_get_accounts.
  unfold backend_at. wload "Hm". wp_focus. iApply wp_process_filter. iFrame "Hb Hm Hf". iSplit.
  2: { iIntros (w' Hg) "Hb Hm Hf". simpl. wret. iApply ("HQ" with "[%] Hb Hm Hs Hf"). by right. }
  iIntros (lf flt w1 [He1 (Hmk & Hlm & _)]) "Hb Hm Hf Hlf". simpl. wload "Hlf".
  rw Hmk Hlm. iApply (wp_listing _ _ _ _ _ _ _ _ (b_account_fn b) (λ a, EvAccount (Some a)) with "[-]");
    [done|intros; apply wp_callback_account|].
  iFrame "Hb Hs Hlf". iIntros (w2 [He2|Hg]) "Hb Hs"; iApply ("HQ" with "[%] Hb Hm Hs Hf").
  - left. by eapply evolves_silent.
  - right. by eapply gave_up_after.
Qed.

Lemma wp_get_queues cmd fo f s w Q :
  (0 ≤ sel_limit (select f))%Z →
  bl ↦{bo} b ∗ backend ∗ accounts_at o bl da s ∗ optional_at fo (cmd_filters cmd) f ∗
  (∀ w',
     ⟦ evolves w (observed (b_queue_fn b)
                   ((λ q, EvQueue (Some q)) <$> queue_names (select f) (cmd_account cmd) s)) w'
       ∨ gave_up w w' ⟧ -∗
     bl ↦{bo} b -∗ backend -∗ accounts_at o bl da s -∗ optional_at fo (cmd_filters cmd) f -∗ Q 0%Z w')
  ⊢ wp (burrow_backend_memory_get_queues (Some ml) cmd) w Q.
Proof using Hcons.
  intros Hlim. iIntros "(Hb & Hm & Hs & Hf & HQ)". unfold burrow_backend_memory_get_queues.
  unfold backend_at. wload "Hm". destruct (cmd_account cmd) as [a|] eqn:Ea; simpl.
  2: { wp_focus. unfold dictionary_get; simpl. wret. wret. iApply ("HQ" with "[%] Hb Hm Hs Hf").
       left. auto with world. }
  wp_focus. iApply wp_tree_get. iFrame "Hs". iSplit.
  { iIntros (Hn) "Hs". simpl. wret. rw Hn. iApply ("HQ" with "[%] Hb Hm Hs Hf").
    left. auto with world. }
  iIntros (preA qs postA na kba dqs ->) "HA Hqs". simpl. wp_focus.
  iDestruct (hole_fresh with "HA") as %[HfA _]. rw alookup_mid //.
  iApply wp_hole_load. iFrame "HA". iIntros (pv nx) "HA". simpl. wp_focus.
  iApply wp_process_filter. iFrame "Hb Hm Hf". iSplit.
  2: { iIntros (w' Hg) "Hb Hm Hf". simpl. wret. iDestruct (hole_close with "[$HA $Hqs]") as "Hs".
       iApply ("HQ" with "[%] Hb Hm Hs Hf"). by right. }
  iIntros (lf flt w1 [He1 (Hmk & Hlm & _)]) "Hb Hm Hf Hlf". simpl. wload "Hlf".
  rw Hmk Hlm. iApply (wp_listing _ _ _ _ _ _ _ _ (b_queue_fn b) (λ q, EvQueue (Some q)) with "[-]");
    [done|intros; apply wp_callback_queue|].
  iFrame "Hb Hqs Hlf". iIntros (w2 Hw) "Hb Hqs".
  iDestruct (hole_close with "[$HA $Hqs]") as "Hs". iApply ("HQ" with "[%] Hb Hm Hs Hf").
  destruct Hw as [He2|Hg]; [left; by eapply evolves_silent | right; by eapply gave_up_after].
Qed.

(** One queue, by way of [erase_cmd]. *)
Lemma wp_erase_queue cmd lf flt k s w Q :
  reliable w → selects flt everything → cmd_filters cmd = Some lf → cmd_attributes cmd = NULL →
  bl ↦{bo} b ∗ backend ∗ accounts_at o bl da s ∗ lf ↦{o} flt ∗
  (∀ w' now, ⟦ evolves w [] w' ∧ clock w w' now ⟧ -∗ bl ↦{bo} b -∗ backend -∗
     accounts_at o bl da (delete_queue_list [now] (cmd_account cmd) [k] s) -∗ lf ↦{o} flt -∗
     Q 0%Z w')
  ⊢ wp (_scan_queue (Some ml) (cmd <| cmd_queue := Some k |>) DELETE IGNORE) w Q.
Proof using Hcons.
  intros Hr (Hmk & Hlm & _ & Hsel) Ef Eat. iIntros "(Hb & Hm & Hs & Hlf & HQ)".
  iApply (wp_scan_queue bl bo b Hcons ml mo sa da _ DELETE IGNORE o (Some flt) o None s with "[-]").
  { by rw Hsel. }
  cbn -[select scan_queue]. rw Ef Eat Hsel. cbn. iFrame "Hb Hm Hs Hlf".
  iSplitR; [done|]. iIntros (s' w' Hsc) "Hb Hm Hs Hlf _".
  destruct Hsc as [[set [-> He]]|[[Hn _] _]]; [|done]. simpl in He.
  rw scan_delete_quiet in He. rw scan_delete_quiet. simpl.
  iApply ("HQ" with "[%] Hb Hm Hs Hlf"). split; [done|]. by eapply clock_now.
Qed.

(** The frame of the two deletions, when memory lasts: [ok] is what [erase_cmd]
    satisfies once set up, [X] the rest of the state after some names. *)
Lemma wp_erase_items failure lf (flt : burrow_filters_st) it es setup act
    (ok : burrow_command_st → ptr → Prop) (X : world → list string → hPropI) w Q :
  reliable w → (∀ w1 w2 names, evolves w1 [] w2 → X w1 names ⊢ X w2 names) → NoDup (e_key <$> es) → (∀ c p, ok c p → cmd_filters c = p) →
  (∀ el c w Q, el ↦{o} c ∗ (∀ c', ⟦ ok c' (cmd_filters c) ⟧ -∗ el ↦{o} c' -∗ Q tt w)
     ⊢ wp (setup (Some el)) w Q) →
  (∀ el c lf2 flt2 done k rest w1, e_key <$> es = done ++ k :: rest →
     selects flt2 everything → ok c (Some lf2) → evolves w [] w1 →
     bl ↦{bo} b ∗ backend ∗ el ↦{o} c ∗ lf2 ↦{o} flt2 ∗ X w1 done ⊢
     wp (act (Some el) k) w1 (λ _ w2, ∃ c', ⟦ ok c' (Some lf2) ∧ evolves w [] w2 ⟧ ∗
       bl ↦{bo} b ∗ backend ∗ el ↦{o} c' ∗ lf2 ↦{o} flt2 ∗ X w2 (done ++ [k]))) →
  bl ↦{bo} b ∗ backend ∗ lf ↦{o} flt ∗ dict o bl it es ∗ X w [] ∗
  (∀ w', ⟦ evolves w [] w' ⟧ -∗ bl ↦{bo} b -∗ backend -∗ X w' (e_key <$> es) -∗ Q 0%Z w') ⊢
  wp (erase_items (Some ml) (MemoryBackend sa (Some bl) (Some da)) failure (Some lf) (Some it)
        setup act) w Q.
Proof using Hcons.
  intros Hr HX Hnd Hok Hsetup Hact. iIntros "(Hb & Hm & Hlf & Hit & HX & HQ)".
  unfold erase_items; simpl. wp_focus. iApply wp_burrow_malloc. iFrame "Hb". rw reliable_ok //.
  iIntros (el) "Hb Hel". simpl. wp_focus.
  iApply (wp_process_filter bl bo b ml mo sa da o NULL None). iFrame "Hb Hm".
  iSplitR; [done|]. iSplit; [|by iIntros (w' Hg%gave_up_reliable)].
  iIntros (lf2 flt2 w1 [He1 Hsel]) "Hb Hm _ Hlf2". wmodify "Hel". simpl.
  wp_focus. iApply Hsetup. iFrame "Hel". iIntros (c Hc) "Hel". simpl in Hc. wp_focus.
  iApply (wp_each_item bl b it es _ (λ done w1, ∃ c', ⟦ ok c' (Some lf2) ∧ evolves w [] w1 ⟧ ∗
       bl ↦{bo} b ∗ backend ∗ el ↦{o} c' ∗ lf2 ↦{o} flt2 ∗ X w1 done)%I).
  { intros done k rest w2 Hk. iIntros "H". iDestruct "H" as (c' [Hc' He']) "H".
    iApply (Hact with "H"); done. }
  iFrame "Hit". iSplitR "Hlf HQ".
  { iExists c. iFrame "Hb Hm Hel Hlf2". iDestruct (HX with "HX") as "$"; [|iPureIntro];
      eauto using evolves_silent with world. }
  iIntros (w2) "Hit H". iDestruct "H" as (c' [Hc' He2]) "(Hb & Hm & Hel & Hlf2 & HX)".
  wp_focus. iApply wp_burrow_free; [done|]. iFrame "Hb Hlf". iIntros "Hb".
  wp_focus. iApply (wp_free_iterator bl bo b Hcons); [done|]. iFrame "Hb Hit". iIntros "Hb".
  wload "Hel". rw (Hok _ _ Hc'). wp_focus. iApply wp_burrow_free; [done|]. iFrame "Hb Hlf2".
  iIntros "Hb". wp_focus. iApply wp_burrow_free; [done|]. iFrame "Hb Hel". iIntros "Hb". wret.
  iApply ("HQ" with "[//] Hb Hm HX").
Qed.

Lemma reliable_after w es w' : evolves w es w' → reliable w → reliable w'.
Proof. intros He. by apply (reliable_evolves _ _ _ He). Qed.

Lemma clocks_within w0 es w w' es' w1 ts :
  evolves w0 es w → evolves w' es' w1 → Forall (clock w w') ts → Forall (clock w0 w1) ts.
Proof.
  intros He He' Ht. eapply Forall_impl; [exact Ht|]. intros t. by apply (clock_within _ _ _ _ _ _ _ He He').
Qed.

(** The queues of account [a] whose names an iterator holds. *)
Lemma wp_erase_queues failure lf (flt : burrow_filters_st) it es A s w Q :
  reliable w → NoDup (e_key <$> es) →
  bl ↦{bo} b ∗ backend ∗ lf ↦{o} flt ∗ dict o bl it es ∗ accounts_at o bl da s ∗
  (∀ w' times, ⟦ evolves w [] w' ∧ length times = length (e_key <$> es) ∧ Forall (clock w w') times ⟧ -∗
     bl ↦{bo} b -∗ backend -∗ accounts_at o bl da (delete_queue_list times A (e_key <$> es) s) -∗
     Q 0%Z w') ⊢
  wp (erase_items (Some ml) (MemoryBackend sa (Some bl) (Some da)) failure (Some lf) (Some it)
        (λ erase_cmd,
           modify erase_cmd (λ c, c <| cmd_attributes := NULL |>);;
           modify erase_cmd (λ c, c <| cmd_account := A |>))
        (λ erase_cmd k,
           modify erase_cmd (λ c, c <| cmd_queue := Some k |>);;
           c ← load erase_cmd;
           _scan_queue (Some ml) c DELETE IGNORE;;
           mret tt)) w Q.
Proof using Hcons.
  intros Hr Hnd. iIntros "(Hb & Hm & Hlf & Hit & Hs & HQ)".
  iApply (wp_erase_items _ _ _ _ _ _ _
    (λ c p, cmd_filters c = p ∧ cmd_attributes c = NULL ∧ cmd_account c = A)
    (λ w' done, ∃ times, ⟦ length times = length done ∧ Forall (clock w w') times ⟧ ∗
       accounts_at o bl da (delete_queue_list times A done s))%I with "[-]");
    [done| |done|by intros c p [? _]| | |].
  - intros w1 w2 names He. iIntros "H". iDestruct "H" as (times [Hl Ht]) "Hs". iExists times. iFrame.
    iPureIntro. split; [done|]. eapply clocks_within; [apply evolves_refl|exact He|done].
  - intros el c w1 Q1. iIntros "[Hel HQ]". wmodify "Hel". wmodify "Hel". by iApply ("HQ" with "[%] Hel").
  - intros el c lf2 flt2 done k rest w1 _ Hsel (Ef & Eat & EA) He.
    iIntros "(Hb & Hm & Hel & Hlf2 & HX)". iDestruct "HX" as (times [Hl Ht]) "Hs".
    wmodify "Hel". wload "Hel". wp_focus.
    iApply (wp_erase_queue c lf2 flt2 with "[-]"); [by eapply reliable_after|done..|].
    iFrame "Hb Hm Hs Hlf2". iIntros (w2 now [He2 Hnow]) "Hb Hm Hs Hlf2". wret.
    iExists _. iFrame "Hb Hm Hel Hlf2".
    iSplitR; [iPureIntro; split_and!; [done..|by eapply evolves_silent]|].
    iExists (times ++ [now]). iSplit.
    + iPureIntro. rw !length_app Hl /=. split; [done|]. apply Forall_app. split.
      * eapply clocks_within; [apply evolves_refl|exact He2|done].
      * repeat constructor. eapply clock_within; [exact He|apply evolves_refl|done].
    + by rw delete_queue_list_app // EA.
  - iFrame "Hb Hm Hlf Hit". iSplitL "Hs"; [iExists []; by iFrame|].
    iIntros (w' He) "Hb Hm H". iDestruct "H" as (times [Hl Ht]) "Hs".
    iApply ("HQ" with "[%] Hb Hm Hs"). done.
Qed.

Lemma wp_delete_queues cmd fo f s w Q :
  reliable w → (0 ≤ sel_limit (select f))%Z →
  bl ↦{bo} b ∗ backend ∗ accounts_at o bl da s ∗ optional_at fo (cmd_filters cmd) f ∗
  (∀ w' times, let names := queue_names (select f) (cmd_account cmd) s in
     ⟦ evolves w [] w' ∧ length times = length names ∧ Forall (clock w w') times ⟧ -∗
     bl ↦{bo} b -∗ backend -∗ accounts_at o bl da (delete_queue_list times (cmd_account cmd) names s) -∗
     optional_at fo (cmd_filters cmd) f -∗ Q 0%Z w')
  ⊢ wp (burrow_backend_memory_delete_queues (Some ml) cmd) w Q.
Proof using Hcons.
  intros Hr Hlim. iIntros "(Hb & Hm & Hs & Hf & HQ)". unfold burrow_backend_memory_delete_queues.
  unfold backend_at. wload "Hm". destruct (cmd_account cmd) as [a|] eqn:Ea; simpl.
  2: { wp_focus. unfold dictionary_get; simpl. wret. wret.
       iApply ("HQ" $! w [] with "[%] Hb Hm Hs Hf"). auto with world. }
  wp_focus. iApply wp_tree_get. iFrame "Hs". iSplit.
  { iIntros (Hn) "Hs". simpl. wret. rw Hn. iApply ("HQ" $! w [] with "[%] Hb Hm Hs Hf").
    auto with world. }
  iIntros (preA qs postA na kba dqs ->) "HA Hqs". simpl. wp_focus.
  iDestruct (hole_fresh with "HA") as %[HfA _]. rw alookup_mid //.
  iApply wp_hole_load. iFrame "HA". iIntros (pv nx) "HA". simpl. wp_focus.
  iApply wp_process_filter. iFrame "Hb Hm Hf". iSplit; [|by iIntros (w' Hg%gave_up_reliable)].
  iIntros (lf flt w1 [He1 (Hmk & Hlm & _)]) "Hb Hm Hf Hlf". simpl. wload "Hlf".
  rw Hmk Hlm. wp_focus. iApply (wp_tree_iter bl bo b Hcons); [done|]. iFrame "Hb Hqs".
  apply (reliable_after _ _ _ He1) in Hr as Hr1.
  repeat iSplit; [|by iIntros (? w' Hg%gave_up_reliable)|by iIntros (w' Hg%gave_up_reliable)].
  iIntros (it es l' w2 (He2 & <- & Hp%pins_names & Hnd)) "Hb Hqs Hit". simpl.
  iDestruct (tree_unpin with "Hqs") as "Hqs". iDestruct (hole_close with "[$HA $Hqs]") as "Hs".
  iApply (wp_erase_queues with "[-]"); [by eapply reliable_after|done|].
  iFrame "Hb Hm Hlf Hit Hs". iIntros (w3 times (He3 & Hl & Ht)) "Hb Hm Hs". rw -Hp.
  iApply ("HQ" with "[%] Hb Hm Hs Hf"). split_and!; [by eauto using evolves_silent|done|].
  eapply clocks_within; [|apply evolves_refl|done]. by eapply evolves_silent.
Qed.

Lemma wp_delete_accounts cmd fo f s w Q :
  reliable w → (0 ≤ sel_limit (select f))%Z →
  bl ↦{bo} b ∗ backend ∗ accounts_at o bl da s ∗ optional_at fo (cmd_filters cmd) f ∗
  (∀ w' tss, let names := account_names (select f) s in
     ⟦ evolves w [] w' ∧ times_fit tss names s ∧ Forall (Forall (clock w w')) tss ⟧ -∗
     bl ↦{bo} b -∗ backend -∗ accounts_at o bl da (delete_account_list tss names s) -∗
     optional_at fo (cmd_filters cmd) f -∗ Q 0%Z w')
  ⊢ wp (burrow_backend_memory_delete_accounts (Some ml) cmd) w Q.
Proof using Hcons.
  intros Hr Hlim. iIntros "(Hb & Hm & Hs & Hf & HQ)". unfold burrow_backend_memory_delete_accounts.
  unfold backend_at. wload "Hm". wp_focus.
  iApply wp_process_filter. iFrame "Hb Hm Hf". iSplit; [|by iIntros (w' Hg%gave_up_reliable)].
  iIntros (lf flt w1 [He1 (Hmk & Hlm & _)]) "Hb Hm Hf Hlf". simpl. wload "Hlf".
  rw Hmk Hlm. wp_focus. iApply (wp_tree_iter bl bo b Hcons); [done|]. iFrame "Hb Hs".
  apply (reliable_after _ _ _ He1) in Hr as Hr1.
  repeat iSplit; [|by iIntros (? w' Hg%gave_up_reliable)|by iIntros (w' Hg%gave_up_reliable)].
  iIntros (it es l' w2 (He2 & <- & Hp%pins_names & Hnd)) "Hb Hs Hit". simpl.
  iDestruct (tree_unpin with "Hs") as "Hs". set (s := unpin <$> l').
  assert (evolves w [] w2) as He by by eapply evolves_silent.
  iApply (wp_erase_items _ _ _ _ _ _ _ (λ c p, cmd_filters c = p)
    (λ w' done, ∃ tss, ⟦ times_fit tss done s ∧ Forall (Forall (clock w w')) tss ⟧ ∗
       accounts_at o bl da (delete_account_list tss done s))%I with "[-]");
    [by eapply reliable_after| |done|done| | |].
  - intros w3 w4 names He4. iIntros "H". iDestruct "H" as (tss [Hfit Ht]) "Hs". iExists tss. iFrame.
    iPureIntro. split; [done|]. eapply Forall_impl; [exact Ht|]. intros ts.
    by eapply clocks_within; [apply evolves_refl|].
  - intros el c w3 Q3. iIntros "[Hel HQ]". wret. by iApply ("HQ" with "[%] Hel").
  - intros el c lf2 flt2 done k rest w3 _ (Hmk2 & Hlm2 & Hmh2 & Hsel) Ef He3.
    iIntros "(Hb & Hm & Hel & Hlf2 & HX)". iDestruct "HX" as (tss [Hfit Ht]) "Hs".
    wmodify "Hel". wload "Hel". wp_focus.
    iApply (wp_delete_queues _ o (Some flt2) with "[-]"); [|by rw Hsel|].
    { eapply reliable_after; [exact He3|]. by eapply reliable_after. }
    cbn -[select queue_names]. rw Ef Hsel. cbn -[queue_names]. iFrame "Hb Hm Hs Hlf2".
    iIntros (w4 times (He4 & Hl & Ht4)) "Hb Hm Hs Hlf2". wret.
    iExists _. iFrame "Hb Hm Hel Hlf2". iSplitR; [iPureIntro; split; [done|by eapply evolves_silent]|].
    iExists (tss ++ [times]). iSplit.
    + iPureIntro. split; [by apply times_fit_app|]. apply Forall_app. split.
      * eapply Forall_impl; [exact Ht|]. intros ts. by eapply clocks_within; [apply evolves_refl|].
      * repeat constructor. eapply clocks_within; [|apply evolves_refl|done]. by eapply evolves_silent.
    + rw delete_account_list_app; [|by eapply times_fit_length]. done.
  - iFrame "Hb Hm Hlf Hit". iSplitL "Hs"; [iExists []; by iFrame|].
    iIntros (w' He') "Hb Hm H". iDestruct "H" as (tss [Hfit Ht]) "Hs". unfold account_names. rw -Hp.
    iApply ("HQ" with "[%] Hb Hm Hs Hf"). split_and!; [by eapply evolves_silent|done..].
Qed.
End lists.
