(* ===== verification/MemoryMessages.v ===== *)
(** Rules for the commands of memory.c on single messages, and for the creation
    and the end of the backend. *)
From S2P Require Import Prelude Types Heap Macros Dictionary Memory Server Logic MacrosSpec DictionarySpec Assoc TreeSpec MemorySpec MemoryScan MemoryLists.
From iris.proofmode Require Import proofmode.

Section messages.
Context (bl : loc) (bo : owner) (b : burrow_st) (Hcons : consistent b).
Let o := alloc_owner b.
Context (ml : loc) (mo : owner) (sa : Z) (da : loc).
Abbreviation backend := (backend_at bl ml mo sa da).
Abbreviation state := (MemoryBackend sa (Some bl) (Some da)).

(** A message of the server, found: the three dictionaries are open at it. *)
Record place := Place {
  pl_a : string; pl_q : string; pl_id : string;
  pl_na : loc; pl_kba : loc; pl_dqs : loc; pl_nq : loc; pl_kbq : loc; pl_dms : loc;
  pl_nm : loc; pl_kbm : loc; pl_p : loc;
  pl_preA : server; pl_postA : server; pl_preQ : queues; pl_postQ : queues;
  pl_preM : messages; pl_postM : messages }.

Definition place_queue (x : place) (m : message) : messages :=
  pl_preM x ++ (pl_id x, m) :: pl_postM x.
Definition place_server (x : place) (m : message) : server :=
  pl_preA x ++ (pl_a x, pl_preQ x ++ (pl_q x, place_queue x m) :: pl_postQ x) :: pl_postA x.

Definition place_at (x : place) : hPropI :=
  (hole o bl (account_at o bl) da (pl_na x) (pl_kba x) (pl_a x) (pl_dqs x) (pl_preA x) (pl_postA x) ∗
   hole o bl (queue_at o bl) (pl_dqs x) (pl_nq x) (pl_kbq x) (pl_q x) (pl_dms x) (pl_preQ x) (pl_postQ x) ∗
   hole o bl (message_at o) (pl_dms x) (pl_nm x) (pl_kbm x) (pl_id x) (pl_p x) (pl_preM x) (pl_postM x))%I.

(** Putting a message back. *)
Lemma place_close x m :
  place_at x ∗ message_at o (pl_p x) (pl_id x) m ⊢ accounts_at o bl da (place_server x m).
Proof.
  iIntros "[(HA & HQ & HM) Hm]". iDestruct (hole_close with "[$HM $Hm]") as "Hms".
  iDestruct (hole_close with "[$HQ $Hms]") as "Hqs". iApply hole_close. iFrame.
Qed.

(** The names of a place are the first of their lists. *)
Definition place_distinct (x : place) : Prop :=
  (pl_a x ∉ (pl_preA x).*1) ∧ (pl_q x ∉ (pl_preQ x).*1) ∧ (pl_id x ∉ (pl_preM x).*1).

Lemma place_fresh x :
  place_at x ⊢ ⌜place_distinct x⌝.
Proof.
  iIntros "(HA & HQ & HM)". iDestruct (hole_fresh with "HA") as %[? _].
  iDestruct (hole_fresh with "HQ") as %[? _]. iDestruct (hole_fresh with "HM") as %[? _]. done.
Qed.

Lemma wp_find_message cmd s w Q :
  accounts_at o bl da s ∗
  ((⌜message_of (cmd_account cmd) (cmd_queue cmd) (cmd_message_id cmd) s = None⌝ →
      accounts_at o bl da s -∗ Q None w) ∧
   (∀ x m, ⌜s = place_server x m ∧ cmd_account cmd = Some (pl_a x) ∧
        cmd_queue cmd = Some (pl_q x) ∧ cmd_message_id cmd = Some (pl_id x)⌝ →
      place_at x -∗ message_at o (pl_p x) (pl_id x) m -∗
      Q (Some (Some (pl_na x), Some (pl_nq x), Some (pl_p x))) w))
  ⊢ wp (find_message state cmd) w Q.
Proof.
  iIntros "[Hs HQ]". unfold find_message, message_of, queue_of; simpl.
  destruct (cmd_account cmd) as [a|] eqn:Ea.
  2: { wp_focus. unfold dictionary_get; simpl. wret. wret. iDestruct "HQ" as "[HQ _]".
       by iApply ("HQ" with "[//] Hs"). }
  wp_focus. iApply wp_tree_get. iFrame "Hs". iSplit.
  { iIntros (Hn) "Hs". simpl. wret. iDestruct "HQ" as "[HQ _]". iApply ("HQ" with "[%] Hs").
    rw Hn. by destruct (cmd_queue cmd). }
  iIntros (preA qs postA na kba dqs ->) "HA Hqs". simpl. wp_focus.
  iDestruct (hole_fresh with "HA") as %[HfA _]. rw alookup_mid //.
  iApply wp_hole_load. iFrame "HA". iIntros (pv nx) "HA". simpl.
  destruct (cmd_queue cmd) as [q|] eqn:Eq.
  2: { wp_focus. unfold dictionary_get; simpl. wret. wret. iDestruct "HQ" as "[HQ _]".
       iApply ("HQ" with "[//]"). iApply hole_close. iFrame. }
  wp_focus. iApply wp_tree_get. iFrame "Hqs". iSplit.
  { iIntros (Hn) "Hqs". simpl. wret. iDestruct "HQ" as "[HQ _]". iApply ("HQ" with "[%]").
    - by rw Hn.
    - iApply hole_close. iFrame. }
  iIntros (preQ ms postQ nq kbq dq ->) "HQ' Hms". simpl.
  iDestruct (hole_fresh with "HQ'") as %[HfQ _]. rw alookup_mid // /=.
  wp_focus. iApply wp_hole_load. iFrame "HQ'". iIntros (pv' nx') "HQ'". simpl.
  destruct (cmd_message_id cmd) as [id|] eqn:Ei.
  2: { wp_focus. unfold dictionary_get; simpl. wret. wret. iDestruct "HQ" as "[HQ _]".
       iApply ("HQ" with "[//]"). iDestruct (hole_close with "[$HQ' $Hms]") as "Hqs".
       iApply hole_close. iFrame. }
  wp_focus. iApply wp_tree_get. iFrame "Hms". iSplit.
  { iIntros (Hn) "Hms". simpl. wret. iDestruct "HQ" as "[HQ _]". iApply ("HQ" with "[%]").
    - by rw Hn.
    - iDestruct (hole_close with "[$HQ' $Hms]") as "Hqs". iApply hole_close. iFrame. }
  iIntros (preM m postM nm kbm p ->) "HM Hm". simpl.
  wp_focus. iApply wp_hole_load. iFrame "HM". iIntros (pv2 nx2) "HM". simpl. wret.
  iDestruct "HQ" as "[_ HQ]".
  iApply ("HQ" $! (Place a q id na kba dqs nq kbq dq nm kbm p preA postA preQ postQ preM postM) m
    with "[//] [HA HQ' HM] Hm"). unfold place_at; simpl. iFrame.
Qed.

(** *** The abstract server at a place *)

Lemma message_of_place x m :
  place_distinct x →
  message_of (Some (pl_a x)) (Some (pl_q x)) (Some (pl_id x)) (place_server x m) =
  Some (pl_a x, pl_q x, place_queue x m, pl_id x, m).
Proof.
  intros (Ha & Hq & Hi). unfold message_of, place_server. rw queue_of_split //.
  unfold place_queue. by rw alookup_mid.
Qed.

Lemma put_queue_place x m m' :
  place_distinct x →
  put_queue (pl_a x) (pl_q x) (aset (pl_id x) m' (place_queue x m)) (place_server x m) =
  place_server x m'.
Proof.
  intros (Ha & Hq & Hi). unfold place_server. rw put_queue_split //.
  unfold place_queue. rw aset_mid //. by destruct (pl_preM x).
Qed.

Lemma wp_unlink_message x m cmd w Q :
  cmd_account cmd = Some (pl_a x) → cmd_queue cmd = Some (pl_q x) →
  cmd_message_id cmd = Some (pl_id x) →
  bl ↦{bo} b ∗ place_at x ∗
  (bl ↦{bo} b -∗
   accounts_at o bl da (put_queue (pl_a x) (pl_q x) (aremove (pl_id x) (place_queue x m))
                          (place_server x m)) -∗ Q tt w)
  ⊢ wp (unlink_message state cmd (Some (pl_na x)) (Some (pl_nq x))) w Q.
Proof using Hcons.
  intros Ea Eq Ei. iIntros "(Hb & Hx & HQ)". iDestruct (place_fresh with "Hx") as %(_ & _ & HfM).
  iDestruct "Hx" as "(HA & HQ' & HM)".
  unfold unlink_message; simpl. wp_focus. iApply wp_hole_load. iFrame "HQ'".
  iIntros (pv nx) "HQ'". simpl. rw Ei. wp_focus.
  iApply (wp_hole_delete bl bo b Hcons). iFrame "Hb HM". iIntros "Hb Hms".
  unfold place_queue. rw aremove_mid //.
  iApply (wp_drop_emptied bl bo b Hcons da (pl_a x) (pl_q x)); [done..| |].
  { intros w' Q'. iIntros "(Hb & HA & HQ' & Hk)". wp_focus. iApply wp_hole_load. iFrame "HA".
    iIntros (pv' nx') "HA". simpl. rw Eq. iApply (wp_hole_delete bl bo b Hcons).
    iFrame "Hb HQ'". iIntros "Hb Hqs". iApply ("Hk" with "Hb HA Hqs"). }
  iFrame "Hb HA HQ' Hms". iIntros "Hb Hs". iApply ("HQ" with "Hb Hs").
Qed.

(** *** The commands *)

Lemma wp_update_message cmd ao at_ s w Q :
  bl ↦{bo} b ∗ backend ∗ accounts_at o bl da s ∗ optional_at ao (cmd_attributes cmd) at_ ∗
  (∀ w' set, let now := u32 (e_time (w_env w) (w_tick w)) in
     let r := update_message now set (update_times now at_)
                (cmd_account cmd) (cmd_queue cmd) (cmd_message_id cmd) s in
     ⟦ evolves w (observed (b_message_fn b) r.2) w' ⟧ -∗
     bl ↦{bo} b -∗ backend -∗ accounts_at o bl da r.1.2 -∗
     optional_at ao (cmd_attributes cmd) at_ -∗ Q r.1.1 w')
  ⊢ wp (burrow_backend_memory_update_message (Some ml) cmd) w Q.
Proof using Hcons.
  iIntros "(Hb & Hm & Hs & Hat & HQ)". unfold burrow_backend_memory_update_message.
  unfold backend_at. wload "Hm". wp_focus. iApply wp_time_now.
  set (now := u32 (e_time (w_env w) (w_tick w))). simpl. wp_focus.
  iApply wp_find_message. iFrame "Hs". unfold update_message. iSplit.
  { iIntros (Hn) "Hs". rw Hn. wret. iApply ("HQ" $! _ 0%Z with "[%] Hb Hm Hs Hat").
    auto with world. }
  iIntros (x m (-> & Ea & Eq & Ei)) "Hx Hmsg". simpl.
  iDestruct (place_fresh with "Hx") as %Hd. rw Ea Eq Ei message_of_place //.
  iDestruct "Hmsg" as (li lb) "(Hmsg & Hi & Hbd)". wload "Hmsg".
  iAssert (message_at o (pl_p x) (pl_id x) m) with "[Hmsg Hi Hbd]" as "Hmsg".
  { iExists li, lb. iFrame. }
  change (msg_ttl m <=? now)%Z with (expired now m). destruct (expired now m) eqn:Hexp; simpl.
  - wp_focus. iApply (wp_free_message bl bo b Hcons). iFrame "Hb Hmsg". iIntros "Hb". wp_focus.
    iApply wp_unlink_message; [done..|]. iFrame "Hb Hx". iIntros "Hb Hs". wret.
    iApply ("HQ" $! _ 0%Z with "[%] Hb Hm Hs Hat"). auto with world.
  - rw put_queue_place //. wp_focus. iApply wp_update_attributes. iFrame "Hat". iIntros "Hat".
    wp_focus. iApply wp_retime_message. iFrame "Hmsg". iIntros "Hmsg". wp_focus.
    iApply wp_junk. iIntros (set). wp_focus. iApply (wp_report_message bl bo b). iFrame "Hb Hmsg".
    iIntros (w' He) "Hb Hmsg". wret. iDestruct (place_close with "[$Hx $Hmsg]") as "Hs".
    iApply ("HQ" $! w' set with "[%] Hb Hm Hs Hat"). eauto using evolves_silent with world.
Qed.

Lemma wp_delete_message cmd s w Q :
  bl ↦{bo} b ∗ backend ∗ accounts_at o bl da s ∗
  (∀ w' set, let now := u32 (e_time (w_env w) (w_tick w)) in
     let r := delete_message now set (cmd_account cmd) (cmd_queue cmd) (cmd_message_id cmd) s in
     ⟦ evolves w (observed (b_message_fn b) r.2) w' ⟧ -∗
     bl ↦{bo} b -∗ backend -∗ accounts_at o bl da r.1 -∗ Q 0%Z w')
  ⊢ wp (burrow_backend_memory_delete_message (Some ml) cmd) w Q.
Proof using Hcons.
  iIntros "(Hb & Hm & Hs & HQ)". unfold burrow_backend_memory_delete_message.
  unfold backend_at. wload "Hm". wp_focus. iApply wp_time_now.
  set (now := u32 (e_time (w_env w) (w_tick w))). simpl. wp_focus.
  iApply wp_find_message. iFrame "Hs". unfold delete_message. iSplit.
  { iIntros (Hn) "Hs". rw Hn. wret. iApply ("HQ" $! _ 0%Z with "[%] Hb Hm Hs").
    auto with world. }
  iIntros (x m (-> & Ea & Eq & Ei)) "Hx Hmsg". simpl.
  iDestruct (place_fresh with "Hx") as %Hd. rw Ea Eq Ei message_of_place //.
  iDestruct "Hmsg" as (li lb) "(Hmsg & Hi & Hbd)". wload "Hmsg".
  iAssert (message_at o (pl_p x) (pl_id x) m) with "[Hmsg Hi Hbd]" as "Hmsg".
  { iExists li, lb. iFrame. }
  replace (now <? msg_ttl m)%Z with (negb (expired now m)) by (unfold expired; lia).
  iAssert (∀ w' set, ⟦ evolves w (observed (b_message_fn b)
      (if expired now m then [] else [report now set (pl_id x) m])) w' ⟧ -∗
    bl ↦{bo} b -∗ message_at o (pl_p x) (pl_id x) m -∗
    wp (free_message (Some bl) (Some (pl_p x));;
        unlink_message state cmd (Some (pl_na x)) (Some (pl_nq x));; mret 0%Z) w' Q)%I
    with "[Hm Hx HQ]" as "Hrest".
  { iIntros (w' set He) "Hb Hmsg". wp_focus. iApply (wp_free_message bl bo b Hcons).
    iFrame "Hb Hmsg". iIntros "Hb". wp_focus. iApply wp_unlink_message; [done..|].
    iFrame "Hb Hx". iIntros "Hb Hs". wret. iApply ("HQ" with "[//] Hb Hm Hs"). }
  destruct (expired now m) eqn:Hexp; simpl.
  - wret. iApply ("Hrest" $! _ 0%Z with "[%] Hb Hmsg"). auto with world.
  - wp_focus. iApply wp_junk. iIntros (set). iApply (wp_report_message bl bo b). iFrame "Hb Hmsg".
    iIntros (w' He) "Hb Hmsg". iApply ("Hrest" $! w' set with "[%] Hb Hmsg").
    eauto using evolves_silent with world.
Qed.

(** The message is not there, or it has not expired. *)
Definition readable (now : Z) (a q id : cstr) (s : server) : Prop :=
  ∀ a' q' ms id' m, message_of a q id s = Some (a', q', ms, id', m) → expired now m = false.

Lemma wp_get_message cmd s w Q :
  let now := u32 (e_time (w_env w) (w_tick w)) in
  readable now (cmd_account cmd) (cmd_queue cmd) (cmd_message_id cmd) s →
  bl ↦{bo} b ∗ backend ∗ accounts_at o bl da s ∗
  (∀ w' set,
     let r := get_message now set (cmd_account cmd) (cmd_queue cmd) (cmd_message_id cmd) s in
     ⟦ evolves w (observed (b_message_fn b) r.2) w' ⟧ -∗
     bl ↦{bo} b -∗ backend -∗ accounts_at o bl da r.1.2 -∗ Q r.1.1 w')
  ⊢ wp (burrow_backend_memory_get_message (Some ml) cmd) w Q.
Proof using Hcons.
  intros now Hread. iIntros "(Hb & Hm & Hs & HQ)". unfold burrow_backend_memory_get_message.
  unfold backend_at. wload "Hm". wp_focus. iApply wp_time_now. fold now. wp_focus.
  iApply wp_find_message. iFrame "Hs". unfold get_message. iSplit.
  { iIntros (Hn) "Hs". rw Hn. wret. iApply ("HQ" $! _ 0%Z with "[%] Hb Hm Hs").
    auto with world. }
  iIntros (x m (-> & Ea & Eq & Ei)) "Hx Hmsg". simpl.
  iDestruct (place_fresh with "Hx") as %Hd.
  unfold readable in Hread. rw Ea Eq Ei message_of_place // in Hread.
  specialize (Hread _ _ _ _ _ eq_refl) as Hexp. rw Ea Eq Ei message_of_place // Hexp.
  iDestruct "Hmsg" as (li lb) "(Hmsg & Hi & Hbd)". wload "Hmsg".
  change (msg_ttl m <=? now)%Z with (expired now m). rw Hexp.
  wp_focus. iApply wp_junk. iIntros (set). wp_focus. iApply (wp_report_message bl bo b). iFrame "Hb".
  iSplitL "Hmsg Hi Hbd"; [iExists li, lb; iFrame|].
  iIntros (w' He) "Hb Hmsg". wret. iDestruct (place_close with "[$Hx $Hmsg]") as "Hs".
  iApply ("HQ" $! w' set with "[%] Hb Hm Hs"). eauto using evolves_silent with world.
Qed.

(** Reading an expired message: it is freed before its id is read. *)
Lemma get_expired_faults cmd a q ms id m s w :
  let now := u32 (e_time (w_env w) (w_tick w)) in
  message_of (cmd_account cmd) (cmd_queue cmd) (cmd_message_id cmd) s = Some (a, q, ms, id, m) →
  expired now m = true →
  bl ↦{bo} b ∗ backend ∗ accounts_at o bl da s
  ⊢ faults (burrow_backend_memory_get_message (Some ml) cmd) w BadPointer.
Proof using Hcons.
  intros now Hfound Hexp. iIntros "(Hb & Hm & Hs)". unfold burrow_backend_memory_get_message.
  iApply faults_bind. unfold backend_at. iApply wp_load. iFrame "Hm". iIntros "Hm".
  iApply faults_bind. iApply wp_time_now. fold now.
  iApply faults_bind. iApply wp_find_message. iFrame "Hs". iSplit.
  { iIntros (Hn). by rw Hn in Hfound. }
  iIntros (x m' (-> & Ea & Eq & Ei)) "Hx Hmsg". iDestruct (place_fresh with "Hx") as %Hd.
  rw Ea Eq Ei message_of_place // in Hfound. simplify_eq.
  iDestruct "Hmsg" as (li lb) "(Hmsg & Hi & Hbd)".
  iApply faults_bind. iApply wp_load. iFrame "Hmsg". iIntros "Hmsg". simpl.
  change (msg_ttl m <=? now)%Z with (expired now m). rw Hexp.
  iApply faults_bind. iApply (wp_wand with "[-]").
  { iApply (wp_burrow_free_absent (T := burrow_message_st) bl bo b _ _ _ (ml ↦{mo} state ∗ place_at x ∗
      li ↦{o} Chars (Z.of_nat (String.length (pl_id x)) + 1) (pl_id x) ∗
      lb ↦{o} Chars (msg_size m) (msg_body m))); [done|]. iFrame "Hmsg". iFrame. }
  iIntros ([] w') "H". iApply faults_first. iApply faults_load.
  iDestruct "H" as "[_ [_ H]]". done.
Qed.

(** *** Creation *)

(** Going down one level, which is made when it is not there. *)
Lemma wp_tree_enter {A} (R : loc → string → A → hPropI) d (l : list (string * list (string * A))) k w Q :
  reliable w →
  bl ↦{bo} b ∗ tree o bl (λ p _ sub, tree o bl R p sub) d l ∗
  (∀ pre post n kb p w',
     ⟦ evolves w [] w' ∧ ∀ x, aset k x l = pre ++ (k, x) :: post ⟧ -∗ bl ↦{bo} b -∗
     hole o bl (λ p _ sub, tree o bl R p sub) d n kb k p pre post -∗
     tree o bl R p (default [] (alookup k l)) -∗ Q (Some n) w')
  ⊢ wp (dictionary_get (Some d) (Some k) CREATE) w Q.
Proof using Hcons.
  iIntros (Hr) "(Hb & Ht & HQ)". iApply (wp_tree_create bl bo b Hcons); [done|]. iFrame "Hb Ht".
  iSplit.
  - iIntros (pre sub post n kb p ->) "Hb Hh Hsub". iDestruct (hole_fresh with "Hh") as %[Hf _].
    rw alookup_mid //. iApply ("HQ" with "[%] Hb Hh Hsub"). split; [auto with world|].
    intros x. by rw aset_mid.
  - iIntros (n kb p w' Hk) "%He Hb Hh Hp". rw Hk /=. iApply ("HQ" with "[%] Hb Hh").
    + split; [done|]. intros x. rw aset_absent //. by apply alookup_None.
    + by rw tree_nil.
Qed.

(** The id and the body of a replaced message, which nothing points to any
    more. *)
Definition leaked (id : string) (m : option message) : hPropI :=
  match m with
  | Some m => ∃ li lb, li ↦{o} Chars (Z.of_nat (String.length id) + 1) id ∗
                       lb ↦{o} Chars (msg_size m) (msg_body m)
  | None => emp
  end%I.

Lemma wp_place_message cmd a q id m s ln body message_id w Q :
  reliable w → cmd_account cmd = Some a → cmd_queue cmd = Some q →
  bl ↦{bo} b ∗ accounts_at o bl da s ∗ message_at o ln id m ∗
  (∀ w', ⟦ evolves w [] w' ⟧ -∗ bl ↦{bo} b -∗
     accounts_at o bl da (create_message a q id m s) -∗ leaked id (replaced a q id s) -∗ Q 0%Z w')
  ⊢ wp (place_message state cmd (Some ln) body message_id) w Q.
Proof using Hcons.
  intros Hr Ea Eq. iIntros "(Hb & Hs & Hm & HQ)". unfold place_message; simpl. rw Ea. wp_focus.
  iApply wp_tree_enter; [done|]. iFrame "Hb Hs".
  iIntros (preA postA na kba dqs w1 [He1 HA]) "Hb HA Hqs". simpl. wp_focus.
  iApply wp_hole_load. iFrame "HA". iIntros (pv nx) "HA". simpl. rw Eq. wp_focus.
  iApply wp_tree_enter; [by eapply reliable_after|]. iFrame "Hb Hqs".
  iIntros (preQ postQ nq kbq dq w2 [He2 HQ]) "Hb HQ' Hms". simpl. wp_focus.
  iApply wp_hole_load. iFrame "HQ'". iIntros (pv' nx') "HQ'". simpl.
  iDestruct "Hm" as (li lb) "(Hm & Hi & Hbd)". wload "Hm". wstring "Hi".
  iAssert (message_at o ln id m) with "[Hm Hi Hbd]" as "Hm". { iExists li, lb. iFrame. }
  iAssert (∀ w', ⟦ evolves w [] w' ⟧ -∗ bl ↦{bo} b -∗
    tree o bl (message_at o) dq (aset id m (default [] (alookup q (default [] (alookup a s))))) -∗
    leaked id (replaced a q id s) -∗ Q 0%Z w')%I with "[HQ HA HQ']" as "Hk".
  { iIntros (w' He) "Hb Hms Hl". iApply ("HQ" with "[//] Hb [HA HQ' Hms] Hl").
    unfold create_message. rw HQ HA. iApply hole_close. iFrame "HA". iApply hole_close. iFrame. }
  assert (evolves w [] w2) as He by by eapply evolves_silent.
  unfold replaced. generalize (default [] (alookup q (default [] (alookup a s)))) as ms. intros ms.
  wp_focus. iApply wp_tree_get. iFrame "Hms". iSplit.
  - iIntros (Hn) "Hms". simpl. wp_focus. rw Hn aset_absent; [|by apply alookup_None].
    iApply (wp_tree_add bl bo b Hcons); [by eapply reliable_after|done|]. iFrame "Hb Hms".
    iIntros (n kb w3 He3) "Hb Hh". simpl. wret. wret.
    iDestruct (hole_close with "[$Hh $Hm]") as "Hms". iApply ("Hk" with "[%] Hb Hms [//]").
    by eapply evolves_silent.
  - iIntros (preM old postM nm kbm p ->) "HM Hold". simpl. wp_focus.
    iDestruct (hole_fresh with "HM") as %[HfM _]. rw alookup_mid // aset_mid //.
    iApply wp_hole_load. iFrame "HM". iIntros (pv2 nx2) "HM". simpl.
    iDestruct "Hold" as (li' lb') "(Hold & Hi & Hbd)". wp_focus.
    iApply wp_burrow_free; [done|]. iFrame "Hb Hold". iIntros "Hb". wp_focus.
    iApply wp_hole_store. iFrame "HM". iIntros "HM". wret.
    iDestruct (hole_close with "[$HM $Hm]") as "Hms". iApply ("Hk" with "[//] Hb Hms").
    iExists li', lb'. iFrame.
Qed.

(** A [burrow_malloc] when memory lasts. *)
Lemma wp_malloc_ok {T} `{Storable T} (uninit : Z → T) w Q :
  reliable w →
  bl ↦{bo} b ∗ (∀ l j, bl ↦{bo} b -∗ l ↦{o} uninit j -∗ Q (Some l) (tick 2 w))
  ⊢ wp (burrow_malloc (Some bl) uninit) w Q.
Proof.
  iIntros (Hr) "[Hb HQ]". iApply wp_burrow_malloc. iFrame "Hb". rw reliable_ok //.
  iIntros (l) "Hb Hl". iApply ("HQ" with "Hb Hl").
Qed.

Lemma wp_creation_ttl ao p a now w Q :
  optional_at ao p a ∗ (optional_at ao p a -∗ Q (new_ttl now a) w)
  ⊢ wp (creation_ttl p now) w Q.
Proof.
  iIntros "[Hp HQ]". unfold creation_ttl. destruct p, a; simpl; try (iDestruct "Hp" as %[]).
  - wload "Hp". wret. by iApply "HQ".
  - wret. by iApply "HQ".
Qed.

Lemma wp_creation_hide ao p a now w Q :
  optional_at ao p a ∗ (∀ h, ⟦ default 0%Z h = new_hide now a ⟧ -∗ optional_at ao p a -∗ Q h w)
  ⊢ wp (creation_hide p now) w Q.
Proof.
  iIntros "[Hp HQ]". unfold creation_hide. destruct p, a as [a|]; simpl; try (iDestruct "Hp" as %[]).
  - wload "Hp". wret. iApply ("HQ" with "[%] Hp"). by destruct (_ && _).
  - wret. by iApply ("HQ" with "[%] Hp").
Qed.

Lemma wp_create_message cmd a q id bd ao at_ s w Q :
  reliable w → cmd_account cmd = Some a → cmd_queue cmd = Some q →
  cmd_message_id cmd = Some id → cmd_body cmd = Some bd →
  (cmd_body_size cmd ≤ Z.of_nat (String.length bd))%Z →
  bl ↦{bo} b ∗ backend ∗ accounts_at o bl da s ∗ optional_at ao (cmd_attributes cmd) at_ ∗
  (∀ w', let now := u32 (e_time (w_env w) (w_tick w)) in
     ⟦ evolves w [] w' ⟧ -∗ bl ↦{bo} b -∗ backend -∗
     accounts_at o bl da (create_message a q id (new_message now at_ bd (cmd_body_size cmd)) s) -∗
     optional_at ao (cmd_attributes cmd) at_ -∗ leaked id (replaced a q id s) -∗ Q 0%Z w')
  ⊢ wp (burrow_backend_memory_create_message (Some ml) cmd) w Q.
Proof using Hcons.
  intros Hr Ea Eq Ei Eb Hsz. iIntros "(Hb & Hm & Hs & Hat & HQ)".
  unfold burrow_backend_memory_create_message. wp_focus. iApply wp_time_now. iSimpl in "HQ".
  set (now := u32 (e_time (w_env w) (w_tick w))). unfold backend_at. wload "Hm".
  wp_focus. iApply wp_malloc_ok; [done|]. iFrame "Hb". iIntros (ln j1) "Hb Hn".
  wp_focus. iApply wp_malloc_ok; [done|]. iFrame "Hb". iIntros (lb j2) "Hb Hbd". rw Ei. unfold deref_cstr. wret.
  wp_focus. iApply wp_malloc_ok; [done|]. iFrame "Hb". iIntros (li j3) "Hb Hi". simpl. rw Eb.
  wmemcpy "Hbd" by lia. wmodify "Hn". wstrcpy "Hi" by lia. wmodify "Hn". wmodify "Hn".
  wp_focus. iApply wp_creation_ttl. iFrame "Hat". iIntros "Hat". wmodify "Hn". wmodify "Hn".
  wp_focus. iApply wp_creation_hide. iFrame "Hat". iIntros (h) "%Hh Hat".
  iAssert (∀ w', ⟦ evolves w [] w' ⟧ -∗ bl ↦{bo} b -∗
    message_at o ln id (new_message now at_ bd (cmd_body_size cmd)) -∗
    wp (place_message state cmd (Some ln) (Some lb) (Some li)) w' Q)%I
    with "[Hs Hm Hat HQ]" as "Hk".
  { iIntros (w' He) "Hb Hn". iApply (wp_place_message _ a q id with "[-]"); [by eapply reliable_after|done..|].
    iFrame "Hb Hs Hn". iIntros (w'' He') "Hb Hs Hl". iApply ("HQ" with "[%] Hb Hm Hs Hat Hl").
    by eapply evolves_silent. }
  iAssert (∀ x, ⌜x = new_hide now at_⌝ → ln ↦{o} Message (Some li) (Some lb) (cmd_body_size cmd)
      (new_ttl now at_) x -∗ message_at o ln id (new_message now at_ bd (cmd_body_size cmd)))%I
    with "[Hi Hbd]" as "Hmsg".
  { iIntros (x ->) "Hn". iExists li, lb. iFrame. }
  destruct h as [h|]; [wmodify "Hn"|wret]; iApply ("Hk" with "[%] Hb [Hn Hmsg]");
    auto with world; by iApply ("Hmsg" with "[] Hn").
Qed.
End messages.

(** ** The backend's life *)

Section life.
Context (bl : loc) (bo : owner) (b : burrow_st) (Hcons : consistent b).
Let o := alloc_owner b.

(** Creation on memory of its own. *)
Lemma wp_memory_create w Q :
  reliable w →
  bl ↦{bo} b ∗
  (∀ ml da w', ⟦ evolves w [] w' ⟧ -∗ bl ↦{bo} b -∗ backend_at bl ml o 1 da -∗
     accounts_at o bl da [] -∗ Q (Some ml) w')
  ⊢ wp (burrow_backend_memory_create NULL (Some bl)) w Q.
Proof using Hcons.
  intros Hr. iIntros "[Hb HQ]". unfold burrow_backend_memory_create; simpl. wp_focus.
  iApply (wp_malloc_ok bl bo b); [done|]. iFrame "Hb". iIntros (ml j) "Hb Hm". simpl.
  wmodify "Hm". wret. wmodify "Hm". wp_focus.
  iApply (wp_dictionary_init bl bo b). iFrame "Hb". iSplit; [|iIntros (w' [Hn _]); by destruct Hn].
  iIntros (da w' He) "Hb Hd". wmodify "Hm". wret.
  iApply ("HQ" with "[%] Hb Hm"); [eauto using evolves_silent with world|].
  iSplit; [iPureIntro; constructor|]. iExists []. iFrame.
Qed.

(** What the end of the backend leaves of a server it did not empty: its
    accounts, without the dictionary that led to them. *)
Definition orphans (s : server) : hPropI :=
  (∃ es, dseg o NULL NULL es ∗ slots (account_at o bl) es s)%I.

Lemma orphans_nil : orphans [] ⊢ emp.
Proof.
  iIntros "H". iDestruct "H" as ([|e es]) "[Hd Hs]"; simpl; [by iFrame|iDestruct "Hs" as %[]].
Qed.

Lemma wp_memory_free ml mo sa da s w Q :
  reliable w → (sa ≠ 0%Z → mo = o) →
  bl ↦{bo} b ∗ backend_at bl ml mo sa da ∗ accounts_at o bl da s ∗
  (∀ w' tss, let names := account_names everything s in
     ⟦ evolves w [] w' ∧ times_fit tss names s ∧ Forall (Forall (clock w w')) tss ⟧ -∗
     bl ↦{bo} b -∗ (if (sa =? 0)%Z then backend_at bl ml mo sa da else emp) -∗
     orphans (delete_account_list tss names s) -∗ Q tt w')
  ⊢ wp (burrow_backend_memory_free (Some ml)) w Q.
Proof using Hcons.
  intros Hr Hmo. iIntros "(Hb & Hm & Hs & HQ)". unfold burrow_backend_memory_free.
  unfold backend_at. wload "Hm". wp_focus. iApply (wp_malloc_ok bl bo b); [done|]. iFrame "Hb".
  iIntros (el j) "Hb Hel". simpl. wp_focus.
  iApply (wp_process_filter bl bo b ml mo sa da o NULL None). iFrame "Hb Hm". iSplitR; [done|].
  iSplit; [|iIntros (w' [Hn _]); by destruct Hn].
  iIntros (lf flt w1 [He1 (_ & _ & _ & Hsel)]) "Hb Hm _ Hlf". wmodify "Hel". wload "Hel". wp_focus.
  assert (evolves w [] w1) as He by by eapply evolves_silent; eauto with world.
  iApply (wp_delete_accounts bl bo b Hcons ml mo sa da _ o (Some flt) s with "[-]");
    [by eapply reliable_after|by rw Hsel|].
  cbn -[select account_names]. rw Hsel. iFrame "Hb Hm Hs Hlf".
  iIntros (w2 tss (He2 & Hfit & Ht)) "Hb Hm Hs Hlf". wload "Hel". wp_focus.
  iApply wp_burrow_free; [done|]. iFrame "Hb Hlf". iIntros "Hb". wp_focus.
  iApply wp_burrow_free; [done|]. iFrame "Hb Hel". iIntros "Hb". unfold backend_at. wload "Hm".
  iDestruct "Hs" as "[_ H]". iDestruct "H" as (es) "[[Hd Hds] Hs]". wp_focus.
  iApply wp_burrow_free; [done|]. iFrame "Hb Hd". iIntros "Hb".
  iSpecialize ("HQ" $! w2 tss with "[%]").
  { split_and!; [by eapply evolves_silent|done|].
    eapply Forall_impl; [exact Ht|]. intros ts. by eapply clocks_within; [|apply evolves_refl]. }
  destruct (Z.eqb_spec sa 0) as [->|Hsa].
  - wret. iApply ("HQ" with "Hb Hm"). iExists es. iFrame.
  - rw (Hmo Hsa). iApply wp_burrow_free; [done|]. iFrame "Hb Hm". iIntros "Hb".
    iApply ("HQ" with "Hb [//]"). iExists es. iFrame.
Qed.
End life.
