(* ===== verification/WatchSpec.v ===== *)
(** Rules for the descriptors a burrow watches: growing the array, adding a
    descriptor, and dispatching what [poll] reports. *)
From S2P Require Import Prelude Types Heap Macros Burrow Logic MacrosSpec DictionarySpec BurrowSpec.
From iris.proofmode Require Import proofmode.

(** ** [realloc] *)

Lemma wp_take_block {T} `{Storable T} l (x : T) w Q :
  l ↦{Libc} x ∗ Q x w ⊢ wp (take_block l) w Q.
Proof.
  split; intros h (h1 & h2 & -> & Hd & Hl & HQ) hf Hdf. cbv [holds pointsto] in Hl; subst h1.
  apply map_disjoint_union_l in Hdf as [Hdl Hdf]. apply map_disjoint_singleton_l in Hd, Hdl.
  exists x, w, h2. split_and!; [|done..].
  unfold take_block. rw -(assoc_L (∪)) lookup_block project_inject.
  by rw -insert_union_singleton_l delete_insert_id // lookup_union_None.
Qed.

(** A block that may not exist yet. *)
Definition maybe_at {T} `{Storable T} (p : ptr) (x : option T) : hPropI :=
  match p, x with
  | None, None => emp
  | Some l, Some x => l ↦{Libc} x
  | _, _ => ⟦ False ⟧
  end%I.

Lemma wp_realloc {T} `{Storable T} p (x : option T) resize w Q :
  maybe_at p x ∗
  (if malloc_ok Libc w
   then ∀ l, l ↦{Libc} resize x (junk (tick 1 w)) -∗ Q (Some l) (tick 2 w)
   else maybe_at p x -∗ Q NULL (tick 1 w))
  ⊢ wp (realloc p resize) w Q.
Proof.
  iIntros "[Hp HQ]". unfold realloc. wp_focus. iApply wp_consult.
  fold (malloc_ok Libc w). destruct (malloc_ok Libc w); simpl.
  - wp_focus. iApply wp_consult. destruct p as [l|], x as [x|]; simpl; try by iDestruct "Hp" as %[].
    + wp_focus. iApply wp_take_block. iFrame "Hp". by iApply wp_alloc.
    + by iApply wp_alloc.
  - wret. by iApply "HQ".
Qed.

(** ** Elements of the array *)

Section pfds.
Context (l : loc) (o : owner).
Implicit Types (ps : list pollfd).

Lemma wp_load_pfd ps i p w Q :
  ps !! Z.to_nat i = Some p →
  l ↦{o} ps ∗ (l ↦{o} ps -∗ Q p w) ⊢ wp (load_pfd (Some l) i) w Q.
Proof.
  iIntros (Hp) "[Hl HQ]". unfold load_pfd. wload "Hl". rw Hp. wret. by iApply "HQ".
Qed.

Lemma wp_modify_pfd ps i p f w Q :
  ps !! Z.to_nat i = Some p →
  l ↦{o} ps ∗ (l ↦{o} <[Z.to_nat i := f p]> ps -∗ Q tt w) ⊢ wp (modify_pfd (Some l) i f) w Q.
Proof.
  iIntros (Hp) "[Hl HQ]". unfold modify_pfd. wload "Hl". rw Hp. iApply wp_store. iFrame.
Qed.

(** The same, with the element singled out. *)
Lemma wp_modify_pfd_at pre p post i f w Q :
  Z.to_nat i = length pre →
  l ↦{o} (pre ++ p :: post) ∗ (l ↦{o} (pre ++ f p :: post) -∗ Q tt w)
  ⊢ wp (modify_pfd (Some l) i f) w Q.
Proof.
  iIntros (Hi) "[Hl HQ]". iApply (wp_modify_pfd (pre ++ p :: post) i p).
  - by rw Hi lookup_app_r // Nat.sub_diag.
  - iFrame "Hl". rw Hi insert_app_r_alt // Nat.sub_diag. done.
Qed.

Lemma wp_copy_pfd ps i j p q w Q :
  ps !! Z.to_nat i = Some p → ps !! Z.to_nat j = Some q →
  l ↦{o} ps ∗ (l ↦{o} <[Z.to_nat i := q]> ps -∗ Q tt w) ⊢ wp (copy_pfd (Some l) i j) w Q.
Proof.
  iIntros (Hi Hj) "[Hl HQ]". apply lookup_lt_Some in Hi as Hlt. unfold copy_pfd.
  wp_focus. iApply wp_load_pfd; [done|]. iFrame "Hl". iIntros "Hl".
  wp_focus. iApply wp_modify_pfd; [done|]. iFrame "Hl". iIntros "Hl".
  wp_focus. iApply (wp_modify_pfd (<[Z.to_nat i := _]> ps)); [by apply list_lookup_insert_eq|].
  iFrame "Hl". iIntros "Hl". rw list_insert_insert_eq.
  iApply (wp_modify_pfd (<[Z.to_nat i := _]> ps)); [by apply list_lookup_insert_eq|]. iFrame "Hl".
  iIntros "Hl". rw list_insert_insert_eq /=. destruct q. by iApply "HQ".
Qed.
End pfds.

Section watch.
Context {backends : Backends} (bl : loc) (bo : owner).
Implicit Types (b : burrow_st) (ps : list pollfd).

(** The burrow watches [ps], the first elements of its array. *)
Definition watching b ps : hPropI :=
  (∃ rest, ⟦ b_watch_size b = Z.of_nat (length ps) ∧
             b_pfds_size b = Z.of_nat (length (ps ++ rest)) ∧
             (b_pfds_size b < 4294967296)%Z ⟧ ∗
     bl ↦{bo} b ∗
     maybe_at (b_pfds b) (match b_pfds b with Some _ => Some (ps ++ rest) | None => None end) ∗
     ⟦ b_pfds b = NULL → ps ++ rest = [] ⟧)%I.

(** The descriptor as it is watched. *)
Definition events_of (events : Z) : Z :=
  Z.lor (if has_flag events BURROW_IOEVENT_READ then POLLIN else 0%Z)
        (if has_flag events BURROW_IOEVENT_WRITE then POLLOUT else 0%Z).

Lemma wp_grow_pfds b ps needed w Q :
  needed = (Z.of_nat (length ps) + 1)%Z → (needed < 4294967296)%Z →
  watching b ps ∗
  ((∀ l size p rest w',
      ⟦ evolves w [] w' ∧ size = Z.of_nat (length (ps ++ p :: rest)) ∧ (size < 4294967296)%Z ⟧ -∗
      bl ↦{bo} (b <| b_pfds := Some l |> <| b_pfds_size := size |>) -∗
      l ↦{Libc} (ps ++ p :: rest) -∗ Q true w') ∧
   (∀ w', ⟦ gave_up w w' ⟧ -∗ watching b ps -∗ Q false w'))
  ⊢ wp (grow_pfds (Some bl) needed) w Q.
Proof.
  iIntros (Hn Hlt) "[(%rest & %Hs & Hb & Hp & %Hnull) HQ]". destruct Hs as (Hw & Hsz & Hmax).
  unfold grow_pfds. wload "Hb". destruct (Z.ltb_spec (b_pfds_size b) needed) as [Hless|Hroom].
  - wp_focus. iApply wp_realloc. iFrame "Hp". destruct (malloc_ok Libc w) eqn:Hok.
    + iDestruct "HQ" as "[HQ _]". iIntros (l) "Hl". simpl. wmodify "Hb". wmodify "Hb". wret.
      assert (rest = []) as ->.
      { destruct rest; [done|]. rw length_app /= in Hsz. lia. }
      rw app_nil_r in Hsz, Hnull.
      assert (∀ j, resize_pfds needed
        (match b_pfds b with Some _ => Some (ps ++ []) | None => None end) j = ps ++ [uninit_pollfd j]) as E.
      { intros j. rw app_nil_r. unfold resize_pfds.
        assert (default [] (match b_pfds b with Some _ => Some ps | None => None end) = ps) as ->.
        { destruct (b_pfds b); [done|]. by rw Hnull. }
        rw take_ge; [|lia]. f_equal. by replace (Z.to_nat needed - length ps) with 1 by lia. }
      rw E. iApply ("HQ" with "[%] Hb Hl"). split_and!; [auto with world|rw length_app /=; lia|lia].
    + iDestruct "HQ" as "[_ HQ]". iIntros "Hp". simpl. wp_focus. iApply wp_log_at. iFrame "Hb".
      iIntros (w') "%He Hb". wret. iApply ("HQ" with "[%] [Hb Hp]").
      { eapply (gave_up_intro w Libc 1); [done|done|apply log_events_log]. }
      iExists rest. by iFrame.
  - iDestruct "HQ" as "[HQ _]". wret. destruct rest as [|p rest].
    { rw app_nil_r in Hsz. lia. }
    destruct (b_pfds b) as [l|] eqn:El.
    + simpl. iApply ("HQ" $! l (b_pfds_size b) p rest w with "[%] [Hb] Hp"); [auto with world|].
      by destruct b; simpl in *; subst.
    + specialize (Hnull eq_refl). by destruct ps.
Qed.

(** A new descriptor goes after the others. *)
Lemma wp_internal_watch_fd b ps fd events w Q :
  (Z.of_nat (length ps) + 1 < 4294967296)%Z →
  watching b ps ∗
  ((∀ l size rv w',
      ⟦ evolves w [] w' ⟧ -∗
      watching (b <| b_pfds := Some l |> <| b_pfds_size := size |>
                  <| b_watch_size := (Z.of_nat (length ps) + 1)%Z |>)
        (ps ++ [Pollfd fd (events_of events) rv]) -∗ Q 0%Z w') ∧
   (∀ w', ⟦ gave_up w w' ⟧ -∗ watching b ps -∗ Q ENOMEM w'))
  ⊢ wp (burrow_internal_watch_fd (Some bl) fd events) w Q.
Proof.
  iIntros (Hlt) "[Hw HQ]". unfold burrow_internal_watch_fd.
  iDestruct "Hw" as (rest0) "((%Hw & Hs0) & Hb & Hr)". wload "Hb". wp_focus.
  rw Hw u32_small; [|lia].
  iApply (wp_grow_pfds b ps); [done|done|]. iSplitL "Hs0 Hb Hr".
  { iExists rest0. iDestruct "Hs0" as %Hs0. by iFrame. }
  iSplit; [|iDestruct "HQ" as "[_ HQ]"; iIntros (w') "Hg Hw"; wret; iApply ("HQ" with "Hg Hw")].
  iIntros (l size p rest w' (He & Hsz & Hmax)) "Hb Hl". simpl. iDestruct "HQ" as "[HQ _]".
  wmodify "Hb". wload "Hb". rw u32_small; [|lia].
  set (i := (Z.of_nat (length ps) + 1 - 1)%Z).
  assert (Z.to_nat i = length ps) as Ei by (subst i; lia).
  iAssert (∀ p', l ↦{Libc} (ps ++ p' :: rest) -∗ ⟦ p' = Pollfd fd (events_of events) (pfd_revents p') ⟧ -∗
    wp (mret 0%Z) w' Q)%I with "[Hb HQ]" as "Hend".
  { iIntros (p') "Hl %Hp'". wret. iApply ("HQ" $! l size (pfd_revents p') with "[//]"). rw -Hp'.
    iExists rest. simpl. iFrame "Hb". rw -(assoc_L (++)). iFrame "Hl". iPureIntro.
    split; [|done]. rw length_app /= in Hsz. rw !length_app /=. lia. }
  wp_focus. iApply (wp_modify_pfd_at _ _ ps); [done|]. iFrame "Hl". iIntros "Hl".
  wp_focus. iApply (wp_modify_pfd_at _ _ ps); [done|]. iFrame "Hl". iIntros "Hl".
  unfold events_of. wp_focus.
  destruct (has_flag events BURROW_IOEVENT_READ), (has_flag events BURROW_IOEVENT_WRITE);
    do 2 (first [iApply (wp_modify_pfd_at _ _ ps); [done|]; iFrame "Hl"; iIntros "Hl" | wret]; wp_focus);
    iApply ("Hend" with "Hl [%]"); reflexivity.
Qed.

(** ** Dispatching what [poll] found *)

Definition live (p : pollfd) : Prop := pfd_revents p ≠ 0%Z.
#[export] Instance live_dec p : Decision (live p).
Proof. unfold live. apply _. Defined.
Definition raised (p : pollfd) : Z * Z := (pfd_fd p, ioevent_of (pfd_revents p)).

(** What a backend that only takes note of events promises: [I] holds of the
    events it has been handed so far, it answers as [answers] says, and makes
    only [events] observable. *)
Class Responds (b0 : burrow_st) (answers : Z → Prop) (events : event → Prop)
    (I : list (Z * Z) → hPropI) : Prop :=
  event_run : ∃ f, be_event_raised (functions_of b0) = Some f ∧
    ∀ fd ev st fl cmd evs w,
      bl ↦{bo} at_state b0 st fl cmd ∗ I evs ⊢
      wp (f (b_backend_context b0) fd ev) w (λ r w',
        ⟦ answers r ∧ ∃ es, evolves w es w' ∧ Forall events es ⟧ ∗
        bl ↦{bo} at_state b0 st fl cmd ∗ I (evs ++ [(fd, ev)])).

(** It succeeds or asks for more events. *)
Definition EventBackend (b0 : burrow_st) (I : list (Z * Z) → hPropI) : Prop :=
  Responds b0 (λ r, r = 0%Z ∨ r = EAGAIN) (λ _, True) I.
Existing Class EventBackend.
#[export] Instance event_backend_responds b0 I :
  EventBackend b0 I → Responds b0 (λ r, r = 0%Z ∨ r = EAGAIN) (λ _, True) I.
Proof. done. Qed.

Section dispatch.
Context (b0 : burrow_st) (answers : Z → Prop) (Hanswers : ∀ r, answers r → r = 0%Z ∨ r = EAGAIN).
Context (events : event → Prop) (Hevents : ∀ e, is_log e → events e).
Context (I : list (Z * Z) → hPropI) `{!Responds b0 answers events I}.
Context (fuel : nat) (Hfuel : 0 < fuel).
Context (fl : Z) (Hfl : has_flag fl BURROW_FLAG_PROCESSING = true).

(** What is observed meanwhile. *)
Definition observes (w w' : world) : Prop := ∃ es, evolves w es w' ∧ Forall events es.
Lemma observes_refl w : observes w w.
Proof. exists []. split; [apply evolves_refl|constructor]. Qed.
Lemma observes_trans w1 w2 w3 : observes w1 w2 → observes w2 w3 → observes w1 w3.
Proof.
  intros (es1 & H1 & L1) (es2 & H2 & L2). exists (es1 ++ es2). split; [by eapply evolves_trans|].
  by apply Forall_app.
Qed.

(** The state after [n] events. *)
Definition moved (st : burrow_state_t) (n : nat) (st' : burrow_state_t) : Prop :=
  st' = BURROW_STATE_READY ∨ (st' = st ∧ (n = 0 ∨ answers EAGAIN)).
Lemma moved_trans n1 n2 st1 st2 st3 : moved st1 n1 st2 → moved st2 n2 st3 → moved st1 (n1 + n2) st3.
Proof. unfold moved. intros [->|[-> H1]] [->|[-> H2]]; auto. right. split; [done|]. destruct H1, H2; auto; lia. Qed.

(** An event of a burrow that is processing. *)
Lemma wp_event_raised fd ev st cmd evs w Q :
  bl ↦{bo} at_state b0 st fl cmd ∗ I evs ∗
  (∀ r st' w', ⟦ moved st 1 st' ∧ observes w w' ⟧ -∗
     bl ↦{bo} at_state b0 st' fl cmd -∗ I (evs ++ [(fd, ev)]) -∗ Q r w')
  ⊢ wp (burrow_event_raised (burrow_process fuel) (Some bl) fd ev) w Q.
Proof using Type*.
  destruct event_run as (f & Hf & Hrun). iIntros "(Hb & HI & HQ)". unfold burrow_event_raised.
  wload "Hb". unfold functions_of; simpl; fold (functions_of b0). rw Hf.
  wp_focus. iApply (wp_wand _ _ (λ _ w1, ⟦ observes w w1 ⟧ ∗ bl ↦{bo} at_state b0 st fl cmd)%I
    with "[Hb]").
  { destruct (decide (st = BURROW_STATE_WAITING)).
    - wret. iFrame. iPureIntro. apply observes_refl.
    - iApply wp_log_at. iFrame "Hb". iIntros (w1 He) "Hb". iFrame. iPureIntro. eexists. split; [done|].
      eapply Forall_impl; [apply log_events_log|done]. }
  iIntros ([] w1) "[%He Hb]". wp_focus. iApply (wp_wand with "[Hb HI]").
  { iApply Hrun. iFrame. }
  iIntros (r w2) "([%Hr %He'] & Hb & HI)". simpl.
  assert (observes w w2) as Hev by (by eapply observes_trans).
  destruct (decide (r = 0%Z)) as [->|Hne].
  - wmodify "Hb". wload "Hb". destruct (has_flag (b_options b0) BURROW_OPT_AUTOPROCESS).
    + iApply (wp_process_busy _ _ fuel (at_state b0 BURROW_STATE_READY fl cmd)); [done..|].
      iFrame "Hb". iIntros "Hb". iApply ("HQ" with "[%] Hb HI"). split; [by left|done].
    + wret. iApply ("HQ" $! 0%Z BURROW_STATE_READY with "[%] Hb HI"). split; [by left|done].
  - destruct (Hanswers _ Hr) as [?|E]; [done|]. subst r. case_decide; [|done]. wret.
    iApply ("HQ" $! _ st with "[%] Hb HI"). split; [right; auto|done].
Qed.

(** The element taken over by the last one. *)
Lemma swap_remove (u : list pollfd) last p i :
  (u ++ [last]) !! i = Some p →
  u ++ [last] ≡ₚ p :: (if decide (i < length u) then <[i := last]> u else u).
Proof.
  intros Hp. destruct (decide (i < length u)) as [Hi|Hi].
  - rw lookup_app_l // in Hp. apply list_elem_of_split_length in Hp as (u1 & u2 & -> & ->).
    rw insert_app_r_alt // Nat.sub_diag /=. solve_Permutation.
  - assert (i = length u) as ->.
    { apply lookup_lt_Some in Hp. rw length_app /= in Hp. lia. }
    rw lookup_app_r // Nat.sub_diag /= in Hp. injection Hp as ->. solve_Permutation.
Qed.

(** What one live descriptor adds to the outcome for the others. *)
Lemma dispatched_one t p t1 t2 evs :
  t ≡ₚ p :: t1 → live p →
  t2 ≡ₚ filter (λ p, ¬ live p) t1 → evs ≡ₚ raised <$> filter live t1 →
  t2 ≡ₚ filter (λ p, ¬ live p) t ∧ raised p :: evs ≡ₚ raised <$> filter live t.
Proof.
  intros Ht Hl H2 He. rw Ht. rw filter_cons_False; [|by intros []]. rw filter_cons_True //.
  rw H2 He. done.
Qed.

Lemma filter_idle t :
  Forall (λ p, ¬ live p) t → filter (λ p, ¬ live p) t = t ∧ filter live t = [].
Proof.
  induction 1 as [|p t Hp Ht [IH1 IH2]]; [done|].
  rw filter_cons_True // filter_cons_False // IH1 IH2. done.
Qed.

Context (l : loc) (Hl : b_pfds b0 = Some l).

Lemma wp_poll_loop n t i rest evs st cmd w Q :
  i ≤ length t → Forall (λ p, ¬ live p) (take i t) → length t - i < n →
  (Z.of_nat (length t) < 4294967296)%Z →
  bl ↦{bo} at_state b0 st fl cmd ∗ l ↦{Libc} (t ++ rest) ∗ I evs ∗
  (∀ t' rest' evs' st' w',
     ⟦ t' ≡ₚ filter (λ p, ¬ live p) t ∧ evs' ≡ₚ raised <$> filter live t ∧
       length (t' ++ rest') = length (t ++ rest) ∧ moved st (length evs') st' ∧ observes w w' ⟧ -∗
     bl ↦{bo} at_state b0 st' fl cmd -∗ l ↦{Libc} (t' ++ rest') -∗ I (evs ++ evs') -∗
     Q (Z.of_nat (length t')) w')
  ⊢ wp (loop n (poll_step (burrow_process fuel) (Some bl) (Some l))
          (Z.of_nat i, Z.of_nat (length t))) w Q.
Proof using Type*.
  revert t i rest evs st w. induction n as [|n IH]; [lia|]. intros t i rest evs st w.
  iIntros (Hi Hdone Hn Hmax) "(Hb & Hl & HI & HQ)". simpl. unfold poll_step. wload "Hb".
  rw Hl. case_decide; [done|]. destruct (Z.ltb_spec (Z.of_nat i) (Z.of_nat (length t))) as [Hlt|Hge].
  2: { wret. wret. assert (i = length t) as -> by lia. rw firstn_all in Hdone.
       destruct (filter_idle t Hdone) as [E1 E2].
       iApply ("HQ" $! t rest [] with "[%] Hb Hl [HI]"); [|by rw app_nil_r].
       rw E1 E2. split_and!; [done..|right; auto|apply observes_refl]. }
  destruct (lookup_lt_is_Some_2 t i) as [p Hp]; [lia|].
  assert (i < length t) as Hit by lia. clear Hlt.
  assert ((t ++ rest) !! Z.to_nat i = Some p) as Hp' by by rw Nat2Z.id lookup_app_l.
  wp_focus. iApply (wp_load_pfd _ _ (t ++ rest)); [done|]. iFrame "Hl". iIntros "Hl".
  case_decide as Hlive.
  - (* not live: the next one *)
    wret. replace (Z.of_nat i + 1)%Z with (Z.of_nat (S i)) by lia.
    iApply (IH t (S i) rest evs with "[-]"); [lia| |lia|done|].
    { rw (take_S_r _ _ _ Hp). apply Forall_app. split; [done|]. constructor; [|done]. intros Hn'. by apply Hn'. }
    iFrame.
  - wp_focus. iApply (wp_event_raised with "[-]"). iFrame "Hb HI".
    iIntros (r st' w1 (Hst & He)) "Hb HI". wload "Hb". rw Hl. case_decide; [done|].
    destruct t as [|last u _] using rev_ind; [simpl in Hit; lia|].
    rw length_app /= in Hit Hmax Hn Hi.
    assert (u32 (Z.of_nat (length (u ++ [last])) - 1) = Z.of_nat (length u)) as ->.
    { rw length_app /= u32_small; lia. }
    set (u' := if decide (i < length u) then <[i := last]> u else u).
    assert (length u' = length u) as Hu' by (subst u'; case_decide; [apply length_insert|done]).
    (* the last one takes the place of the live one *)
    wp_focus. iApply (wp_wand _ _ (λ _ w', ⟦ w' = w1 ⟧ ∗ l ↦{Libc} (u' ++ last :: rest))%I with "[Hl]").
    { subst u'. rw -(assoc_L (++)) /=. destruct (Z.ltb_spec (Z.of_nat i) (Z.of_nat (length u))).
      - rw -(assoc_L (++)) in Hp'. iApply (wp_copy_pfd _ _ (u ++ last :: rest) _ _ p last); [done|by rw Nat2Z.id list_lookup_middle|].
        iFrame "Hl". iIntros "Hl". rw Nat2Z.id insert_app_l; [|lia]. rw decide_True; [|lia]. by iFrame.
      - rw decide_False; [|lia]. wret. by iFrame. }
    iIntros ([] w2) "[-> Hl]". wret. rw -Hu'.
    pose proof (swap_remove _ _ _ _ Hp) as Hperm. fold u' in Hperm.
    iApply (IH u' i (last :: rest) with "[-]"); [lia| |lia|lia|].
    { subst u'. case_decide; [rw take_insert_ge //|]; rw take_app_le // in Hdone; lia. }
    iFrame "Hb Hl HI". iIntros (t' rest' evs' st'' w3 (H1 & H2 & H3 & Hst' & He')) "Hb Hl HI".
    destruct (dispatched_one _ _ _ _ _ Hperm Hlive H1 H2) as [H1' H2'].
    iApply ("HQ" $! t' rest' (raised p :: evs') with "[%] Hb Hl [HI]").
    + split_and!; [done..| |by eapply (moved_trans 1)|by eapply observes_trans]. rw H3 !length_app /=. lia.
    + by rw -(assoc_L (++)).
Qed.

Lemma length_with_revents revents ps : length (with_revents revents ps) = length ps.
Proof. revert ps. by induction revents as [|r rs IH]; intros [|p ps]; simpl; rw ?IH. Qed.

Lemma with_revents_app revents ps rest :
  length revents = length ps → with_revents revents (ps ++ rest) = with_revents revents ps ++ rest.
Proof.
  revert ps. induction revents as [|r rs IH]; intros [|p ps] E; try done; simpl in *.
  f_equal. apply IH. lia.
Qed.

#[local] Arguments loop : simpl never.

(** A successful [poll] of all the descriptors, dispatched. *)
Lemma wp_poll_fds ps revents st cmd w Q :
  ps ≠ [] → e_poll (w_env w) (w_tick w) ps = PollReady revents → length revents = length ps →
  watching (at_state b0 st fl cmd) ps ∗ I [] ∗
  (∀ ps' evs st' w', let polled := with_revents revents ps in
     ⟦ ps' ≡ₚ filter (λ p, ¬ live p) polled ∧ evs ≡ₚ raised <$> filter live polled ∧
       moved st (length evs) st' ∧ observes w w' ⟧ -∗
     watching ((at_state b0 st' fl cmd) <| b_watch_size := Z.of_nat (length ps') |>) ps' -∗
     I evs -∗ Q 0%Z w')
  ⊢ wp (burrow_internal_poll_fds (burrow_process fuel) (Some bl)) w Q.
Proof using Type*.
  iIntros (Hne Hp Hlen) "(Hw & HI & HQ)". iDestruct "Hw" as (rest) "((%Hw & %Hsz & %Hmax) & Hb & Hl & _)".
  simpl in *. rw Hl /=. unfold burrow_internal_poll_fds. wload "Hb".
  destruct (Z.eqb_spec (b_watch_size b0) 0) as [E0|_]; [by destruct ps; simpl in *; [|lia]|].
  wp_focus. unfold poll. rw Hl. wload "Hl". rw Hw Nat2Z.id.
  destruct (Nat.ltb_spec (length (ps ++ rest)) (length ps)) as [Hlt|_];
    [rw length_app in Hlt; lia|]. wp_focus. iApply wp_consult. simpl. rw take_app_length Hp.
  wstore "Hl". rw -Hlen firstn_all with_revents_app //. wret.
  set (polled := with_revents revents ps) in *.
  assert (length polled = length ps) as Hpl by apply length_with_revents.
  wload "Hb". rw Hl Hw Nat2Z.id. wp_focus.
  rw -Hpl. iApply (wp_poll_loop _ polled 0 rest [] with "[-]"); [lia|by constructor|lia| |].
  { rw Hsz length_app in Hmax. lia. }
  iFrame "Hb Hl HI". iIntros (ps' rest' evs st' w' (H1 & H2 & H3 & Hst & es & He & Hes)) "Hb Hl HI". wmodify "Hb".
  wret. iApply ("HQ" with "[%] [Hb Hl] HI").
  - split_and!; [done..|]. exists es. split; [|done]. eapply evolves_silent; [apply (evolves_tick 1)|done].
  - iExists rest'. simpl. rw Hl /=. iFrame "Hb Hl". iPureIntro. split; [|done].
    rw H3 Hsz !length_app Hpl in Hmax |- *. lia.
Qed.
End dispatch.
End watch.
