(* ===== verification/BufferSpec.v ===== *)
(** Rules for the buffers of user_buffer.c. *)
From S2P Require Import Prelude Types Heap UserBuffer Macros Burrow Logic MacrosSpec DictionarySpec UserBufferSpec BurrowSpec WatchSpec.
From iris.proofmode Require Import proofmode.

Lemma resize_bytes_grow bs n j :
  resize_bytes (Z.of_nat (length bs + n)) (Some bs) j = bs ++ replicate n (uninit_byte j).
Proof.
  unfold resize_bytes. simpl. rw Nat2Z.id take_ge; [|lia]. by replace (length bs + n - length bs) with n by lia.
Qed.


(** The buffer at [ul] holds [bs] and is read or written at [where_]; an empty
    one has no memory. *)
Definition holding (ul : loc) (o : owner) (m : bool) (where_ : nat) (bs : bytes) : hPropI :=
  (∃ buf, ul ↦{o} UserBuffer (Z.of_nat (length bs)) (Z.of_nat where_) buf m ∗
     match buf with
     | Some l => ⟦ bs ≠ [] ⟧ ∗ l ↦{Libc} bs
     | None => ⟦ bs = [] ⟧
     end)%I.

Lemma nonempty_size (bs : bytes) : bs ≠ [] → (Z.of_nat (length bs) =? 0)%Z = false.
Proof. intros H. apply Z.eqb_neq. by destruct bs. Qed.

(** A new buffer with a copy of the data, or none. *)
Lemma wp_user_buffer_create_sized data w :
  data ≠ [] →
  emp%I ⊢ wp (user_buffer_create_sized NULL (Some data) (Z.of_nat (length data))) w
    (λ r w', (∃ ul, ⟦ r = Some ul ∧ evolves w [] w' ⟧ ∗ holding ul Libc true 0 data) ∨
             ⟦ r = NULL ∧ ¬ reliable w ∧ evolves w [] w' ⟧)%I.
Proof.
  iIntros (Hne) "_". unfold user_buffer_create_sized. simpl. wp_focus.
  iApply wp_malloc. destruct (malloc_ok Libc w) eqn:Hok.
  2: { simpl. wret. wret. wret. iRight. iPureIntro. split_and!; [done| |auto with world..].
       intros Hr. by rw reliable_ok in Hok. }
  iIntros (ul) "Hu". simpl. wmodify "Hu". wret. wmodify "Hu". wp_focus.
  iApply wp_malloc. destruct (malloc_ok Libc (tick 2 w)) eqn:Hok'.
  - iIntros (l) "Hl". wmodify "Hu". wp_focus. unfold uninit_bytes. rw Nat2Z.id.
    iApply (wp_write_bytes l Libc [] (replicate _ _) [] data); [apply length_replicate|].
    rw !app_nil_r !app_nil_l. iFrame "Hl". iIntros "Hl". wmodify "Hu". wret. iLeft. iExists ul.
    iSplitR; [iPureIntro; split; [done|auto with world]|]. iExists (Some l). iFrame. done.
  - wmodify "Hu". wp_focus. iApply (wp_release with "[$Hu]"). wret. iRight. iPureIntro.
    split_and!; [done| |auto with world..]. intros Hr.
    assert (reliable (tick 2 w)) as Hr2 by done. by rw reliable_ok in Hok'.
Qed.

(** Room for the data: behind the contents, or nowhere. *)
Lemma wp_user_buffer_grow ul o m bs (data : bytes) w Q :
  data ≠ [] → (Z.of_nat (length bs + length data) < 18446744073709551616)%Z →
  holding ul o m (length bs) bs ∗
  ((∀ l (mid : bytes) w', ⟦ evolves w [] w' ∧ length mid = length data ⟧ -∗
      ul ↦{o} UserBuffer (Z.of_nat (length bs + length data)) (Z.of_nat (length bs)) (Some l) m -∗
      l ↦{Libc} (bs ++ mid) -∗ Q true w') ∧
   (∀ w', ⟦ evolves w [] w' ∧ ¬ reliable w ⟧ -∗
      (if decide (bs = []) then ul ↦{o} UserBuffer (Z.of_nat (length data)) 0 NULL m
       else holding ul o m (length bs) bs) -∗ Q false w'))
  ⊢ wp (user_buffer_grow (Some ul) (Z.of_nat (length data))) w Q.
Proof.
  intros Hne Hmax. iIntros "[(%buf & Hu & Hl) HQ]". unfold user_buffer_grow. wload "Hu".
  destruct (decide (bs = [])) as [->|Hbs].
  - destruct buf as [l|]; [iDestruct "Hl" as "[%H Hl]"; by destruct H|]. simpl. wmodify "Hu". wp_focus.
    iApply wp_malloc. destruct (malloc_ok Libc w) eqn:Hok.
    + iIntros (l) "Hb". wmodify "Hu". wmodify "Hu". wret. iDestruct "HQ" as "[HQ _]".
      iApply ("HQ" $! l (uninit_bytes (Z.of_nat (length data)) _) with "[%] Hu Hb").
      split; [auto with world|]. unfold uninit_bytes. by rw length_replicate Nat2Z.id.
    + wmodify "Hu". wret. iDestruct "HQ" as "[_ HQ]". iDestruct "Hl" as "_".
      iApply ("HQ" with "[%] Hu"). split; [auto with world|]. intros Hr. by rw reliable_ok in Hok.
  - rw nonempty_size //. simpl. destruct buf as [l|]; [|by iDestruct "Hl" as %H]. simpl.
    iDestruct "Hl" as "[_ Hl]". rw -Nat2Z.inj_add u64_small; [|lia]. wp_focus.
    iApply (wp_realloc (Some l) (Some bs)). iSplitL "Hl"; [iExact "Hl"|].
    destruct (malloc_ok Libc w) eqn:Hok.
    + iIntros (l') "Hl". simpl. wmodify "Hu". wmodify "Hu". wret. iDestruct "HQ" as "[HQ _]".
      rw resize_bytes_grow -Nat2Z.inj_add u64_small; [|lia].
      iApply ("HQ" $! l' (replicate _ _) with "[%] Hu Hl").
      split; [auto with world|apply length_replicate].
    + iIntros "Hl". simpl. wret. iDestruct "HQ" as "[_ HQ]". iApply ("HQ" with "[%] [Hu Hl]").
      * split; [auto with world|]. intros Hr. by rw reliable_ok in Hok.
      * iExists (Some l). iFrame. done.
Qed.

(** What libcurl hands over is appended, or refused. *)
Lemma wp_user_buffer_write ul o m bs data size nmemb w :
  data ≠ [] → (size * nmemb = Z.of_nat (length data))%Z →
  (Z.of_nat (length bs + length data) < 18446744073709551616)%Z →
  holding ul o m (length bs) bs
  ⊢ wp (user_buffer_curl_write_function data size nmemb (Some ul)) w
    (λ r w', ⟦ evolves w [] w' ⟧ ∗
       ((⟦ r = Z.of_nat (length data) ⟧ ∗ holding ul o m (length (bs ++ data)) (bs ++ data)) ∨
        (⟦ r = 0%Z ∧ ¬ reliable w ⟧ ∗
           if decide (bs = []) then ul ↦{o} UserBuffer (Z.of_nat (length data)) 0 NULL m
           else holding ul o m (length bs) bs)))%I.
Proof.
  iIntros (Hne Hn Hmax) "(%buf & Hu & Hl)".
  unfold user_buffer_curl_write_function. rw Hn u64_small; [|lia]. wp_focus.
  iApply (wp_user_buffer_grow with "[-]"); [done..|]. iSplitL; [iExists buf; by iFrame|]. iSplit.
  - iIntros (l mid w' (He & Hmid)) "Hu Hl". simpl. wload "Hu". wp_focus.
    iApply (wp_write_bytes l Libc bs mid [] data); [done|]. rw !app_nil_r. iFrame "Hl". iIntros "Hl".
    wmodify "Hu". wret. iSplitR; [done|]. iLeft. iSplitR; [done|]. iExists (Some l).
    rw length_app. rw u64_small; [|lia]. rw -Nat2Z.inj_add. iFrame. iPureIntro. by destruct bs.
  - iIntros (w' (He & Hr)) "H". simpl. wret. iSplitR; [done|]. iRight. by iFrame.
Qed.

(** What libcurl asks for is copied, and where to go on from moves. *)
Lemma wp_user_buffer_read ul o m bs k dl od dst size nmemb w :
  k ≤ length bs → (size * nmemb = Z.of_nat (length dst))%Z →
  (Z.of_nat (length bs) < 18446744073709551616)%Z → (Z.of_nat (length dst) < 18446744073709551616)%Z →
  holding ul o m k bs ∗ dl ↦{od} dst
  ⊢ wp (user_buffer_curl_read_function (Some dl) size nmemb (Some ul)) w
    (λ r w', let n := Nat.min (length dst) (length bs - k) in
       ⟦ r = Z.of_nat n ∧ w' = w ⟧ ∗ holding ul o m (k + n) bs ∗
       dl ↦{od} (take n (drop k bs) ++ drop n dst))%I.
Proof.
  iIntros (Hk Hn Hbs Hdst) "[(%buf & Hu & Hl) Hd]".
  unfold user_buffer_curl_read_function. wload "Hu". rw Hn.
  rw (u64_small (Z.of_nat (length dst))); [|lia].
  rw (u64_small (Z.of_nat (length bs) - Z.of_nat k)); [|lia]. simpl.
  destruct (Z.eqb_spec (Z.of_nat (length bs) - Z.of_nat k) 0) as [E0|Hleft].
  { wret. iSplitR; [iPureIntro; split; [lia|done]|].
    replace (Nat.min (length dst) (length bs - k)) with 0 by lia. rw Nat.add_0_r /=. iFrame "Hd".
    iExists buf. iFrame. }
  set (n := Nat.min (length dst) (length bs - k)).
  assert ((if (Z.of_nat (length bs) - Z.of_nat k <=? Z.of_nat (length dst))%Z
           then (Z.of_nat (length bs) - Z.of_nat k)%Z else Z.of_nat (length dst)) = Z.of_nat n) as ->.
  { destruct (Z.leb_spec (Z.of_nat (length bs) - Z.of_nat k) (Z.of_nat (length dst))); lia. }
  destruct buf as [l|]; [|iDestruct "Hl" as %->; simpl in *; lia]. iDestruct "Hl" as "[%Hne Hl]".
  wp_focus. iApply (wp_read_bytes l Libc bs k n); [lia|]. iFrame "Hl". iIntros "Hl". wp_focus.
  assert (length (take n (drop k bs)) = n) as Hlen by (rw length_take length_drop; lia).
  rw -{2}Hlen.
  iApply (wp_write_bytes dl od [] (take n dst) (drop n dst) (take n (drop k bs))).
  { rw Hlen length_take. lia. }
  rw app_nil_l take_drop. iFrame "Hd". iIntros "Hd". rw app_nil_l. wmodify "Hu". wret.
  iFrame "Hd". iSplitR; [done|]. iExists (Some l). rw u64_small; [|lia]. rw -Nat2Z.inj_add. by iFrame.
Qed.

(** ** Without running out of memory *)

Lemma wp_create_filled (data : bytes) n w Q :
  0 < n ≤ length data → reliable w →
  (∀ ul w', ⟦ evolves w [] w' ⟧ -∗ holding ul Libc true 0 (take n data) -∗ Q (Some ul) w')
  ⊢ wp (user_buffer_create_sized NULL (Some data) (Z.of_nat n)) w Q.
Proof.
  iIntros (Hn Hr) "HQ". unfold user_buffer_create_sized. simpl. wp_focus.
  iApply wp_malloc_reliable; [done|]. iIntros (ul j w1 Hw1) "Hu". simpl. wmodify "Hu". wret. wmodify "Hu".
  assert (reliable w1) by (by apply (reliable_evolves _ _ _ Hw1)).
  wp_focus. iApply wp_malloc_reliable; [done|]. iIntros (l j' w2 Hw2) "Hl". wmodify "Hu". wp_focus.
  unfold uninit_bytes. rw Nat2Z.id.
  iApply (wp_write_first l Libc [] (replicate n _) [] data); [apply length_replicate|lia|].
  rw !app_nil_r !app_nil_l. iFrame "Hl". iIntros "Hl". wmodify "Hu". wret.
  iApply ("HQ" $! ul with "[%]"); [by apply (evolves_trans w [] w1 [])|]. iExists (Some l).
  rw length_take Nat.min_l; [|lia]. iFrame. iPureIntro. intros E. apply (f_equal length) in E.
  rw length_take /= in E. lia.
Qed.

Lemma wp_create_empty w Q :
  reliable w →
  (∀ ul w', ⟦ evolves w [] w' ⟧ -∗ holding ul Libc true 0 [] -∗ Q (Some ul) w')
  ⊢ wp (user_buffer_create NULL None) w Q.
Proof.
  iIntros (Hr) "HQ". unfold user_buffer_create, user_buffer_create_sized. simpl. wp_focus.
  iApply wp_malloc_reliable; [done|]. iIntros (ul j w' Hw) "Hu". simpl. wmodify "Hu". wret. wmodify "Hu".
  wmodify "Hu". wmodify "Hu". wret. iApply ("HQ" with "[//]"). iExists NULL. by iFrame.
Qed.

Lemma wp_user_buffer_destroy ul k bs w Q :
  holding ul Libc true k bs ∗ Q tt w ⊢ wp (user_buffer_destroy (Some ul)) w Q.
Proof.
  iIntros "[(%buf & Hu & Hl) HQ]". unfold user_buffer_destroy. wload "Hu". destruct buf as [l|]; simpl.
  - iDestruct "Hl" as "[_ Hl]". wp_focus. iApply (wp_release (T := bytes)). iFrame "Hl". wload "Hu".
    iApply (wp_release (T := user_buffer_st)). iFrame.
  - wret. iDestruct "Hl" as "_". wload "Hu". iApply (wp_release (T := user_buffer_st)). iFrame.
Qed.
