(* ===== verification/TransferSpec.v ===== *)
(** Rules for driving a transfer: the callbacks libcurl makes, the loop around
    [curl_multi_perform], the results, the descriptors to watch, and
    burrow_backend_http_process as a whole. *)
From S2P Require Import Prelude JsonData CurlData Types Heap Macros Attributes Filters Burrow UserBuffer JsonParser JsonProcessing CurlBackend HttpProtocol Logic MacrosSpec DictionarySpec UserBufferSpec JsonReportSpec.
From S2P Require Import BurrowSpec MemoryScan WatchSpec BufferSpec CurlSpec.
From iris.proofmode Require Import proofmode.

(** ** Runs that only log *)

Definition quiet (w w' : world) : Prop := ∃ es, evolves w es w' ∧ Forall is_log es.

Lemma quiet_refl w : quiet w w.
Proof. exists []. split; [apply evolves_refl|constructor]. Qed.
Lemma quiet_trans w1 w2 w3 : quiet w1 w2 → quiet w2 w3 → quiet w1 w3.
Proof.
  intros (es1 & H1 & L1) (es2 & H2 & L2). exists (es1 ++ es2). split; [by eapply evolves_trans|].
  by apply Forall_app.
Qed.
Lemma quiet_silent w w' : evolves w [] w' → quiet w w'.
Proof. intros H. by exists []. Qed.
Lemma quiet_reliable w w' : quiet w w' → reliable w → reliable w'.
Proof. intros (es & H & _) Hr. by apply (reliable_evolves _ _ _ H). Qed.
Lemma quiet_env w w' : quiet w w' → w_env w' = w_env w.
Proof. by intros (es & (H & _) & _). Qed.

Create HintDb quiet.
#[export] Hint Resolve quiet_refl quiet_silent : quiet.
#[export] Hint Extern 1 (quiet ?w ?w') =>
  match goal with H : quiet w ?w1 |- _ => refine (quiet_trans _ _ _ H _) end : quiet.
#[export] Hint Extern 1 (quiet ?w ?w') =>
  match goal with H : evolves w [] ?w1 |- _ => refine (quiet_trans _ _ _ (quiet_silent _ _ H) _) end : quiet.
#[export] Hint Extern 1 (reliable ?w') =>
  match goal with
  | H : quiet ?w w' |- _ => refine (quiet_reliable _ _ H _)
  | H : evolves ?w [] w' |- _ => refine (quiet_reliable _ _ (quiet_silent _ _ H) _)
  end : quiet.

(** ** A burrow, but for the descriptors it watches *)

Section frontend.
Context (bl : loc) (bo : owner).
Implicit Types (b : burrow_st) (ps : list pollfd).

Definition with_watch p size n b : burrow_st :=
  b <| b_pfds := p |> <| b_pfds_size := size |> <| b_watch_size := n |>.
Definition frontend b ps : hPropI := (∃ p size n, watching bl bo (with_watch p size n b) ps)%I.

Lemma frontend_burrow b ps :
  frontend b ps ⊢ ∃ p size n, bl ↦{bo} with_watch p size n b ∗ (bl ↦{bo} with_watch p size n b -∗ frontend b ps).
Proof.
  iIntros "(%p & %size & %n & %rest & H & Hb & Hp)". iExists p, size, n. iFrame "Hb". iIntros "Hb".
  iExists p, size, n, rest. iFrame.
Qed.

Lemma wp_log_quiet lvl msg b ps w Q :
  frontend b ps ∗ (∀ w', ⟦ quiet w w' ⟧ -∗ frontend b ps -∗ Q tt w') ⊢ wp (log_at lvl (Some bl) msg) w Q.
Proof.
  iIntros "[H HQ]". iDestruct (frontend_burrow with "H") as (p size n) "[Hb H]".
  iApply wp_log_at. iFrame "Hb". iIntros (w' Hw) "Hb". iApply ("HQ" with "[%] [H Hb]"); [|by iApply "H"].
  eexists. split; [exact Hw|apply log_events_log].
Qed.

(** The descriptors wanted, as they are watched. *)
#[export] Instance wanted_dec f i : Decision (wanted f i).
Proof. unfold wanted. apply _. Defined.
Definition watched_for (f : fdsets) (fds : list Z) (new : list pollfd) : Prop :=
  (λ p, (pfd_fd p, pfd_events p)) <$> new = (λ i, (i, poll_for f i)) <$> filter (wanted f) fds.

Lemma wanted_event_spec f i :
  (wanted_event f i ≠ BURROW_IOEVENT_NONE ↔ wanted f i) ∧ events_of (wanted_event f i) = poll_for f i.
Proof.
  unfold wanted_event, wanted, poll_for, FD_ISSET. rw !bool_decide_decide.
  destruct (decide (i ∈ fd_read f)), (decide (i ∈ fd_write f)); (split; [|done]); split; intros H; try done; tauto.
Qed.

Lemma wp_watch_fd b ps fd events w Q :
  b_watch_fd_fn b = None → reliable w → (Z.of_nat (length ps) + 1 < 4294967296)%Z →
  frontend b ps ∗
  (∀ rv w', ⟦ quiet w w' ⟧ -∗ frontend b (ps ++ [Pollfd fd (events_of events) rv]) -∗ Q tt w')
  ⊢ wp (burrow_watch_fd (Some bl) fd events) w Q.
Proof.
  iIntros (Hfn Hr Hlen) "[(%p & %size & %n & H) HQ]". unfold burrow_watch_fd.
  iDestruct "H" as (rest) "(H1 & Hb & H2)". wload "Hb". rw Hfn. wp_focus.
  iApply (wp_internal_watch_fd bl bo (with_watch p size n b) ps); [done|]. iSplitL "H1 Hb H2"; [iExists rest; iFrame "H1 Hb"; iExact "H2"|]. iSplit.
  - iIntros (l size' rv w' Hw) "H". wret. iApply ("HQ" with "[%]"); [by apply quiet_silent|].
    iExists (Some l), size', _. iExact "H".
  - iIntros (w' Hg). by destruct (gave_up_reliable _ _ Hr Hg).
Qed.

Lemma wp_watch_descriptors f b fds ps w Q :
  b_watch_fd_fn b = None → reliable w → (Z.of_nat (length ps + length fds) < 4294967296)%Z →
  frontend b ps ∗
  (∀ new w', ⟦ quiet w w' ∧ watched_for f fds new ⟧ -∗ frontend b (ps ++ new) -∗ Q tt w')
  ⊢ wp (watch_descriptors (Some bl) f fds) w Q.
Proof.
  intros Hfn. revert ps w. induction fds as [|i fds IH]; intros ps w; iIntros (Hr Hlen) "[H HQ]"; simpl.
  { wret. iApply ("HQ" $! [] with "[%]"); [split; [apply quiet_refl|done]|]. by rw app_nil_r. }
  simpl in Hlen. wp_focus.
  iApply (wp_wand _ _ (λ _ w', ⟦ quiet w w' ⟧ ∗ frontend b ps)%I with "[H]").
  { destruct (FD_ISSET i (fd_exec f)); [|wret; iFrame; auto with quiet].
    iApply wp_log_quiet. iFrame "H". iIntros (w' Hw) "H". by iFrame. }
  iIntros ([] w1) "[%Hw H]". wp_focus. destruct (wanted_event_spec f i) as [Hwant Hev].
  case_decide as Hi; [apply Hwant in Hi|assert (¬ wanted f i) as Hni by by intros H%Hwant].
  - iApply (wp_watch_fd b ps); [done|by eapply quiet_reliable|lia|]. iFrame "H". iIntros (rv w2 Hw2) "H".
    iApply (IH (ps ++ [Pollfd i (events_of (wanted_event f i)) rv])); [eauto using quiet_reliable|rw length_app /=; lia|]. iFrame "H".
    iIntros (new w3 (Hw3 & Hnew)) "H". rw -(assoc_L (++)). iApply ("HQ" with "[%] H").
    split; [auto with quiet|]. unfold watched_for in *. rw filter_cons_True // fmap_cons -Hnew Hev //.
  - wret. iApply (IH ps); [eauto using quiet_reliable|lia|]. iFrame "H". iIntros (new w3 (Hw3 & Hnew)) "H".
    iApply ("HQ" with "[%] H"). split; [auto with quiet|]. unfold watched_for in *. by rw filter_cons_False.
Qed.
End frontend.

(** ** The callbacks *)

(** What libcurl may say: no empty pieces, sizes that are a [size_t], and nothing of
    an encrypted connection. *)
Definition orderly_io (i : io) : Prop :=
  match i with
  | Recv data => data ≠ []
  | Send room => (Z.of_nat room < 18446744073709551616)%Z
  | Info (CURLINFO_SSL_DATA_IN | CURLINFO_SSL_DATA_OUT) _ => False
  | Info _ _ => True
  end.
Definition orderly (st : step) : Prop :=
  Forall orderly_io (st_io st) ∧
  match st_verdict st with
  | Broken code => code ≠ CURLM_OK ∧ code ≠ CURLM_CALL_MULTI_PERFORM
  | _ => True
  end.

(** A text the parser can take. *)
Definition fits (ios : list io) : Prop := (Z.of_nat (length (received ios)) < 2147483648)%Z.

Lemma received_app xs ys : received (xs ++ ys) = received xs ++ received ys.
Proof. apply bind_app. Qed.
Lemma fits_app_l xs ys : fits (xs ++ ys) → fits xs.
Proof. unfold fits. rw received_app length_app. lia. Qed.

Section transfer.
Context (sl bl : loc) (so bo : owner) (s : burrow_backend_st) (b : burrow_st) (Hburrow : hb_burrow s = Some bl).

(** The backend and its burrow, which watches [ps]. *)
Definition here (ps : list pollfd) : hPropI := (sl ↦{so} s ∗ frontend bl bo b ps)%I.

Lemma wp_log_here lvl msg ps w Q :
  here ps ∗ (∀ w', ⟦ quiet w w' ⟧ -∗ here ps -∗ Q tt w') ⊢ wp (log_at lvl (Some bl) msg) w Q.
Proof.
  iIntros "[[Hs H] HQ]". iApply wp_log_quiet. iFrame "H". iIntros (w') "Hw H". iApply ("HQ" with "Hw"). iFrame.
Qed.

(** The options that say what to do with what the transfer has to tell. *)
Definition traced (opts : list CURLoption) : Prop :=
  debug_function opts = Some fn_burrow_backend_http_curldebug ∧ debug_data opts = Some (Some sl).

Lemma wp_on_info opts type msg ps w Q :
  traced opts → orderly_io (Info type msg) →
  here ps ∗ (∀ w', ⟦ quiet w w' ⟧ -∗ here ps -∗ Q tt w') ⊢ wp (on_info opts type msg) w Q.
Proof using Hburrow.
  iIntros ([Hf Hd] Ht) "[[Hs H] HQ]". unfold on_info. destruct (verbose opts).
  2: { wret. iApply ("HQ" with "[%]"); [auto with quiet|iFrame]. }
  rw Hf Hd. unfold burrow_backend_http_curldebug. simpl. wp_focus. wload "Hs". rw Hburrow.
  destruct type; try done; wp_focus; (iApply wp_log_quiet; iFrame "H"; iIntros (w') "Hw H"; wret; wret;
    iApply ("HQ" with "Hw"); iFrame).
Qed.

(** What the callbacks work on: [C ios sent] holds when [ios] have been dealt with
    and [sent] has been handed to libcurl. *)
Class Channel (opts : list CURLoption) (C : list io → bytes → hPropI) : Prop := {
  channel_traced : traced opts;
  channel_recv before sent data w Q :
    reliable w → data ≠ [] → fits (before ++ [Recv data]) →
    C before sent ∗ (∀ w', ⟦ evolves w [] w' ⟧ -∗ C (before ++ [Recv data]) sent -∗ Q true w')
    ⊢ wp (on_recv opts data) w Q;
  channel_send before sent room w Q :
    reliable w → orderly_io (Send room) →
    C before sent ∗ (∀ more w', ⟦ evolves w [] w' ⟧ -∗ C (before ++ [Send room]) (sent ++ more) -∗ Q more w')
    ⊢ wp (on_send opts room) w Q;
  channel_info before sent type msg : C before sent ⊢ C (before ++ [Info type msg]) sent }.

Context (opts : list CURLoption) (C : list io → bytes → hPropI) `{!Channel opts C}.

Lemma wp_run_callbacks ios before sent ps w Q :
  reliable w → Forall orderly_io ios → fits (before ++ ios) →
  here ps ∗ C before sent ∗
  (∀ more w', ⟦ quiet w w' ⟧ -∗ here ps -∗ C (before ++ ios) (sent ++ more) -∗ Q (more, true) w')
  ⊢ wp (run_callbacks opts ios) w Q.
Proof using All.
  revert before sent w Q. induction ios as [|i ios IH]; intros before sent w Q; iIntros (Hr Ho Hfit) "(H & HC & HQ)".
  { simpl. wret. iApply ("HQ" $! [] with "[%] H [HC]"); [auto with quiet|]. by rw !app_nil_r. }
  inversion_clear Ho as [|? ? Hi Hos].
  assert (before ++ i :: ios = (before ++ [i]) ++ ios) as E by by rw -(assoc_L (++)). rw E in Hfit |- *.
  destruct i as [data|room|type msg]; simpl; wp_focus.
  - iApply (channel_recv before sent); [done..|by eapply fits_app_l|]. iFrame "HC". iIntros (w1 Hw1) "HC". simpl.
    iApply IH; [by auto with quiet|done|exact Hfit|]. iFrame "H HC". iIntros (more w2 Hw2) "H HC".
    iApply ("HQ" with "[%] H HC"). auto with quiet.
  - iApply (channel_send before sent); [done..|]. iFrame "HC". iIntros (more w1 Hw1) "HC". wp_focus.
    iApply IH; [by auto with quiet|done|exact Hfit|]. iFrame "H HC". iIntros (more' w2 Hw2) "H HC". wret.
    rw -(assoc_L (++) sent). iApply ("HQ" with "[%] H HC"). auto with quiet.
  - iApply (wp_on_info _ _ _ ps); [apply channel_traced|done|]. iFrame "H". iIntros (w1 Hw1) "H".
    iDestruct (channel_info with "HC") as "HC". iApply IH; [by auto with quiet|done|exact Hfit|].
    iFrame "H HC". iIntros (more w2 Hw2) "H HC". iApply ("HQ" with "[%] H HC"). auto with quiet.
Qed.

Context {curl : LibcurlMulti} {escape unescape : string → string} {server : request → list step}
  `{!CurlLaws curl escape unescape server}.
Context (m h : positive) (Hmulti : hb_curlptr s = Some m).

(** ** A transfer in progress

    [ios] have been dealt with, [sent] has gone out, [steps] are to come. *)
Definition transferring (ios : list io) (sent : bytes) (steps : list step) (waits : fdsets) : hPropI :=
  (C ios sent ∗ multi m (Some (h, opts, Transfer steps sent [] waits)))%I.

(** The code and the number of running transfers [curl_multi_perform] ends with. *)
Definition answered (v : option verdict) : Z * Z :=
  match v with
  | Some (Running _) => (CURLM_OK, 1%Z)
  | Some (Broken code) => (code, 1%Z)
  | _ => (CURLM_OK, 0%Z)
  end.
Definition results_of (v : option verdict) : list Z :=
  match v with Some (Ended r) => [r] | _ => [] end.
Definition waits_of (v : option verdict) (old : fdsets) : fdsets :=
  match v with Some (Running f) => f | _ => old end.

Lemma wp_perform_all turns steps ios rest v before sent ps waits w Q :
  length steps < turns → pump steps = (ios, rest, v) → Forall orderly steps →
  reliable w → fits (before ++ ios) →
  here ps ∗ transferring before sent steps waits ∗
  (∀ sent' w', ⟦ quiet w w' ⟧ -∗ here ps -∗ C (before ++ ios) sent' -∗
     multi m (Some (h, opts, Transfer rest sent' (results_of v) (waits_of v waits))) -∗ Q (answered v) w')
  ⊢ wp (perform_all turns (Some m)) w Q.
Proof using All.
  unfold perform_all. revert turns ios rest v before sent w Q.
  induction steps as [|[sio sv] steps IH]; intros turns ios rest v before sent w Q;
    (destruct turns as [|turns]; [simpl; lia|]); iIntros (Ht Hp Ho Hr Hfit) "(H & [HC Hm] & HQ)"; cbn [loop].
  { simpl in Hp. simplify_eq. wp_focus. iApply wp_curl_multi_perform_idle; [|iFrame "Hm"]; [done|].
    iIntros (w' Hw) "Hm". wret. wret. rw app_nil_r. iApply ("HQ" with "[%] H HC Hm"). auto with quiet. }
  inversion_clear Ho as [|? ? [Hio Hv] Hos]. simpl in Hio, Hv, Hp, Ht.
  assert (fits (before ++ sio)) as Hfit1.
  { destruct sv; simplify_eq; try done. destruct (pump steps) as [[ios' rest'] v']. simplify_eq.
    rw (assoc_L (++)) in Hfit. by eapply fits_app_l. }
  wp_focus. iApply (wp_curl_multi_perform m h opts (Transfer (Step sio sv :: steps) sent [] waits)); [done|]. iFrame "Hm". simpl.
  iApply (wp_run_callbacks sio before sent ps); [done..|]. iFrame "H HC".
  iIntros (more w1 Hw1) "H HC". iIntros (w2 Hw2) "Hm". unfold performed. simpl.
  destruct sv as [|f|code|code]; simpl; wret.
  - destruct (pump steps) as [[ios' rest'] v'] eqn:Hp'. simplify_eq. rw (assoc_L (++)) in Hfit |- *.
    iApply (IH turns ios' rest v (before ++ sio) (sent ++ more)); [lia|done..|eauto with quiet|done|].
    iFrame "H HC Hm". iIntros (sent' w3 Hw3) "H HC Hm". iApply ("HQ" with "[%] H HC Hm"). auto with quiet.
  - simplify_eq. wret. iApply ("HQ" with "[%] H HC Hm"). auto with quiet.
  - simplify_eq. wret. iApply ("HQ" with "[%] H HC Hm"). auto with quiet.
  - simplify_eq. case_decide; [by destruct Hv|]. wret. iApply ("HQ" with "[%] H HC Hm"). auto with quiet.
Qed.

Lemma wp_read_results turns steps sent results waits ps w Q :
  2 ≤ turns → length results ≤ 1 →
  here ps ∗ multi m (Some (h, opts, Transfer steps sent results waits)) ∗
  (∀ w', ⟦ quiet w w' ⟧ -∗ here ps -∗ multi m (Some (h, opts, Transfer steps sent [] waits)) -∗
     Q (match results with r :: _ => if decide (r ≠ CURLE_OK) then EINVAL else 0%Z | [] => 0%Z end) w')
  ⊢ wp (read_results turns (Some m) (Some bl)) w Q.
Proof using All.
  iIntros (Ht Hl) "(H & Hm & HQ)". destruct turns as [|[|turns]]; [lia..|]. unfold read_results. cbn [loop].
  wp_focus. iApply wp_curl_multi_info_read. iFrame "Hm". iIntros (w1 Hw1) "Hm".
  destruct results as [|r [|]]; simpl in *; [| |lia].
  { wret. wret. iApply ("HQ" with "[%] H Hm"). auto with quiet. }
  case_decide.
  - unfold burrow_error. wp_focus. iApply wp_log_here. iFrame "H". iIntros (w2 Hw2) "H". wret. wret.
    iApply ("HQ" with "[%] H Hm"). auto with quiet.
  - wp_focus. iApply wp_log_here. iFrame "H". iIntros (w2 Hw2) "H". wret. wp_focus.
    iApply wp_curl_multi_info_read. iFrame "Hm". iIntros (w3 Hw3) "Hm". simpl. wret. wret.
    iApply ("HQ" with "[%] H Hm"). auto with quiet.
Qed.

(** ** One call of burrow_backend_http_process *)

Context (turns : nat) (decimal_point : Ascii.ascii) (Hwatch : b_watch_fd_fn b = None).

(** What becomes of it, by how libcurl answered; an answer that is complete is
    still to be delivered. *)
Definition processed (v : option verdict) (ps : list pollfd) (w : world) (Q : Z → world → hPropI) : hPropI :=
  match v with
  | Some (Running f) =>
      if decide (fd_max f = -1)%Z then here ps -∗ Q 0%Z w
      else ∀ new w', ⟦ quiet w w' ∧ watched_for f (seqZ 0 (fd_max f + 1)) new ⟧ -∗ here (ps ++ new) -∗ Q EAGAIN w'
  | Some (Broken _) => here ps -∗ Q EINVAL w
  | Some (Ended r) =>
      if decide (r ≠ CURLE_OK) then here ps -∗ Q EINVAL w
      else here ps -∗ wp (deliver_answer decimal_point (Some sl)) w Q
  | _ => here ps -∗ wp (deliver_answer decimal_point (Some sl)) w Q
  end%I.

(** The descriptors a verdict can add to those watched. *)
Definition room_for (v : option verdict) (ps : list pollfd) : Prop :=
  match v with
  | Some (Running f) => (Z.of_nat (length ps) + fd_max f + 1 < 4294967296)%Z ∧ (-1 ≤ fd_max f)%Z
  | _ => True
  end.

Lemma pump_verdict steps ios rest v :
  pump steps = (ios, rest, v) → Forall orderly steps →
  match v with Some Again => False | Some (Broken code) => code ≠ CURLM_OK | _ => True end.
Proof.
  revert ios rest v. induction steps as [|[sio sv] steps IH]; intros ios rest v; simpl; [by intros; simplify_eq|].
  intros Hp [[_ Hv] Ho]%Forall_cons. simpl in Hv. destruct sv; simplify_eq; try done; [|by destruct Hv].
  destruct (pump steps) as [[ios' rest'] v'] eqn:E. simplify_eq. by eapply IH.
Qed.

Lemma wp_http_process steps ios rest v before sent ps waits w Q :
  length steps + 1 < turns → pump steps = (ios, rest, v) → Forall orderly steps →
  reliable w → fits (before ++ ios) → room_for v ps →
  here ps ∗ transferring before sent steps waits ∗
  (∀ sent' w', ⟦ quiet w w' ⟧ -∗ transferring (before ++ ios) sent' rest (waits_of v waits) -∗ processed v ps w' Q)
  ⊢ wp (burrow_backend_http_process turns decimal_point (Some sl)) w Q.
Proof using All.
  iIntros (Ht Hp Ho Hr Hfit Hroom) "(H & HT & HQ)". pose proof (pump_verdict _ _ _ _ Hp Ho) as Hv.
  unfold burrow_backend_http_process. iDestruct "H" as "[Hs H]". wload "Hs". rw Hburrow Hmulti.
  iCombine "Hs H" as "H". wp_focus. iApply wp_log_here. iFrame "H". iIntros (w1 Hw1) "H".
  wp_focus. iApply wp_perform_all; [|done..|by auto with quiet|done|]; [lia|]. iFrame "H HT".
  iIntros (sent' w2 Hw2) "H HC Hm". destruct (answered v) as [retval running] eqn:Ha.
  wp_focus. iApply wp_log_here. iFrame "H". iIntros (w3 Hw3) "H".
  assert (quiet w w3) as Hw by auto with quiet.
  destruct v as [[|f|r|code]|]; try done; simpl in Ha; simplify_eq.
  all: swap 1 3.
  { rw decide_True //. unfold burrow_error. wp_focus. iApply wp_log_here. iFrame "H". iIntros (w4 Hw4) "H". wret.
    iApply ("HQ" with "[%] [HC Hm] H"); [auto with quiet|iFrame]. }
  all: case_decide as Hok; [by destruct Hok|]; clear Hok; wp_focus.
  - iApply (wp_read_results turns rest sent' [r]); [lia|simpl; lia|]. iFrame "H Hm". iIntros (w4 Hw4) "H Hm".
    iSpecialize ("HQ" $! sent' w4 with "[%] [HC Hm]"); [auto with quiet|iFrame|]. iUnfold processed in "HQ".
    case_decide as Hne; simpl; [wret|]; by iApply "HQ".
  - iApply (wp_read_results turns rest sent' []); [lia|simpl; lia|]. iFrame "H Hm". iIntros (w4 Hw4) "H Hm". simpl.
    unfold watch_transfer. iDestruct "H" as "[Hs H]". wload "Hs". rw Hburrow Hmulti.
    wp_focus. iApply wp_curl_multi_fdset. iFrame "Hm". iIntros (w5 Hw5) "Hm". simpl.
    iSpecialize ("HQ" $! sent' w5 with "[%] [HC Hm]"); [auto with quiet|iFrame|]. iUnfold processed in "HQ". case_decide as Hmax.
    + wret. iApply "HQ". iFrame.
    + wp_focus. destruct Hroom as [Hroom Hge]. iApply (wp_watch_descriptors bl bo f b (seqZ 0 (fd_max f + 1)) ps); [done|by auto with quiet| |].
      { rw length_seqZ. lia. }
      iFrame "H". iIntros (new w6 (Hw6 & Hnew)) "H". wret. iApply ("HQ" with "[%]"); [done|]. iFrame.
  - iApply (wp_read_results turns rest sent' []); [lia|simpl; lia|]. iFrame "H Hm". iIntros (w4 Hw4) "H Hm". simpl.
    iSpecialize ("HQ" $! sent' w4 with "[%] [HC Hm]"); [auto with quiet|iFrame|]. by iApply "HQ".
Qed.
End transfer.
