(* ===== verification/ConverseFacts.v ===== *)
(** Facts on how a transfer goes, resumed by one call of
    burrow_backend_http_process after the other; pure. *)
From S2P Require Import Prelude Types Heap Macros JsonData Logic MacrosSpec DictionarySpec CurlData CurlBackend HttpProtocol WatchSpec TransferSpec.
From iris.proofmode Require Import proofmode.

(** ** What the user is told: all but the log *)

#[export] Instance is_log_dec e : Decision (is_log e).
Proof. destruct e; apply _. Defined.
Definition told (es : list event) : list event := filter (λ e, ¬ is_log e) es.
Definition tells (w : world) (es : list event) (w' : world) : Prop := ∃ es', evolves w es' w' ∧ told es' = es.

Lemma told_app es1 es2 : told (es1 ++ es2) = told es1 ++ told es2.
Proof. apply filter_app. Qed.
Lemma told_logs es : Forall is_log es → told es = [].
Proof. induction 1 as [|e es He Hes IH]; [done|]. unfold told. rw filter_cons_False //. by intros H. Qed.

Lemma tells_quiet w w' : quiet w w' → tells w [] w'.
Proof. intros (es & He & Hl). exists es. split; [done|by apply told_logs]. Qed.
Lemma tells_evolves w es w' : evolves w es w' → tells w (told es) w'.
Proof. intros H. by exists es. Qed.
Lemma tells_trans w1 es1 w2 es2 w3 : tells w1 es1 w2 → tells w2 es2 w3 → tells w1 (es1 ++ es2) w3.
Proof.
  intros (l1 & H1 & <-) (l2 & H2 & <-). exists (l1 ++ l2). split; [by eapply evolves_trans|apply told_app].
Qed.
Lemma tells_env w es w' : tells w es w' → w_env w' = w_env w.
Proof. by intros (es' & (H & _) & _). Qed.
Lemma tells_reliable w es w' : tells w es w' → reliable w → reliable w'.
Proof. intros H Hr n. rw (tells_env _ _ _ H). apply Hr. Qed.

(** ** Transfers that come to an end *)

(** A transfer that is not over has something to wait on. *)
Definition responsive (st : step) : Prop :=
  match st_verdict st with
  | Running f => fd_max f = (-1)%Z ∨ ((0 ≤ fd_max f)%Z ∧ Exists (wanted f) (seqZ 0 (fd_max f + 1)))
  | _ => True
  end.

(** How many descriptors are watched for it at most. *)
Definition demand (st : step) : nat :=
  match st_verdict st with Running f => Z.to_nat (fd_max f + 1) | _ => 0 end.

(** A transfer that the backend sees through, given what has come in and how many
    descriptors are watched. *)
Record sustainable (before : list io) (steps : list step) (watched : nat) : Prop := {
  su_orderly : Forall orderly steps;
  su_responsive : Forall responsive steps;
  su_fits : fits (before ++ (steps ≫= st_io));
  su_room : (Z.of_nat (watched + sum_list_with demand steps) < 4294967296)%Z }.

(** What one call uses up. *)
Lemma pump_suffix steps ios rest v :
  pump steps = (ios, rest, v) →
  (∃ more, (steps ≫= st_io) = ios ++ more) ∧
  match v with
  | Some (Running f) =>
      ∃ pre io, steps = pre ++ Step io (Running f) :: rest ∧ (steps ≫= st_io) = ios ++ (rest ≫= st_io)
  | _ => True
  end.
Proof.
  revert ios rest v. induction steps as [|[io sv] steps IH]; intros ios rest v; simpl.
  { intros. simplify_eq. split; [by exists []|done]. }
  destruct sv as [|f|r|c]; simpl.
  - destruct (pump steps) as [[ios' rest'] v'] eqn:E. intros. simplify_eq. destruct (IH _ _ _ eq_refl) as [[more Hm] Hv].
    split; [exists more; by rw -(assoc_L (++)) -Hm|]. destruct v as [[]|]; try done.
    destruct Hv as (pre & io' & Hs & Hx). exists (Step io Again :: pre), io'. split; [by rw Hs|].
    by rw -(assoc_L (++)) -Hx.
  - intros. simplify_eq. split; [by eexists|]. by exists [], ios.
  - intros. simplify_eq. split; [by eexists|done].
  - intros. simplify_eq. split; [by eexists|done].
Qed.

Lemma sustainable_fits before steps n ios rest v :
  sustainable before steps n → pump steps = (ios, rest, v) → fits (before ++ ios).
Proof.
  intros [_ _ Hfit _] Hp. destruct (pump_suffix _ _ _ _ Hp) as [[more Hm] _]. rw Hm (assoc_L (++)) in Hfit.
  by eapply fits_app_l.
Qed.

Lemma sustainable_rest before steps n ios rest f k :
  sustainable before steps n → pump steps = (ios, rest, Some (Running f)) → k ≤ Z.to_nat (fd_max f + 1) →
  sustainable (before ++ ios) rest (n + k) ∧ length rest < length steps.
Proof.
  intros [Ho Hre Hfit Hroom] Hp Hk. destruct (pump_suffix _ _ _ _ Hp) as [_ (pre & io & -> & Hx)].
  rw Hx (assoc_L (++)) in Hfit. apply Forall_app in Ho as [_ Ho], Hre as [_ Hre].
  inversion_clear Ho. inversion_clear Hre. split; [split; [done..|]|rw length_app /=; lia].
  rw sum_list_with_app /= in Hroom. unfold demand in Hroom at 2. simpl in Hroom. lia.
Qed.

Lemma sustainable_room before steps n ios rest f :
  sustainable before steps n → pump steps = (ios, rest, Some (Running f)) →
  (Z.of_nat n + fd_max f + 1 < 4294967296)%Z ∧ (-1 ≤ fd_max f)%Z ∧
  (fd_max f ≠ (-1)%Z → Exists (wanted f) (seqZ 0 (fd_max f + 1))).
Proof.
  intros [Ho Hre Hfit Hroom] Hp. destruct (pump_suffix _ _ _ _ Hp) as [_ (pre & io & -> & Hx)].
  rw sum_list_with_app /= in Hroom. unfold demand in Hroom at 2. simpl in Hroom.
  apply Forall_app in Hre as [_ Hre]. inversion_clear Hre as [|? ? H _]. unfold responsive in H. simpl in H.
  destruct H as [H|[H H']]; [split_and!; lia|]. split_and!; [lia..|done].
Qed.

(** Fewer descriptors are watched. *)
Lemma sustainable_le before steps n k : k ≤ n → sustainable before steps n → sustainable before steps k.
Proof. intros Hk []. split; [done..|lia]. Qed.

(** The conversation, one call at a time. *)
Lemma converse_pump before steps ios rest v :
  pump steps = (ios, rest, v) →
  converse before steps =
    match v with
    | None => Completed (before ++ ios)
    | Some (Running f) => if decide (fd_max f = -1)%Z then Abandoned else converse (before ++ ios) rest
    | Some (Ended r) => if decide (r = CURLE_OK) then Completed (before ++ ios) else Failed
    | Some (Broken _) => Failed
    | Some Again => converse before steps
    end.
Proof.
  revert before ios rest v. induction steps as [|[io sv] steps IH]; intros before ios rest v; simpl.
  { intros. simplify_eq. by rw app_nil_r. }
  destruct sv as [|f|r|c]; simpl; [|by intros; simplify_eq..].
  destruct (pump steps) as [[ios' rest'] v'] eqn:E. intros. simplify_eq.
  rw (IH _ _ _ _ eq_refl). destruct v as [[]|]; by rw ?(assoc_L (++)) // -?(IH _ _ _ _ eq_refl).
Qed.

(** Something is watched for a transfer that waits. *)
Lemma watched_some f fds new : watched_for f fds new → Exists (wanted f) fds → new ≠ [].
Proof.
  intros Hw He ->. unfold watched_for in Hw. symmetry in Hw. apply fmap_nil_inv in Hw.
  apply Exists_exists in He as (i & Hi & Hwi). assert (i ∈ filter (wanted f) fds) as H by (by apply list_elem_of_filter).
  rw Hw in H. by apply not_elem_of_nil in H.
Qed.
Lemma watched_length f fds new : watched_for f fds new → length new ≤ length fds.
Proof.
  intros Hw. apply (f_equal length) in Hw. rw !length_fmap in Hw. rw Hw. apply length_filter.
Qed.
