(* ===== verification/AnswerSpec.v ===== *)
(** What becomes of an answer: the rule for [deliver_answer] against the reference
    of HttpAnswer.v, and the buffers libcurl's callbacks work on. *)
From S2P Require Import Prelude JsonData Types Heap Macros Attributes Filters Burrow UserBuffer JsonParser JsonProcessing JsonMachine JsonReport Logic MacrosSpec DictionarySpec UserBufferSpec JsonReportSpec JsonParseSpec.
From S2P Require Import CurlData CurlBackend HttpProtocol HttpAnswer BurrowSpec MemoryScan WatchSpec BufferSpec CurlSpec TransferSpec.
From iris.proofmode Require Import proofmode.

(** The refused text's parser and collector are lost. *)
Lemma leaked_http sl bl so bo s b point : leaked sl bl so bo s b point ⊢ JsonReportSpec.http sl bl so bo s b ∗ True.
Proof.
  iIntros "(%jl & %jp & %c & Hh & Hc)". iDestruct (collector_http with "Hc") as "[$ H]".
Qed.

Section answer.
Context {curl : LibcurlMulti} (unescape : string → string) `{!Unescapes multi_libcurl unescape}.
Context (sl bl : loc) (so bo : owner) (s : burrow_backend_st) (b : burrow_st).
Context (Hburrow : hb_burrow s = Some bl) (handle : positive) (Hhandle : hb_chandle s = Some handle).
Context (ul : loc) (Hbuffer : hb_buffer s = Some ul) (point : Ascii.ascii).
Implicit Types (ps : list pollfd) (text : bytes).

Abbreviation here := (here sl bl so bo s b).

Lemma wp_here_command ps w Q :
  here ps ∗ (here ps -∗ Q (cmd_command (b_cmd b)) w) ⊢ wp (burrow_backend_http_get_command (Some sl)) w Q.
Proof using Hburrow.
  iIntros "[[Hs H] HQ]". unfold burrow_backend_http_get_command. wload "Hs". rw Hburrow.
  iDestruct (frontend_burrow with "H") as (p size n) "[Hb H]". wload "Hb". wret. iApply "HQ". iFrame "Hs".
  by iApply "H".
Qed.


Lemma wp_deliver_body ps k text w Q :
  here ps ∗ holding ul Libc true k text ∗
  (∀ w', ⟦ evolves w (when_set (b_message_fn b) (EvMessagePlain None
             (match text with [] => None | _ => Some (String.string_of_list_ascii text) end)
             (Z.of_nat (length text)))) w' ⟧ -∗
     here ps -∗ holding ul Libc true k text -∗ Q 0%Z w')
  ⊢ wp (deliver_body (Some sl)) w Q.
Proof using Hburrow Hbuffer.
  iIntros "([Hs H] & (%buf & Hu & Hl) & HQ)". unfold deliver_body, user_buffer_get_text, user_buffer_get_size.
  wload "Hs". rw Hbuffer. wload "Hu". wret. wload "Hu". wret. wp_focus.
  iApply (wp_wand _ _ (λ r w', ⟦ w' = w ∧ r = match text with [] => None | _ => Some (String.string_of_list_ascii text) end ⟧ ∗
    match buf with Some l => ⟦ text ≠ [] ⟧ ∗ l ↦{Libc} text | None => ⟦ text = [] ⟧ end)%I with "[Hl]").
  { unfold body_or_null. destruct buf as [l|]; simpl.
    - iDestruct "Hl" as "[%Hne Hl]". wload "Hl". wret. iFrame. iPureIntro. by destruct text.
    - iDestruct "Hl" as %->. wret. by iFrame. }
  iIntros (r w') "[%Hr Hl]". destruct Hr as [-> ->]. rw Hburrow. unfold message_callback. simpl.
  iDestruct (frontend_burrow with "H") as (p size n) "[Hb H]". wload "Hb".
  iAssert (holding ul Libc true k text)%I with "[Hu Hl]" as "Hu"; [iExists buf; by iFrame|].
  destruct (b_message_fn b); simpl.
  - wp_focus. iApply wp_emit. wret. iApply ("HQ" with "[%] [Hs H Hb] Hu"); [apply evolves_emit|].
    iFrame "Hs". by iApply "H".
  - wret. wret. iApply ("HQ" with "[%] [Hs H Hb] Hu"); [apply evolves_refl|]. iFrame "Hs". by iApply "H".
Qed.

(** Printing the refused text. *)
Lemma wp_error_text err fmt l text ps w Q :
  is_Some (if verbose_code (b_verbose b) <=? verbose_code BURROW_VERBOSE_ERROR then text_of text else Some "") →
  here ps ∗ l ↦{Libc} text ∗
  (∀ w', ⟦ evolves w (complain b fmt) w' ⟧ -∗ here ps -∗ l ↦{Libc} text -∗ Q tt w')
  ⊢ wp (burrow_error_text (Some bl) err fmt (Some l)) w Q.
Proof.
  iIntros (Htext) "([Hs H] & Hl & HQ)". unfold burrow_error_text.
  iDestruct (frontend_burrow with "H") as (p size n) "[Hb H]". wload "Hb". unfold complain, log_events.
  simpl in *. destruct (verbose_code (b_verbose b) <=? 4) eqn:Hv.
  - destruct Htext as [x Hx]. wp_focus. unfold load_text. wload "Hl". iApply wp_get_text; [done|].
    unfold burrow_error. iApply wp_log_at. iFrame "Hb". iIntros (w' Hw) "Hb". unfold log_events in Hw. simpl in Hw.
    simpl. rw Hv in Hw. iApply ("HQ" with "[//] [Hs H Hb] Hl"). iFrame "Hs". by iApply "H".
  - wret. iApply ("HQ" with "[%] [Hs H Hb] Hl"); [apply evolves_refl|]. iFrame "Hs". by iApply "H".
Qed.

(** The text parsed, through the burrow as it is. *)
Lemma wp_parse_here ps text r es freed w Q :
  reliable w → (Z.of_nat (length text) < 2147483648)%Z →
  parse_result b unescape (json_options point) (signed_char <$> text) = Some (r, es, freed) →
  here ps ∗ (∀ w', ⟦ evolves w es w' ⟧ -∗ here ps -∗ True -∗ Q r w')
  ⊢ wp (burrow_backend_http_parse_json point (Some sl) text (Z.of_nat (length text))) w Q.
Proof using All.
  iIntros (Hr Hlen Hres) "([Hs H] & HQ)". iDestruct (frontend_burrow with "H") as (p size n) "[Hb H]".
  iApply (wp_wand with "[Hs Hb]").
  { iApply (wp_parse_json unescape sl bl so bo s (with_watch p size n b) handle point text _ r es freed with "[$Hs $Hb]"); [done..|lia|lia|].
    by rw Nat2Z.id firstn_all. }
  iIntros (r' w') "[%Hw Hh]". destruct Hw as [-> Hw].
  iAssert (JsonReportSpec.http sl bl so bo s (with_watch p size n b) ∗ True)%I with "[Hh]" as "[[Hs Hb] Ht]".
  { destruct freed; [by iFrame|by iApply leaked_http]. }
  iApply ("HQ" with "[//] [Hs H Hb] Ht"). iFrame "Hs". by iApply "H".
Qed.

Lemma parse_result_code (text : list Z) r es freed :
  parse_result b unescape (json_options point) text = Some (r, es, freed) → r = 0%Z ∨ r = EINVAL.
Proof.
  unfold parse_result. set (v := run _ _ _).
  destruct (match v with Abort_assert => None | _ => _ end) as [[[c es'] ok]|]; [|done]. simpl.
  unfold mbind; destruct v, ok; simpl; try destruct (complete _); intros; simplify_eq; auto.
Qed.

Lemma outcome_code body_only e r es :
  outcome_of b unescape point body_only e = Some (r, es) → r ≠ EAGAIN.
Proof.
  destruct e as [ios| |]; simpl; [|by intros; simplify_eq..]. unfold answer_of.
  destruct (negb _); [by intros; simplify_eq|]. destruct body_only; [by intros; simplify_eq|].
  destruct (received ios) as [|c text]; [by intros; simplify_eq|].
  destruct (parse_result _ _ _ _) as [[[r1 es1] freed]|] eqn:Hp; [|done]. cbv [mbind option_bind].
  apply parse_result_code in Hp as [->| ->]; simpl; [by intros; simplify_eq|].
  destruct (if verbose_code _ <=? _ then _ else _); [|done]. by intros; simplify_eq.
Qed.

Lemma wp_deliver_json ps k text r es w Q :
  answered_command (cmd_command (b_cmd b)) = true → hb_get_body_only s = false →
  reliable w → (Z.of_nat (length text) < 2147483648)%Z →
  answer_of b unescape point false text = Some (r, es) →
  here ps ∗ holding ul Libc true k text ∗
  (∀ w', ⟦ evolves w es w' ⟧ -∗ here ps -∗ holding ul Libc true k text -∗ True -∗ Q r w')
  ⊢ wp (deliver_json point (Some sl)) w Q.
Proof using All.
  iIntros (Hans Hbody Hr Hlen Hres) "([Hs H] & (%buf & Hu & Hl) & HQ)".
  unfold deliver_json, user_buffer_get_text, user_buffer_get_size. wload "Hs". rw Hbuffer Hburrow. wload "Hu". wret.
  unfold answer_of in Hres. rw Hans /= in Hres. iCombine "Hs H" as "H".
  destruct text as [|c text].
  { simplify_eq/=. wret. iApply ("HQ" with "[%] H [Hu Hl] [//]"); [apply evolves_refl|]. iExists buf. iFrame. }
  rw (proj2 (Z.ltb_lt _ _)); [|simpl; lia]. change (signed_char c :: _) with (signed_char <$> c :: text) in Hres.
  set (t := c :: text) in *. assert (t ≠ []) as Ht by done. clearbody t. clear c text.
  destruct buf as [l|]; [|by iDestruct "Hl" as %?]. iDestruct "Hl" as "[%Hne Hl]".
  wload "Hu". wret. wload "Hl".
  destruct (parse_result _ _ _ _) as [[[r1 es1] freed]|] eqn:Hp; [|done]. cbv [mbind option_bind] in Hres.
  wp_focus. iApply wp_parse_here; [done..|]. iFrame "H". iIntros (w1 Hw1) "H Ht". simpl.
  pose proof (parse_result_code _ _ _ _ Hp) as [->| ->]; simpl in *.
  - simplify_eq. wret. iApply ("HQ" with "[//] H [Hu Hl] Ht"). iExists (Some l). by iFrame.
  - destruct (if verbose_code _ <=? _ then text_of t else Some "") as [x|] eqn:Hx; [|done]. simplify_eq.
    wp_focus. iApply wp_error_text; [by exists x|]. iFrame "H Hl". iIntros (w2 Hw2) "H Hl". wret.
    iApply ("HQ" with "[%] H [Hu Hl] Ht"); [by eapply evolves_trans|]. iExists (Some l). by iFrame.
Qed.

Lemma has_answer_command k : has_answer k = answered_command k.
Proof. by destruct k. Qed.

Lemma wp_deliver_answer ps k text r es w Q :
  reliable w → (Z.of_nat (length text) < 2147483648)%Z →
  answer_of b unescape point (hb_get_body_only s) text = Some (r, es) →
  here ps ∗ holding ul Libc true k text ∗
  (∀ w', ⟦ evolves w es w' ⟧ -∗ here ps -∗ holding ul Libc true k text -∗ True -∗ Q r w')
  ⊢ wp (deliver_answer point (Some sl)) w Q.
Proof using All.
  iIntros (Hr Hlen Hres) "(H & Hu & HQ)". unfold deliver_answer. wp_focus. iApply wp_here_command. iFrame "H".
  iIntros "H". rw has_answer_command. destruct (answered_command _) eqn:Hans.
  2: { unfold answer_of in Hres. rw Hans in Hres. simplify_eq/=. wret.
       iApply ("HQ" with "[%] H Hu [//]"). apply evolves_refl. }
  iDestruct "H" as "[Hs H]". wload "Hs". iCombine "Hs H" as "H". destruct (hb_get_body_only s) eqn:Hbody.
  - unfold answer_of in Hres. rw Hans in Hres. simpl in Hres. simplify_eq. iApply wp_deliver_body. iFrame "H Hu".
    iIntros (w' Hw') "H Hu". by iApply ("HQ" with "[//] H Hu").
  - iApply wp_deliver_json; [done..|]. iFrame.
Qed.
End answer.

(** ** The buffers the callbacks work on *)

Section channels.
Context (sl ul : loc) (opts : list CURLoption) (Htraced : traced sl opts).

(** An answer is collected. *)
Definition collects : Prop :=
  write_function opts = Some fn_user_buffer_curl_write_function ∧ write_data opts = Some (Some ul) ∧
  (read_function opts = None ∨ read_function opts = Some fn_user_buffer_curl_read_nothing_function).
Definition collecting (ios : list io) (sent : bytes) : hPropI :=
  (⟦ sent = [] ⟧ ∗ holding ul Libc true (length (received ios)) (received ios))%I.

Lemma received_snoc ios i : received (ios ++ [i]) = received ios ++ received_one i.
Proof. rw received_app. f_equal. apply app_nil_r. Qed.

Lemma collecting_channel : collects → Channel sl opts collecting.
Proof using Htraced.
  intros (Hwf & Hwd & Hrf). split; [done|..].
  - iIntros (before sent data w Q Hr Hne Hfit) "[[%Hs H] HQ]". unfold on_recv. rw Hwf Hwd. wp_focus.
    unfold fits in Hfit. rw received_snoc length_app /= in Hfit.
    iApply (wp_wand with "[H]"); [iApply (wp_user_buffer_write ul Libc true (received before) data 1 (Z.of_nat (length data))); [done|lia|lia|]; iExact "H"|].
    iIntros (r w') "[%Hw [[%Hn H]|[%Hn H]]]"; [|by destruct Hn]. wret. subst r. rw bool_decide_true //.
    iApply ("HQ" with "[//]"). unfold collecting. rw received_snoc. by iFrame.
  - iIntros (before sent room w Q Hr Hroom) "[[%Hs H] HQ]". unfold on_send.
    iAssert (Q [] w) with "[H HQ]" as "HQ".
    { iApply ("HQ" $! [] with "[%]"); [apply evolves_refl|]. unfold collecting. rw received_snoc /= !app_nil_r. by iFrame. }
    destruct Hrf as [->| ->]; [by wret|]. unfold user_buffer_curl_read_nothing_function. wret. by wret.
  - iIntros (before sent type msg) "H". unfold collecting. rw received_snoc /= app_nil_r. done.
Qed.

(** How much libcurl has had room for. *)
Definition room_of (i : io) : nat := match i with Send room => room | _ => 0 end.
Definition rooms (ios : list io) : nat := sum_list_with room_of ios.
Lemma rooms_snoc ios i : rooms (ios ++ [i]) = rooms ios + room_of i.
Proof. unfold rooms. rw sum_list_with_app /=. lia. Qed.

(** What is handed out next comes behind what has been. *)
Lemma handed_out (body : bytes) done room :
  let k := done `min` length body in
  take done body ++ take (room `min` (length body - k)) (drop k body) = take (done + room) body.
Proof.
  intros k. destruct (decide (length body ≤ done)) as [Hle|Hgt].
  - rw (take_ge body done) // (take_ge body (done + room)); [|lia]. unfold k.
    rw (Nat.min_r done) // drop_all take_nil. by rw app_nil_r.
  - assert (k = done) as -> by lia. rw -(take_take_drop body done room). f_equal.
    destruct (decide (room ≤ length body - done)); [by rw Nat.min_l|].
    rw !(take_ge (drop done body)) // length_drop; lia.
Qed.

(** A body is handed out: always its beginning, as far as there has been room. *)
Definition uploads : Prop :=
  write_function opts = None ∧ read_function opts = Some fn_user_buffer_curl_read_function ∧
  read_data opts = Some (Some ul).
Definition uploading (body : bytes) (ios : list io) (sent : bytes) : hPropI :=
  (⟦ sent = take (rooms ios) body ⟧ ∗ holding ul Libc true (rooms ios `min` length body) body)%I.

Lemma uploading_channel body :
  (Z.of_nat (length body) < 18446744073709551616)%Z → uploads → Channel sl opts (uploading body).
Proof using Htraced.
  intros Hbody (Hwf & Hrf & Hrd). split; [done|..].
  - iIntros (before sent data w Q _ _ _) "[H HQ]". unfold on_recv. rw Hwf. wret.
    iApply ("HQ" with "[%]"); [apply evolves_refl|]. unfold uploading. by rw rooms_snoc /= Nat.add_0_r.
  - iIntros (before sent room w Q Hr Hroom) "[[%Hs H] HQ]". unfold on_send. rw Hrf Hrd. simpl in Hroom.
    wp_focus. iApply wp_alloc. iIntros (dst) "Hd". wp_focus. iApply (wp_wand with "[H Hd]").
    { iApply (wp_user_buffer_read ul Libc true body (rooms before `min` length body) dst Caller (replicate room Ascii.zero) 1 (Z.of_nat room));
        [lia|rw length_replicate; lia|done|rw length_replicate; lia|]. iFrame "H". iExact "Hd". }
    iIntros (r w') "(%Hn & H & Hd)". destruct Hn as [-> ->]. rw length_replicate. wload "Hd". wp_focus.
    iApply (wp_release (T := bytes)). iFrame "Hd". wret. iApply ("HQ" with "[%]"); [apply evolves_refl|].
    set (k := rooms before `min` length body). set (n := room `min` (length body - k)).
    assert (length (take n (drop k body)) = n) as Hlen by (rw length_take length_drop; lia).
    rw Nat2Z.id take_app_le; [|lia]. rw take_ge; [|lia]. unfold uploading. rw rooms_snoc /=.
    replace ((rooms before + room) `min` length body) with (k + n) by lia. iFrame "H". iPureIntro. subst sent.
    apply handed_out.
  - iIntros (before sent type msg) "H". unfold uploading. by rw rooms_snoc /= Nat.add_0_r.
Qed.
End channels.
