(* ===== verification/RequestSpec.v ===== *)
(** Rules for setting up a request: the parts the commands of curl_backend.c share,
    and what each of them asks libcurl for, against [request_for] of
    HttpProtocol.v. *)
From S2P Require Import Prelude JsonData CurlData Types Heap Macros Attributes Filters Burrow UserBuffer JsonParser JsonProcessing CurlBackend HttpProtocol TextFacts Logic MacrosSpec DictionarySpec UserBufferSpec MemorySpec JsonReportSpec.
From S2P Require Import BurrowSpec MemoryScan WatchSpec BufferSpec CurlSpec QuerySpec TransferSpec AnswerSpec.
From iris.proofmode Require Import proofmode.

(** ** Urls *)

Lemma url_of_base base : url_of base [] [] = base +:+ "/" +:+ "v1.0".
Proof. unfold url_of. by rw string_app_nil_r. Qed.

Lemma url_of_snoc base path x : url_of base (path ++ [x]) [] = url_of base path [] +:+ ("/" +:+ x).
Proof.
  unfold url_of. rw !string_app_nil_r.
  change (base :: "v1.0" :: path ++ [x]) with ((base :: "v1.0" :: path) ++ [x]). by rw TextFacts.concat_app.
Qed.

Lemma url_of_items base path items : url_of base path items = url_of base path [] +:+ query items.
Proof. unfold url_of. by rw string_app_nil_r. Qed.

Lemma length_url_of base path :
  String.length (url_of base path []) = String.length base + 5 + sum_list_with (λ x, S (String.length x)) path.
Proof.
  induction path as [|x path IH] using rev_ind.
  - rw url_of_base !string_length_app. simpl. lia.
  - rw url_of_snoc string_length_app IH string_length_app sum_list_with_app. simpl. lia.
Qed.

Section request.
Context {curl : LibcurlMulti} {escape unescape : string → string} {server : request → list step}
  `{!CurlLaws curl escape unescape server}.
Context (sl bl : loc) (so bo : owner) (m : positive) (b : burrow_st).
Implicit Types (s : burrow_backend_st) (ps : list pollfd) (opts : list CURLoption).

Abbreviation here s := (here sl bl so bo s b).

(** ** Since the beginning

    The world [w0] is where a command starts; what happens since is only logged. *)
Section since.
Context (w0 : world) (Hr : reliable w0).
Implicit Types (w : world).

Lemma wp_setopt h opts o w Q :
  quiet w0 w →
  easy h opts ∗ (∀ r w', ⟦ quiet w0 w' ⟧ -∗ easy h (opts ++ [o]) -∗ Q r w')
  ⊢ wp (curl_easy_setopt (Some h) o) w Q.
Proof using Hr CurlLaws0.
  iIntros (Hw) "[Hh HQ]". iApply wp_curl_easy_setopt; [by auto with quiet|]. iFrame "Hh".
  iIntros (r w' Hw') "Hh". iApply ("HQ" with "[%] Hh"). auto with quiet.
Qed.

Lemma wp_escape h x w Q :
  quiet w0 w → (∀ w', ⟦ quiet w0 w' ⟧ -∗ Q (Some (escape x)) w') ⊢ wp (curl_easy_escape h (Some x)) w Q.
Proof using Hr CurlLaws0.
  iIntros (Hw) "HQ". iApply wp_curl_easy_escape; [by auto with quiet|]. iIntros (w' Hw'). iApply "HQ".
  auto with quiet.
Qed.

Lemma wp_new_handle w Q :
  quiet w0 w → (∀ h w', ⟦ quiet w0 w' ⟧ -∗ easy h [] -∗ Q (Some h) w') ⊢ wp curl_easy_init w Q.
Proof using Hr CurlLaws0.
  iIntros (Hw) "HQ". iApply wp_curl_easy_init; [by auto with quiet|]. iIntros (h w' Hw'). iApply "HQ".
  auto with quiet.
Qed.

Lemma wp_new_block {T} `{Storable T} o (uninit : Z → T) w Q :
  quiet w0 w → (∀ l j w', ⟦ quiet w0 w' ⟧ -∗ l ↦{o} uninit j -∗ Q (Some l) w') ⊢ wp (malloc o uninit) w Q.
Proof using Hr CurlLaws0.
  iIntros (Hw) "HQ". iApply wp_malloc_reliable; [by auto with quiet|]. iIntros (l j w' Hw').
  iApply ("HQ" $! l j w'). auto with quiet.
Qed.

Lemma wp_log_since lvl msg s ps w Q :
  quiet w0 w → here s ps ∗ (∀ w', ⟦ quiet w0 w' ⟧ -∗ here s ps -∗ Q tt w') ⊢ wp (log_at lvl (Some bl) msg) w Q.
Proof.
  iIntros (Hw) "[H HQ]". iApply wp_log_here. iFrame "H". iIntros (w' Hw') "H". iApply ("HQ" with "[%] H").
  auto with quiet.
Qed.

(** One option more. *)
Tactic Notation "setopt" constr(H) := wp_focus; iApply wp_setopt; [eassumption|];
  iSplitL H; [iExact H|]; iIntros (? ? ?) H.

(** ** The parts of a request *)

Lemma wp_receive_buffer h opts w Q :
  quiet w0 w →
  easy h opts ∗
  (∀ ul w', ⟦ quiet w0 w' ⟧ -∗
     easy h ((opts ++ [CURLOPT_WRITEFUNCTION fn_user_buffer_curl_write_function]) ++ [CURLOPT_WRITEDATA (Some ul)]) -∗
     holding ul Libc true 0 [] -∗ Q (Some ul) w')
  ⊢ wp (receive_buffer (Some h)) w Q.
Proof using Hr CurlLaws0.
  iIntros (Hw) "[Hh HQ]". unfold receive_buffer. wp_focus. iApply wp_create_empty; [by auto with quiet|].
  iIntros (ul w1 Hw1) "Hu". assert (quiet w0 w1) as Hq by auto with quiet.
  setopt "Hh". setopt "Hh". wret. by iApply ("HQ" with "[//] Hh Hu").
Qed.

Lemma wp_debug_options h opts w Q :
  quiet w0 w →
  easy h opts ∗
  (∀ w', ⟦ quiet w0 w' ⟧ -∗
     easy h ((((opts ++ [CURLOPT_DEBUGFUNCTION fn_burrow_backend_http_curldebug]) ++ [CURLOPT_DEBUGDATA (Some sl)])
       ++ [CURLOPT_VERBOSE true]) ++ [CURLOPT_HEADER false]) -∗ Q tt w')
  ⊢ wp (debug_options (Some sl) (Some h)) w Q.
Proof using Hr CurlLaws0.
  iIntros (Hw) "[Hh HQ]". unfold debug_options. setopt "Hh". setopt "Hh". setopt "Hh". setopt "Hh". wret.
  by iApply ("HQ" with "[//] Hh").
Qed.

(** The url and the memory it was built in. *)
Lemma wp_set_url h opts url cap x w Q :
  quiet w0 w →
  easy h opts ∗ url ↦{Libc} Chars cap x ∗
  (∀ w', ⟦ quiet w0 w' ⟧ -∗ easy h (opts ++ [CURLOPT_URL x]) -∗ Q tt w')
  ⊢ wp (set_url (Some h) (Some url)) w Q.
Proof using Hr CurlLaws0.
  iIntros (Hw) "(Hh & Hu & HQ)". unfold set_url. wstring "Hu". setopt "Hh".
  iApply (wp_release (T := chars)). iFrame "Hu". by iApply ("HQ" with "[//] Hh").
Qed.

(** ** The handle and the buffer of the last request *)

Definition handle_at s : hPropI :=
  match hb_chandle s with
  | None => multi m None
  | Some h => ∃ opts t, multi m (Some (h, opts, t))
  end%I.
Definition buffer_at s : hPropI :=
  match hb_buffer s with None => emp | Some ul => ∃ k bs, holding ul Libc true k bs end%I.

Lemma wp_use_handle s h opts w Q :
  quiet w0 w → hb_curlptr s = Some m →
  sl ↦{so} s ∗ handle_at s ∗ easy h opts ∗
  (∀ w', ⟦ quiet w0 w' ⟧ -∗ sl ↦{so} (s <| hb_chandle := Some h |>) -∗
     multi m (Some (h, opts, fresh_transfer (server (request_of opts)))) -∗ Q tt w')
  ⊢ wp (use_handle (Some sl) (Some h)) w Q.
Proof using Hr CurlLaws0.
  iIntros (Hw Hm) "(Hs & Hold & Hh & HQ)". unfold use_handle, handle_at. wload "Hs". iEval (rw Hm).
  destruct (hb_chandle s) as [old|] eqn:Eold; simpl.
  - iDestruct "Hold" as (opts' t) "Hm". case_decide as Hne.
    2: { iDestruct (multi_exclusive with "[$Hm $Hh]") as %Hd. congruence. }
    wp_focus. iApply wp_curl_multi_remove_handle. iFrame "Hm". iIntros (r w1 Hw1) "Hm Ho".
    wp_focus. iApply wp_curl_easy_cleanup. iFrame "Ho". iIntros (w2 Hw2). wmodify "Hs".
    wp_focus. iApply wp_curl_multi_add_handle; [|iFrame "Hm Hh"].
    { eapply (quiet_reliable w0); [|done]. eauto 6 with quiet. }
    iIntros (r' w3 Hw3) "Hm". wret. iApply ("HQ" with "[%] Hs Hm"). auto with quiet.
  - wmodify "Hs". wp_focus. iApply wp_curl_multi_add_handle; [by auto with quiet|]. iFrame "Hold Hh".
    iIntros (r' w3 Hw3) "Hm". wret. iApply ("HQ" with "[%] Hs Hm"). auto with quiet.
Qed.

Lemma wp_replace_handle s h opts w Q :
  quiet w0 w → hb_curlptr s = Some m →
  sl ↦{so} s ∗ handle_at s ∗ easy h opts ∗
  (∀ w', ⟦ quiet w0 w' ⟧ -∗ sl ↦{so} (s <| hb_chandle := Some h |>) -∗
     multi m (Some (h, opts, fresh_transfer (server (request_of opts)))) -∗ Q tt w')
  ⊢ wp (replace_handle (Some sl) (Some h)) w Q.
Proof using Hr CurlLaws0.
  iIntros (Hw Hm) "(Hs & Hold & Hh & HQ)". unfold replace_handle, handle_at. wload "Hs". iEval (rw Hm).
  wp_focus. iApply (wp_wand _ _ (λ _ w', ⟦ quiet w0 w' ⟧ ∗ multi m None)%I with "[Hold]").
  { destruct (hb_chandle s) as [old|]; simpl; [|wret; by iFrame]. iDestruct "Hold" as (opts' t) "Hm".
    wp_focus. iApply wp_curl_multi_remove_handle. iFrame "Hm". iIntros (r w1 Hw1) "Hm Ho".
    iApply wp_curl_easy_cleanup. iFrame "Ho". iIntros (w2 Hw2). iFrame. auto with quiet. }
  iIntros ([] w1) "[%Hw1 Hm]". wmodify "Hs". wload "Hs". iEval (rw Hm).
  wp_focus. iApply wp_curl_multi_add_handle; [by auto with quiet|]. iFrame "Hm Hh".
  iIntros (r' w3 Hw3) "Hm". wret. iApply ("HQ" with "[%] Hs Hm"). auto with quiet.
Qed.

Lemma wp_use_buffer s ul w Q :
  sl ↦{so} s ∗ buffer_at s ∗ (sl ↦{so} (s <| hb_buffer := Some ul |>) -∗ Q tt w)
  ⊢ wp (use_buffer (Some sl) (Some ul)) w Q.
Proof.
  iIntros "(Hs & Hold & HQ)". unfold use_buffer, buffer_at. wload "Hs".
  destruct (hb_buffer s) as [old|]; simpl; wp_focus.
  - iDestruct "Hold" as (k bs) "Hb". iApply wp_user_buffer_destroy. iFrame "Hb". wmodify "Hs". by iApply "HQ".
  - iDestruct "Hold" as "_". iApply wp_ret. wmodify "Hs". by iApply "HQ".
Qed.

(** Debugging, and then the new handle and buffer for the old ones. *)
Definition debugged opts : list CURLoption :=
  (((opts ++ [CURLOPT_DEBUGFUNCTION fn_burrow_backend_http_curldebug]) ++ [CURLOPT_DEBUGDATA (Some sl)])
     ++ [CURLOPT_VERBOSE true]) ++ [CURLOPT_HEADER false].
Definition with_transfer (h ul : loc) s : burrow_backend_st :=
  s <| hb_chandle := Some h |> <| hb_buffer := Some ul |>.

Lemma wp_send_request {A} (k : M A) h opts ul s ps w Q :
  quiet w0 w → hb_curlptr s = Some m →
  here s ps ∗ handle_at s ∗ buffer_at s ∗ easy h opts ∗
  (∀ w', ⟦ quiet w0 w' ⟧ -∗ here (with_transfer h ul s) ps -∗
     multi m (Some (h, debugged opts, fresh_transfer (server (request_of (debugged opts))))) -∗ wp k w' Q)
  ⊢ wp (debug_options (Some sl) (Some h);; use_handle (Some sl) (Some h);; use_buffer (Some sl) (Some ul);; k) w Q.
Proof using Hr CurlLaws0.
  iIntros (Hw Hm) "([Hs H] & Hold & Hbuf & Hh & HQ)". wp_focus. iApply wp_debug_options; [done|]. iFrame "Hh".
  iIntros (w1 Hw1) "Hh". wp_focus. iApply (wp_use_handle s); [done..|]. iFrame "Hs Hold Hh".
  iIntros (w2 Hw2) "Hs Hm". wp_focus. iApply (wp_use_buffer (s <| hb_chandle := Some h |>)). iFrame "Hs Hbuf".
  iIntros "Hs". iApply ("HQ" with "[//] [Hs H] Hm"). iFrame.
Qed.

(** ** The filters and the attributes, as strings *)

Definition string_at (p : ptr) (items : list string) : hPropI :=
  match p, items with
  | None, [] => emp
  | Some l, _ :: _ => l ↦{Libc} Chars (Z.of_nat (String.length (joined items)) + 1) (joined items)
  | _, _ => ⟦ False ⟧
  end%I.

Lemma string_at_given p items :
  string_at p items ⊢ ⌜is_null p = bool_decide (items = []) ∧
    is_null p && negb (Z.of_nat (String.length (joined items)) =? 0)%Z = false⌝.
Proof. iIntros "H". destruct p, items; try done; by iDestruct "H" as %[]. Qed.

Lemma as_string_since items none w Q :
  quiet w0 w → (items = [] → none = 0%Z) →
  (∀ p w', ⟦ quiet w0 w' ⟧ -∗ string_at p items -∗ Q (p, Z.of_nat (String.length (joined items))) w')
  ⊢ as_string items none w Q.
Proof using Hr.
  iIntros (Hw Hnone) "HQ". destruct items as [|x xs].
  - rw /= Hnone //. by iApply ("HQ" $! NULL with "[//]").
  - unfold as_string. rw reliable_ok; [|by auto with quiet]. iIntros (p) "Hp". iApply ("HQ" $! (Some p) with "[%] Hp").
    eapply quiet_trans; [exact Hw|]. apply quiet_silent. auto with world.
Qed.

(** What is set of filters or attributes that may not be given. *)
Definition filter_items (f : option burrow_filters_st) : list string :=
  match f with Some f => items_of_filters escape f | None => [] end.
Definition attribute_items_of (a : option burrow_attributes_st) : list string :=
  match a with Some a => items_of_attributes a | None => [] end.

Lemma wp_filter_string s fo p f w Q :
  quiet w0 w → String.length (joined (filter_items f)) < 1024 →
  sl ↦{so} s ∗ optional_at fo p f ∗
  (∀ q w', ⟦ quiet w0 w' ⟧ -∗ sl ↦{so} s -∗ optional_at fo p f -∗ string_at q (filter_items f) -∗
     Q (q, Z.of_nat (String.length (joined (filter_items f)))) w')
  ⊢ wp (burrow_backend_http_filters_to_string (Some sl) p) w Q.
Proof using Hr CurlLaws0.
  iIntros (Hw Hlen) "(Hs & Hf & HQ)". destruct p as [fl|], f as [f|]; try by iDestruct "Hf" as %[].
  - simpl. iApply (wp_filters_to_string fl fo f sl so s); [done|by auto with quiet|]. iFrame "Hf Hs".
    iIntros (w' Hw') "Hf Hs". iApply as_string_since; [by auto with quiet|done|]. iIntros (q w2 Hw2) "Hq".
    iApply ("HQ" with "[//] Hs Hf Hq").
  - simpl. unfold burrow_backend_http_filters_to_string. simpl. wret.
    iApply ("HQ" $! NULL with "[//] Hs Hf"). done.
Qed.

Lemma wp_attribute_string ao p a size w Q :
  quiet w0 w →
  match a with
  | Some a => (0 ≤ at_ttl a < 4294967296)%Z ∧ (0 ≤ at_hide a < 4294967296)%Z ∧ (items_of_attributes a = [] → size = 0%Z)
  | None => True
  end →
  optional_at ao p a ∗
  (∀ q w', ⟦ quiet w0 w' ⟧ -∗ optional_at ao p a -∗ string_at q (attribute_items_of a) -∗
     Q (q, Z.of_nat (String.length (joined (attribute_items_of a)))) w')
  ⊢ wp (burrow_backend_http_attributes_to_string p size) w Q.
Proof using Hr.
  iIntros (Hw Ha) "[Hat HQ]". destruct p as [al|], a as [a|]; try by iDestruct "Hat" as %[].
  - destruct Ha as (Ht & Hh & Hs). simpl. iApply wp_attributes_to_string; [done..|]. iFrame "Hat". iIntros "Hat".
    iApply as_string_since; [done..|]. iIntros (q w2 Hw2) "Hq". iApply ("HQ" with "[//] Hat Hq").
  - unfold burrow_backend_http_attributes_to_string. simpl. wret. iApply ("HQ" $! NULL with "[//] Hat"). done.
Qed.

(** ** The parts of the path *)

Definition part (on : bool) (x : cstr) : list string :=
  if on then match x with Some x => [escape x] | None => [] end else [].

Lemma wp_part {B} on x h (k : cstr → Z → M B) w Q :
  quiet w0 w → (on = true → is_Some x) →
  (∀ w', ⟦ quiet w0 w' ⟧ -∗
     wp (k (head (part on x)) (Z.of_nat (sum_list_with String.length (part on x)))) w' Q)
  ⊢ wp (a ← (if on then curl_easy_escape h x else mret None);
        n ← (if on then escaped_length a else mret 0%Z); k a n) w Q.
Proof using Hr CurlLaws0.
  iIntros (Hw Hx) "HQ". destruct on; simpl.
  - destruct (Hx eq_refl) as [y ->]. wp_focus. iApply wp_escape; [done|]. iIntros (w' Hw').
    unfold escaped_length. wret. wret. rw Nat.add_0_r. by iApply "HQ".
  - wret. wret. by iApply "HQ".
Qed.

Section url.
Context (base : string) (url : loc) (cap : nat) (Hcap : (Z.of_nat cap ≤ 2147483648)%Z).

(** The url so far. *)
Definition url_at (x : string) : hPropI := url ↦{Libc} Chars (Z.of_nat cap) x.

Lemma wp_append x y w Q :
  String.length x + String.length y < cap →
  url_at x ∗ (url_at (x +:+ y) -∗ Q (Z.of_nat (String.length (x +:+ y))) w)
  ⊢ wp (append_url (Some url) (Z.of_nat cap) (Z.of_nat (String.length x)) y) w Q.
Proof using Hcap. intros Hlen. by apply wp_append_url. Qed.

Lemma wp_append_part {B} on x path (k : Z → M B) w Q :
  (on = true → is_Some x) → String.length (url_of base (path ++ part on x) []) < cap →
  url_at (url_of base path []) ∗
  (url_at (url_of base (path ++ part on x) []) -∗
     wp (k (Z.of_nat (String.length (url_of base (path ++ part on x) [])))) w Q)
  ⊢ wp (so_far ← (if on then
                    x ← required_text (head (part on x));
                    append_url (Some url) (Z.of_nat cap) (Z.of_nat (String.length (url_of base path []))) ("/" +:+ x)
                  else mret (Z.of_nat (String.length (url_of base path [])))); k so_far) w Q.
Proof using Hcap.
  iIntros (Hx Hlen) "[Hu HQ]". destruct on; simpl.
  - destruct (Hx eq_refl) as [y ->]. simpl in *. rw url_of_snoc in Hlen |- *. rw string_length_app in Hlen. wret.
    wp_focus. iApply wp_append; [lia|]. iFrame "Hu". iIntros "Hu". by iApply "HQ".
  - wret. rw app_nil_r. by iApply "HQ".
Qed.
End url.

(** ** The commands

    The backend is configured for the server at [base]. *)
Context (turns : nat) (point : Ascii.ascii) (base : string).

Definition configured s : Prop :=
  hb_burrow s = Some bl ∧ hb_curlptr s = Some m ∧ hb_proto_version s = "v1.0" ∧ hb_proto_version_len s = 4%Z ∧
  hb_baseurl_len s = Z.of_nat (String.length base).
Definition base_at s : hPropI := (∃ l cap, ⟦ hb_baseurl s = Some l ⟧ ∗ l ↦{Libc} Chars cap base)%I.
Definition last_request s : hPropI := (handle_at s ∗ buffer_at s ∗ base_at s)%I.

(** A url that can be printed, with room for a query. *)
Definition short (path : list string) : Prop := (Z.of_nat (String.length (url_of base path [])) < 2147480000)%Z.

(** The request has been made, and is about to be driven. *)
Definition asks {A} (rq : request) (role : loc → list CURLoption → Prop) (content : bytes) s ps (R : hPropI)
    (k : M A) (Q : A → world → hPropI) : hPropI :=
  (∀ h ul opts w', ⟦ quiet w0 w' ∧ request_of opts = rq ∧ traced sl opts ∧ role ul opts ⟧ -∗
     here (with_transfer h ul s) ps -∗ base_at s -∗ multi m (Some (h, opts, fresh_transfer (server rq))) -∗
     holding ul Libc true 0 content -∗ R -∗ wp k w' Q)%I.

Lemma wp_baseurl s w Q :
  base_at s ∗ (base_at s -∗ Q base w) ⊢ wp (get_string (hb_baseurl s)) w Q.
Proof.
  iIntros "[(%l & %cap & %Hl & Hb) HQ]". rw Hl. wstring "Hb". iApply "HQ". iExists l, cap. by iFrame.
Qed.

Section lists.
Context (k : burrow_command_t) (cmd : burrow_command_st) (Hcmd : cmd_command (b_cmd b) = k).
Context (fo : owner) (f : option burrow_filters_st) (Hf : String.length (joined (filter_items f)) < 1024).
Context (Hshort : short (path_of escape k cmd)).

(** What the two kinds of list commands begin with: the url is in memory, up to
    the version; [queues] tells which of the two kinds it is. *)
Context (queues : burrow_command_t) (Hk : k = queues → is_Some (cmd_account cmd)).
Context (Hpath : path_of escape k cmd = part (bool_decide (k = queues)) (cmd_account cmd)).

Lemma wp_list_setup msg (K : bool → ptr → cstr → ptr → ptr → Z → Z → M Z) s ps w Q :
  quiet w0 w → configured s →
  here s ps ∗ base_at s ∗ optional_at fo (cmd_filters cmd) f ∗
  (∀ h fs url (cap : nat) w', let path := path_of escape k cmd in
     ⟦ quiet w0 w' ∧ (Z.of_nat cap ≤ 2147483648)%Z ∧
       String.length (url_of base path []) + String.length (joined (filter_items f)) + 1 < cap ⟧ -∗
     here (s <| hb_get_body_only := false |>) ps -∗ base_at s -∗ optional_at fo (cmd_filters cmd) f -∗
     easy h [] -∗ string_at fs (filter_items f) -∗ url_at url cap (url_of base [] []) -∗
     wp (K (bool_decide (k = queues)) (Some h) (head path) fs (Some url) (Z.of_nat cap)
           (Z.of_nat (String.length (url_of base [] [])))) w' Q)
  ⊢ wp (command ← burrow_backend_http_get_command (Some sl);
        modify (Some sl) (λ s, s <| hb_get_body_only := false |>);;
        chandle ← curl_easy_init;
        let queues := bool_decide (command = queues) in
        account ← (if queues then curl_easy_escape chandle (cmd_account cmd) else mret None);
        account_len ← (if queues then escaped_length account else mret 0%Z);
        filter ← burrow_backend_http_filters_to_string (Some sl) (cmd_filters cmd);
        let '(filter_str, filter_str_len) := filter in
        s ← load (Some sl);
        if is_null filter_str && negb (filter_str_len =? 0)%Z then
          burrow_error (hb_burrow s) filter_str_len msg;;
          mret filter_str_len
        else
        let urllen := u64 (hb_baseurl_len s + hb_proto_version_len s + account_len + u64 filter_str_len + 128) in
        url ← malloc Libc (uninit_chars urllen);
        if is_null url then
          burrow_error (hb_burrow s) ENOMEM "Failed to malloc space for URL\n";;
          mret ENOMEM
        else
        baseurl ← get_string (hb_baseurl s);
        so_far ← snprintf url 0 urllen (baseurl +:+ "/" +:+ hb_proto_version s);
        K queues chandle account filter_str url urllen so_far) w Q.
Proof using Hr CurlLaws0 Hf Hshort Hcmd Hk Hpath.
  iIntros (Hw (Hburrow & Hm & Hv & Hvlen & Hblen)) "(H & Hbase & Hfl & HQ)".
  wp_focus. iApply wp_here_command; [done|]. iFrame "H". iIntros "[Hs H]". rw Hcmd. wp_focus.
  iApply (wp_modify sl so s). iFrame "Hs". iIntros "Hs". wp_focus. iApply wp_new_handle; [done|].
  iIntros (h w1 Hw1) "Hh". pose proof Hshort as Hsh. unfold short in Hsh.
  rw (length_url_of base (path_of escape k cmd)) in Hsh |- *. rw Hpath in Hsh |- *.
  iApply wp_part; [done|by intros ?%bool_decide_eq_true; apply Hk|]. iIntros (w2 Hw2).
  set (path := part _ (cmd_account cmd)) in *. wp_focus. iApply wp_filter_string; [done..|].
  iFrame "Hs Hfl". iIntros (fs w3 Hw3) "Hs Hfl Hfs". wload "Hs". iDestruct (string_at_given with "Hfs") as %[_ ->].
  set (cap := String.length base + 4 + sum_list_with String.length path + String.length (joined (filter_items f)) + 128).
  assert (sum_list_with String.length path + length path = sum_list_with (λ x, S (String.length x)) path) as Hsum.
  { clear. induction path as [|x path IH]; simpl; lia. }
  assert (length path ≤ 1) as Hone by (subst path; unfold part; destruct (bool_decide _), (cmd_account cmd); simpl; lia).
  assert (u64 (hb_baseurl_len s + hb_proto_version_len s + Z.of_nat (sum_list_with String.length path)
     + u64 (Z.of_nat (String.length (joined (filter_items f)))) + 128) = Z.of_nat cap) as ->.
  { rw Hvlen Hblen. rw !u64_small; lia. }
  pose proof (length_url_of base []) as Hlen0. simpl in Hlen0.
  wp_focus. iApply wp_new_block; [done|]. iIntros (url ? w4 Hw4) "Hu". simpl. wp_focus. iApply (wp_baseurl s).
  iFrame "Hbase". iIntros "Hbase". rw Hv. wp_focus. iApply (wp_snprintf url Libc cap "");
    [rw -url_of_base; simpl; lia|simpl; f_equal; lia|rw -url_of_base; lia|].
  iFrame "Hu". iIntros "Hu". rw -url_of_base.
  iApply ("HQ" with "[%] [$Hs $H] Hbase Hfl Hh Hfs Hu"). split_and!; [done|lia|lia].
Qed.
End lists.

(** The arguments of a command. *)
Lemma path_of_list k queues cmd :
  queues = BURROW_CMD_GET_QUEUES ∨ queues = BURROW_CMD_DELETE_QUEUES →
  k = queues ∨ k = BURROW_CMD_GET_ACCOUNTS ∨ k = BURROW_CMD_DELETE_ACCOUNTS →
  path_of escape k cmd = part (bool_decide (k = queues)) (cmd_account cmd).
Proof. intros [->| ->] [->|[->| ->]]; done. Qed.

Lemma wp_common_getlists k cmd fo f s ps w Q :
  cmd_command (b_cmd b) = k → String.length (joined (filter_items f)) < 1024 → short (path_of escape k cmd) →
  k = BURROW_CMD_GET_ACCOUNTS ∨ (k = BURROW_CMD_GET_QUEUES ∧ is_Some (cmd_account cmd)) →
  quiet w0 w → configured s →
  here s ps ∗ last_request s ∗ optional_at fo (cmd_filters cmd) f ∗
  asks (request_for escape base k cmd f None) collects [] (s <| hb_get_body_only := false |>) ps
    (optional_at fo (cmd_filters cmd) f ∗ True) (burrow_backend_http_process turns point (Some sl)) Q
  ⊢ wp (burrow_backend_http_common_getlists turns point (Some sl) cmd) w Q.
Proof using Hr CurlLaws0.
  iIntros (Hcmd Hf Hsh Hk Hw Hconf) "(H & (Hold & Hbuf & Hbase) & Hfl & HQ)".
  assert (k = BURROW_CMD_GET_QUEUES → is_Some (cmd_account cmd)) as Hacc by (intros ->; destruct Hk as [|[]]; done).
  assert (request_for escape base k cmd f None = Request "GET" (url_of base (path_of escape k cmd) [])) as ->.
  { unfold request_for, items_sent. destruct f, Hk as [->|[-> _]]; done. }
  pose proof (path_of_list k BURROW_CMD_GET_QUEUES cmd (or_introl eq_refl)
    ltac:(destruct Hk as [->|[-> _]]; auto)) as Hpath.
  unfold burrow_backend_http_common_getlists.
  iApply (wp_list_setup k cmd Hcmd fo f Hf Hsh BURROW_CMD_GET_QUEUES Hacc Hpath _
    (λ q h a _, send_getlists turns point (Some sl) q h a)); [done..|].
  iFrame "H Hbase Hfl". iIntros (h fs url cap w1 (Hw1 & Hcap & Hfits)) "H Hbase Hfl Hh Hfs Hu".
  rw Hpath in Hfits |- *. set (s1 := s <| hb_get_body_only := false |>).
  assert (bool_decide (k = BURROW_CMD_GET_QUEUES) = true → is_Some (cmd_account cmd)) as Hacc'
    by (by intros ?%bool_decide_eq_true; apply Hacc).
  set (q := bool_decide _) in *. set (path := part q _) in *.
  unfold send_getlists. wp_focus. iApply (wp_wand _ _ (λ _ w', ⟦ w' = w1 ⟧ ∗ url_at url cap (url_of base path []))%I with "[Hu]").
  { unfold path, part in Hfits |- *. destruct q; simpl; [|wret; by iFrame]. destruct (Hacc' eq_refl) as [x Hx].
    rw Hx /= in Hfits |- *. wret. wp_focus. change [escape x] with ([] ++ [escape x]) in Hfits |- *.
    rw url_of_snoc in Hfits |- *. rw string_length_app in Hfits. iApply (wp_append url cap); [done|lia|].
    iFrame "Hu". iIntros "Hu". wret. by iFrame. }
  iIntros ([] ?) "[-> Hu]". wp_focus. iApply wp_set_url; [done|]. iFrame "Hh Hu". iIntros (w5 Hw5) "Hh".
  setopt "Hh". setopt "Hh". wp_focus. iApply wp_receive_buffer; [eassumption|]. iFrame "Hh". iIntros (ul w6 Hw6) "Hh Hu".
  iApply (wp_send_request _ h _ ul s1 ps with "[-]"); [done|apply Hconf|]. iFrame "H Hold Hbuf Hh". iIntros (w7 Hw7) "H Hm".
  iApply ("HQ" with "[%] H Hbase Hm Hu [Hfl Hfs]"); [|iFrame "Hfl"; done].
  split_and!; [done|reflexivity|split; reflexivity|split_and!; [reflexivity..|by left]].
Qed.

Lemma wp_common_delete k cmd fo f s ps w Q :
  cmd_command (b_cmd b) = k → String.length (joined (filter_items f)) < 1024 → short (path_of escape k cmd) →
  k = BURROW_CMD_DELETE_ACCOUNTS ∨ (k = BURROW_CMD_DELETE_QUEUES ∧ is_Some (cmd_account cmd)) →
  quiet w0 w → configured s →
  here s ps ∗ last_request s ∗ optional_at fo (cmd_filters cmd) f ∗
  asks (request_for escape base k cmd f None) collects [] (s <| hb_get_body_only := false |>) ps
    (optional_at fo (cmd_filters cmd) f) (burrow_backend_http_process turns point (Some sl)) Q
  ⊢ wp (burrow_backend_http_common_delete turns point (Some sl) cmd) w Q.
Proof using Hr CurlLaws0.
  iIntros (Hcmd Hf Hsh Hk Hw Hconf) "(H & (Hold & Hbuf & Hbase) & Hfl & HQ)".
  assert (k = BURROW_CMD_DELETE_QUEUES → is_Some (cmd_account cmd)) as Hacc by (intros ->; destruct Hk as [|[]]; done).
  assert (request_for escape base k cmd f None = Request "DELETE" (url_of base (path_of escape k cmd) (filter_items f))) as ->.
  { unfold request_for, items_sent, filter_items. by destruct f, Hk as [->|[-> _]]; simpl; rw ?app_nil_r. }
  pose proof (path_of_list k BURROW_CMD_DELETE_QUEUES cmd (or_intror eq_refl)
    ltac:(destruct Hk as [->|[-> _]]; auto)) as Hpath.
  unfold burrow_backend_http_common_delete.
  iApply (wp_list_setup k cmd Hcmd fo f Hf Hsh BURROW_CMD_DELETE_QUEUES Hacc Hpath _
    (λ q h a fs, send_delete turns point (Some sl) q h a fs)); [done..|].
  iFrame "H Hbase Hfl". iIntros (h fs url cap w1 (Hw1 & Hcap & Hfits)) "H Hbase Hfl Hh Hfs Hu".
  rw Hpath in Hfits |- *. set (s1 := s <| hb_get_body_only := false |>).
  assert (bool_decide (k = BURROW_CMD_DELETE_QUEUES) = true → is_Some (cmd_account cmd)) as Hacc'
    by (by intros ?%bool_decide_eq_true; apply Hacc).
  set (q := bool_decide _) in *. unfold send_delete.
  iApply (wp_append_part base url cap Hcap q (cmd_account cmd) []); [done|simpl; lia|]. iFrame "Hu". simpl. iIntros "Hu".
  set (path := part q _) in *.
  wp_focus. iApply (wp_wand _ _ (λ _ w', ⟦ w' = w1 ⟧ ∗ url_at url cap (url_of base path (filter_items f)))%I with "[Hu Hfs]").
  { rw (url_of_items base path (filter_items f)). destruct fs as [fs|], (filter_items f) as [|x xs]; simpl; try by iDestruct "Hfs" as %[].
    - wstring "Hfs". wp_focus. iApply (wp_append url cap Hcap); [rw string_length_app; simpl in *; lia|]. iFrame "Hu".
      iIntros "Hu". iApply (wp_release (T := chars)). iFrame "Hfs". by iFrame.
    - wret. rw string_app_nil_r. by iFrame. }
  iIntros ([] ?) "[-> Hu]". wp_focus. iApply wp_set_url; [done|]. iFrame "Hh Hu". iIntros (w5 Hw5) "Hh".
  setopt "Hh". setopt "Hh". wp_focus. iApply wp_receive_buffer; [eassumption|]. iFrame "Hh". iIntros (ul w6 Hw6) "Hh Hu".
  iApply (wp_send_request _ h _ ul s1 ps with "[-]"); [done|apply Hconf|]. iFrame "H Hold Hbuf Hh". iIntros (w7 Hw7) "H Hm".
  iApply ("HQ" with "[%] H Hbase Hm Hu Hfl").
  split_and!; [done|reflexivity|split; reflexivity|split_and!; [reflexivity..|by left]].
Qed.

(** ** Messages *)

Lemma filter_items_nonempty f : Forall (λ x, x ≠ "") (filter_items f).
Proof.
  destruct f as [f|]; [|constructor]. apply Forall_app. split; [apply plain_items_nonempty|].
  destruct (fi_marker f); by repeat constructor.
Qed.
Lemma attribute_items_nonempty a : Forall (λ x, x ≠ "") (attribute_items_of a).
Proof. destruct a; [apply items_of_attributes_nonempty|constructor]. Qed.

Lemma no_items items :
  Forall (λ x, x ≠ "") items → (Z.of_nat (String.length (joined items)) =? 0)%Z = bool_decide (items = []).
Proof.
  intros H. destruct items as [|x xs]; [done|]. apply Z.eqb_neq.
  pose proof (joined_nonempty _ H ltac:(done)). lia.
Qed.

Lemma query_app xs ys :
  query (xs ++ ys) = query xs +:+ match ys with [] => "" | _ => (if bool_decide (xs = []) then "?" else "&") +:+ joined ys end.
Proof.
  destruct xs as [|x xs], ys as [|y ys]; try done.
  - by rw app_nil_r string_app_nil_r.
  - unfold query, joined. rw TextFacts.concat_app // !string_app_assoc.
Qed.

Lemma wp_print_query url (cap : nat) path fs as_ xs ys w Q :
  (Z.of_nat cap ≤ 2147483648)%Z →
  String.length (url_of base path []) + String.length (joined xs) + String.length (joined ys) + 2 < cap →
  Forall (λ x, x ≠ "") xs → Forall (λ x, x ≠ "") ys →
  url_at url cap (url_of base path []) ∗ string_at fs xs ∗ string_at as_ ys ∗
  (url_at url cap (url_of base path (xs ++ ys)) -∗ Q tt w)
  ⊢ wp (print_query (Some url) (Z.of_nat cap) (Z.of_nat (String.length (url_of base path []))) fs
          (Z.of_nat (String.length (joined xs))) as_ (Z.of_nat (String.length (joined ys)))) w Q.
Proof.
  iIntros (Hcap Hlen Hxs Hys) "(Hu & Hf & Ha & HQ)". unfold print_query.
  rw !no_items // (url_of_items base path (xs ++ ys)) query_app.
  wp_focus. iApply (wp_wand _ _ (λ n w', ⟦ w' = w ∧ n = Z.of_nat (String.length (url_of base path xs)) ⟧ ∗
     url_at url cap (url_of base path xs) ∗ string_at fs xs)%I with "[Hu Hf]").
  { rw (url_of_items base path xs). destruct fs as [fs|], xs as [|x xs]; simpl; try by iDestruct "Hf" as %[].
    - wstring "Hf". iApply (wp_append url cap Hcap); [rw string_length_app; simpl in *; lia|]. iFrame "Hu".
      iIntros "Hu". by iFrame.
    - wret. rw string_app_nil_r. by iFrame. }
  iIntros (n ?) "(%Hn & Hu & Hf)". destruct Hn as [-> ->].
  assert (String.length (url_of base path xs) ≤ String.length (url_of base path []) + String.length (joined xs) + 1) as Hx.
  { rw (url_of_items base path xs) string_length_app. destruct xs; simpl; rw ?string_length_app; simpl; lia. }
  rw -(string_app_assoc (url_of base path [])) -(url_of_items base path xs).
  iDestruct (string_at_given with "Hf") as %[Hnull _]. rw Hnull.
  wp_focus. iApply (wp_wand _ _ (λ _ w', ⟦ w' = w ⟧ ∗ url_at url cap (url_of base path xs +:+
     match ys with [] => "" | _ => (if bool_decide (xs = []) then "?" else "&") +:+ joined ys end))%I with "[Hu Ha]").
  { destruct as_ as [as_|], ys as [|y ys]; simpl; try by iDestruct "Ha" as %[].
    - wstring "Ha". wp_focus. iApply (wp_append url cap Hcap).
      { rw string_length_app. destruct (bool_decide _); simpl in *; lia. }
      iFrame "Hu". iIntros "Hu". iApply (wp_release (T := chars)). iFrame "Ha". by iFrame.
    - wret. rw string_app_nil_r. by iFrame. }
  iIntros ([] ?) "[-> Hu]". destruct fs as [fs|], xs as [|x xs]; simpl; try by iDestruct "Hf" as %[].
  - iApply (wp_release (T := chars)). iFrame "Hf". by iApply "HQ".
  - wret. by iApply "HQ".
Qed.

(** The filters ask for nothing but bodies. *)
Definition bodies_only (f : option burrow_filters_st) : bool :=
  match f with
  | Some f => has_flag (fi_set f) BURROW_FILTERS_DETAIL && bool_decide (fi_detail f = BURROW_DETAIL_BODY)
  | None => false
  end.

Lemma wp_wants_body_only fo p f w Q :
  optional_at fo p f ∗ (optional_at fo p f -∗ Q (bodies_only f) w) ⊢ wp (wants_body_only p) w Q.
Proof.
  iIntros "[Hf HQ]". unfold wants_body_only, burrow_filters_isset_detail, burrow_filters_get_detail, test_flag.
  destruct p as [fl|], f as [f|]; simpl; try by iDestruct "Hf" as %[].
  - wload "Hf". wret. destruct (has_flag _ _); [|wret; by iApply "HQ"]. wload "Hf". wret. wret. by iApply "HQ".
  - wret. by iApply "HQ".
Qed.

(** The commands of common_getting. *)
Definition getting (k : burrow_command_t) : bool :=
  match k with
  | BURROW_CMD_GET_MESSAGES | BURROW_CMD_DELETE_MESSAGES | BURROW_CMD_UPDATE_MESSAGES
  | BURROW_CMD_GET_MESSAGE | BURROW_CMD_DELETE_MESSAGE | BURROW_CMD_UPDATE_MESSAGE => true
  | _ => false
  end.

(** What there is to own of the arguments. *)
Definition filters_at (k : burrow_command_t) (fo : owner) (p : ptr) (f : option burrow_filters_st) : hPropI :=
  if takes_filters k then optional_at fo p f else ⟦ f = None ⟧%I.
Definition attributes_at (k : burrow_command_t) (ao : owner) (p : ptr) (a : option burrow_attributes_st) : hPropI :=
  if takes_attributes k then optional_at ao p a else ⟦ a = None ⟧%I.

Definition in_range (a : option burrow_attributes_st) : Prop :=
  match a with
  | Some a => (0 ≤ at_ttl a < 4294967296)%Z ∧ (0 ≤ at_hide a < 4294967296)%Z
  | None => True
  end.

Lemma length_attribute_items a : in_range a → String.length (joined (attribute_items_of a)) ≤ 64.
Proof. destruct a as [a|]; [intros []; by apply length_items_of_attributes|simpl; lia]. Qed.

Lemma wp_send_getting k h url cap x s ps R w Q :
  getting k = true → quiet w0 w → configured s →
  here s ps ∗ last_request s ∗ easy h [] ∗ url_at url cap x ∗
  asks (Request (method_of k) x) collects [] s ps R (burrow_backend_http_process turns point (Some sl)) Q ∗ R
  ⊢ wp (send_getting turns point (Some sl) k (Some h) (Some url)) w Q.
Proof using Hr CurlLaws0.
  iIntros (Hk Hw Hconf) "(H & (Hold & Hbuf & Hbase) & Hh & Hu & HQ & HR)". unfold send_getting.
  wp_focus. iApply wp_set_url; [done|]. iFrame "Hh Hu". iIntros (w5 Hw5) "Hh".
  destruct k; try done; simpl; setopt "Hh"; setopt "Hh"; wret; (wp_focus; iApply wp_receive_buffer; [eassumption|]);
    iFrame "Hh"; iIntros (ul w6 Hw6) "Hh Hu";
    first [setopt "Hh"; wret|wret];
    (iApply (wp_send_request _ h _ ul s ps with "[-]"); [eassumption|apply Hconf|]); iFrame "H Hold Hbuf Hh";
    iIntros (w7 Hw7) "H Hm"; iApply ("HQ" with "[%] H Hbase Hm Hu HR");
    (split_and!; [done|reflexivity|split; reflexivity|split_and!; [reflexivity..|first [by left|by right]]]).
Qed.

Lemma wp_escaped_length x w Q : Q (Z.of_nat (String.length x)) w ⊢ wp (escaped_length (Some x)) w Q.
Proof. iIntros "HQ". unfold escaped_length. wret. by wret. Qed.

(** The first two parts of a message's path. *)
Lemma url_of_two x y : url_of base [x; y] [] = base +:+ "/" +:+ "v1.0" +:+ "/" +:+ x +:+ "/" +:+ y.
Proof. unfold url_of. by rw string_app_nil_r. Qed.

(** The attributes an update sends. *)
Definition attributes_sent (k : burrow_command_t) (a : option burrow_attributes_st) : list string :=
  if updates k then attribute_items_of a else [].

Lemma attributes_sent_nonempty k a : Forall (λ x, x ≠ "") (attributes_sent k a).
Proof. unfold attributes_sent. destruct (updates k); [apply attribute_items_nonempty|constructor]. Qed.
Lemma length_attributes_sent k a : in_range a → String.length (joined (attributes_sent k a)) ≤ 64.
Proof. intros Ha. unfold attributes_sent. destruct (updates k); [by apply length_attribute_items|simpl; lia]. Qed.

Lemma wp_attributes_sent k ao p a w Q :
  getting k = true → quiet w0 w → in_range a →
  attributes_at k ao p a ∗
  (∀ q w', ⟦ quiet w0 w' ⟧ -∗ attributes_at k ao p a -∗ string_at q (attributes_sent k a) -∗
     Q (q, Z.of_nat (String.length (joined (attributes_sent k a)))) w')
  ⊢ wp (if updates k then burrow_backend_http_attributes_to_string p 0 else mret (NULL, 0%Z)) w Q.
Proof using Hr.
  iIntros (Hk Hw Ha) "[Hat HQ]". unfold attributes_at, attributes_sent.
  assert (takes_attributes k = updates k) as -> by by destruct k.
  destruct (updates k); [|wret; by iApply ("HQ" with "[//] Hat")]. iApply (wp_attribute_string ao p a); [done| |by iFrame].
  destruct a as [a|]; [|done]. by split_and!; [apply Ha..|].
Qed.

(** The request of a command of common_getting. *)
Lemma request_for_getting k cmd f a x y :
  getting k = true → cmd_account cmd = Some x → cmd_queue cmd = Some y →
  path_of escape k cmd = [escape x; escape y] ++ part (one_message k) (cmd_message_id cmd) ∧
  request_for escape base k cmd f a =
    Request (method_of k) (url_of base (path_of escape k cmd) (filter_items f ++ attributes_sent k a)).
Proof.
  intros Hk Hx Hy. split.
  - destruct k; try done; by rw /= Hx Hy.
  - unfold request_for, items_sent, filter_items, attributes_sent, attribute_items_of. by destruct k, f, a.
Qed.

(** The memory for its url. *)
Definition message_room (path : list string) (filter_len attribute_len : nat) : nat :=
  String.length base + 4 + sum_list_with String.length path + filter_len + attribute_len + 128.

Lemma message_room_enough path filter_len attribute_len :
  short path → length path ≤ 3 → filter_len < 1024 → attribute_len ≤ 64 →
  (Z.of_nat (message_room path filter_len attribute_len) ≤ 2147483648)%Z ∧
  String.length (url_of base path []) + filter_len + attribute_len + 2 < message_room path filter_len attribute_len.
Proof.
  intros Hsh Hl Hf Ha. unfold short in Hsh. pose proof (length_url_of base path) as Hlen. unfold message_room.
  assert (sum_list_with (λ x, S (String.length x)) path = sum_list_with String.length path + length path) as Hsum.
  { clear. induction path as [|x xs IH]; simpl; lia. }
  rw Hsum in Hlen. lia.
Qed.

Lemma wp_common_getting k cmd fo f ao a s ps w Q :
  cmd_command (b_cmd b) = k → String.length (joined (filter_items f)) < 1024 → in_range a →
  short (path_of escape k cmd) → getting k = true → is_Some (cmd_account cmd) → is_Some (cmd_queue cmd) →
  (one_message k = true → is_Some (cmd_message_id cmd)) → quiet w0 w → configured s →
  here s ps ∗ last_request s ∗ optional_at fo (cmd_filters cmd) f ∗ attributes_at k ao (cmd_attributes cmd) a ∗
  asks (request_for escape base k cmd f a) collects [] (s <| hb_get_body_only := bodies_only f |>) ps
    (optional_at fo (cmd_filters cmd) f ∗ attributes_at k ao (cmd_attributes cmd) a)
    (burrow_backend_http_process turns point (Some sl)) Q
  ⊢ wp (burrow_backend_http_common_getting turns point (Some sl) cmd) w Q.
Proof using Hr CurlLaws0.
  iIntros (Hcmd Hf Ha Hsh Hk [x Hx] [y Hy] Hid Hw Hconf) "([Hs H] & (Hold & Hbuf & Hbase) & Hfl & Hat & HQ)".
  pose proof Hconf as (Hburrow & Hm & Hv & Hvlen & Hblen).
  destruct (request_for_getting k cmd f a x y Hk Hx Hy) as [Hpath ->].
  pose proof (length_attributes_sent k a Ha) as Hatt. set (attrs := attributes_sent k a) in *.
  set (id := part (one_message k) (cmd_message_id cmd)) in *.
  assert (length id ≤ 1) as Hone by (subst id; unfold part; destruct (one_message k), (cmd_message_id cmd); simpl; lia).
  set (cap := message_room (path_of escape k cmd) (String.length (joined (filter_items f))) (String.length (joined attrs))).
  destruct (message_room_enough (path_of escape k cmd) _ _ Hsh ltac:(rw Hpath length_app /=; lia) Hf Hatt) as [Hcap Hroom].
  fold cap in Hcap, Hroom. pose proof (length_url_of base (path_of escape k cmd)) as Hlen. unfold short in Hsh.
  rw Hpath in Hroom Hlen Hsh |- *. simpl in Hroom, Hlen, Hsh.
  unfold burrow_backend_http_common_getting.
  wp_focus. iApply (wp_here_command sl bl so bo s b Hburrow ps). iFrame "Hs H". iIntros "[Hs H]". rw Hcmd.
  wp_focus. iApply wp_wants_body_only. iFrame "Hfl". iIntros "Hfl". wp_focus. iApply (wp_modify sl so s). iFrame "Hs". iIntros "Hs".
  set (s1 := s <| hb_get_body_only := bodies_only f |>).
  wp_focus. iApply wp_new_handle; [done|]. iIntros (h w1 Hw1) "Hh". rw Hx Hy.
  wp_focus. iApply wp_escape; [done|]. iIntros (w2 Hw2). wp_focus. iApply wp_escaped_length.
  wp_focus. iApply wp_escape; [done|]. iIntros (w3 Hw3). wp_focus. iApply wp_escaped_length.
  iApply wp_part; [done..|]. iIntros (w4 Hw4). wp_focus. iApply wp_filter_string; [done..|].
  iFrame "Hs Hfl". iIntros (fs w5 Hw5) "Hs Hfl Hfs". wload "Hs". iDestruct (string_at_given with "Hfs") as %[_ ->].
  wp_focus. iApply (wp_attributes_sent k ao); [done..|]. iFrame "Hat". iIntros (as_ w6 Hw6) "Hat Has".
  iDestruct (string_at_given with "Has") as %[_ ->]. fold attrs id.
  assert (u64 (hb_baseurl_len s + hb_proto_version_len s + Z.of_nat (String.length (escape x))
     + Z.of_nat (String.length (escape y)) + Z.of_nat (sum_list_with String.length id)
     + u64 (Z.of_nat (String.length (joined (filter_items f)))) + u64 (Z.of_nat (String.length (joined attrs))) + 128)
     = Z.of_nat cap) as ->.
  { subst cap. unfold message_room in *. rw Hpath sum_list_with_app /= Hvlen Hblen in Hcap |- *. rw !u64_small; lia. }
  wp_focus. iApply wp_new_block; [done|]. iIntros (url ? w7 Hw7) "Hu". simpl. wp_focus. iApply (wp_baseurl s).
  iFrame "Hbase". iIntros "Hbase". rw Hv. wret. wret. rw -url_of_two.
  pose proof (length_url_of base [escape x; escape y]) as Hlen0. simpl in Hlen0.
  wp_focus. iApply (wp_append url cap Hcap ""); [simpl; lia|]. iFrame "Hu". iIntros "Hu".
  iApply (wp_append_part base url cap Hcap (one_message k) (cmd_message_id cmd) [escape x; escape y]); [done|simpl; subst id; lia|].
  iFrame "Hu". iIntros "Hu". wp_focus.
  iApply wp_print_query; [done|simpl; subst id; lia|apply filter_items_nonempty|apply attributes_sent_nonempty|].
  iFrame "Hu Hfs Has". iIntros "Hu". wp_focus. rw Hburrow. iApply (wp_log_since _ _ s1); [done|]. iFrame "Hs H". iIntros (w8 Hw8) "H".
  iApply (wp_send_getting k h url cap _ s1 ps with "[-]"); [done..|]. iFrame "H Hold Hbuf Hbase Hh Hu HQ". iFrame.
Qed.

(** ** create_message *)

Lemma url_of_three x y z :
  url_of base [x; y; z] [] = base +:+ "/" +:+ "v1.0" +:+ "/" +:+ x +:+ "/" +:+ y +:+ "/" +:+ z.
Proof. unfold url_of. by rw string_app_nil_r. Qed.

Lemma wp_upload_options h opts ul size w Q :
  quiet w0 w →
  easy h opts ∗
  (∀ w', ⟦ quiet w0 w' ⟧ -∗
     easy h (((((((opts ++ [CURLOPT_READFUNCTION fn_user_buffer_curl_read_function]) ++ [CURLOPT_READDATA (Some ul)])
       ++ [CURLOPT_UPLOAD true]) ++ [CURLOPT_INFILESIZE size]) ++ [CURLOPT_HEADER false])
       ++ [CURLOPT_DEBUGFUNCTION fn_burrow_backend_http_curldebug]) ++ [CURLOPT_DEBUGDATA (Some sl)]) -∗ Q tt w')
  ⊢ wp (upload_options (Some sl) (Some h) (Some ul) size) w Q.
Proof using Hr CurlLaws0.
  iIntros (Hw) "[Hh HQ]". unfold upload_options. setopt "Hh". setopt "Hh". setopt "Hh". setopt "Hh". setopt "Hh".
  setopt "Hh". setopt "Hh". wret. by iApply ("HQ" with "[//] Hh").
Qed.

Lemma wp_print_message_url s url (cap : nat) x y z at_ items w Q :
  configured s → (Z.of_nat cap ≤ 2147483648)%Z →
  String.length (url_of base [x; y; z] []) + String.length (joined items) + 1 < cap →
  sl ↦{so} s ∗ base_at s ∗ url_at url cap "" ∗ string_at at_ items ∗
  (sl ↦{so} s -∗ base_at s -∗ url_at url cap (url_of base [x; y; z] items) -∗ Q tt w)
  ⊢ wp (print_message_url (Some sl) (Some url) (Z.of_nat cap) (Some x) (Some y) (Some z) at_) w Q.
Proof.
  iIntros ((Hburrow & Hm & Hv & Hvlen & Hblen) Hcap Hlen) "(Hs & Hbase & Hu & Hat & HQ)".
  unfold print_message_url. wload "Hs". wp_focus. iApply (wp_baseurl s). iFrame "Hbase". iIntros "Hbase".
  rw Hv. wret. wret. wret. rw -url_of_three.
  wp_focus. iApply (wp_snprintf url Libc cap ""); [simpl; lia|simpl; f_equal; lia|lia|]. iFrame "Hu". iIntros "Hu".
  rw (url_of_items base [x; y; z] items). destruct at_ as [at_|], items as [|i items]; simpl; try by iDestruct "Hat" as %[].
  - wstring "Hat". wp_focus. iApply (wp_append url cap Hcap); [rw string_length_app; simpl in *; lia|]. iFrame "Hu".
    iIntros "Hu". iApply (wp_release (T := chars)). iFrame "Hat". iApply ("HQ" with "Hs Hbase Hu").
  - wret. rw string_app_nil_r. iApply ("HQ" with "Hs Hbase Hu").
Qed.

Lemma wp_http_create_message cmd ao a x y z body n s ps w Q :
  cmd_account cmd = Some x → cmd_queue cmd = Some y → cmd_message_id cmd = Some z →
  cmd_body cmd = Some body → cmd_body_size cmd = Z.of_nat n → 0 < n ≤ String.length body →
  in_range a → (∀ a', a = Some a' → items_of_attributes a' ≠ []) →
  short (path_of escape BURROW_CMD_CREATE_MESSAGE cmd) → quiet w0 w → configured s →
  here s ps ∗ last_request s ∗ optional_at ao (cmd_attributes cmd) a ∗
  asks (request_for escape base BURROW_CMD_CREATE_MESSAGE cmd None a) uploads
    (take n (String.list_ascii_of_string body)) s ps
    (optional_at ao (cmd_attributes cmd) a) (burrow_backend_http_process turns point (Some sl)) Q
  ⊢ wp (burrow_backend_http_create_message turns point (Some sl) cmd) w Q.
Proof using Hr CurlLaws0.
  iIntros (Hx Hy Hz Hb Hn Hsize Ha Hset Hsh Hw Hconf) "([Hs H] & (Hold & Hbuf & Hbase) & Hat & HQ)".
  pose proof Hconf as (Hburrow & Hm & Hv & Hvlen & Hblen).
  assert (path_of escape BURROW_CMD_CREATE_MESSAGE cmd = [escape x; escape y; escape z]) as Hpath by by rw /= Hx Hy Hz.
  assert (request_for escape base BURROW_CMD_CREATE_MESSAGE cmd None a =
    Request "PUT" (url_of base [escape x; escape y; escape z] (attribute_items_of a))) as ->.
  { unfold request_for. rw Hpath. by destruct a. }
  pose proof (length_attribute_items a Ha) as Hatt. unfold short in Hsh. rw Hpath in Hsh.
  pose proof (length_url_of base [escape x; escape y; escape z]) as Hlen. simpl in Hlen.
  unfold burrow_backend_http_create_message. wp_focus. iApply wp_new_handle; [done|]. iIntros (h w1 Hw1) "Hh". rw Hx Hy Hz.
  do 3 (wp_focus; iApply wp_escape; [eassumption|]; iIntros (? ?)). wp_focus. iApply wp_consult. wp_focus.
  iApply (wp_attribute_string ao (cmd_attributes cmd) a); [eapply quiet_trans; [eassumption|apply quiet_silent; apply (evolves_tick 1)]| |].
  { destruct a as [a|]; [|done]. split_and!; [apply Ha..|]. intros E. by destruct (Hset a eq_refl). }
  iFrame "Hat". iIntros (as_ w5 Hw5) "Hat Has". wload "Hs". iDestruct (string_at_given with "Has") as %[_ ->].
  do 3 (wp_focus; iApply wp_escaped_length).
  set (cap := String.length base + 4 + String.length (escape x) + String.length (escape y) + String.length (escape z)
    + String.length (joined (attribute_items_of a)) + 20).
  assert (u64 (hb_baseurl_len s + hb_proto_version_len s + Z.of_nat (String.length (escape x))
     + Z.of_nat (String.length (escape y)) + Z.of_nat (String.length (escape z))
     + u64 (Z.of_nat (String.length (joined (attribute_items_of a)))) + 20) = Z.of_nat cap) as ->.
  { rw Hvlen Hblen. rw !u64_small; lia. }
  assert (Z.of_nat cap ≤ 2147483648)%Z as Hcap by lia.
  wp_focus. iApply wp_new_block; [done|]. iIntros (url ? w6 Hw6) "Hu". simpl.
  wp_focus. iApply (wp_print_message_url s url cap _ _ _ as_ (attribute_items_of a)); [done..|lia|]. iFrame "Hs Hbase Hu Has". iIntros "Hs Hbase Hu".
  wp_focus. rw Hburrow. iApply (wp_log_since _ _ s); [done|]. iFrame "Hs H". iIntros (w7 Hw7) "[Hs H]".
  iUnfold url_at in "Hu". wstring "Hu". setopt "Hh". rw Hb Hn. simpl.
  wp_focus. iApply (wp_create_filled (String.list_ascii_of_string body) n); [|by auto with quiet|].
  { by rw length_list_ascii. }
  iIntros (ul w8 Hw8) "Hub". assert (quiet w0 w8) as Hw8' by auto with quiet.
  wp_focus. iApply wp_upload_options; [done|]. iFrame "Hh". iIntros (w9 Hw9) "Hh".
  wp_focus. iApply (wp_replace_handle s); [done..|]. iFrame "Hs Hold Hh". iIntros (w10 Hw10) "Hs Hm".
  wp_focus. iApply (wp_use_buffer (s <| hb_chandle := Some h |>)). iFrame "Hs Hbuf". iIntros "Hs".
  wmodify "Hu". wp_focus. iApply (wp_release (T := chars)). iFrame "Hu".
  iApply ("HQ" with "[%] [$Hs $H] Hbase Hm Hub Hat").
  split_and!; [done|reflexivity|split; reflexivity|split_and!; reflexivity].
Qed.

(** ** Any command *)

(** What the code relies on of a command's arguments. *)
Definition sendable (k : burrow_command_t) (cmd : burrow_command_st) (f : option burrow_filters_st)
    (a : option burrow_attributes_st) : Prop :=
  required cmd = true ∧ String.length (joined (filter_items f)) < 1024 ∧ in_range a ∧
  short (path_of escape k cmd) ∧
  (k = BURROW_CMD_CREATE_MESSAGE →
     (∀ a', a = Some a' → items_of_attributes a' ≠ []) ∧
     (0 < cmd_body_size cmd ≤ Z.of_nat (String.length (default "" (cmd_body cmd))))%Z).

(** A message is sent, an answer received. *)
Definition role (k : burrow_command_t) : loc → list CURLoption → Prop :=
  match k with BURROW_CMD_CREATE_MESSAGE => uploads | _ => collects end.
Definition content (k : burrow_command_t) (cmd : burrow_command_st) : bytes :=
  match k with
  | BURROW_CMD_CREATE_MESSAGE =>
      take (Z.to_nat (cmd_body_size cmd)) (String.list_ascii_of_string (default "" (cmd_body cmd)))
  | _ => []
  end.
(** Whether the answer is a body and nothing else. *)
Definition expects_body (k : burrow_command_t) (f : option burrow_filters_st) (old : bool) : bool :=
  match k with
  | BURROW_CMD_CREATE_MESSAGE | BURROW_CMD_NONE => old
  | _ => getting k && bodies_only f
  end.
Definition expecting k f s : burrow_backend_st :=
  s <| hb_get_body_only := expects_body k f (hb_get_body_only s) |>.

Lemma given_some x : given x = true → is_Some x.
Proof. by destruct x. Qed.

Lemma asks_wand {A} rq role' content' s ps R R' (k : M A) Q :
  asks rq role' content' s ps R' k Q ∗ (R -∗ R') ⊢ asks rq role' content' s ps R k Q.
Proof.
  iIntros "[HQ HR]". iIntros (h ul opts w' Hw) "H Hb Hm Hu H2". iApply ("HQ" with "[//] H Hb Hm Hu").
  by iApply "HR".
Qed.

Lemma wp_http_command k g fo f ao a s ps w Q :
  be_command (burrow_backend_http_functions turns point) k = Some g →
  cmd_command (b_cmd b) = k → sendable k (b_cmd b) f a → quiet w0 w → configured s →
  here s ps ∗ last_request s ∗ filters_at k fo (cmd_filters (b_cmd b)) f ∗
  attributes_at k ao (cmd_attributes (b_cmd b)) a ∗
  asks (request_for escape base k (b_cmd b) f a) (role k) (content k (b_cmd b)) (expecting k f s) ps
    (filters_at k fo (cmd_filters (b_cmd b)) f ∗ attributes_at k ao (cmd_attributes (b_cmd b)) a ∗ True)
    (burrow_backend_http_process turns point (Some sl)) Q
  ⊢ wp (g (Some sl) (b_cmd b)) w Q.
Proof using Hr CurlLaws0.
  iIntros (Hg Hk (Hreq & Hf & Ha & Hsh & Hcr) Hw Hconf) "(H & Hold & Hfl & Hat & HQ)".
  unfold required in Hreq. rw Hk in Hreq. set (cmd := b_cmd b) in *.
  unfold filters_at, attributes_at, expecting, role, content, expects_body.
  destruct k; simpl in Hg; try discriminate Hg; injection Hg as <-; simpl in Hreq |- *; rw ?andb_true_iff in Hreq; try (iDestruct "Hat" as %->).
  1-4: first [iApply (wp_common_getlists _ cmd fo f)|iApply (wp_common_delete _ cmd fo f)];
    [done..|first [by left|by right; eauto using given_some]|done|done|]; iFrame "H Hold Hfl"; iApply asks_wand; iFrame "HQ";
    first [iIntros "[Hfl Ht]"; iFrame "Hfl Ht"; done | iIntros "Hfl"; iFrame "Hfl"; done].
  1-6: iApply (wp_common_getting _ cmd fo f ao); [done..|apply given_some; tauto|apply given_some; tauto|first [done|intros _; apply given_some; tauto]|done|done|].
  1-6: unfold attributes_at; simpl; iFrame "H Hold Hfl"; first [iFrame "Hat" | iSplitR; [done|]];
    iApply asks_wand; iFrame "HQ"; iIntros "[Hfl Hat]"; by iFrame.
  iDestruct "Hfl" as %->. destruct (Hcr eq_refl) as [Hset Hsize].
  destruct (cmd_account cmd) as [x|] eqn:Hx, (cmd_queue cmd) as [y|] eqn:Hy, (cmd_message_id cmd) as [z|] eqn:Hz,
    (cmd_body cmd) as [body|] eqn:Hb; try (exfalso; clear -Hreq; simpl in Hreq; intuition discriminate). simpl in Hsize |- *.
  iApply (wp_http_create_message cmd ao a x y z body (Z.to_nat (cmd_body_size cmd)));
    [done|done|done|done|lia|lia|done|done|done|done|done|].
  iFrame "H Hold Hat". iApply asks_wand. iFrame "HQ". iIntros "Hat". by iFrame.
Qed.
End since.
End request.

Arguments filter_items : clear implicits.
Arguments sendable : clear implicits.
