(* ===== verification/HttpFrontendSpec.v ===== *)
(** The http backend behind the frontend: from the start of a command to its
    completion, for a server that answers and descriptors that become ready. *)
From S2P Require Import Prelude JsonData Types Heap Macros Attributes Filters Burrow Backends UserBuffer JsonParser JsonProcessing JsonMachine JsonReport Logic MacrosSpec DictionarySpec UserBufferSpec MemorySpec JsonReportSpec.
From S2P Require Import CurlData CurlBackend HttpProtocol HttpAnswer BurrowSpec MemoryScan WatchSpec BufferSpec CurlSpec QuerySpec TransferSpec ConverseFacts AnswerSpec RequestSpec.
From iris.proofmode Require Import proofmode.

(** Whenever the program waits, a descriptor becomes ready. *)
Definition polls_fairly (E : environment) : Prop := ∀ t ps, ps ≠ [] →
  ∃ revents, e_poll E t ps = PollReady revents ∧ length revents = length ps ∧ Exists (λ r, r ≠ 0%Z) revents.

Lemma with_revents_live revents ps :
  length revents = length ps → Exists (λ r, r ≠ 0%Z) revents → Exists live (with_revents revents ps).
Proof.
  intros Hlen Hex. revert ps Hlen. induction Hex as [r rs Hr|r rs _ IH]; intros [|p ps] Hlen; try done; simpl.
  - by left.
  - right. apply IH. simpl in Hlen. lia.
Qed.

(** ** The burrow, descriptors aside *)

Section frontend.
Context (bl : loc) (bo : owner).
Implicit Types (b : burrow_st) (ps : list pollfd).

Lemma wp_load_frontend {B} b ps (k : burrow_st → M B) w Q :
  frontend bl bo b ps ∗
  (∀ p size n, ⟦ b_watch_size (with_watch p size n b) = Z.of_nat (length ps) ⟧ -∗ frontend bl bo b ps -∗
     wp (k (with_watch p size n b)) w Q)
  ⊢ wp (b ← load (Some bl); k b) w Q.
Proof.
  iIntros "[(%p & %size & %n & %rest & %H & Hb & Hp) HQ]". wload "Hb".
  iApply ("HQ" $! p size n with "[%]"); [apply H|]. iExists p, size, n, rest. by iFrame.
Qed.

Lemma wp_modify_frontend b b' ps f w Q :
  (∀ p size n, f (with_watch p size n b) = with_watch p size n b') →
  frontend bl bo b ps ∗ (frontend bl bo b' ps -∗ Q tt w) ⊢ wp (modify (Some bl) f) w Q.
Proof.
  iIntros (Hf) "[(%p & %size & %n & %rest & %H & Hb & Hp) HQ]". iApply wp_modify. iFrame "Hb". rw Hf.
  iIntros "Hb". iApply "HQ". iExists p, size, n, rest. by iFrame.
Qed.
End frontend.

Section http.
Context {curl : LibcurlMulti} {escape unescape : string → string} {server : request → list step}
  `{!CurlLaws curl escape unescape server}.
Context (turns : nat) (point : Ascii.ascii).
Abbreviation functions := (burrow_backend_http_functions turns point).
#[local] Instance tables : Backends := backend_tables functions.

Context (sl bl : loc) (so bo : owner) (b0 : burrow_st).
Context (Hback : b_backend b0 = backend_http) (Hctx : b_backend_context b0 = Some sl).
Context (Hwatch : b_watch_fd_fn b0 = None).

Lemma http_functions st fl cmd p size n : functions_of (with_watch p size n (at_state b0 st fl cmd)) = functions.
Proof using Hback. unfold functions_of. simpl. by rw Hback. Qed.

Lemma http_responds b :
  b_backend b = backend_http → Responds bl bo b (λ r, r = 0%Z) is_log (λ _, emp%I).
Proof.
  intros Hb. exists burrow_backend_http_event_raised. split; [unfold functions_of; by rw Hb|].
  intros fd ev st fl cmd evs w. iIntros "[Hb _]". unfold burrow_backend_http_event_raised. wret. iFrame "Hb".
  iPureIntro. split; [done|]. exists []. split; [apply evolves_refl|constructor].
Qed.

Section processing.
Context (fuel : nat) (Hfuel : 0 < fuel).
Context (fl : Z) (Hfl : has_flag fl BURROW_FLAG_PROCESSING = true) (cmd : burrow_command_st).
Abbreviation at_ st := (at_state b0 st fl cmd).
Abbreviation turn := (process_step (burrow_process fuel) (Some bl)).

(** Waiting for the descriptors: one of them becomes ready. *)
Lemma wp_poll_frontend ps w Q :
  ps ≠ [] → polls_fairly (w_env w) →
  frontend bl bo (at_ BURROW_STATE_WAITING) ps ∗
  (∀ ps' w', ⟦ quiet w w' ∧ length ps' ≤ length ps ⟧ -∗ frontend bl bo (at_ BURROW_STATE_READY) ps' -∗ Q 0%Z w')
  ⊢ wp (burrow_internal_poll_fds (burrow_process fuel) (Some bl)) w Q.
Proof using Hfuel Hfl Hback.
  iIntros (Hne Hfair) "[(%p & %size & %n & Hw) HQ]".
  destruct (Hfair (w_tick w) ps Hne) as (revents & Hp & Hlen & Hex).
  iAssert ⌜∃ l, p = Some l⌝%I with "[Hw]" as %[l ->].
  { iDestruct "Hw" as (rest) "(_ & _ & _ & %Hnull)". iPureIntro. destruct p as [l|]; [by exists l|].
    specialize (Hnull eq_refl). by destruct ps. }
  pose proof (λ I H, @wp_poll_fds _ bl bo (with_watch (Some l) size n b0) (λ r, r = 0%Z) (λ r Hr, or_introl Hr) is_log
    (λ _ H, H) I H fuel Hfuel fl Hfl l eq_refl ps revents BURROW_STATE_WAITING cmd w Q) as Hpoll.
  iApply (Hpoll (λ _, emp%I) with "[-]"); [|done..|].
  { by apply http_responds. }
  iSplitL "Hw"; [iExact "Hw"|]. iSplitR; [done|].
  iIntros (ps' evs st' w' (Hps & Hevs & Hst & Hes)) "Hw _".
  assert (st' = BURROW_STATE_READY) as ->.
  { destruct Hst as [->|[_ [He|He]]]; [done| |done]. exfalso.
    apply (f_equal (λ n, n)) in He. rw Hevs length_fmap in He. apply nil_length_inv in He.
    pose proof (with_revents_live _ _ Hlen Hex) as Hlive. apply Exists_exists in Hlive as (q & Hq & Hl).
    apply (not_elem_of_nil q). rw -He. by apply list_elem_of_filter. }
  iApply ("HQ" $! ps' w' with "[%] [Hw]"); [split; [done|]|].
  - rw Hps. etransitivity; [apply length_filter|]. by rw length_with_revents.
  - iExists (Some l), size, _. iExact "Hw".
Qed.

(** The end of a command. *)
Lemma wp_finish n result ps w Q :
  (∀ k, e_user (w_env w) k = []) →
  frontend bl bo (at_ BURROW_STATE_FINISH) ps ∗
  (∀ w', ⟦ tells w (when_set (b_complete_fn b0) EvComplete) w' ⟧ -∗
     frontend bl bo (at_state b0 BURROW_STATE_IDLE fl (cmd <| cmd_command := BURROW_CMD_NONE |>)) ps -∗
     Q (result, true) w')
  ⊢ wp (loop (S (S n)) turn result) w Q.
Proof.
  iIntros (Hu) "[H HQ]". cbn [loop]. wp_focus. unfold process_step at 1. iApply (wp_load_frontend bl bo (at_ BURROW_STATE_FINISH) ps). iFrame "H".
  iIntros (p size k) "%Hk H". simpl.
  wp_focus. iApply (wp_wand _ _ (λ _ w', ⟦ quiet w w' ⟧ ∗ frontend bl bo (at_ BURROW_STATE_FINISH) ps)%I with "[H]").
  { destruct (0 <? k)%Z; [|wret; iFrame; auto with quiet]. iApply wp_log_quiet. iFrame "H". iIntros (w' Hw) "H". by iFrame. }
  iIntros ([] w1) "[%Hw1 H]". wp_focus.
  iApply (wp_modify_frontend bl bo (at_ BURROW_STATE_FINISH) (at_ BURROW_STATE_IDLE) ps); [done|]. iFrame "H". iIntros "H". wp_focus.
  iApply (wp_modify_frontend bl bo (at_ BURROW_STATE_IDLE) (at_state b0 BURROW_STATE_IDLE fl (cmd <| cmd_command := BURROW_CMD_NONE |>)) ps); [done|].
  iFrame "H". iIntros "H". wp_focus. unfold burrow_callback_complete. iApply (wp_load_frontend bl bo (at_state b0 BURROW_STATE_IDLE fl (cmd <| cmd_command := BURROW_CMD_NONE |>)) ps). iFrame "H".
  iIntros (p' size' k') "_ H". simpl.
  iApply (wp_wand _ _ (λ _ w', ⟦ tells w1 (when_set (b_complete_fn b0) EvComplete) w' ⟧)%I).
  { destruct (b_complete_fn b0); [|wret; iPureIntro; by apply tells_quiet, quiet_refl].
    wp_focus. iApply wp_emit. wp_focus. iApply wp_consult. simpl.
    assert (e_user (w_env w1) (w_tick w1) = []) as -> by (rw (quiet_env _ _ Hw1); apply Hu). simpl. wret. iPureIntro.
    exists [EvComplete]. split; [|done]. eapply (evolves_trans _ [EvComplete] _ []); [apply evolves_emit|]. apply (evolves_tick 1). }
  iIntros ([] w2) "%Hw2". wret. wp_focus. unfold process_step. iApply (wp_load_frontend bl bo (at_state b0 BURROW_STATE_IDLE fl (cmd <| cmd_command := BURROW_CMD_NONE |>)) ps). iFrame "H".
  iIntros (p2 size2 k2) "_ H". simpl. wret. wret. iApply ("HQ" with "[%] H").
  apply (tells_trans _ [] w1); [by apply tells_quiet|done].
Qed.

(** ** A conversation with the server *)

Section conversation.
Context (s : burrow_backend_st) (m h : positive) (opts : list CURLoption) (C : list io → bytes → hPropI).
Context `{!Channel sl opts C} (Hburrow : hb_burrow s = Some bl) (Hmulti : hb_curlptr s = Some m).
Abbreviation here st := (here sl bl so bo s (at_ st)).
Abbreviation transferring := (transferring opts C m h).
Abbreviation outcome st := (outcome_of (at_ st) unescape point (hb_get_body_only s)).

(** What becomes of the answer, once it is complete. *)
Context (Hdeliver : ∀ st ios sent ps w r es Q,
  reliable w → fits ios → outcome st (Completed ios) = Some (r, es) →
  here st ps ∗ C ios sent ∗ (∀ w', ⟦ evolves w es w' ⟧ -∗ here st ps -∗ C ios sent -∗ True -∗ Q r w')
  ⊢ wp (deliver_answer point (Some sl)) w Q).

Lemma wp_process_call st before sent steps waits ps r es w Q :
  sustainable before steps (length ps) → length steps + 1 < turns → reliable w →
  outcome st (converse before steps) = Some (r, es) →
  here st ps ∗ transferring before sent steps waits ∗
  ((∀ ps' before' sent' rest waits' w',
      ⟦ quiet w w' ∧ ps' ≠ [] ∧ sustainable before' rest (length ps') ∧ length rest < length steps ∧
        converse before' rest = converse before steps ⟧ -∗
      here st ps' -∗ transferring before' sent' rest waits' -∗ Q EAGAIN w') ∧
   (∀ before' sent' rest waits' w', ⟦ tells w (told es) w' ⟧ -∗
      here st ps -∗ transferring before' sent' rest waits' -∗ True -∗ Q r w'))
  ⊢ wp (burrow_backend_http_process turns point (Some sl)) w Q.
Proof using All.
  iIntros (Hsu Ht Hr Hout) "(H & HT & HQ)". destruct (pump steps) as [[ios rest] v] eqn:Hp.
  pose proof (sustainable_fits _ _ _ _ _ _ Hsu Hp) as Hfit. rw (converse_pump before _ _ _ _ Hp) in Hout.
  iApply (wp_http_process sl bl so bo s (at_ st) Hburrow opts C m h Hmulti turns point Hwatch steps ios rest v);
    [done|done|apply Hsu|done|done| |].
  { destruct v as [[|f| |]|]; try done. by destruct (sustainable_room _ _ _ _ _ _ Hsu Hp) as (? & ? & _). }
  iFrame "H HT". iIntros (sent' w1 Hw1) "HT". unfold processed.
  assert (tells w [] w1) as Hq by (by apply tells_quiet).
  assert (reliable w1) as Hr1 by (by eapply tells_reliable).
  assert (∀ e, outcome st e = Some (r, es) → e = Completed (before ++ ios) → here st ps -∗
    transferring (before ++ ios) sent' rest (waits_of v waits) -∗
    ((∀ before' sent' rest waits' w', ⟦ tells w (told es) w' ⟧ -∗
      here st ps -∗ transferring before' sent' rest waits' -∗ True -∗ Q r w')) -∗
    wp (deliver_answer point (Some sl)) w1 Q) as Hdone.
  { iIntros (e He ->) "H [HC Hm] HQ". iApply Hdeliver; [done..|]. iFrame "H HC". iIntros (w2 Hw2) "H HC Ht".
    iApply ("HQ" with "[%] H [$HC $Hm] Ht"). apply (tells_trans _ [] w1); [done|by apply tells_evolves]. }
  pose proof (pump_verdict _ _ _ _ Hp (su_orderly _ _ _ Hsu)) as Hv.
  destruct v as [[|f|code|code]|]; [done|..].
  - case_decide as Hmax.
    + iIntros "H". iDestruct "HQ" as "[_ HQ]". simpl in Hout. simplify_eq. iApply ("HQ" with "[//] H HT [//]").
    + iIntros (new w2 (Hw2 & Hnew)) "H". iDestruct "HQ" as "[HQ _]".
      destruct (sustainable_room _ _ _ _ _ _ Hsu Hp) as (_ & Hge & Hex).
      pose proof (watched_length _ _ _ Hnew) as Hl. rw length_seqZ in Hl.
      destruct (sustainable_rest _ _ _ _ _ _ (length new) Hsu Hp) as [Hsu' Hlen]; [lia|].
      iApply ("HQ" $! (ps ++ new) with "[%] H HT"). split_and!; [by eapply quiet_trans| |by rw length_app|done|].
      * intros [_ Hnil]%app_nil. revert Hnil. eapply watched_some; eauto.
      * symmetry. rw (converse_pump before _ _ _ _ Hp). by rw decide_False.
  - destruct (decide (code = CURLE_OK)) as [Hok|Hok]; case_decide as Hno; try by destruct Hno.
    + iIntros "H". iDestruct "HQ" as "[_ HQ]". iApply (Hdone with "H HT HQ"); [exact Hout|done].
    + iIntros "H". iDestruct "HQ" as "[_ HQ]". simplify_eq/=. iApply ("HQ" with "[//] H HT [//]").
  - iIntros "H". iDestruct "HQ" as "[_ HQ]". simplify_eq/=. iApply ("HQ" with "[//] H HT [//]").
  - iIntros "H". iDestruct "HQ" as "[_ HQ]". iApply (Hdone with "H HT HQ"); done.
Qed.

(** The state between two turns, and the turns it takes from there. *)
Definition pending (st : burrow_state_t) (ps : list pollfd) (steps : list step) : option nat :=
  match st with
  | BURROW_STATE_READY => Some (2 * length steps + 3)
  | BURROW_STATE_WAITING => if decide (ps = []) then None else Some (2 * length steps + 4)
  | _ => None
  end.

Lemma wp_converse n st before sent steps waits ps result w r es k Q :
  pending st ps steps = Some k → k ≤ n →
  sustainable before steps (length ps) → length steps + 1 < turns → reliable w →
  polls_fairly (w_env w) → (∀ k, e_user (w_env w) k = []) →
  outcome BURROW_STATE_READY (converse before steps) = Some (r, es) →
  here st ps ∗ transferring before sent steps waits ∗
  (∀ ps' before' sent' rest waits' w',
     ⟦ tells w (told es ++ when_set (b_complete_fn b0) EvComplete) w' ⟧ -∗
     sl ↦{so} s -∗ frontend bl bo (at_state b0 BURROW_STATE_IDLE fl (cmd <| cmd_command := BURROW_CMD_NONE |>)) ps' -∗
     transferring before' sent' rest waits' -∗ True -∗ Q (r, true) w')
  ⊢ wp (loop n turn result) w Q.
Proof using All.
  revert st before sent steps waits ps result w k. induction n as [|n IH]; intros st before sent steps waits ps result w k;
    iIntros (Hk Hn Hsu Ht Hr Hfair Hu Hout) "([Hs H] & HT & HQ)".
  { exfalso. destruct st; simpl in Hk; try case_decide; simplify_eq; lia. }
  cbn [loop]. wp_focus. unfold process_step at 1. iApply (wp_load_frontend bl bo (at_ st) ps). iFrame "H".
  iIntros (p size nw) "%Hnw H". rw http_functions. destruct st; try done; simpl in Hk |- *.
  - case_decide as Hps; [done|]. simplify_eq. simpl in Hnw. rw Hnw.
    destruct (Z.eqb_spec (Z.of_nat (length ps)) 0) as [E|_]; [by destruct ps; [|simpl in E; lia]|].
    wp_focus. iApply wp_poll_frontend; [done..|]. iFrame "H". iIntros (ps' w1 (Hw1 & Hlen)) "H".
    case_decide; [done|]. wret. pose proof (quiet_env _ _ Hw1) as Henv.
    iApply (IH BURROW_STATE_READY before sent steps waits ps'); [done|lia|by eapply sustainable_le|done|by auto with quiet|by rw Henv|by rw Henv|done|].
    iFrame "Hs H HT". iIntros (ps2 before2 sent2 rest2 waits2 w2 Hw2) "Hs H HT Ht". iApply ("HQ" with "[%] Hs H HT Ht").
    by apply (tells_trans _ [] w1); [apply tells_quiet|].
  - simplify_eq. rw Hctx. wp_focus. iApply (wp_process_call BURROW_STATE_READY before sent steps waits ps r es); [done..|].
    iFrame "Hs H HT". iSplit.
    + iIntros (ps' before' sent' rest waits' w1 (Hw1 & Hne & Hsu' & Hlen & Hconv)) "[Hs H] HT". simpl.
      wp_focus. iApply (wp_modify_frontend bl bo (at_ BURROW_STATE_READY) (at_ BURROW_STATE_WAITING) ps'); [done|].
      iFrame "H". iIntros "H". wret. pose proof (quiet_env _ _ Hw1) as Henv.
      iApply (IH BURROW_STATE_WAITING before' sent' rest waits' ps'); [simpl; by rw decide_False|lia|done|lia|by auto with quiet|by rw Henv|by rw Henv|by rw Hconv|].
      iFrame "Hs H HT". iIntros (ps2 before2 sent2 rest2 waits2 w2 Hw2) "Hs H HT Ht". iApply ("HQ" with "[%] Hs H HT Ht").
      by apply (tells_trans _ [] w1); [apply tells_quiet|].
    + iIntros (before' sent' rest waits' w1 Hw1) "[Hs H] HT Ht". pose proof (outcome_code _ _ _ _ _ _ _ Hout) as Hne.
      wp_focus. iApply (wp_modify_frontend bl bo (at_ BURROW_STATE_READY) (at_ BURROW_STATE_FINISH) ps).
      { intros. by rw decide_False. }
      iFrame "H". iIntros "H". wret. destruct n as [|[|n]]; [lia..|].
      iApply (wp_finish n r ps); [by rw (tells_env _ _ _ Hw1)|]. iFrame "H". iIntros (w2 Hw2) "H".
      iApply ("HQ" with "[%] Hs H HT Ht"). by eapply tells_trans.
Qed.
End conversation.

(** ** A command *)

Section command.
Context (m : positive) (base : string).
Context (k : burrow_command_t) (Hk : cmd_command cmd = k).

(** The backend after a command: another transfer, another buffer. *)
Definition carries_on (s s' : burrow_backend_st) : Prop :=
  ∃ h ul body_only, s' = with_transfer h ul (s <| hb_get_body_only := body_only |>).

(** What the callbacks work on. *)
Definition channel_for (ul : loc) (body : bytes) : list io → bytes → hPropI :=
  match k with BURROW_CMD_CREATE_MESSAGE => uploading ul body | _ => collecting ul end.

Lemma channel_for_channel ul body opts :
  traced sl opts → role k ul opts → (Z.of_nat (length body) < 18446744073709551616)%Z →
  Channel sl opts (channel_for ul body).
Proof.
  intros Ht Hrole Hl. unfold channel_for, role in *.
  destruct k; first [by apply collecting_channel|by apply uploading_channel].
Qed.

Lemma channel_for_start ul body :
  (k ≠ BURROW_CMD_CREATE_MESSAGE → body = []) → holding ul Libc true 0 body ⊢ channel_for ul body [] [].
Proof.
  iIntros (Hb) "H". unfold channel_for. destruct k; try (rw Hb //; by iFrame). by iFrame.
Qed.

Lemma channel_for_buffer ul body ios sent :
  channel_for ul body ios sent ⊢ ∃ k bs, holding ul Libc true k bs.
Proof. iIntros "H". unfold channel_for. destruct k; iDestruct "H" as "[_ H]"; iExists _, _; iExact "H". Qed.

Lemma channel_for_deliver s h ul body st ios sent ps w r es Q :
  hb_burrow s = Some bl → hb_chandle s = Some h → hb_buffer s = Some ul →
  reliable w → fits ios →
  outcome_of (at_ st) unescape point (hb_get_body_only s) (Completed ios) = Some (r, es) →
  here sl bl so bo s (at_ st) ps ∗ channel_for ul body ios sent ∗
  (∀ w', ⟦ evolves w es w' ⟧ -∗ here sl bl so bo s (at_ st) ps -∗ channel_for ul body ios sent -∗ True -∗ Q r w')
  ⊢ wp (deliver_answer point (Some sl)) w Q.
Proof using Hk CurlLaws0.
  iIntros (Hb Hh Hbuf Hr Hfit Hout) "(H & HC & HQ)". destruct (decide (k = BURROW_CMD_CREATE_MESSAGE)) as [Ek|Ek].
  - simpl in Hout. unfold answer_of in Hout. simpl in Hout. rw Hk Ek /= in Hout. simplify_eq.
    unfold deliver_answer. wp_focus. iApply wp_here_command; [done|]. iFrame "H". iIntros "H". simpl. rw Hk Ek /=.
    wret. iApply ("HQ" with "[%] H HC [//]"). apply evolves_refl.
  - assert (channel_for ul body = collecting ul) as Hc by (unfold channel_for; by destruct k). rw Hc.
    iDestruct "HC" as "[%Hs HC]". iApply (wp_deliver_answer unescape sl bl so bo s (at_ st) Hb h Hh ul Hbuf point ps _ _ r es);
      [done|exact Hfit|exact Hout|]. iFrame "H HC". iIntros (w' Hw) "H HC Ht". iApply ("HQ" with "[//] H [HC] Ht"). by iFrame.
Qed.

(** What the answer is expected to be matters for an answer that is looked at. *)
Lemma outcome_expected st f old e :
  outcome_of (at_ st) unescape point (expects_body k f old) e = outcome_of (at_ st) unescape point (expects_body k f false) e.
Proof using Hk.
  unfold expects_body. destruct k eqn:Ek; try done; (destruct e; try done); simpl; unfold answer_of; simpl; by rw Hk.
Qed.

Lemma request_done s h ul f body opts ios sent rest waits :
  TransferSpec.transferring opts (channel_for ul body) m h ios sent rest waits ∗ base_at base s
  ⊢ last_request m base (with_transfer h ul (expecting k f s)).
Proof.
  iIntros "[[HC Hm] $]". iSplitL "Hm"; [by iExists opts, _|]. iApply (channel_for_buffer with "HC").
Qed.

Lemma wp_http_start n fo f ao a s ps w r es result Q :
  k ≠ BURROW_CMD_NONE → cmd_command_fn cmd = Some k → sendable escape base k cmd f a → configured bl m base s →
  let steps := server (request_for escape base k cmd f a) in
  sustainable [] steps (length ps) → length steps + 1 < turns → reliable w →
  polls_fairly (w_env w) → (∀ k, e_user (w_env w) k = []) →
  (Z.of_nat (length (content k cmd)) < 18446744073709551616)%Z →
  outcome_of (at_ BURROW_STATE_READY) unescape point (expects_body k f false) (converse [] steps) = Some (r, es) →
  2 * length steps + 4 ≤ n →
  here sl bl so bo s (at_ BURROW_STATE_START) ps ∗ last_request m base s ∗
  filters_at k fo (cmd_filters cmd) f ∗ attributes_at k ao (cmd_attributes cmd) a ∗
  (∀ s' ps' w',
     ⟦ tells w (told es ++ when_set (b_complete_fn b0) EvComplete) w' ∧ carries_on s s' ⟧ -∗
     here sl bl so bo s' (at_state b0 BURROW_STATE_IDLE fl (cmd <| cmd_command := BURROW_CMD_NONE |>)) ps' -∗
     last_request m base s' -∗ filters_at k fo (cmd_filters cmd) f -∗ attributes_at k ao (cmd_attributes cmd) a -∗
     True -∗ Q (r, true) w')
  ⊢ wp (loop n turn result) w Q.
Proof using All.
  iIntros (Hne Hfn Hsend Hconf steps Hsu Ht Hr Hfair Hu Hcont Hout Hn) "([Hs H] & Hold & Hfl & Hat & HQ)".
  destruct n as [|n]; [lia|]. cbn [loop]. wp_focus. unfold process_step at 1.
  iApply (wp_load_frontend bl bo (at_ BURROW_STATE_START) ps). iFrame "H". iIntros (p size nw) "_ H". rw http_functions. simpl.
  assert (∃ g, be_command functions k = Some g) as [g Hg] by (destruct k; first [done|by eexists]).
  assert (cmd_command_fn cmd ≫= be_command functions = Some g) as Hfg by (by rw Hfn). simpl in Hfg. rw Hfg Hctx. wp_focus.
  iApply (wp_http_command sl bl so bo m (at_ BURROW_STATE_START) w Hr turns point base k g fo f ao a s ps);
    [done|exact Hk|exact Hsend|apply quiet_refl|done|].
  iFrame "Hs H Hold Hfl Hat". iIntros (h ul opts w1 (Hw1 & Hreq & Htr & Hrole)) "H Hbase Hm Hbuf (Hfl & Hat & Htrue)".
  fold steps. set (s1 := with_transfer h ul (expecting k f s)). pose proof Hconf as (Hb & Hm & _).
  pose proof (channel_for_channel ul (content k cmd) opts Htr Hrole Hcont) as Hch.
  iDestruct (channel_for_start ul (content k cmd) with "Hbuf") as "HC"; [by destruct k|].
  pose proof (λ st ios sent ps w r es Q,
    channel_for_deliver s1 h ul (content k cmd) st ios sent ps w r es Q Hb eq_refl eq_refl) as Hdel.
  rw -(outcome_expected _ _ (hb_get_body_only s)) in Hout.
  pose proof (quiet_env _ _ Hw1) as Henv. assert (reliable w1) as Hr1 by auto with quiet.
  iApply (wp_process_call s1 m h opts (channel_for ul (content k cmd)) Hb Hm Hdel BURROW_STATE_START [] [] steps no_waits ps r es);
    [done..|].
  iFrame "H". iSplitL "HC Hm"; [iFrame|]. iSplit.
  - iIntros (ps' before' sent' rest waits' w2 (Hw2 & Hps & Hsu' & Hlen & Hconv)) "[Hs H] HT". simpl. wp_focus.
    iApply (wp_modify_frontend bl bo (at_ BURROW_STATE_START) (at_ BURROW_STATE_WAITING) ps'); [done|].
    iFrame "H". iIntros "H". wret. pose proof (quiet_env _ _ Hw2) as Henv2.
    iApply (wp_converse s1 m h opts (channel_for ul (content k cmd)) Hb Hm Hdel n BURROW_STATE_WAITING before' sent' rest waits' ps' _ w2 r es);
      [simpl; by rw decide_False|lia|done|lia|by auto with quiet|by rw Henv2 Henv|by rw Henv2 Henv|by rw Hconv|].
    iFrame "Hs H HT". iIntros (ps2 before2 sent2 rest2 waits2 w3 Hw3) "Hs H HT Ht".
    iApply ("HQ" $! s1 ps2 w3 with "[%] [$Hs $H] [HT Hbase] Hfl Hat [Ht Htrue]"); [|by iApply (request_done s h ul f with "[$HT $Hbase]")|done].
    split; [|by eexists _, _, _]. apply (tells_trans _ [] w2); [|done]. apply tells_quiet. by eapply quiet_trans.
  - iIntros (before' sent' rest waits' w2 Hw2) "[Hs H] HT Ht". pose proof (outcome_code _ _ _ _ _ _ _ Hout) as Hne'.
    wp_focus. rw decide_False //. wp_focus.
    iApply (wp_modify_frontend bl bo (at_ BURROW_STATE_START) (at_ BURROW_STATE_FINISH) ps); [done|].
    iFrame "H". iIntros "H". wret. destruct n as [|[|n]]; [lia..|].
    iApply (wp_finish n r ps); [by rw (tells_env _ _ _ Hw2) Henv|]. iFrame "H". iIntros (w3 Hw3) "H".
    iApply ("HQ" $! s1 ps w3 with "[%] [$Hs $H] [HT Hbase] Hfl Hat [Ht Htrue]"); [|by iApply (request_done s h ul f with "[$HT $Hbase]")|done].
    split; [|by eexists _, _, _]. apply (tells_trans _ [] w1); [by apply tells_quiet|by eapply tells_trans].
Qed.
End command.
End processing.

(** ** A call of a command *)

(** What the burrow keeps from before does not matter. *)
Section filled.
Context (fn : option burrow_command_t) (c old : burrow_command_st).
Abbreviation k := (cmd_command c).
Abbreviation cmd := (filled fn c old).

Lemma request_for_filled base f a : request_for escape base k cmd f a = request_for escape base k c f a.
Proof. destruct c as [[] ????????]; done. Qed.
Lemma content_filled : content k cmd = content k c.
Proof. destruct c as [[] ????????]; done. Qed.
Lemma sendable_filled base f a : sendable escape base k cmd f a ↔ sendable escape base k c f a.
Proof.
  unfold sendable. rw required_filled.
  destruct c as [[] ????????]; first [done|by split; intros (? & ? & ? & ? & _); split_and!].
Qed.
Lemma filters_at_filled fo f : filters_at k fo (cmd_filters cmd) f = filters_at k fo (cmd_filters c) f.
Proof. destruct c as [[] ????????]; done. Qed.
Lemma attributes_at_filled ao a : attributes_at k ao (cmd_attributes cmd) a = attributes_at k ao (cmd_attributes c) a.
Proof. destruct c as [[] ????????]; done. Qed.
End filled.

Lemma wp_http_call m base c fo f ao a s ps fuel w r es Q :
  let k := cmd_command c in
  k ≠ BURROW_CMD_NONE → sendable escape base k c f a → configured bl m base s →
  b_state b0 = BURROW_STATE_IDLE → has_flag (b_flags b0) BURROW_FLAG_PROCESSING = false →
  has_flag (b_options b0) BURROW_OPT_AUTOPROCESS = true →
  let steps := server (request_for escape base k c f a) in
  sustainable [] steps (length ps) → length steps + 1 < turns → reliable w →
  polls_fairly (w_env w) → (∀ k, e_user (w_env w) k = []) →
  (Z.of_nat (length (content k c)) < 18446744073709551616)%Z →
  outcome_of (started c b0) unescape point (expects_body k f false) (converse [] steps) = Some (r, es) →
  2 * length steps + 5 ≤ fuel →
  here sl bl so bo s b0 ps ∗ last_request m base s ∗
  filters_at k fo (cmd_filters c) f ∗ attributes_at k ao (cmd_attributes c) a ∗
  (∀ s' ps' cmd' w',
     ⟦ tells w (told es ++ when_set (b_complete_fn b0) EvComplete) w' ∧ carries_on s s' ⟧ -∗
     here sl bl so bo s' (at_state b0 BURROW_STATE_IDLE (b_flags b0) cmd') ps' -∗
     last_request m base s' -∗ filters_at k fo (cmd_filters c) f -∗ attributes_at k ao (cmd_attributes c) a -∗
     True -∗ Q r w')
  ⊢ wp (call_command (burrow_process fuel) (Some bl) c) w Q.
Proof using All.
  iIntros (k Hne Hsend Hconf Hst Hfl Hauto steps Hsu Ht Hr Hfair Hu Hcont Hout Hn) "([Hs H] & Hold & Hfl & Hat & HQ)".
  iDestruct "H" as (p size n) "Hw". iDestruct "Hw" as (rest) "(H1 & Hb & H2)".
  iApply (wp_call_command bl bo (burrow_process fuel) c (with_watch p size n b0)); [done|]. iFrame "Hb". simpl. rw Hst Hauto.
  destruct Hsend as (Hreq & Hsend). rw Hreq. simpl. iIntros "Hb". destruct fuel as [|fuel]; [lia|]. rw burrow_process_S.
  set (cmd := filled (slot_of b0 k) c (b_cmd b0)).
  iAssert (frontend bl bo (at_state b0 BURROW_STATE_START (b_flags b0) cmd) ps) with "[H1 Hb H2]" as "H".
  { iExists p, size, n, rest. iFrame "H1 H2". iExact "Hb". }
  iApply (wp_load_frontend bl bo (at_state b0 BURROW_STATE_START (b_flags b0) cmd) ps). iFrame "H".
  iIntros (p' size' n') "_ H". simpl. rw Hfl. set (fl := Z.lor (b_flags b0) BURROW_FLAG_PROCESSING). wp_focus.
  iApply (wp_modify_frontend bl bo (at_state b0 BURROW_STATE_START (b_flags b0) cmd) (at_state b0 BURROW_STATE_START fl cmd) ps); [done|]. iFrame "H". iIntros "H". wp_focus.
  assert (0 < fuel) as Hf0 by lia. pose proof (processing_set (b_flags b0)) as Hfl'. fold fl in Hfl'.
  iApply (wp_http_start fuel Hf0 fl Hfl' cmd m base k eq_refl fuel fo f ao a s ps w r es 0%Z); rw ?request_for_filled ?content_filled;
    [done| |by apply sendable_filled|done..|subst steps k; lia|].
  { unfold cmd, filled, slot_of, functions_of. simpl. rw Hback. by destruct (cmd_command c). }
  rw filters_at_filled attributes_at_filled. iFrame "Hs H Hold Hfl Hat". iIntros (s' ps' w1 (Hw1 & Hconf')) "[Hs H] Hold Hfl Hat Ht".
  wp_focus. iApply (wp_modify_frontend bl bo (at_state b0 BURROW_STATE_IDLE fl (cmd <| cmd_command := BURROW_CMD_NONE |>))
    (at_state b0 BURROW_STATE_IDLE (b_flags b0) (cmd <| cmd_command := BURROW_CMD_NONE |>)) ps').
  { intros. subst fl. unfold at_state, with_watch. simpl. by rw processing_cleared. }
  iFrame "H". iIntros "H". wret. iApply ("HQ" with "[//] [$Hs $H] Hold Hfl Hat Ht").
Qed.
End http.
