(* ===== verification/HttpLifeSpec.v ===== *)
(** The life of the http backend: creating it, its options, and destroying it,
    with what it owns in between. *)
From S2P Require Import Prelude JsonData CurlData Types Heap Macros UserBuffer JsonParser JsonProcessing CurlBackend HttpProtocol TextFacts Logic MacrosSpec DictionarySpec UserBufferSpec JsonReportSpec.
From S2P Require Import BurrowSpec BufferSpec CurlSpec QuerySpec TransferSpec RequestSpec.
From iris.proofmode Require Import proofmode.

(** ** What the options come to *)

(** The server, if it has been set, and the port. *)
Definition address : Type := option string * string.

(** An option's effect, and the result. *)
Definition set_address (name value : string) (a : address) : Z * address :=
  if String.eqb name "server" then (0%Z, (Some value, a.2))
  else if String.eqb name "port" then
    if (port_size - 1 <=? Z.of_nat (String.length value))%Z then (EINVAL, a) else (0%Z, (a.1, value))
  else (EINVAL, a).

(** The url of the server, once all of it is known. *)
Definition url_of_address (a : address) : option string :=
  match a with
  | (Some server, String _ _ as port) => Some ("http" +:+ "://" +:+ server +:+ ":" +:+ port)
  | _ => None
  end.

Definition short_address (a : address) : Prop :=
  (Z.of_nat (String.length (default "" a.1)) < 2147480000)%Z ∧ (Z.of_nat (String.length a.2) < port_size - 1)%Z.

Section life.
Context {curl : LibcurlMulti} {escape unescape : string → string} {server : request → list step}
  `{!CurlLaws curl escape unescape server}.
Context (sl bl : loc) (so bo : owner) (m : positive) (b : burrow_st).
Implicit Types (s : burrow_backend_st) (a : address).

(** ** What a backend owns *)

Definition server_string s a : hPropI :=
  match hb_server s, a.1 with
  | Some l, Some x => ∃ cap, l ↦{Libc} Chars cap x
  | None, None => emp
  | _, _ => ⟦ False ⟧
  end%I.
(** The url is that of the address, or an old one when the address is not complete. *)
Definition url_string s a : hPropI :=
  match hb_baseurl s with
  | Some l => ∃ cap x, l ↦{Libc} Chars cap x ∗
      ⟦ ∀ url, url_of_address a = Some url → x = url ∧ hb_baseurl_len s = Z.of_nat (String.length url) ⟧
  | None => ⟦ url_of_address a = None ⟧
  end%I.
Definition settled s a : Prop :=
  hb_burrow s = Some bl ∧ hb_curlptr s = Some m ∧ hb_proto s = "http" ∧ hb_proto_len s = 4%Z ∧
  hb_proto_version s = "v1.0" ∧ hb_proto_version_len s = 4%Z ∧
  hb_port s = a.2 ∧ hb_port_len s = Z.of_nat (String.length a.2) ∧ short_address a.
Definition settings s a : hPropI := (⟦ settled s a ⟧ ∗ server_string s a ∗ url_string s a)%I.

(** ** Setting an option *)

(** The transfer and the memory are left alone. *)
Definition same_transfer s s' : Prop :=
  hb_chandle s' = hb_chandle s ∧ hb_buffer s' = hb_buffer s ∧ hb_malloced s' = hb_malloced s.

Lemma wp_make_baseurl s a x w Q :
  settled s a → a.1 = Some x → a.2 ≠ "" → reliable w →
  sl ↦{so} s ∗ server_string s a ∗ (∃ cap y, match hb_baseurl s with Some l => l ↦{Libc} Chars cap y | None => emp end) ∗
  (∀ s' w', ⟦ evolves w [] w' ∧ same_transfer s s' ⟧ -∗ sl ↦{so} s' -∗ settings s' a -∗ Q 0%Z w')
  ⊢ wp (make_baseurl (Some sl)) w Q.
Proof.
  iIntros ((Hb & Hm & Hp & Hpl & Hv & Hvl & Hport & Hportl & Hshort) Hx Hne Hr) "(Hsl & Hserver & Hold & HQ)".
  unfold make_baseurl. wload "Hsl". wp_focus.
  iApply (wp_wand _ _ (λ _ w', ⟦ w' = w ⟧)%I with "[Hold]").
  { iDestruct "Hold" as (cap y) "H". destruct (hb_baseurl s) as [l|]; simpl; [|wret; by iDestruct "H" as "_"].
    iApply (wp_release (T := chars)). by iFrame. }
  iIntros ([] ?) "->". unfold server_string at 1. rw Hx. destruct (hb_server s) as [l|] eqn:Hsrv; [|by iDestruct "Hserver" as %[]].
  iDestruct "Hserver" as (cap) "Hserver". wstring "Hserver". pose proof Hshort as [Hs Hps]. rw Hx /= in Hs. unfold port_size in Hps.
  set (url := "http" +:+ "://" +:+ x +:+ ":" +:+ a.2).
  assert (String.length url = String.length x + String.length a.2 + 8) as Hlen.
  { subst url. rw !string_length_app. simpl. lia. }
  rw Hpl Hportl Hp Hport. fold url.
  assert (u64 (4 + Z.of_nat (String.length x) + Z.of_nat (String.length a.2) + 20) =
    Z.of_nat (4 + String.length x + String.length a.2 + 20)) as ->.
  { rw u64_small; lia. }
  wp_focus. iApply wp_malloc_reliable; [done|]. iIntros (u j w1 Hw1) "Hu". wmodify "Hsl".
  wp_focus. iApply (wp_snprintf u Libc (4 + String.length x + String.length a.2 + 20) ""); [cbn [String.length]; lia|cbn [String.length]; lia|lia|]. iFrame "Hu". iIntros "Hu".
  wmodify "Hsl". wret. iApply ("HQ" with "[%] Hsl"); [done|]. iSplitR.
  { iPureIntro. by repeat (split; [done|]). }
  iSplitL "Hserver".
  - unfold server_string. simpl. rw Hsrv Hx. by iExists cap.
  - unfold url_string. simpl. iExists _, url. iSplitL; [iExact "Hu"|]. iPureIntro. intros url'. unfold url_of_address.
    destruct a as [sv p]; simpl in *. subst sv. destruct p as [|c p]; [done|]. by intros [= <-].
Qed.

(** The new url, when the address has become complete. *)
Lemma wp_refresh s a w Q :
  settled s a → reliable w →
  sl ↦{so} s ∗ server_string s a ∗ (∃ cap y, match hb_baseurl s with Some l => l ↦{Libc} Chars cap y | None => emp end) ∗
  (∀ s' w', ⟦ evolves w [] w' ∧ same_transfer s s' ⟧ -∗ sl ↦{so} s' -∗ settings s' a -∗ Q 0%Z w')
  ⊢ wp (s ← load (Some sl);
        if negb (is_null (hb_server s)) && negb (hb_port_len s =? 0)%Z && negb (hb_proto_len s =? 0)%Z
        then make_baseurl (Some sl) else mret 0%Z) w Q.
Proof.
  iIntros (Hset Hr) "(Hs & Hserver & Hold & HQ)". pose proof Hset as (_ & _ & _ & Hpl & _ & _ & Hport & Hportl & _).
  wload "Hs". iAssert ⌜is_null (hb_server s) = bool_decide (a.1 = None)⌝%I with "[Hserver]" as %->.
  { unfold server_string. destruct (hb_server s), a.1; try done; by iDestruct "Hserver" as %[]. }
  rw Hportl Hpl. case_bool_decide as Ha; simpl.
  - wret. iApply ("HQ" with "[%] Hs"); [split; [apply evolves_refl|done]|]. iSplitR; [done|]. iFrame "Hserver".
    iDestruct "Hold" as (cap y) "Hold". unfold url_string. destruct a as [sv p]. simpl in Ha. subst.
    destruct (hb_baseurl s); [iExists cap, y; by iFrame|by iFrame].
  - destruct (Z.eqb_spec (Z.of_nat (String.length a.2)) 0) as [E|E]; simpl.
    + wret. iApply ("HQ" with "[%] Hs"); [split; [apply evolves_refl|done]|]. iSplitR; [done|]. iFrame "Hserver".
      iDestruct "Hold" as (cap y) "Hold". unfold url_string. destruct a as [sv p]. simpl in E.
      destruct p; [|simpl in E; lia]. assert (url_of_address (sv, "") = None) as Hn by by destruct sv. rw Hn.
      destruct (hb_baseurl s); [iExists cap, y; by iFrame|by iFrame].
    + destruct a.1 as [x|] eqn:Hx; [|done]. iApply (wp_make_baseurl s a x); [done|done| |done|iFrame].
      intros Ep. by rw Ep in E.
Qed.

Lemma url_string_any s a :
  url_string s a ⊢ ∃ cap y, match hb_baseurl s with Some l => l ↦{Libc} Chars cap y | None => emp end.
Proof.
  iIntros "H". unfold url_string. destruct (hb_baseurl s); [|by iExists 0%Z, ""; iDestruct "H" as "_"].
  iDestruct "H" as (cap x) "[H _]". by iExists cap, x.
Qed.

(** The old string of the server is lost. *)
Definition lost (name : string) s a : hPropI := if String.eqb name "server" then server_string s a else emp%I.

Lemma wp_http_set_option s a name value r a' w Q :
  set_address name value a = (r, a') → short_address a' → reliable w →
  sl ↦{so} s ∗ bl ↦{bo} b ∗ settings s a ∗
  (∀ s' w', ⟦ quiet w w' ∧ same_transfer s s' ⟧ -∗ sl ↦{so} s' -∗ bl ↦{bo} b -∗ settings s' a' -∗ lost name s a -∗ Q r w')
  ⊢ wp (burrow_backend_http_set_option (Some sl) name (Some value)) w Q.
Proof.
  iIntros (Ha Hshort Hr) "(Hs & Hb & (%Hset & Hserver & Hurl) & HQ)".
  unfold burrow_backend_http_set_option, set_address, lost in *.
  pose proof Hset as (Hbur & Hm & Hp & Hpl & Hv & Hvl & Hport & Hportl & Hsh).
  destruct (String.eqb name "server"); [|destruct (String.eqb name "port")]; simpl.
  - simplify_eq. wret. wp_focus. unfold set_server. wmodify "Hs". wload "Hs". wp_focus.
    pose proof Hshort as [Hl _]. simpl in Hl.
    iApply wp_malloc_reliable; [done|]. iIntros (l j w1 Hw1) "Hl". wmodify "Hs". wp_focus.
    iApply wp_strcpy. iFrame "Hl". iSplit; [iPureIntro; simpl; rw u64_small; lia|]. iIntros "Hl". wret.
    set (s1 := HttpBackend _ _ _ _ _ _ _ _ _ _ _ _ _ _ _ _).
    iApply (wp_refresh s1 (Some value, a.2)); [by split_and!|by apply (reliable_evolves _ _ _ Hw1)|]. iFrame "Hs".
    iSplitL "Hl"; [by iExists _|]. iSplitL "Hurl"; [by iApply url_string_any|].
    iIntros (s' w2 (Hw2 & Hs')) "Hs Hset". iApply ("HQ" $! s' w2 with "[%] Hs Hb Hset Hserver"). auto with quiet.
  - destruct (Z.leb_spec (port_size - 1) (Z.of_nat (String.length value))) as [Hlong|Hfits]; simplify_eq.
    + wret. wp_focus. unfold set_port. wmodify "Hs". wload "Hs". rw (proj2 (Z.leb_le _ _)) // Hbur.
      wp_focus. iApply wp_log_at. iFrame "Hb". iIntros (w1 Hw1) "Hb". wmodify "Hs". wret. wret.
      iApply ("HQ" with "[%] Hs Hb [Hserver Hurl] [//]").
      * split; [|done]. eexists. split; [exact Hw1|apply log_events_log].
      * iSplitR; [iPureIntro; split_and!; try done; by rw /= Hport|]. by iFrame.
    + wret. wp_focus. unfold set_port. wmodify "Hs". wload "Hs". rw (proj2 (Z.leb_gt _ _)) //. wmodify "Hs". wret.
      set (s1 := HttpBackend _ _ _ _ _ _ _ _ _ _ _ _ _ _ _ _).
      iApply (wp_refresh s1 (a.1, value)); [by split_and!|done|]. iFrame "Hs Hserver".
      iSplitL "Hurl"; [by iApply url_string_any|].
      iIntros (s' w2 (Hw2 & Hs')) "Hs Hset". iApply ("HQ" $! s' w2 with "[%] Hs Hb Hset [//]"). auto with quiet.
  - simplify_eq. wp_focus. wload "Hs". rw Hbur. wp_focus. iApply wp_log_at. iFrame "Hb". iIntros (w1 Hw1) "Hb". wret. wret.
    iApply ("HQ" with "[%] Hs Hb [$Hserver $Hurl] [//]"); [|done].
    split; [|done]. eexists. split; [exact Hw1|apply log_events_log].
Qed.

(** ** Destroying it *)

Lemma wp_free_text (p : ptr) (P : hPropI) {B} (k : M B) w Q :
  (P ⊢ match p with Some l => ∃ cap x, l ↦{Libc} Chars cap x | None => emp end) →
  P ∗ wp k w Q ⊢ wp ((if is_null p then mret tt else release Libc p);; k) w Q.
Proof.
  iIntros (HP) "[H HQ]". rw HP. wp_focus. destruct p as [l|]; simpl.
  - iDestruct "H" as (cap x) "H". iApply (wp_release (T := chars)). by iFrame.
  - iDestruct "H" as "_". by iApply wp_ret.
Qed.

(** Nothing is left but the structure, when the caller has given it. *)
Lemma wp_http_destroy s a w Q :
  (hb_malloced s = true → so = Libc) →
  sl ↦{so} s ∗ bl ↦{bo} b ∗ settings s a ∗ handle_at m s ∗ buffer_at s ∗
  (∀ s' w', ⟦ quiet w w' ⟧ -∗ bl ↦{bo} b -∗ (if hb_malloced s then emp else sl ↦{so} s') -∗ Q tt w')
  ⊢ wp (burrow_backend_http_destroy (Some sl)) w Q.
Proof.
  iIntros (Hso) "(Hs & Hb & (%Hset & Hserver & Hurl) & Hh & Hbuf & HQ)". pose proof Hset as (Hbur & Hm & _).
  unfold burrow_backend_http_destroy. wload "Hs". iEval (rw Hbur). wp_focus. iApply wp_log_at. iFrame "Hb".
  iIntros (w1 Hw1) "Hb". wload "Hs". assert (quiet w w1) as Hq.
  { eexists. split; [exact Hw1|apply log_events_log]. }
  iApply (wp_free_text _ (server_string s a)).
  { unfold server_string. iIntros "H". destruct (hb_server s), a.1 as [x|]; try by iDestruct "H" as %[].
    - iDestruct "H" as (cap) "H". by iExists cap, x.
    - done. }
  iFrame "Hserver". iApply (wp_free_text _ (url_string s a)).
  { iIntros "H". iDestruct (url_string_any with "H") as (cap y) "H". destruct (hb_baseurl s); [by iExists cap, y|done]. }
  iFrame "Hurl". wp_focus. iApply (wp_wand _ _ (λ _ w', ⟦ w' = w1 ⟧)%I with "[Hbuf]").
  { unfold buffer_at. destruct (hb_buffer s); simpl; [|wret; by iDestruct "Hbuf" as "_"].
    iDestruct "Hbuf" as (k bs) "Hbuf". iApply wp_user_buffer_destroy. by iFrame. }
  iIntros ([] ?) "->". wp_focus.
  iApply (wp_wand _ _ (λ _ w', ⟦ quiet w w' ⟧ ∗ sl ↦{so} (s <| hb_chandle := NULL |>) ∗ multi m None)%I with "[Hs Hh]").
  { unfold handle_at. destruct (hb_chandle s) as [h|] eqn:Hch; simpl.
    - iDestruct "Hh" as (opts t) "Hh". iEval (rw Hm). wp_focus. iApply wp_curl_multi_remove_handle. iFrame "Hh".
      iIntros (r w2 Hw2) "Hm He". wp_focus. iApply wp_curl_easy_cleanup. iFrame "He". iIntros (w3 Hw3).
      iApply wp_modify. iFrame "Hs". iIntros "Hs". iSplitR; [iPureIntro; auto with quiet|]. rw Hm. iFrame.
    - wret. iFrame "Hh". iSplitR; [done|]. destruct s; simpl in *; subst. iExact "Hs". }
  iIntros ([] w2) "(%Hw2 & Hs & Hmulti)". iEval (rw Hm). wp_focus. iApply wp_curl_multi_cleanup. iFrame "Hmulti".
  iIntros (r w3 Hw3). wmodify "Hs". wload "Hs". destruct (hb_malloced s) eqn:Hmal.
  - rw Hso //. iApply (wp_release (T := burrow_backend_st)). iFrame "Hs".
    iApply ("HQ" $! s with "[%] Hb [//]"). auto with quiet.
  - wret. iApply ("HQ" with "[%] Hb Hs"). auto with quiet.
Qed.

(** ** What a configured backend can do *)

Lemma settings_base s a url :
  url_of_address a = Some url →
  settings s a ⊣⊢ ⟦ settled s a ∧ hb_baseurl_len s = Z.of_nat (String.length url) ⟧ ∗ server_string s a ∗ base_at url s.
Proof.
  intros Hurl. unfold settings, url_string, base_at. rw Hurl. iSplit.
  - iIntros "(%Hset & $ & Hu)". destruct (hb_baseurl s) as [l|]; [|by iDestruct "Hu" as %?].
    iDestruct "Hu" as (cap x) "[Hu %Hx]". destruct (Hx _ eq_refl) as [-> Hlen].
    iSplitR; [done|]. iExists l, cap. by iFrame.
  - iIntros "([%Hset %Hlen] & $ & (%l & %cap & %Hl & Hu))". rw Hl. iSplitR; [done|]. iExists cap, url.
    iFrame "Hu". iPureIntro. by intros ? [= <-].
Qed.

Lemma settled_configured s a url :
  settled s a → hb_baseurl_len s = Z.of_nat (String.length url) → configured bl m url s.
Proof. by intros (Hb & Hm & _ & _ & Hv & Hvl & _) Hlen. Qed.

(** ** All of it *)

(** A backend with its address and all it owns. *)
Definition owned (malloced : bool) (a : address) : hPropI :=
  (∃ s, ⟦ hb_malloced s = malloced ⟧ ∗ sl ↦{so} s ∗ settings s a ∗ handle_at m s ∗ buffer_at s)%I.

(** The string of a server that is replaced is lost. *)
Definition lost_server (name : string) (a : address) : hPropI :=
  (if String.eqb name "server" then
     match a.1 with Some x => ∃ l cap, l ↦{Libc} Chars cap x | None => emp end
   else emp)%I.

Lemma lost_lost_server name s a : lost name s a ⊢ lost_server name a.
Proof.
  unfold lost, lost_server, server_string. destruct (String.eqb name "server"); [|done].
  iIntros "H". destruct (hb_server s) as [l|], a.1; try by iDestruct "H" as %[].
  - iDestruct "H" as (cap) "H". iExists l, cap. iExact "H".
  - done.
Qed.

Lemma wp_owned_set_option malloced a name value r a' w Q :
  set_address name value a = (r, a') → short_address a' → reliable w →
  owned malloced a ∗ bl ↦{bo} b ∗
  (∀ w', ⟦ quiet w w' ⟧ -∗ owned malloced a' -∗ bl ↦{bo} b -∗ lost_server name a -∗ Q r w')
  ⊢ wp (burrow_backend_http_set_option (Some sl) name (Some value)) w Q.
Proof.
  iIntros (Ha Hs Hr) "((%s & %Hm & Hs & Hset & Hh) & Hb & HQ)".
  iApply (wp_http_set_option s a); [done..|]. iFrame "Hs Hb Hset".
  iIntros (s' w' (Hw & Hsame)) "Hs Hb Hset Hlost". iApply ("HQ" with "[//] [-Hb Hlost] Hb"); [|by iApply lost_lost_server].
  iExists s'. destruct Hsame as (H1 & H2 & H3). iFrame "Hs Hset". iSplitR; [by rw H3|].
  unfold handle_at, buffer_at. by rw H1 H2.
Qed.

(** Another transfer and another buffer do not matter. *)
Lemma settings_transfer s h ul body_only a :
  settings (with_transfer h ul (s <| hb_get_body_only := body_only |>)) a = settings s a.
Proof. by destruct s. Qed.
End life.

(** ** Creating it *)

Section create.
Context {curl : LibcurlMulti} {escape unescape : string → string} {server : request → list step}
  `{!CurlLaws curl escape unescape server}.
Context (bl : loc).

(** A backend without an address. *)
Definition newborn (malloced : bool) (m : positive) (s : burrow_backend_st) : Prop :=
  settled bl m s (None, "") ∧ hb_malloced s = malloced ∧
  hb_server s = NULL ∧ hb_baseurl s = NULL ∧ hb_chandle s = NULL ∧ hb_buffer s = NULL.

Lemma newborn_owns malloced m s :
  newborn malloced m s → multi m None ⊢ settings bl m s (None, "") ∗ handle_at m s ∗ buffer_at s.
Proof.
  iIntros ((Hs & _ & Hsrv & Hurl & Hh & Hb)) "Hm". unfold settings, server_string, url_string, handle_at, buffer_at.
  rw Hsrv Hurl Hh Hb. by iFrame.
Qed.

Lemma wp_initialize sl so s w Q :
  reliable w →
  sl ↦{so} s ∗
  (∀ m s' w', ⟦ evolves w [] w' ∧ newborn (hb_malloced s) m s' ⟧ -∗ sl ↦{so} s' -∗ multi m None -∗ Q (Some sl) w')
  ⊢ wp (initialize (Some sl) (Some bl)) w Q.
Proof using Type*.
  iIntros (Hr) "[Hs HQ]". unfold initialize. do 7 wmodify "Hs". wp_focus.
  iApply wp_curl_multi_init; [done|]. iIntros (m w' Hw) "Hm". wmodify "Hs". wret. iApply ("HQ" with "[%] Hs Hm").
  by split_and!.
Qed.

(** In memory of its own, or in memory the caller gives. *)
Lemma wp_http_create_new w Q :
  reliable w →
  (∀ sl m s w', ⟦ evolves w [] w' ∧ newborn true m s ⟧ -∗ sl ↦{Libc} s -∗ multi m None -∗ Q (Some sl) w')
  ⊢ wp (burrow_backend_http_create NULL (Some bl)) w Q.
Proof using Type*.
  iIntros (Hr) "HQ". unfold burrow_backend_http_create. simpl. wp_focus. iApply wp_malloc_reliable; [done|].
  iIntros (sl j w1 Hw1) "Hs". simpl. wmodify "Hs". wret. wp_focus.
  iApply wp_initialize; [by apply (reliable_evolves _ _ _ Hw1)|]. iFrame "Hs". iIntros (m s w2 (Hw2 & Hs)) "Hs Hm".
  iApply ("HQ" with "[%] Hs Hm"). split; [by apply (evolves_trans w [] w1 [])|done].
Qed.

Lemma wp_http_create_at sl so (s : burrow_backend_st) w Q :
  reliable w →
  sl ↦{so} s ∗
  (∀ m s' w', ⟦ evolves w [] w' ∧ newborn false m s' ⟧ -∗ sl ↦{so} s' -∗ multi m None -∗ Q (Some sl) w')
  ⊢ wp (burrow_backend_http_create (Some sl) (Some bl)) w Q.
Proof using Type*.
  iIntros (Hr) "[Hs HQ]". unfold burrow_backend_http_create. simpl. wmodify "Hs". wret.
  iApply wp_initialize; [done|]. iFrame.
Qed.
End create.
