(* ===== verification/BackendsSpec.v ===== *)
(** The memory and the dummy backend keep the promise of a backend that never
    waits (class [SyncBackend] of BurrowSpec.v). *)
From S2P Require Import Prelude Types Heap Macros Dictionary Memory Server Burrow Dummy Backends Logic MacrosSpec DictionarySpec Assoc TreeSpec MemorySpec.
From S2P Require Import MemoryScan MemoryLists MemoryMessages BurrowSpec WatchSpec.
From iris.proofmode Require Import proofmode.

(** Allocation never fails in this environment. *)
Definition ample (E : environment) : Prop := ∀ n, e_malloc E n = true ∧ e_user_malloc E n = true.

(** Commands that the memory backend runs without undefined behaviour whatever
    the messages: no filters or attributes to read, no body shorter than its
    size, and not the get_message command, which reads an expired message after
    freeing it. *)
Definition memory_accepts (c : burrow_command_st) : Prop :=
  cmd_filters c = NULL ∧ cmd_attributes c = NULL ∧ cmd_command c ≠ BURROW_CMD_GET_MESSAGE ∧
  match cmd_body c with Some s => (cmd_body_size c ≤ Z.of_nat (String.length s))%Z | None => True end.

(** A backend holding some server, next to what has been leaked. *)
Definition memory_invariant (bl ml : loc) (mo : owner) (sa : Z) (da : loc) (o : owner) : hPropI :=
  (∃ s, backend_at bl ml mo sa da ∗ accounts_at o bl da s ∗ True)%I.

Lemma memory_accepts_filled fn c old :
  memory_accepts c → memory_accepts old → memory_accepts (filled fn c old).
Proof.
  destruct c as [k ? ? ? ? ? ? ? ?], old. unfold memory_accepts, filled; simpl.
  intros (-> & -> & Hk & Hb) (-> & -> & _ & Hb'). by destruct k.
Qed.

Lemma update_message_result now set times a q id s :
  (update_message now set times a q id s).1.1 ≠ EAGAIN.
Proof.
  unfold update_message. destruct (message_of a q id s) as [[[[[]]]]|]; [|done].
  by destruct (expired _ _).
Qed.

(** ** The commands of the memory backend, with nothing but the invariant *)

Section memory_run.
Context (bl : loc) (bo : owner) (b : burrow_st) (Hcons : consistent b).
Context (ml : loc) (mo : owner) (sa : Z) (da : loc).
Abbreviation invariant := (memory_invariant bl ml mo sa da (alloc_owner b)).

Definition kept (w : world) (r : Z) (w' : world) : hPropI :=
  (⟦ r ≠ EAGAIN ∧ ∃ es, evolves w es w' ⟧ ∗ bl ↦{bo} b ∗ invariant)%I.

Lemma kept_intro w r w' s :
  r ≠ EAGAIN → (∃ es, evolves w es w') →
  bl ↦{bo} b ∗ backend_at bl ml mo sa da ∗ accounts_at (alloc_owner b) bl da s ∗ True ⊢ kept w r w'.
Proof. iIntros (Hr He) "($ & Hm & Hs & H)". iSplit; [done|]. iExists s. iFrame. Qed.

Lemma evolves_or_gave_up w es w' : evolves w es w' ∨ gave_up w w' → ∃ es, evolves w es w'.
Proof. intros [?|(_ & ? & ? & _)]; by eexists. Qed.

Lemma scanned_evolves w now cmd ty act sel times s s' w' :
  scanned b w now cmd ty act sel times s s' w' → ∃ es, evolves w es w'.
Proof. intros [[set [_ He]]|[Hg _]]; [by eexists|]. apply (evolves_or_gave_up w []). by right. Qed.

Context (cmd : burrow_command_st) (w : world) (Hr : reliable w).
Context (Hf : cmd_filters cmd = NULL) (Ha : cmd_attributes cmd = NULL).

(** Opening the invariant for a command's rule. *)
Tactic Notation "run" "by" uconstr(rule) := iIntros "[Hb (%s & Hm & Hs & Hj)]";
  iApply (rule _ with "[-]"); [done..|]; rw ?Hf ?Ha; iFrame "Hb Hm Hs";
  repeat (iSplitR; [done|]).

Lemma kept_get_accounts :
  bl ↦{bo} b ∗ invariant ⊢ wp (burrow_backend_memory_get_accounts (Some ml) cmd) w (kept w).
Proof using Type*.
  run by (wp_get_accounts bl bo b Hcons ml mo sa da cmd Libc None).
  iIntros (w' He%evolves_or_gave_up) "Hb Hm Hs _". iApply kept_intro; [done..|]. iFrame.
Qed.

Lemma kept_get_queues :
  bl ↦{bo} b ∗ invariant ⊢ wp (burrow_backend_memory_get_queues (Some ml) cmd) w (kept w).
Proof using Type*.
  run by (wp_get_queues bl bo b Hcons ml mo sa da cmd Libc None).
  iIntros (w' He%evolves_or_gave_up) "Hb Hm Hs _". iApply kept_intro; [done..|]. iFrame.
Qed.

Lemma kept_delete_accounts :
  bl ↦{bo} b ∗ invariant ⊢ wp (burrow_backend_memory_delete_accounts (Some ml) cmd) w (kept w).
Proof using Type*.
  run by (wp_delete_accounts bl bo b Hcons ml mo sa da cmd Libc None).
  iIntros (w' ts (He & _)) "Hb Hm Hs _". iApply kept_intro; [done|by eexists|]. iFrame.
Qed.

Lemma kept_delete_queues :
  bl ↦{bo} b ∗ invariant ⊢ wp (burrow_backend_memory_delete_queues (Some ml) cmd) w (kept w).
Proof using Type*.
  run by (wp_delete_queues bl bo b Hcons ml mo sa da cmd Libc None).
  iIntros (w' ts (He & _)) "Hb Hm Hs _". iApply kept_intro; [done|by eexists|]. iFrame.
Qed.

Lemma kept_scan ty act :
  bl ↦{bo} b ∗ invariant ⊢ wp (_scan_queue (Some ml) cmd ty act;; mret 0%Z) w (kept w).
Proof using Type*.
  rw -wp_bind. run by (wp_scan_queue bl bo b Hcons ml mo sa da cmd ty act Libc None Libc None).
  iIntros (s' w' He%scanned_evolves) "Hb Hm Hs _ _". wret. iApply kept_intro; [done..|]. iFrame.
Qed.

Lemma kept_update_message :
  bl ↦{bo} b ∗ invariant ⊢ wp (burrow_backend_memory_update_message (Some ml) cmd) w (kept w).
Proof using Type*.
  run by (wp_update_message bl bo b Hcons ml mo sa da cmd Libc None).
  iIntros (w' set He) "Hb Hm Hs _".
  iApply kept_intro; [apply update_message_result|by eexists|]. iFrame.
Qed.

Lemma kept_delete_message :
  bl ↦{bo} b ∗ invariant ⊢ wp (burrow_backend_memory_delete_message (Some ml) cmd) w (kept w).
Proof using Type*.
  run by (wp_delete_message bl bo b Hcons ml mo sa da cmd).
  iIntros (w' set He) "Hb Hm Hs". iApply kept_intro; [done|by eexists|]. iFrame.
Qed.

Lemma kept_create_message a q id bd :
  cmd_account cmd = Some a → cmd_queue cmd = Some q → cmd_message_id cmd = Some id →
  cmd_body cmd = Some bd → (cmd_body_size cmd ≤ Z.of_nat (String.length bd))%Z →
  bl ↦{bo} b ∗ invariant ⊢ wp (burrow_backend_memory_create_message (Some ml) cmd) w (kept w).
Proof using Type*.
  intros Ea Eq Ei Eb Hsz.
  run by (wp_create_message bl bo b Hcons ml mo sa da cmd a q id bd Libc None).
  iIntros (w' He) "Hb Hm Hs _ Hl". iApply kept_intro; [done|by eexists|]. iFrame "Hb Hm Hs".
Qed.
End memory_run.

Section instances.
Context (http : burrow_backend_functions_st).
#[local] Instance tables : Backends := backend_tables http.
Context (bl : loc) (bo : owner) (E : environment).

#[export] Instance memory_sync b0 ml mo sa da :
  consistent b0 → b_backend b0 = backend_memory → b_backend_context b0 = Some ml → ample E →
  SyncBackend bl bo b0 E memory_accepts (memory_invariant bl ml mo sa da (alloc_owner b0)).
Proof.
  intros Hc Hb Hctx HE.
  assert (functions_of b0 = burrow_backend_memory_functions) as Hfn by (unfold functions_of; by rw Hb).
  split.
  - intros k Hk. rw Hfn. destruct k; by eauto.
  - apply memory_accepts_filled.
  - by intros c (? & ? & _ & ?).
  - intros k f cmd st fl w Hf <- Hr (Hfi & Hat & Hget & Hbody) Hw. rw Hfn in Hf. rw Hctx.
    assert (reliable w) as Hrel by (intros n; rw Hw; apply HE).
    assert (consistent (at_state b0 st fl cmd)) as Hc' by done.
    destruct (cmd_command cmd) eqn:Ek; try done; injection Hf as <-.
    + by apply (kept_get_accounts bl bo _ Hc').
    + by apply (kept_delete_accounts bl bo _ Hc').
    + by apply (kept_get_queues bl bo _ Hc').
    + by apply (kept_delete_queues bl bo _ Hc').
    + by apply (kept_scan bl bo _ Hc').
    + by apply (kept_scan bl bo _ Hc').
    + by apply (kept_scan bl bo _ Hc').
    + by apply (kept_update_message bl bo _ Hc').
    + by apply (kept_delete_message bl bo _ Hc').
    + unfold required in Hr. rw Ek in Hr.
      destruct (cmd_account cmd) as [a|] eqn:Ea, (cmd_queue cmd) as [q|] eqn:Eq,
        (cmd_message_id cmd) as [id|] eqn:Ei, (cmd_body cmd) as [bd|] eqn:Eb; try done.
      by eapply (kept_create_message bl bo _ Hc').
Qed.

#[export] Instance dummy_sync b0 :
  b_backend b0 = backend_dummy → SyncBackend bl bo b0 E (λ _, True) emp.
Proof.
  intros Hb.
  assert (functions_of b0 = burrow_backend_dummy_functions) as Hfn by (unfold functions_of; by rw Hb).
  split; try done.
  - intros k Hk. rw Hfn. destruct k; by eauto.
  - intros k f cmd st fl w Hf _ _ _ _. rw Hfn in Hf. iIntros "[Hb _]".
    assert (∀ p, f p cmd = mret 0%Z) as -> by (by intros p; destruct k; simplify_eq/=).
    wret. iFrame "Hb". iPureIntro.
    split; [done|]. eexists. apply evolves_refl.
Qed.
#[export] Instance dummy_events b0 :
  b_backend b0 = backend_dummy → EventBackend bl bo b0 (λ _, emp%I).
Proof.
  intros Hb. exists burrow_backend_dummy_event_raised. split; [unfold functions_of; by rw Hb|].
  intros fd ev st fl cmd evs w. iIntros "[Hb _]". unfold burrow_backend_dummy_event_raised. wret.
  iFrame "Hb". iPureIntro. split; [by left|]. exists []. split; [apply evolves_refl|constructor].
Qed.
End instances.
