(* ===== verification/ServerFacts.v ===== *)
(** Consequences of the abstract server's definition: when deleting everything
    leaves nothing. *)
From S2P Require Import Prelude Types Heap Macros Dictionary Memory Server Logic MacrosSpec DictionarySpec Assoc TreeSpec MemorySpec MemoryLists.
From iris.proofmode Require Import proofmode.

(** ** Deleting everything *)

(** No more entries than a [uint32_t] can count. *)
Definition countable {A} (l : list A) : Prop := (Z.of_nat (length l) < 4294967296)%Z.

Lemma range_everything {A} (l : list (string * A)) :
  countable l → range_in (sel_marker everything) (sel_limit everything) l = l ∧
  range_before (sel_marker everything) l = [] ∧
  range_after (sel_marker everything) (sel_limit everything) l = [].
Proof.
  intros Hl. unfold range_in, range_before, range_after, range_count; simpl.
  rw u32_small; [|unfold countable in Hl; lia]. rw Nat2Z.id drop_0 firstn_all drop_all. done.
Qed.

(** Queues whose messages were never given a hide. *)
Definition plain_queues (qs : queues) : Prop :=
  countable qs ∧ Forall (λ qms, countable qms.2 ∧ Forall (λ im, msg_hide im.2 = 0%Z) qms.2) qs.

(** Accounts of such queues, each with at least one. *)
Definition plain_server (s : server) : Prop :=
  countable s ∧ Forall (λ aqs, aqs.2 ≠ [] ∧ plain_queues aqs.2) s.

Lemma scan_everything now set im :
  (0 ≤ now)%Z → msg_hide im.2 = 0%Z →
  scan_left now (sel_hidden everything) 0 0 DELETE IGNORE set im = [].
Proof.
  intros Hnow Hh. unfold scan_left, scan_one, hidden. rw Hh (proj2 (Z.ltb_ge _ _)) //.
  by destruct (expired now im.2).
Qed.

(** One plain queue at the head of the first account. *)
Lemma delete_plain_queue now a q (ms : messages) (qs : queues) (s : server) :
  (0 ≤ now)%Z → countable ms → Forall (λ im, msg_hide im.2 = 0%Z) ms →
  (scan_queue now everything (0, 0)%Z DELETE IGNORE 0 (Some a) (Some q)
     ((a, (q, ms) :: qs) :: s)).1 =
  match qs with [] => s | _ => (a, qs) :: s end.
Proof.
  intros Hnow Hc Hms. unfold scan_queue.
  assert (queue_of (Some a) (Some q) ((a, (q, ms) :: qs) :: s) = Some (a, q, ms)) as ->.
  { unfold queue_of; cbn. by rw !String.eqb_refl /= String.eqb_refl. }
  destruct (range_everything ms Hc) as (-> & -> & ->). cbn [fst snd].
  assert (flat_map (scan_left now (sel_hidden everything) 0 0 DELETE IGNORE 0) ms = []) as ->.
  { induction Hms as [|im ms Him Hms IH]; [done|]. cbn [flat_map].
    rw scan_everything // IH //. unfold countable in *; simpl in *; lia. }
  unfold put_queue; cbn. rw !String.eqb_refl /= String.eqb_refl. by destruct qs.
Qed.

Lemma delete_plain_queues times a (qs : queues) (s : server) :
  length times = length qs → Forall (λ t, 0 ≤ t)%Z times →
  Forall (λ qms, countable qms.2 ∧ Forall (λ im, msg_hide im.2 = 0%Z) qms.2) qs →
  delete_queue_list times (Some a) qs.*1 ((a, qs) :: s) =
  match qs with [] => (a, []) :: s | _ => s end.
Proof.
  revert times. induction qs as [|[q ms] qs IH]; intros [|t times] Hl Ht Hqs; try done.
  apply Forall_cons in Ht as [Ht Hts], Hqs as [[Hc Hms] Hqs]. cbn [delete_queue_list fmap list_fmap fst].
  rw delete_plain_queue //. destruct qs as [|qm qs].
  - by destruct times.
  - rw IH //. by injection Hl.
Qed.

(** A plain server is emptied by the deletion of all its accounts. *)
Lemma delete_plain_server tss (s : server) :
  Forall (λ aqs, aqs.2 ≠ [] ∧ plain_queues aqs.2) s →
  times_fit tss s.*1 s → Forall (Forall (λ t, 0 ≤ t)%Z) tss →
  delete_account_list tss s.*1 s = [].
Proof.
  intros Hs. revert tss. induction Hs as [|[a qs] s [Hne [Hc Hqs]] Hs IH]; intros [|ts tss] Hfit Ht;
    try done.
  assert (queue_names everything (Some a) ((a, qs) :: s) = qs.*1) as En.
  { unfold queue_names. cbn [alookup]. rw String.eqb_refl.
    by destruct (range_everything qs Hc) as (-> & _ & _). }
  destruct Hfit as [Hl Hfit]. apply Forall_cons in Ht as [Ht Hts].
  cbn [delete_account_list fmap list_fmap fst] in *. rw En in Hl. rw En in Hfit. rw En.
  rw length_fmap in Hl. rw delete_plain_queues // in Hfit. rw delete_plain_queues //.
  destruct qs as [|qm qs]; [done|]. by apply IH.
Qed.

(** The same for the clock readings of a run. *)
Lemma delete_everything_plain w w' tss (s : server) :
  plain_server s → times_fit tss (account_names everything s) s → Forall (Forall (clock w w')) tss →
  delete_account_list tss (account_names everything s) s = [].
Proof.
  intros [Hc Hs] Hfit Ht. unfold account_names in *.
  destruct (range_everything s Hc) as (E & _ & _). rw E in Hfit. rw E.
  apply delete_plain_server; [done..|].
  eapply Forall_impl; [exact Ht|]. intros ts Hts. eapply Forall_impl; [exact Hts|].
  intros t (n & _ & ->). apply u32_range.
Qed.
