(* ===== verification/DictionaryProps.v ===== *)
(** The properties of the dictionary of the memory backend, each with a concrete
    dictionary it applies to. *)
From S2P Require Import Prelude Types Heap Macros Dictionary Logic MacrosSpec DictionarySpec.
From iris.proofmode Require Import proofmode.

(** ** A concrete world and dictionary *)

Module Samples.
Definition no_command : burrow_command_st :=
  Command BURROW_CMD_NONE None None None None None 0 NULL NULL.

(** A burrow on libc's allocator that logs to standard output. *)
Definition sample_burrow : burrow_st :=
  Burrow 0 0 BURROW_VERBOSE_ALL BURROW_STATE_IDLE no_command NULL
    (Some 1%positive) (Some 2%positive) (Some 3%positive) None None None None None
    backend_memory NULL 0 0 0 NULL NULL NULL.

(** Allocation succeeds as [ok] says; the clock stands at 1000. *)
Definition sample_world (ok : nat → bool) : world :=
  World (Env ok ok (λ _, 7%Z) (λ _, 1000%Z) (λ _ _, PollTimeout) (λ _, [])) 0 [].

(** Three entries, the data of the last one missing. *)
Definition sample_entries : list entry :=
  [Entry 3 4 "a" (Some 30%positive); Entry 5 6 "b" (Some 31%positive); Entry 7 8 "c" NULL].

Definition sample_blocks : list (loc * (owner * Types.block)) :=
  [(1, (Libc, BBurrow sample_burrow));
   (2, (Libc, BDictionary (Dictionary (Some 3) (Some 7) 3%Z (Some 1))));
   (3, (Libc, BNode (DictNode (Some 4) NULL (Some 5) (Some 30))));
   (4, (Libc, BChars (Chars 2 "a")));
   (5, (Libc, BNode (DictNode (Some 6) (Some 3) (Some 7) (Some 31))));
   (6, (Libc, BChars (Chars 2 "b")));
   (7, (Libc, BNode (DictNode (Some 8) (Some 5) NULL NULL)));
   (8, (Libc, BChars (Chars 2 "c")))]%positive.
Definition sample_heap : heap := list_to_map sample_blocks.

Lemma sample_holds :
  holds (1%positive ↦{Libc} sample_burrow ∗ dict Libc 1 2 sample_entries)%I sample_heap.
Proof.
  apply blocks_holds; [reflexivity|]. simpl.
  iIntros "($ & Hd & Hn1 & Hk1 & Hn2 & Hk2 & Hn3 & Hk3 & _)".
  unfold dict, node_at; simpl. iFrame.
Qed.

Lemma sample_keys : NoDup (e_key <$> sample_entries).
Proof. apply (bool_decide_eq_true_1 (NoDup _)). reflexivity. Qed.

Lemma sample_reliable : reliable (sample_world (λ _, true)).
Proof. by intros n. Qed.
End Samples.

Import Samples.

(** ** Properties *)

(** Dictionary_get with SEARCH returns the node of the first entry with the
    key, [NULL] when there is none; the dictionary is untouched and nothing is
    observed. *)
Theorem dictionary_get_search o bl d es k w :
  triple (dict o bl d es) (dictionary_get (Some d) (Some k) SEARCH) w
    (λ r w', ⟦ r = e_node <$> find_entry k es ∧ w' = w ⟧ ∗ dict o bl d es)%I.
Proof.
  apply triple_intro. iIntros "Hd". iApply wp_dictionary_get. iFrame "Hd". by iIntros "$".
Qed.

(** C37: dictionary_add. With memory for it, the new entry (key copied, data as
    given) is appended and its node returned; when an allocation fails, the
    dictionary is as it was, everything allocated on the way has been freed,
    and [NULL] is returned. *)
Theorem dictionary_add_correct bl bo b d es k data w :
  consistent b →
  triple (bl ↦{bo} b ∗ dict (alloc_owner b) bl d es)%I
    (dictionary_add (Some d) (Some k) data) w
    (λ r w', bl ↦{bo} b ∗
       ((∃ n kb, ⟦ r = Some n ∧ evolves w [] w' ⟧ ∗
           dict (alloc_owner b) bl d (es ++ [Entry n kb k data])) ∨
        (⟦ r = NULL ∧ gave_up w w' ⟧ ∗ dict (alloc_owner b) bl d es)))%I.
Proof.
  intros Hc. apply triple_intro. iIntros "[Hb Hd]".
  iApply wp_dictionary_add; [done|]. iFrame "Hb Hd". iSplit.
  - iIntros (n kb w' He) "$ Hd". iLeft. iExists n, kb. by iFrame.
  - iIntros (w' Hg) "$ Hd". iRight. by iFrame.
Qed.

Theorem dictionary_add_correct_witness :
  ∃ r w' h', dictionary_add (Some 2%positive) (Some "d") NULL (sample_world (λ _, true)) sample_heap
    = Ret r w' h' ∧ r ≠ NULL.
Proof.
  destruct (triple_run _ _ _ _ _ (dictionary_add_correct 1 Libc sample_burrow 2 sample_entries "d" NULL
    (sample_world (λ _, true)) eq_refl) sample_holds) as (r & w' & h' & E & H).
  exists r, w', h'. split; [exact E|]. vm_compute in E. by injection E as <- _ _.
Defined.

(** Dictionary_delete_node frees exactly the node and the key of the first
    entry with the key and links its neighbours; the other entries keep their
    order. A key that is not there changes nothing. *)
Theorem dictionary_delete_node_correct bl bo b d es k w :
  consistent b →
  triple (bl ↦{bo} b ∗ dict (alloc_owner b) bl d es)%I
    (dictionary_delete_node (Some d) (Some k)) w
    (λ _ w', ⟦ w' = w ⟧ ∗ bl ↦{bo} b ∗ dict (alloc_owner b) bl d (remove_entry k es))%I.
Proof.
  intros Hc. apply triple_intro. iIntros "[Hb Hd]".
  iApply wp_dictionary_delete_node; [done|]. iFrame "Hb Hd". by iIntros "$ $".
Qed.

Theorem dictionary_delete_node_correct_witness :
  ∃ w' h', dictionary_delete_node (Some 2%positive) (Some "b") (sample_world (λ _, true)) sample_heap
    = Ret tt w' h' ∧
    holds (1%positive ↦{Libc} sample_burrow ∗
           dict Libc 1 2 [Entry 3 4 "a" (Some 30%positive); Entry 7 8 "c" NULL])%I h'.
Proof.
  destruct (triple_run _ _ _ _ _ (dictionary_delete_node_correct 1 Libc sample_burrow 2
    sample_entries "b" (sample_world (λ _, true)) eq_refl) sample_holds) as ([] & w' & h' & E & H).
  exists w', h'. split; [exact E|]. revert H. apply hent. iIntros "(_ & $ & $)".
Defined.

(** C38: dictionary_delete removes the entries from the marker on (from the first
    when the marker is absent), as many as the bound says, all of them when it is
    negative, and keeps the others in order; it frees what it removes and ends
    in every case. *)
Theorem dictionary_delete_correct bl bo b d es marker u w :
  consistent b → NoDup (e_key <$> es) →
  triple (bl ↦{bo} b ∗ dict (alloc_owner b) bl d es)%I
    (dictionary_delete (Some d) marker u) w
    (λ _ w', ⟦ w' = w ⟧ ∗ bl ↦{bo} b ∗
       dict (alloc_owner b) bl d
         (range_skip marker es ++ drop_bound u (range_from marker es)))%I.
Proof.
  intros Hc Hnd. apply triple_intro. iIntros "[Hb Hd]".
  iApply wp_dictionary_delete; [done..|]. iFrame "Hb Hd". by iIntros "$ $".
Qed.

Theorem dictionary_delete_correct_witness :
  ∃ w' h', dictionary_delete (Some 2%positive) (Some "b") 1 (sample_world (λ _, true)) sample_heap
    = Ret tt w' h' ∧
    holds (1%positive ↦{Libc} sample_burrow ∗
           dict Libc 1 2 [Entry 3 4 "a" (Some 30%positive); Entry 7 8 "c" NULL])%I h'.
Proof.
  destruct (triple_run _ _ _ _ _ (dictionary_delete_correct 1 Libc sample_burrow 2
    sample_entries (Some "b") 1 (sample_world (λ _, true)) eq_refl
    sample_keys) sample_holds) as ([] & w' & h' & E & H).
  exists w', h'. split; [exact E|]. revert H. apply hent. iIntros "(_ & $ & $)".
Defined.

(** dictionary_iter leaves the dictionary as it was and returns a new one
    with the same keys and data pointers for the entries of the range (from the
    marker on, at most the bound, 0 standing for all); when an allocation fails
    it returns an empty dictionary or [NULL]. *)
Theorem dictionary_iter_correct bl bo b d es marker u w :
  consistent b → (0 ≤ u)%Z → NoDup (e_key <$> es) →
  triple (bl ↦{bo} b ∗ dict (alloc_owner b) bl d es)%I
    (dictionary_iter (Some d) marker u) w
    (λ r w', bl ↦{bo} b ∗ dict (alloc_owner b) bl d es ∗
       ((∃ it es', ⟦ r = Some it ∧ evolves w [] w' ∧
           payload es' = payload (take (iter_bound u es) (range_from marker es)) ⟧ ∗
           dict (alloc_owner b) bl it es') ∨
        (∃ it, ⟦ r = Some it ∧ gave_up w w' ⟧ ∗ dict (alloc_owner b) bl it []) ∨
        ⟦ r = NULL ∧ gave_up w w' ⟧))%I.
Proof.
  intros Hc Hu Hnd. apply triple_intro. iIntros "[Hb Hd]".
  iApply wp_dictionary_iter; [done..|]. iFrame "Hb Hd". iSplit.
  - iIntros (it es' w' [[He Hp]|[Hg ->]]) "$ $ Hi"; [iLeft|iRight; iLeft]; by iFrame.
  - iIntros (w' Hg) "$ $". iRight. by iRight.
Qed.

Theorem dictionary_iter_correct_witness :
  ∃ r w' h', dictionary_iter (Some 2%positive) (Some "b") 0 (sample_world (λ _, true)) sample_heap
    = Ret r w' h' ∧
    holds (1%positive ↦{Libc} sample_burrow ∗ dict Libc 1 2 sample_entries ∗
      ∃ it es', ⟦ r = Some it ∧ payload es' = [("b", Some 31%positive); ("c", NULL)] ⟧ ∗
                dict Libc 1 it es')%I h'.
Proof.
  destruct (triple_run _ _ _ _ _ (dictionary_iter_correct 1 Libc sample_burrow 2
    sample_entries (Some "b") 0 (sample_world (λ _, true)) eq_refl (Z.le_refl 0)
    sample_keys) sample_holds) as (r & w' & h' & E & H).
  exists r, w', h'. split; [exact E|]. revert H. apply hent. iIntros "($ & $ & [H|[H|H]])".
  - iDestruct "H" as (it es' (Hr & _ & Hp)) "H". iExists it, es'.
    iFrame "H". iPureIntro. split; [exact Hr|]. rw Hp. vm_compute. reflexivity.
  - iDestruct "H" as (it (_ & Hg & _)) "H". by destruct (Hg sample_reliable).
  - iDestruct "H" as %(_ & Hg & _). by destruct (Hg sample_reliable).
Defined.
