(* ===== verification/ManagedProps.v ===== *)
(** Properties of attributes.c and filters.c. *)
From S2P Require Import Prelude Types Heap Macros Managed Attributes Filters Logic MacrosSpec DictionarySpec ManagedSpec DictionaryProps.
From iris.proofmode Require Import proofmode.
Import Samples.

(** ** Flags *)

Lemma has_flag_testbit set flag n :
  (0 ≤ n)%Z → flag = (2 ^ n)%Z → has_flag set flag = Z.testbit set n.
Proof.
  intros Hn ->. unfold has_flag. destruct (Z.testbit set n) eqn:E.
  - apply negb_true_iff, Z.eqb_neq. intros Hz.
    apply (f_equal (λ z, Z.testbit z n)) in Hz. by rw Z.land_spec E Z.pow2_bits_true // Z.bits_0 in Hz.
  - apply negb_false_iff, Z.eqb_eq. apply Z.bits_inj'. intros k Hk.
    rw Z.land_spec Z.bits_0. destruct (decide (k = n)) as [->|Hne]; [by rw E|].
    rw Z.pow2_bits_false; [|congruence]. apply andb_false_r.
Qed.

(** The four flags of filters, by bit. *)
Definition filter_flags : list Z :=
  [BURROW_FILTERS_MATCH_HIDDEN; BURROW_FILTERS_LIMIT; BURROW_FILTERS_DETAIL; BURROW_FILTERS_WAIT].

Lemma filter_flag_bit flag :
  flag ∈ filter_flags → ∃ n, (0 ≤ n)%Z ∧ flag = (2 ^ n)%Z.
Proof.
  unfold filter_flags. rw !elem_of_cons elem_of_nil.
  intros [->|[->|[->|[->|[]]]]]; [exists 0%Z|exists 1%Z|exists 2%Z|exists 3%Z]; done.
Qed.

Lemma flag_after_raise set flag flag' :
  flag ∈ filter_flags → flag' ∈ filter_flags →
  has_flag (Z.lor set flag) flag' = (has_flag set flag' || bool_decide (flag = flag')).
Proof.
  intros (n & Hn & ->)%filter_flag_bit (n' & Hn' & ->)%filter_flag_bit.
  rw !(has_flag_testbit _ _ n') // Z.lor_spec. f_equal.
  destruct (decide (n = n')) as [->|Hne].
  - rw Z.pow2_bits_true // bool_decide_eq_true_2 //.
  - rw Z.pow2_bits_false // bool_decide_eq_false_2 //.
    intros E. apply Hne. apply (Z.pow_inj_r 2); [lia|done|done|done].
Qed.

Lemma flag_after_lower set flag flag' :
  flag ∈ filter_flags → flag' ∈ filter_flags →
  has_flag (Z.land set (Z.lnot flag)) flag' = (has_flag set flag' && bool_decide (flag ≠ flag')).
Proof.
  intros (n & Hn & ->)%filter_flag_bit (n' & Hn' & ->)%filter_flag_bit.
  rw !(has_flag_testbit _ _ n') // Z.land_spec Z.lnot_spec //. f_equal.
  destruct (decide (n = n')) as [->|Hne].
  - rw Z.pow2_bits_true // bool_decide_eq_false_2 //. by intros [].
  - rw Z.pow2_bits_false // bool_decide_eq_true_2 //.
    intros E. apply Hne. apply (Z.pow_inj_r 2); [lia|done|done|done].
Qed.

(** ** The filters of a range, by name *)

Inductive filter_field := FieldMatchHidden | FieldLimit | FieldDetail | FieldWait.

#[export] Instance filter_field_eq_dec : EqDecision filter_field.
Proof. solve_decision. Defined.

Definition field_flag (a : filter_field) : Z :=
  match a with
  | FieldMatchHidden => BURROW_FILTERS_MATCH_HIDDEN | FieldLimit => BURROW_FILTERS_LIMIT
  | FieldDetail => BURROW_FILTERS_DETAIL | FieldWait => BURROW_FILTERS_WAIT
  end.

Lemma field_flag_in a : field_flag a ∈ filter_flags.
Proof. destruct a; apply (bool_decide_eq_true_1 _); reflexivity. Qed.

Lemma field_flag_eq a a' : bool_decide (field_flag a = field_flag a') = bool_decide (a = a').
Proof. by destruct a, a'. Qed.

Definition isset_of (a : filter_field) : ptr → M bool :=
  match a with
  | FieldMatchHidden => burrow_filters_isset_match_hidden
  | FieldLimit => burrow_filters_isset_limit
  | FieldDetail => burrow_filters_isset_detail
  | FieldWait => burrow_filters_isset_wait
  end.
Definition unset_of (a : filter_field) : ptr → M unit :=
  match a with
  | FieldMatchHidden => burrow_filters_unset_match_hidden
  | FieldLimit => burrow_filters_unset_limit
  | FieldDetail => burrow_filters_unset_detail
  | FieldWait => burrow_filters_unset_wait
  end.
(** The setters, given a value of each kind. *)
Definition set_of (a : filter_field) (mh : bool) (n : Z) (d : burrow_detail_t) (p : ptr) : M unit :=
  match a with
  | FieldMatchHidden => burrow_filters_set_match_hidden p mh
  | FieldLimit => burrow_filters_set_limit p n
  | FieldDetail => burrow_filters_set_detail p d
  | FieldWait => burrow_filters_set_wait p n
  end.

(** What a setter stores, next to its flag. *)
Definition stored (a : filter_field) (mh : bool) (n : Z) (d : burrow_detail_t) (f : burrow_filters_st)
    : burrow_filters_st :=
  match a with
  | FieldMatchHidden => f <| fi_match_hidden := mh |>
  | FieldLimit => f <| fi_limit := n |>
  | FieldDetail => f <| fi_detail := d |>
  | FieldWait => f <| fi_wait := n |>
  end.

Lemma wp_isset_of a x ow f w Q :
  x ↦{ow} f ∗ (x ↦{ow} f -∗ Q (has_flag (fi_set f) (field_flag a)) w) ⊢ wp (isset_of a (Some x)) w Q.
Proof.
  iIntros "[Hx HQ]".
  destruct a; simpl; unfold burrow_filters_isset_match_hidden, burrow_filters_isset_limit,
    burrow_filters_isset_detail, burrow_filters_isset_wait, test_flag;
    wload "Hx"; wret; by iApply "HQ".
Qed.

(** The filters' setters store their value and make exactly their own field
    set; unsetting a field makes it unset and leaves the other three as they
    were. *)
Theorem filters_set_isset a a' mh n d x ow f w :
  triple (x ↦{ow} f) (set_of a mh n d (Some x);; isset_of a' (Some x)) w
    (λ r w', ⟦ w' = w ∧ r = (has_flag (fi_set f) (field_flag a') || bool_decide (a = a')) ⟧ ∗
       x ↦{ow} (stored a mh n d f <| fi_set := Z.lor (fi_set f) (field_flag a) |>))%I ∧
  triple (x ↦{ow} f) (unset_of a (Some x);; isset_of a' (Some x)) w
    (λ r w', ⟦ w' = w ∧ r = (has_flag (fi_set f) (field_flag a') && bool_decide (a ≠ a')) ⟧ ∗
       x ↦{ow} (f <| fi_set := Z.land (fi_set f) (Z.lnot (field_flag a)) |>))%I.
Proof.
  pose proof (flag_after_raise (fi_set f) _ _ (field_flag_in a) (field_flag_in a')) as Hr.
  pose proof (flag_after_lower (fi_set f) _ _ (field_flag_in a) (field_flag_in a')) as Hl.
  rw field_flag_eq in Hr.
  assert (bool_decide (field_flag a ≠ field_flag a') = bool_decide (a ≠ a')) as E by by destruct a, a'.
  rw E in Hl. split; apply triple_intro; iIntros "Hx"; wp_focus.
  - iApply (wp_wand _ _ (λ _ w', ⟦ w' = w ⟧ ∗ x ↦{ow} (stored a mh n d f
      <| fi_set := Z.lor (fi_set f) (field_flag a) |>))%I with "[Hx]").
    { destruct a; simpl; unfold burrow_filters_set_match_hidden, burrow_filters_set_limit,
        burrow_filters_set_detail, burrow_filters_set_wait, raise_flag; wmodify "Hx"; wmodify "Hx";
        by iFrame. }
    iIntros ([] w') "[-> Hx]". iApply wp_isset_of. iFrame "Hx". iIntros "$". iPureIntro.
    split; [done|]. rw -Hr. by destruct a.
  - iApply (wp_wand _ _ (λ _ w', ⟦ w' = w ⟧ ∗ x ↦{ow} (f
      <| fi_set := Z.land (fi_set f) (Z.lnot (field_flag a)) |>))%I with "[Hx]").
    { destruct a; simpl; unfold burrow_filters_unset_match_hidden, burrow_filters_unset_limit,
        burrow_filters_unset_detail, burrow_filters_unset_wait, lower_flag; wmodify "Hx";
        by iFrame. }
    iIntros ([] w') "[-> Hx]". iApply wp_isset_of. iFrame "Hx". iIntros "$". iPureIntro.
    split; [done|]. rw -Hl. done.
Qed.

(** ** Creation, copies and destruction *)

(** One step of a copy: a field of the source [x] read and given to the new
    object [y], in front of the list. *)
Ltac copy_value y x v g :=
  wp_focus;
  match goal with
  | |- context [manages ?bl ?bo ?b ((y, ?u) :: ?l1 ++ (x, v) :: ?l2)] =>
      iApply (wp_load_managed bl bo b ((y, u) :: l1) x v l2); iFrame "Hm"; iIntros (? ?) "Hm"; simpl;
      wp_focus; iApply (wp_modify_managed bl bo _ g b [] y u (l1 ++ (x, v) :: l2)); [done|];
      iFrame "Hm"; iIntros "Hm"; simpl
  end.

Section attributes.
Context (bl : loc) (bo : owner).
Abbreviation manages_attributes := (manages (T := burrow_attributes_st) (V := attributes_value) bl bo).
Abbreviation manages_filters := (manages (T := burrow_filters_st) (V := filters_value) bl bo).

Definition no_attributes : attributes_value := AttributesValue 0 0 0.

Lemma wp_attributes_create b l w Q :
  manages_attributes b l ∗
  ((∀ x w', ⟦ evolves w [] w' ⟧ -∗
      manages_attributes (b <| b_attributes_list := Some x |>) ((x, no_attributes) :: l) -∗ Q (Some x) w') ∧
   (∀ w', ⟦ gave_up w w' ⟧ -∗ manages_attributes b l -∗ Q NULL w'))
  ⊢ wp (burrow_attributes_create NULL (Some bl)) w Q.
Proof.
  iIntros "[Hm HQ]". unfold burrow_attributes_create. wp_focus.
  iApply wp_managed_create. iFrame "Hm". iSplit.
  - iIntros (x v w' He) "Hm". simpl.
    iDestruct (manages_access _ _ _ [] with "Hm") as (n p) "[Hx Hm]". simpl.
    wmodify "Hx". wmodify "Hx". wmodify "Hx". wret.
    iDestruct "HQ" as "[HQ _]". iApply ("HQ" with "[//]").
    iApply ("Hm" $! no_attributes with "Hx").
  - iIntros (w' [Hr He]) "Hm". simpl. wret. iDestruct "HQ" as "[_ HQ]".
    iApply ("HQ" with "[%] Hm"). split; [done|]. by exists [].
Qed.

(** Burrow_attributes_create for a burrow allocates an empty attributes
    structure and puts it in front of the burrow's list; without memory it
    returns [NULL] and changes nothing. *)
Theorem attributes_create_correct b l w :
  triple (manages_attributes b l) (burrow_attributes_create NULL (Some bl)) w
    (λ r w', (∃ x, ⟦ r = Some x ∧ evolves w [] w' ⟧ ∗
        manages_attributes (b <| b_attributes_list := Some x |>) ((x, no_attributes) :: l)) ∨
      (⟦ r = NULL ∧ gave_up w w' ⟧ ∗ manages_attributes b l))%I.
Proof.
  apply triple_intro. iIntros "Hm". iApply wp_attributes_create. iFrame "Hm". iSplit.
  - iIntros (x w' He) "Hm". iLeft. iExists x. by iFrame.
  - iIntros (w' Hg) "Hm". iRight. by iFrame.
Qed.

(** Burrow_attributes_clone gives the burrow of the source one more
    attributes structure, equal to the source, which stays as it was. *)
Theorem attributes_clone_correct b l1 x v l2 w :
  triple (manages_attributes b (l1 ++ (x, v) :: l2)) (burrow_attributes_clone NULL (Some x)) w
    (λ r w', (∃ y, ⟦ r = Some y ∧ evolves w [] w' ⟧ ∗
        manages_attributes (b <| b_attributes_list := Some y |>) ((y, v) :: l1 ++ (x, v) :: l2)) ∨
      (⟦ r = NULL ∧ gave_up w w' ⟧ ∗ manages_attributes b (l1 ++ (x, v) :: l2)))%I.
Proof.
  apply triple_intro. iIntros "Hm". unfold burrow_attributes_clone.
  wp_focus. iApply wp_load_managed. iFrame "Hm". iIntros (n p) "Hm". wp_focus.
  iApply wp_attributes_create. iFrame "Hm". iSplit; [|iIntros (w' Hg) "Hm"; wret; iRight; by iFrame].
  iIntros (y w' He) "Hm". simpl.
  copy_value y x v (λ u : attributes_value, AttributesValue (av_set u) (av_ttl v) (av_hide u)).
  copy_value y x v (λ u : attributes_value, AttributesValue (av_set u) (av_ttl u) (av_hide v)).
  copy_value y x v (λ u : attributes_value, AttributesValue (av_set v) (av_ttl u) (av_hide u)).
  simpl. wret. iLeft. iExists y. iSplit; [done|]. by destruct v.
Qed.

(** C36: burrow_filters_destroy takes the filters out of the burrow's list, which
    keeps the others in order, and frees them. *)
Theorem filters_destroy_correct b l1 x v l2 w :
  consistent b →
  triple (manages_filters b (l1 ++ (x, v) :: l2)) (burrow_filters_destroy (Some x)) w
    (λ _ w', ⟦ w' = w ⟧ ∗
       manages_filters (b <| b_filters_list := head_of (l1 ++ l2) |>) (l1 ++ l2))%I.
Proof.
  intros Hc. apply triple_intro. iIntros "Hm". iApply wp_managed_destroy; [done|].
  iFrame "Hm". iIntros (b' ->) "Hm". iSplit; [done|]. iExact "Hm".
Qed.
End attributes.

(** Three filters of one burrow; the second goes. *)
Definition sample_filters (n : Z) : filters_value := FiltersValue 2 false n None BURROW_DETAIL_NONE 0.
Definition filters_burrow : burrow_st := sample_burrow <| b_filters_list := Some 2%positive |>.
Definition filters_blocks : list (loc * (owner * Types.block)) :=
  [(1, (Libc, BBurrow filters_burrow));
   (2, (Libc, BFilters (build (sample_filters 1) (Some 1) (Some 3) NULL)));
   (3, (Libc, BFilters (build (sample_filters 2) (Some 1) (Some 4) (Some 2))));
   (4, (Libc, BFilters (build (sample_filters 3) (Some 1) NULL (Some 3))))]%positive.

Theorem filters_destroy_correct_witness :
  ∃ w' h', burrow_filters_destroy (Some 3%positive) (sample_world (λ _, true)) (list_to_map filters_blocks)
    = Ret tt w' h' ∧
    holds (manages (T := burrow_filters_st) (V := filters_value) 1 Libc filters_burrow
             [(2%positive, sample_filters 1); (4%positive, sample_filters 3)]) h'.
Proof.
  destruct (triple_run _ _ _ _ (list_to_map filters_blocks) (filters_destroy_correct 1 Libc filters_burrow
    [(2%positive, sample_filters 1)] 3 (sample_filters 2) [(4%positive, sample_filters 3)]
    (sample_world (λ _, true)) eq_refl)) as ([] & w' & h' & E & H).
  { apply blocks_holds; [reflexivity|]. iIntros "($ & H2 & H3 & H4 & _)". simpl.
    iFrame "H2 H3 H4". done. }
  exists w', h'. split; [exact E|]. revert H. apply hent. by iIntros "(_ & $)".
Defined.
