(* ===== verification/MemorySample.v ===== *)
(** A concrete server in a concrete heap, which the properties of the memory
    backend are applied to. *)
From S2P Require Import Prelude Types Heap Macros Dictionary Memory Server Logic MacrosSpec DictionarySpec Assoc TreeSpec MemorySpec.
From S2P Require Import DictionaryProps.
From iris.proofmode Require Import proofmode.
Import Samples.

(** One queue with a message to read, an expired one and a hidden one; the clock
    of [sample_world] stands at 1000. *)
Definition sample_messages : messages :=
  [("m1", Msg "hello" 5 2000 0); ("m2", Msg "old" 3 900 0); ("m3", Msg "shy" 3 2000 1500)]%Z.
Definition sample_server : server := [("acct", [("q", sample_messages)])].

Definition sample_server_blocks : list (loc * (owner * Types.block)) :=
  [(1, (Libc, BBurrow sample_burrow));
   (2, (Libc, BMemory (MemoryBackend 1%Z (Some 1) (Some 3))));
   (3, (Libc, BDictionary (Dictionary (Some 4) (Some 4) 1%Z (Some 1))));
   (4, (Libc, BNode (DictNode (Some 5) NULL NULL (Some 6))));
   (5, (Libc, BChars (Chars 5%Z "acct")));
   (6, (Libc, BDictionary (Dictionary (Some 7) (Some 7) 1%Z (Some 1))));
   (7, (Libc, BNode (DictNode (Some 8) NULL NULL (Some 9))));
   (8, (Libc, BChars (Chars 2%Z "q")));
   (9, (Libc, BDictionary (Dictionary (Some 10) (Some 14) 3%Z (Some 1))));
   (10, (Libc, BNode (DictNode (Some 11) NULL (Some 12) (Some 20))));
   (11, (Libc, BChars (Chars 3%Z "m1")));
   (12, (Libc, BNode (DictNode (Some 13) (Some 10) (Some 14) (Some 23))));
   (13, (Libc, BChars (Chars 3%Z "m2")));
   (14, (Libc, BNode (DictNode (Some 15) (Some 12) NULL (Some 26))));
   (15, (Libc, BChars (Chars 3%Z "m3")));
   (20, (Libc, BMessage (Message (Some 21) (Some 22) 5%Z 2000%Z 0%Z)));
   (21, (Libc, BChars (Chars 3%Z "m1"))); (22, (Libc, BChars (Chars 5%Z "hello")));
   (23, (Libc, BMessage (Message (Some 24) (Some 25) 3%Z 900%Z 0%Z)));
   (24, (Libc, BChars (Chars 3%Z "m2"))); (25, (Libc, BChars (Chars 3%Z "old")));
   (26, (Libc, BMessage (Message (Some 27) (Some 28) 3%Z 2000%Z 1500%Z)));
   (27, (Libc, BChars (Chars 3%Z "m3"))); (28, (Libc, BChars (Chars 3%Z "shy")))]%positive.
Definition sample_server_heap : heap := list_to_map sample_server_blocks.

(** The burrow, the backend and all it keeps. *)
Definition server_at (bl : loc) (bo : owner) (b : burrow_st) (ml : loc) (mo : owner) (sa : Z)
    (da : loc) (s : server) : hPropI :=
  (bl ↦{bo} b ∗ backend_at bl ml mo sa da ∗ accounts_at (alloc_owner b) bl da s)%I.

(** Closing a tree given its entries. *)
Lemma tree_intro {A} o bl (R : loc → string → A → hPropI) d es l :
  bool_decide (NoDup l.*1) = true → dict o bl d es ∗ slots R es l ⊢ tree o bl R d l.
Proof.
  intros Hnd%bool_decide_eq_true. iIntros "[Hd Hs]". iSplit; [done|]. iExists es. iFrame.
Qed.

Lemma slot_intro {A} (R : loc → string → A → hPropI) n kb k p a :
  R p k a ⊢ slot R (Entry n kb k (Some p)) (k, a).
Proof. iIntros "H". unfold slot; simpl. iSplit; [done|]. iExists p. by iFrame. Qed.

(** The same heap with another burrow. *)
Definition with_burrow (b : burrow_st) (bs : list (loc * (owner * Types.block))) :
    list (loc * (owner * Types.block)) :=
  (1%positive, (Libc, BBurrow b)) :: tail bs.

(** The blocks of the accounts: all but those of the burrow and the backend. *)
Lemma sample_accounts_at :
  blocks (drop 2 sample_server_blocks) ⊢ accounts_at Libc 1 3 sample_server.
Proof.
  iIntros "(H3 & H4 & H5 & H6 & H7 & H8 & H9 & H10 & H11 & H12 & H13 & H14 & H15 &
    H20 & H21 & H22 & H23 & H24 & H25 & H26 & H27 & H28 & _)".
  iApply (tree_intro _ _ _ _ [Entry 4 5 "acct" (Some 6%positive)]); [done|].
  unfold dict, node_at; simpl. iFrame "H3 H4 H5". iSplitL; [|done].
  iApply slot_intro.
  iApply (tree_intro _ _ _ _ [Entry 7 8 "q" (Some 9%positive)]); [done|].
  unfold dict, node_at; simpl. iFrame "H6 H7 H8". iSplitL; [|done].
  iApply slot_intro.
  iApply (tree_intro _ _ _ _ [Entry 10 11 "m1" (Some 20%positive);
    Entry 12 13 "m2" (Some 23%positive); Entry 14 15 "m3" (Some 26%positive)]); [done|].
  unfold dict, node_at; simpl. iFrame "H9 H10 H11 H12 H13 H14 H15".
  iSplitL "H20 H21 H22"; [|iSplitL "H23 H24 H25"; [|iSplitL; [|done]]];
    iApply slot_intro; (iExists _, _; iFrame).
Qed.

Lemma sample_server_blocks_at b :
  alloc_owner b = Libc →
  blocks (with_burrow b sample_server_blocks) ⊢ server_at 1 Libc b 2 Libc 1 3 sample_server.
Proof. intros Ho. unfold server_at. rw Ho -sample_accounts_at. by iIntros "($ & $ & $)". Qed.

Lemma sample_server_holds_with b :
  alloc_owner b = Libc →
  holds (server_at 1 Libc b 2 Libc 1 3 sample_server)
    (list_to_map (with_burrow b sample_server_blocks)).
Proof. intros Ho. apply blocks_holds; [reflexivity|]. by apply sample_server_blocks_at. Qed.

Lemma sample_server_holds :
  holds (server_at 1 Libc sample_burrow 2 Libc 1 3 sample_server) sample_server_heap.
Proof. exact (sample_server_holds_with sample_burrow eq_refl). Qed.

(** The commands the samples use. *)
Definition sample_command (id : cstr) : burrow_command_st :=
  Command BURROW_CMD_NONE None (Some "acct") (Some "q") id (Some "hello") 5 NULL NULL.

(** Filters that select hidden messages too. *)
Definition filters_all : burrow_filters_st :=
  Filters BURROW_FILTERS_MATCH_HIDDEN true 0 None BURROW_DETAIL_NONE 0 NULL NULL NULL.

(** Running a command on the sample, given its triple. *)
Lemma sample_run {A} P (m : M A) w Q :
  triple P m w Q → (server_at 1 Libc sample_burrow 2 Libc 1 3 sample_server ⊢ P) →
  ∃ a w' h', m w sample_server_heap = Ret a w' h' ∧ holds (Q a w') h'.
Proof. intros HT HP. exact (triple_run _ _ _ _ _ HT (hent HP _ sample_server_holds)). Qed.

(** Allocation never fails in the samples' world. *)
Definition steady : world := sample_world (λ _, true).

Lemma sample_occupied a q a' q' ms : queue_of a q sample_server = Some (a', q', ms) → ms ≠ [].
Proof.
  unfold queue_of. destruct a as [a|], q as [q|]; try done. cbn -[String.eqb].
  destruct (String.eqb "acct" a); [|done]. cbn -[String.eqb].
  destruct (String.eqb "q" q); [|done]. by intros [= _ _ <-].
Qed.

(** A server with one plain message, and the heap that holds it. *)
Definition plain_sample : server := [("acct", [("q", [("m1", Msg "hello" 5 2000 0)])])]%Z.
Definition plain_sample_blocks : list (loc * (owner * Types.block)) :=
  [(1, (Libc, BBurrow sample_burrow));
   (2, (Libc, BMemory (MemoryBackend 1%Z (Some 1) (Some 3))));
   (3, (Libc, BDictionary (Dictionary (Some 4) (Some 4) 1%Z (Some 1))));
   (4, (Libc, BNode (DictNode (Some 5) NULL NULL (Some 6))));
   (5, (Libc, BChars (Chars 5%Z "acct")));
   (6, (Libc, BDictionary (Dictionary (Some 7) (Some 7) 1%Z (Some 1))));
   (7, (Libc, BNode (DictNode (Some 8) NULL NULL (Some 9))));
   (8, (Libc, BChars (Chars 2%Z "q")));
   (9, (Libc, BDictionary (Dictionary (Some 10) (Some 10) 1%Z (Some 1))));
   (10, (Libc, BNode (DictNode (Some 11) NULL NULL (Some 20))));
   (11, (Libc, BChars (Chars 3%Z "m1")));
   (20, (Libc, BMessage (Message (Some 21) (Some 22) 5%Z 2000%Z 0%Z)));
   (21, (Libc, BChars (Chars 3%Z "m1"))); (22, (Libc, BChars (Chars 5%Z "hello")))]%positive.
Definition plain_sample_heap : heap := list_to_map plain_sample_blocks.

Lemma plain_accounts_at :
  blocks (drop 2 plain_sample_blocks) ⊢ accounts_at Libc 1 3 plain_sample.
Proof.
  iIntros "(H3 & H4 & H5 & H6 & H7 & H8 & H9 & H10 & H11 & H20 & H21 & H22 & _)".
  iApply (tree_intro _ _ _ _ [Entry 4 5 "acct" (Some 6%positive)]); [done|].
  unfold dict, node_at; simpl. iFrame "H3 H4 H5". iSplitL; [|done]. iApply slot_intro.
  iApply (tree_intro _ _ _ _ [Entry 7 8 "q" (Some 9%positive)]); [done|].
  unfold dict, node_at; simpl. iFrame "H6 H7 H8". iSplitL; [|done]. iApply slot_intro.
  iApply (tree_intro _ _ _ _ [Entry 10 11 "m1" (Some 20%positive)]); [done|].
  unfold dict, node_at; simpl. iFrame "H9 H10 H11". iSplitL; [|done].
  iApply slot_intro. iExists _, _; iFrame.
Qed.

Lemma plain_sample_holds :
  holds (server_at 1 Libc sample_burrow 2 Libc 1 3 plain_sample) plain_sample_heap.
Proof.
  apply blocks_holds; [reflexivity|]. unfold server_at. rw -plain_accounts_at. by iIntros "($ & $ & $)".
Qed.
