(* ===== verification/MemoryProps.v ===== *)
(** The memory backend refines the abstract server of Server.v: the properties of
    its commands, and where they stop. *)
From S2P Require Import Prelude Types Heap Macros Dictionary Memory Server Logic MacrosSpec DictionarySpec Assoc TreeSpec MemorySpec.
From S2P Require Import MemoryScan MemoryLists MemoryMessages ServerFacts DictionaryProps MemorySample.
From iris.proofmode Require Import proofmode.
Import Samples.

Section properties.
Context (bl : loc) (bo : owner) (b : burrow_st) (Hcons : consistent b).
Let o := alloc_owner b.
Context (ml : loc) (mo : owner) (sa : Z) (da : loc).
Abbreviation at_server := (server_at bl bo b ml mo sa da).

(** C8: create_message puts the message, with its expiry computed from the clock,
    in its queue (made together with the account when missing), in place of a
    message with the same id if there is one. Everything is accounted for: what
    is left over is exactly the id and the body of the replaced message, which
    are never freed. *)
Theorem create_message_refines cmd a q id bd ao at_ s w :
  reliable w → cmd_account cmd = Some a → cmd_queue cmd = Some q →
  cmd_message_id cmd = Some id → cmd_body cmd = Some bd →
  (cmd_body_size cmd ≤ Z.of_nat (String.length bd))%Z →
  triple (at_server s ∗ optional_at ao (cmd_attributes cmd) at_)
    (burrow_backend_memory_create_message (Some ml) cmd) w
    (λ r w', let now := u32 (e_time (w_env w) (w_tick w)) in
       ⟦ r = 0%Z ∧ evolves w [] w' ⟧ ∗
       at_server (create_message a q id (new_message now at_ bd (cmd_body_size cmd)) s) ∗
       optional_at ao (cmd_attributes cmd) at_ ∗ leaked b id (replaced a q id s))%I.
Proof using Hcons.
  intros Hr Ea Eq Ei Eb Hsz. apply triple_intro. iIntros "((Hb & Hm & Hs) & Hat)".
  iApply (wp_create_message bl bo b Hcons ml mo sa da _ a q id bd ao at_ s with "[-]"); [done..|].
  iFrame "Hb Hm Hs Hat". iIntros (w' He) "Hb Hm Hs $ $". iSplit; [done|]. iFrame.
Qed.

(** C19: get_message reports the message asked for, with what is left of its ttl
    and hide, and changes nothing; it answers EINVAL when there is none. *)
Theorem get_message_refines cmd s w :
  let now := u32 (e_time (w_env w) (w_tick w)) in
  readable now (cmd_account cmd) (cmd_queue cmd) (cmd_message_id cmd) s →
  triple (at_server s) (burrow_backend_memory_get_message (Some ml) cmd) w
    (λ r w', ∃ set,
       let res := get_message now set (cmd_account cmd) (cmd_queue cmd) (cmd_message_id cmd) s in
       ⟦ r = res.1.1 ∧ evolves w (observed (b_message_fn b) res.2) w' ⟧ ∗ at_server res.1.2)%I.
Proof using Hcons.
  intros now Hread. apply triple_intro. iIntros "(Hb & Hm & Hs)".
  iApply (wp_get_message bl bo b Hcons ml mo sa da _ s with "[-]"); [done|]. iFrame "Hb Hm Hs".
  iIntros (w' set He) "Hb Hm Hs". iExists set. iSplit; [done|]. iFrame.
Qed.

(** C32: get_message on an expired message is undefined behaviour: the message is
    freed before its id is read from it (update_message and delete_message free
    in the other order). *)
Theorem get_message_expired_use_after_free cmd a q ms id m s w h :
  message_of (cmd_account cmd) (cmd_queue cmd) (cmd_message_id cmd) s = Some (a, q, ms, id, m) →
  expired (u32 (e_time (w_env w) (w_tick w))) m = true →
  holds (at_server s) h →
  burrow_backend_memory_get_message (Some ml) cmd w h = Stuck BadPointer.
Proof using Hcons.
  intros Hm Hexp. apply faults_run. iIntros "(Hb & Hm & Hs)".
  iApply (get_expired_faults bl bo b Hcons ml mo sa da _ a q ms id m); [done..|]. iFrame.
Qed.

(** C20: update_message gives the message the new ttl and hide its attributes set
    (counted from now, a ttl of 0 counting as unset) and reports it; an expired
    message is removed instead, with its queue and account when they become
    empty; EINVAL when there is none. All memory of what is removed is freed. *)
Theorem update_message_refines cmd ao at_ s w :
  triple (at_server s ∗ optional_at ao (cmd_attributes cmd) at_)
    (burrow_backend_memory_update_message (Some ml) cmd) w
    (λ r w', ∃ set, let now := u32 (e_time (w_env w) (w_tick w)) in
       let res := update_message now set (update_times now at_)
                    (cmd_account cmd) (cmd_queue cmd) (cmd_message_id cmd) s in
       ⟦ r = res.1.1 ∧ evolves w (observed (b_message_fn b) res.2) w' ⟧ ∗
       at_server res.1.2 ∗ optional_at ao (cmd_attributes cmd) at_)%I.
Proof using Hcons.
  apply triple_intro. iIntros "((Hb & Hm & Hs) & Hat)".
  iApply (wp_update_message bl bo b Hcons ml mo sa da _ ao at_ s with "[-]"). iFrame "Hb Hm Hs Hat".
  iIntros (w' set He) "Hb Hm Hs $". iExists set. iSplit; [done|]. iFrame.
Qed.

(** C21: delete_message reports the message unless it has expired, then removes
    and frees it, with its queue and account when they become empty; it returns
    0 even when there is no such message. *)
Theorem delete_message_refines cmd s w :
  triple (at_server s) (burrow_backend_memory_delete_message (Some ml) cmd) w
    (λ r w', ∃ set, let now := u32 (e_time (w_env w) (w_tick w)) in
       let res := delete_message now set (cmd_account cmd) (cmd_queue cmd) (cmd_message_id cmd) s in
       ⟦ r = 0%Z ∧ evolves w (observed (b_message_fn b) res.2) w' ⟧ ∗ at_server res.1)%I.
Proof using Hcons.
  apply triple_intro. iIntros "(Hb & Hm & Hs)".
  iApply (wp_delete_message bl bo b Hcons ml mo sa da _ s with "[-]"). iFrame "Hb Hm Hs".
  iIntros (w' set He) "Hb Hm Hs". iExists set. iSplit; [done|]. iFrame.
Qed.

(** What the three commands on the messages of a queue establish: the abstract
    scan, or, when an allocation failed, an unchanged server. *)
Definition scan_post (cmd : burrow_command_st) (ty : scan_action_t) fo
    (f : option burrow_filters_st) ao (at_ : option burrow_attributes_st) (s : server)
    (w : world) (r : Z) (w' : world) : hPropI :=
  (⟦ r = 0%Z ⟧ ∗ optional_at fo (cmd_filters cmd) f ∗ optional_at ao (cmd_attributes cmd) at_ ∗
   ((∃ set, let now := u32 (e_time (w_env w) (w_tick w)) in
       let res := scan_queue now (select f) (scan_times now at_) ty REPORT (with_flags set)
                    (cmd_account cmd) (cmd_queue cmd) s in
       ⟦ evolves w (observed (b_message_fn b) res.2) w' ⟧ ∗ at_server res.1) ∨
    (⟦ gave_up w w' ⟧ ∗ at_server s)))%I.

(** No queue is empty. *)
Definition occupied (s : server) : Prop :=
  ∀ a q a' q' ms, queue_of a q s = Some (a', q', ms) → ms ≠ [].

Lemma scan_triple cmd ty fo f ao at_ s w :
  (0 ≤ sel_limit (select f))%Z → occupied s →
  triple (at_server s ∗ optional_at fo (cmd_filters cmd) f ∗ optional_at ao (cmd_attributes cmd) at_)
    (_scan_queue (Some ml) cmd ty REPORT;; mret 0%Z) w (scan_post cmd ty fo f ao at_ s w).
Proof using Hcons.
  intros Hlim Hocc. apply triple_intro. iIntros "((Hb & Hm & Hs) & Hf & Hat)". wp_focus.
  iApply (wp_scan_queue bl bo b Hcons ml mo sa da _ ty REPORT fo f ao at_ s with "[-]"); [done|].
  iFrame "Hb Hm Hs Hf Hat". iIntros (s' w' Hsc) "Hb Hm Hs Hf Hat". wret. unfold scan_post.
  iFrame "Hf Hat". iSplitR; [done|].
  destruct Hsc as [[set [-> He]]|[Hg Hs]]; [iLeft; iExists set|iRight]; (iSplitR; [done|]).
  - iFrame.
  - destruct Hs as [->|(a & q & ms & Hq & ->)]; [iFrame|].
    rw (put_queue_same _ _ _ _ _ _ Hq); [iFrame|by eapply Hocc].
Qed.

(** C9: get_messages reports, in order, the messages of the queue that the
    filters select and that are neither expired nor (unless asked for) hidden,
    removes and frees the expired ones it meets, and leaves everything else as
    it was. When an allocation fails, nothing is reported and nothing changes. *)
Theorem get_messages_refines cmd fo f ao at_ s w :
  (0 ≤ sel_limit (select f))%Z → occupied s →
  triple (at_server s ∗ optional_at fo (cmd_filters cmd) f ∗ optional_at ao (cmd_attributes cmd) at_)
    (burrow_backend_memory_get_messages (Some ml) cmd) w (scan_post cmd GET fo f ao at_ s w).
Proof using Hcons. apply scan_triple. Qed.

(** C12: update_messages does the same with the new ttl and hide (counted from
    now) given to each selected message before it is reported. *)
Theorem update_messages_refines cmd fo f ao at_ s w :
  (0 ≤ sel_limit (select f))%Z → occupied s →
  triple (at_server s ∗ optional_at fo (cmd_filters cmd) f ∗ optional_at ao (cmd_attributes cmd) at_)
    (burrow_backend_memory_update_messages (Some ml) cmd) w (scan_post cmd UPDATE fo f ao at_ s w).
Proof using Hcons. apply scan_triple. Qed.

(** C10: delete_messages reports the selected messages and removes them, the queue
    when it becomes empty and the account when it becomes empty; all their
    memory is freed. *)
Theorem delete_messages_refines cmd fo f ao at_ s w :
  (0 ≤ sel_limit (select f))%Z → occupied s →
  triple (at_server s ∗ optional_at fo (cmd_filters cmd) f ∗ optional_at ao (cmd_attributes cmd) at_)
    (burrow_backend_memory_delete_messages (Some ml) cmd) w (scan_post cmd DELETE fo f ao at_ s w).
Proof using Hcons. apply scan_triple. Qed.

(** Get_accounts calls back with the names of the selected accounts, in
    order, and changes nothing; when an allocation fails it reports none. *)
Theorem get_accounts_refines cmd fo f s w :
  (0 ≤ sel_limit (select f))%Z →
  triple (at_server s ∗ optional_at fo (cmd_filters cmd) f)
    (burrow_backend_memory_get_accounts (Some ml) cmd) w
    (λ r w', ⟦ r = 0%Z ∧
         (evolves w (observed (b_account_fn b)
            ((λ a, EvAccount (Some a)) <$> account_names (select f) s)) w' ∨ gave_up w w') ⟧ ∗
       at_server s ∗ optional_at fo (cmd_filters cmd) f)%I.
Proof using Hcons.
  intros Hlim. apply triple_intro. iIntros "((Hb & Hm & Hs) & Hf)".
  iApply (wp_get_accounts bl bo b Hcons ml mo sa da _ fo f s with "[-]"); [done|].
  iFrame "Hb Hm Hs Hf". iIntros (w' Hw) "Hb Hm Hs $". iSplit; [done|]. iFrame.
Qed.

(** Get_queues does the same with the queues of an account. *)
Theorem get_queues_refines cmd fo f s w :
  (0 ≤ sel_limit (select f))%Z →
  triple (at_server s ∗ optional_at fo (cmd_filters cmd) f)
    (burrow_backend_memory_get_queues (Some ml) cmd) w
    (λ r w', ⟦ r = 0%Z ∧
         (evolves w (observed (b_queue_fn b)
            ((λ q, EvQueue (Some q)) <$> queue_names (select f) (cmd_account cmd) s)) w' ∨
          gave_up w w') ⟧ ∗
       at_server s ∗ optional_at fo (cmd_filters cmd) f)%I.
Proof using Hcons.
  intros Hlim. apply triple_intro. iIntros "((Hb & Hm & Hs) & Hf)".
  iApply (wp_get_queues bl bo b Hcons ml mo sa da _ fo f s with "[-]"); [done|].
  iFrame "Hb Hm Hs Hf". iIntros (w' Hw) "Hb Hm Hs $". iSplit; [done|]. iFrame.
Qed.

(** C29: delete_queues scans the selected queues of the account one after the
    other, each at its own reading of the clock, and deletes what is not hidden
    from it (so a queue with a hidden message survives); nothing is reported. *)
Theorem delete_queues_refines cmd fo f s w :
  reliable w → (0 ≤ sel_limit (select f))%Z →
  triple (at_server s ∗ optional_at fo (cmd_filters cmd) f)
    (burrow_backend_memory_delete_queues (Some ml) cmd) w
    (λ r w', ∃ times, let names := queue_names (select f) (cmd_account cmd) s in
       ⟦ r = 0%Z ∧ evolves w [] w' ∧ length times = length names ∧ Forall (clock w w') times ⟧ ∗
       at_server (delete_queue_list times (cmd_account cmd) names s) ∗
       optional_at fo (cmd_filters cmd) f)%I.
Proof using Hcons.
  intros Hr Hlim. apply triple_intro. iIntros "((Hb & Hm & Hs) & Hf)".
  iApply (wp_delete_queues bl bo b Hcons ml mo sa da _ fo f s with "[-]"); [done..|].
  iFrame "Hb Hm Hs Hf". iIntros (w' times (He & Hl & Ht)) "Hb Hm Hs $".
  iExists times. iSplit; [done|]. iFrame.
Qed.

(** delete_accounts does what delete_queues does for all queues of each selected
    account. *)
Theorem delete_accounts_refines cmd fo f s w :
  reliable w → (0 ≤ sel_limit (select f))%Z →
  triple (at_server s ∗ optional_at fo (cmd_filters cmd) f)
    (burrow_backend_memory_delete_accounts (Some ml) cmd) w
    (λ r w', ∃ tss, let names := account_names (select f) s in
       ⟦ r = 0%Z ∧ evolves w [] w' ∧ times_fit tss names s ∧ Forall (Forall (clock w w')) tss ⟧ ∗
       at_server (delete_account_list tss names s) ∗ optional_at fo (cmd_filters cmd) f)%I.
Proof using Hcons.
  intros Hr Hlim. apply triple_intro. iIntros "((Hb & Hm & Hs) & Hf)".
  iApply (wp_delete_accounts bl bo b Hcons ml mo sa da _ fo f s with "[-]"); [done..|].
  iFrame "Hb Hm Hs Hf". iIntros (w' tss (He & Hfit & Ht)) "Hb Hm Hs $".
  iExists tss. iSplit; [done|]. iFrame.
Qed.

(** Reading back what was created: unless it has expired in between, a message
    just created is reported with its id, its body cut to the size given and that
    size; the server keeps it. *)
Theorem create_then_get cmd a q id bd ao at_ s w :
  reliable w → cmd_account cmd = Some a → cmd_queue cmd = Some q →
  cmd_message_id cmd = Some id → cmd_body cmd = Some bd →
  (cmd_body_size cmd ≤ Z.of_nat (String.length bd))%Z →
  let now := u32 (e_time (w_env w) (w_tick w)) in
  (∀ n, u32 (e_time (w_env w) n) < new_ttl now at_)%Z →
  triple (at_server s ∗ optional_at ao (cmd_attributes cmd) at_)
    (burrow_backend_memory_create_message (Some ml) cmd;;
     burrow_backend_memory_get_message (Some ml) cmd) w
    (λ r w', ∃ set ttl hide,
       ⟦ r = 0%Z ∧ evolves w (observed (b_message_fn b)
           [EvMessage (Some id) (Some (String.substring 0 (Z.to_nat (cmd_body_size cmd)) bd))
              (cmd_body_size cmd) set ttl hide]) w' ⟧ ∗
       at_server (create_message a q id (new_message now at_ bd (cmd_body_size cmd)) s) ∗
       optional_at ao (cmd_attributes cmd) at_ ∗ leaked b id (replaced a q id s))%I.
Proof using Hcons.
  intros Hr Ea Eq Ei Eb Hsz now Httl. subst now. apply triple_intro. iIntros "((Hb & Hm & Hs) & Hat)". wp_focus.
  iApply (wp_create_message bl bo b Hcons ml mo sa da _ a q id bd ao at_ s with "[-]"); [done..|].
  iFrame "Hb Hm Hs Hat". iIntros (w' He) "Hb Hm Hs Hat Hl".
  set (m := new_message _ at_ bd (cmd_body_size cmd)).
  destruct (message_of_create a q id m s) as [ms Hms].
  assert (expired (u32 (e_time (w_env w') (w_tick w'))) m = false) as Hexp.
  { apply Z.leb_gt. destruct He as [-> _]. apply Httl. }
  iApply (wp_get_message bl bo b Hcons ml mo sa da _ (create_message a q id m s) with "[-]").
  { unfold readable. rw Ea Eq Ei Hms. by intros ????? [= <- <- <- <- <-]. }
  iFrame "Hb Hm Hs". rw Ea Eq Ei. unfold get_message. rw Hms Hexp.
  iIntros (w'' set He') "Hb Hm Hs". iExists set, _, _. iFrame "Hat Hl". iSplitR; [|iFrame].
  iPureIntro. split; [done|]. eapply evolves_silent; [exact He|exact He'].
Qed.

(** The memory backend on memory of its own starts as an empty server. *)
Theorem memory_create_empty w :
  reliable w →
  triple (bl ↦{bo} b)
    (burrow_backend_memory_create NULL (Some bl)) w
    (λ r w', ∃ ml' da', ⟦ r = Some ml' ∧ evolves w [] w' ⟧ ∗
       server_at bl bo b ml' o 1 da' [])%I.
Proof using Hcons.
  intros Hr. apply triple_intro. iIntros "Hb".
  iApply (wp_memory_create bl bo b Hcons with "[-]"); [done|]. iFrame "Hb".
  iIntros (ml' da' w' He) "Hb Hm Hs". iExists ml', da'. iSplit; [done|]. iFrame.
Qed.

(** C13: destroying a self-allocated backend frees everything it ever allocated,
    when memory lasts, no message was given a hide and no account is left without
    queues: of its heap nothing but the burrow remains. *)
Theorem memory_free_frees_everything s w :
  reliable w → sa ≠ 0%Z → mo = o → plain_server s →
  triple (at_server s) (burrow_backend_memory_free (Some ml)) w
    (λ _ w', ⟦ evolves w [] w' ⟧ ∗ bl ↦{bo} b)%I.
Proof using Hcons.
  intros Hr Hsa Hmo Hpl. apply triple_intro. iIntros "(Hb & Hm & Hs)".
  iApply (wp_memory_free bl bo b Hcons ml mo sa da s with "[-]"); [done..|]. iFrame "Hb Hm Hs".
  iIntros (w' tss (He & Hfit & Ht)) "Hb Hm Ho". iSplitR; [done|].
  rw (delete_everything_plain w w' tss s) //.
  rw (proj2 (Z.eqb_neq _ _) Hsa). iDestruct (orphans_nil with "Ho") as "_". by iFrame.
Qed.
End properties.

(** ** The samples *)

(** A message that was hidden keeps its queue and account alive: destroying the
    sample leaves more than the burrow behind. *)
Example hidden_message_survives_destroy :
  match burrow_backend_memory_free (Some 2%positive) (sample_world (λ _, true)) sample_server_heap with
  | Ret _ _ h => 1 <? size h
  | _ => false
  end = true.
Proof. vm_compute. reflexivity. Qed.

(** When only the allocation of a new account's dictionary fails, the account
    stays with no data, and the next message for it dereferences [NULL]. *)
Example message_after_failed_account_faults :
  let cmd := Command BURROW_CMD_NONE None (Some "new") (Some "q") (Some "x") (Some "hello") 5 NULL NULL in
  (burrow_backend_memory_create_message (Some 2%positive) cmd;;
   burrow_backend_memory_create_message (Some 2%positive) cmd)
    (sample_world (λ k, negb (k =? 11))) sample_server_heap = Stuck NullDeref.
Proof. vm_compute. reflexivity. Qed.

(** A property's run on the sample, evaluated. *)
Ltac run_sample HT :=
  let r := fresh "r" in let w := fresh "w" in let h := fresh "h" in
  let E := fresh "E" in let E' := fresh "E" in
  destruct (sample_run _ _ _ _ HT) as (r & w & h & E & _);
  [iIntros "H"; simpl; by iFrame|];
  pose proof E as E'; vm_compute in E'; injection E' as <- <- <-;
  eexists _, _; split; [exact E|reflexivity].

Lemma sample_readable :
  readable (u32 (e_time (w_env steady) (w_tick steady))) (Some "acct") (Some "q") (Some "m1")
    sample_server.
Proof. intros a q ms id m E. vm_compute in E. by injection E as <- <- <- <- <-. Qed.

Lemma plain_sample_plain : plain_server plain_sample.
Proof. split; [done|]. repeat constructor; done. Qed.

Theorem create_message_refines_witness :
  ∃ w' h', burrow_backend_memory_create_message (Some 2%positive) (sample_command (Some "m4"))
    steady sample_server_heap = Ret 0%Z w' h' ∧ size h' = 29.
Proof. run_sample (create_message_refines 1 Libc sample_burrow eq_refl 2 Libc 1 3
  (sample_command (Some "m4")) "acct" "q" "m4" "hello" Libc None sample_server steady
  sample_reliable eq_refl eq_refl eq_refl eq_refl ltac:(done)). Defined.

Theorem get_message_refines_witness :
  ∃ w' h', burrow_backend_memory_get_message (Some 2%positive) (sample_command (Some "m1"))
    steady sample_server_heap = Ret 0%Z w' h' ∧
    w_trace w' = [EvMessage (Some "m1") (Some "hello") 5 7 1000 0].
Proof. run_sample (get_message_refines 1 Libc sample_burrow eq_refl 2 Libc 1 3
  (sample_command (Some "m1")) sample_server steady sample_readable). Defined.

Theorem get_message_expired_use_after_free_witness :
  burrow_backend_memory_get_message (Some 2%positive) (sample_command (Some "m2")) steady
    sample_server_heap = Stuck BadPointer.
Proof.
  exact (get_message_expired_use_after_free 1 Libc sample_burrow eq_refl 2 Libc 1 3
    (sample_command (Some "m2")) _ _ _ _ _ sample_server steady _ eq_refl eq_refl sample_server_holds).
Defined.

Theorem update_message_refines_witness :
  ∃ w' h', burrow_backend_memory_update_message (Some 2%positive) (sample_command (Some "m2"))
    steady sample_server_heap = Ret 0%Z w' h' ∧ size h' = 19.
Proof. run_sample (update_message_refines 1 Libc sample_burrow eq_refl 2 Libc 1 3
  (sample_command (Some "m2")) Libc None sample_server steady). Defined.

Theorem delete_message_refines_witness :
  ∃ w' h', burrow_backend_memory_delete_message (Some 2%positive) (sample_command (Some "m3"))
    steady sample_server_heap = Ret 0%Z w' h' ∧
    w_trace w' = [EvMessage (Some "m3") (Some "shy") 3 7 1000 500].
Proof. run_sample (delete_message_refines 1 Libc sample_burrow eq_refl 2 Libc 1 3
  (sample_command (Some "m3")) sample_server steady). Defined.

Theorem get_messages_refines_witness :
  ∃ w' h', burrow_backend_memory_get_messages (Some 2%positive) (sample_command None)
    steady sample_server_heap = Ret 0%Z w' h' ∧
    w_trace w' = [EvMessage (Some "m1") (Some "hello") 5 7 1000 0].
Proof. run_sample (get_messages_refines 1 Libc sample_burrow eq_refl 2 Libc 1 3
  (sample_command None) Libc None Libc None sample_server steady ltac:(done) sample_occupied). Defined.

Theorem update_messages_refines_witness :
  ∃ w' h', burrow_backend_memory_update_messages (Some 2%positive) (sample_command None)
    steady sample_server_heap = Ret 0%Z w' h' ∧
    w_trace w' = [EvMessage (Some "m1") (Some "hello") 5 7 1000 0].
Proof. run_sample (update_messages_refines 1 Libc sample_burrow eq_refl 2 Libc 1 3
  (sample_command None) Libc None Libc None sample_server steady ltac:(done) sample_occupied). Defined.

Theorem delete_messages_refines_witness :
  ∃ w' h', burrow_backend_memory_delete_messages (Some 2%positive) (sample_command None)
    steady sample_server_heap = Ret 0%Z w' h' ∧
    w_trace w' = [EvMessage (Some "m1") (Some "hello") 5 7 1000 0].
Proof. run_sample (delete_messages_refines 1 Libc sample_burrow eq_refl 2 Libc 1 3
  (sample_command None) Libc None Libc None sample_server steady ltac:(done) sample_occupied). Defined.

Theorem get_accounts_refines_witness :
  ∃ w' h', burrow_backend_memory_get_accounts (Some 2%positive) (sample_command None)
    steady sample_server_heap = Ret 0%Z w' h' ∧ w_trace w' = [EvAccount (Some "acct")].
Proof. run_sample (get_accounts_refines 1 Libc sample_burrow eq_refl 2 Libc 1 3
  (sample_command None) Libc None sample_server steady ltac:(done)). Defined.

Theorem get_queues_refines_witness :
  ∃ w' h', burrow_backend_memory_get_queues (Some 2%positive) (sample_command None)
    steady sample_server_heap = Ret 0%Z w' h' ∧ w_trace w' = [EvQueue (Some "q")].
Proof. run_sample (get_queues_refines 1 Libc sample_burrow eq_refl 2 Libc 1 3
  (sample_command None) Libc None sample_server steady ltac:(done)). Defined.

Theorem delete_queues_refines_witness :
  ∃ w' h', burrow_backend_memory_delete_queues (Some 2%positive) (sample_command None)
    steady sample_server_heap = Ret 0%Z w' h' ∧ size h' = 14.
Proof. run_sample (delete_queues_refines 1 Libc sample_burrow eq_refl 2 Libc 1 3
  (sample_command None) Libc None sample_server steady sample_reliable ltac:(done)). Defined.

Theorem delete_accounts_refines_witness :
  ∃ w' h', burrow_backend_memory_delete_accounts (Some 2%positive) (sample_command None)
    steady sample_server_heap = Ret 0%Z w' h' ∧ size h' = 14.
Proof. run_sample (delete_accounts_refines 1 Libc sample_burrow eq_refl 2 Libc 1 3
  (sample_command None) Libc None sample_server steady sample_reliable ltac:(done)). Defined.

Theorem create_then_get_witness :
  ∃ w' h', (burrow_backend_memory_create_message (Some 2%positive) (sample_command (Some "m4"));;
    burrow_backend_memory_get_message (Some 2%positive) (sample_command (Some "m4")))
    steady sample_server_heap = Ret 0%Z w' h' ∧
    w_trace w' = [EvMessage (Some "m4") (Some "hello") 5 7 300 0].
Proof. run_sample (create_then_get 1 Libc sample_burrow eq_refl 2 Libc 1 3
  (sample_command (Some "m4")) "acct" "q" "m4" "hello" Libc None sample_server steady
  sample_reliable eq_refl eq_refl eq_refl eq_refl ltac:(done) ltac:(done)). Defined.

Theorem memory_create_empty_witness :
  ∃ w' h', burrow_backend_memory_create NULL (Some 1%positive) steady
    {[1%positive := (Libc, BBurrow sample_burrow)]} = Ret (Some 2%positive) w' h' ∧ size h' = 3.
Proof.
  destruct (triple_run _ _ _ _ {[1%positive := (Libc, BBurrow sample_burrow)]}
    (memory_create_empty 1 Libc sample_burrow eq_refl steady sample_reliable) eq_refl)
    as (r & w & h & E & _).
  pose proof E as E'. vm_compute in E'. injection E' as <- <- <-.
  eexists _, _. split; [exact E|reflexivity].
Defined.

Theorem memory_free_frees_everything_witness :
  ∃ w' h', burrow_backend_memory_free (Some 2%positive) steady plain_sample_heap = Ret tt w' h' ∧
    h' = {[1%positive := (Libc, BBurrow sample_burrow)]}.
Proof.
  destruct (triple_run _ _ _ _ _ (memory_free_frees_everything 1 Libc sample_burrow eq_refl 2 Libc 1 3
    plain_sample steady sample_reliable ltac:(done) eq_refl plain_sample_plain) plain_sample_holds)
    as ([] & w & h & E & _).
  pose proof E as E'. vm_compute in E'. injection E' as <- <-.
  eexists _, _. split; [exact E|reflexivity].
Defined.
