(* ===== verification/BurrowProps.v ===== *)
(** Properties of the frontend: its commands, its state machine on a backend
    known by its interface only, the memory backend behind it, the descriptors
    it watches, and its destruction. *)
From S2P Require Import Prelude Types Heap Macros Managed Attributes Filters Burrow Lifecycle Dummy Dictionary Memory Backends Server Logic MacrosSpec DictionarySpec.
From S2P Require Import ManagedSpec LifecycleSpec BurrowSpec Assoc TreeSpec MemorySpec MemoryScan MemoryLists MemoryMessages WatchSpec BackendsSpec ServerFacts DictionaryProps MemorySample.
From iris.proofmode Require Import proofmode.
Import Samples.

Section frontend.
Context {backends : Backends} (bl : loc) (bo : owner).

(** C25: every command refuses a burrow that is not idle (EINPROGRESS) and missing
    parameters (EINVAL), in that order, with a log line and nothing else
    changed; otherwise it sets the command up, keeping the fields the command
    has no use for as they were, and moves the burrow to START. *)
Theorem command_starts proc c b w :
  cmd_command c ≠ BURROW_CMD_NONE → has_flag (b_options b) BURROW_OPT_AUTOPROCESS = false →
  triple (bl ↦{bo} b) (call_command proc (Some bl) c) w
    (λ r w',
       if decide (b_state b ≠ BURROW_STATE_IDLE) then
         ⟦ r = EINPROGRESS ∧ evolves w (log_events b BURROW_VERBOSE_ERROR
             (command_name (cmd_command c) +:+ ": burrow not idle")) w' ⟧ ∗ bl ↦{bo} b
       else if required c then ⟦ r = 0%Z ∧ w' = w ⟧ ∗ bl ↦{bo} started c b
       else
         ⟦ r = EINVAL ∧ evolves w (log_events b BURROW_VERBOSE_ERROR
             (command_name (cmd_command c) +:+ ": invalid parameters")) w' ⟧ ∗ bl ↦{bo} b)%I.
Proof.
  intros Hc Ho. apply triple_intro. iIntros "Hb". iApply wp_call_command; [done|]. iFrame "Hb".
  rw Ho. case_decide; [iIntros (w' He) "Hb"; by iFrame|].
  destruct (required c); simpl; [iIntros "Hb"|iIntros (w' He) "Hb"]; by iFrame.
Qed.

(** C11: on any backend that never waits, burrow_process ends without undefined
    behaviour, the burrow is idle and processable again and the backend's
    invariant still holds, for any completion callback that makes finitely many
    calls: commands, of which those that are accepted are ones the backend can
    run, processing, cancellations while no command is set up, and events if the
    backend has no use for them. (Cancelling a command that was set up makes the
    burrow call [NULL].) *)
Theorem process_completes b0 E accepts I `{!SyncBackend bl bo b0 E accepts I} K fuel fl st cmd w :
  has_flag fl BURROW_FLAG_PROCESSING = false → w_env w = E → sound accepts st cmd →
  (∀ n, K ≤ n → e_user E n = []) → (∀ n, all_permitted b0 accepts true (e_user E n)) →
  S (turns K st w) < fuel →
  triple (bl ↦{bo} at_state b0 st fl cmd ∗ I)%I (burrow_process fuel (Some bl)) w
    (λ r w', ∃ cmd' es, ⟦ evolves w es w' ∧ accepts cmd' ⟧ ∗
       bl ↦{bo} at_state b0 BURROW_STATE_IDLE fl cmd' ∗ I)%I.
Proof.
  intros Hfl HE Hs Hq Hp Hf. apply triple_intro. iIntros "[Hb HI]".
  destruct fuel as [|fuel]; [lia|]. rw burrow_process_S. wload "Hb". rw Hfl. wmodify "Hb". wp_focus.
  assert (0 < fuel) as Hf0 by lia.
  iApply (wp_process_loop bl bo b0 E accepts I fuel Hf0 _ (processing_set fl) K Hq Hp fuel st cmd with "[-]");
    [done..|lia|]. iFrame "Hb HI". iIntros (r cmd' es w' He) "Hb HI". wmodify "Hb". wret.
  rw processing_cleared //. iExists cmd', es. by iFrame.
Qed.

(** C30: a burrow whose backend waits for descriptors the program itself watches
    never goes on: burrow_process returns EAGAIN with the PROCESSING flag still
    set, so that after the event has been raised (state READY) every further
    burrow_process returns EAGAIN at once, without calling the backend. *)
Theorem waiting_never_resumes b raised fd ev fuel w :
  2 ≤ fuel → b_state b = BURROW_STATE_WAITING → b_watch_size b = 0%Z →
  has_flag (b_flags b) BURROW_FLAG_PROCESSING = false →
  be_event_raised (functions_of b) = Some raised →
  (∀ (b' : burrow_st) w, bl ↦{bo} b' ⊢ wp (raised (b_backend_context b) fd ev) w
     (λ r w', ⟦ r = 0%Z ⟧ ∗ bl ↦{bo} b')) →
  triple (bl ↦{bo} b)
    (r1 ← burrow_process fuel (Some bl);
     burrow_event_raised (burrow_process fuel) (Some bl) fd ev;;
     r2 ← burrow_process fuel (Some bl);
     mret (r1, r2)) w
    (λ r w', ⟦ r = (EAGAIN, EAGAIN) ⟧ ∗
       bl ↦{bo} (b <| b_state := BURROW_STATE_READY |>
                   <| b_flags := Z.lor (b_flags b) BURROW_FLAG_PROCESSING |>))%I.
Proof.
  intros Hf Hst Hws Hfl Hr Hrun. apply triple_intro. iIntros "Hb".
  destruct fuel as [|[|fuel]]; [lia..|]. remember (S (S fuel)) as n eqn:En. wp_focus. rw {1}En.
  rw burrow_process_S. remember (S fuel) as n' eqn:En'. wload "Hb". rw Hfl. wmodify "Hb". wp_focus.
  rw En'. cbn [loop]. wp_focus. unfold process_step. wload "Hb". rw Hst Hws. simpl. wret. wret. wret. wret.
  wp_focus. unfold burrow_event_raised. wload "Hb". unfold functions_of; simpl; fold (functions_of b).
  rw Hr. wret. wp_focus. iApply (wp_wand with "[Hb]"); [iApply (Hrun with "Hb")|].
  iIntros (r w') "[-> Hb]". simpl. wmodify "Hb". wload "Hb". pose proof (processing_set (b_flags b)) as Hp.
  assert (0 < n) as Hn by lia. wp_focus.
  epose proof (λ w Q, wp_process_busy bl bo n (b <| b_state := BURROW_STATE_READY |>
    <| b_flags := _ |> <| b_watch_size := 0%Z |>) w Q Hn Hp) as Hbusy. simpl in Hbusy.
  destruct (has_flag (b_options b) BURROW_OPT_AUTOPROCESS).
  - iApply Hbusy. iFrame "Hb". iIntros "Hb". wp_focus. iApply Hbusy. iFrame "Hb". iIntros "Hb".
    wret. by iFrame.
  - wret. wp_focus. iApply Hbusy. iFrame "Hb". iIntros "Hb". wret. by iFrame.
Qed.

(** C31: burrow_cancel on a backend without a cancel function leaves a started
    command in START with no function to run: processing it calls [NULL] (the
    documentation says that cancelling makes the burrow idle). *)
Theorem cancel_then_process_faults b fuel w h :
  2 ≤ fuel → b_state b = BURROW_STATE_START →
  has_flag (b_flags b) BURROW_FLAG_PROCESSING = false →
  be_cancel (functions_of b) = None → holds (bl ↦{bo} b)%I h →
  (burrow_cancel (Some bl);; burrow_process fuel (Some bl)) w h = Stuck NullCall.
Proof.
  intros Hf Hst Hfl Hc. apply faults_run. iIntros "Hb". iApply faults_bind. unfold burrow_cancel.
  wload "Hb". rw Hst. simpl. wmodify "Hb". rw Hc. wret. wmodify "Hb". iApply wp_modify. iFrame "Hb".
  iIntros "Hb". destruct fuel as [|[|fuel]]; [lia..|]. rw burrow_process_S.
  remember (S fuel) as n eqn:En. iApply faults_bind. iApply wp_load. iFrame "Hb". iIntros "Hb". simpl.
  rw Hfl. iApply faults_bind. iApply wp_modify. iFrame "Hb". iIntros "Hb". simpl.
  iApply faults_first. rw En. cbn [loop]. iApply faults_first. unfold process_step.
  iApply faults_bind. iApply wp_load. iFrame "Hb". iIntros "Hb".
  rw Hst. unfold mbind, option_bind; simpl. iApply (faults_undefined with "Hb").
Qed.

(** burrow_internal_watch_fd appends the descriptor, with the poll events the
    frontend events stand for, to the descriptors watched, growing the array
    when it is full; without memory it answers ENOMEM and watches what it did. *)
Theorem watch_fd_appends b ps fd events w :
  (Z.of_nat (length ps) + 1 < 4294967296)%Z →
  triple (watching bl bo b ps) (burrow_internal_watch_fd (Some bl) fd events) w
    (λ r w',
       (∃ l size rv, ⟦ r = 0%Z ∧ evolves w [] w' ⟧ ∗
          watching bl bo (b <| b_pfds := Some l |> <| b_pfds_size := size |>
                            <| b_watch_size := (Z.of_nat (length ps) + 1)%Z |>)
            (ps ++ [Pollfd fd (events_of events) rv])) ∨
       (⟦ r = ENOMEM ∧ gave_up w w' ⟧ ∗ watching bl bo b ps))%I.
Proof.
  intros Hlt. apply triple_intro. iIntros "Hw". iApply wp_internal_watch_fd; [done|]. iFrame "Hw". iSplit.
  - iIntros (l size rv w' He) "Hw". iLeft. iExists l, size, rv. by iFrame.
  - iIntros (w' Hg) "Hw". iRight. by iFrame.
Qed.

(** C14: when [poll] has answered for every descriptor, burrow_internal_poll_fds
    hands each live one to the backend exactly once, with the events [poll]
    reported, and goes on watching exactly the others (in some order), although
    it moves descriptors about in the array while it walks it. *)
Theorem poll_fds_dispatches b0 I `{!EventBackend bl bo b0 I} fuel fl ps revents st cmd w :
  0 < fuel → has_flag fl BURROW_FLAG_PROCESSING = true →
  is_Some (b_pfds b0) → ps ≠ [] →
  e_poll (w_env w) (w_tick w) ps = PollReady revents → length revents = length ps →
  triple (watching bl bo (at_state b0 st fl cmd) ps ∗ I [])%I
    (burrow_internal_poll_fds (burrow_process fuel) (Some bl)) w
    (λ r w', ∃ ps' evs st', let polled := with_revents revents ps in
       ⟦ r = 0%Z ∧ ps' ≡ₚ filter (λ p, ¬ live p) polled ∧ evs ≡ₚ raised <$> filter live polled ⟧ ∗
       watching bl bo ((at_state b0 st' fl cmd) <| b_watch_size := Z.of_nat (length ps') |>) ps' ∗
       I evs)%I.
Proof.
  intros Hf Hfl [l Hl] Hne Hp Hlen. apply triple_intro. iIntros "[Hw HI]".
  iApply (wp_poll_fds bl bo b0 _ (λ r Hr, Hr) (λ _, True) (λ _ _, Logic.I) I fuel Hf fl Hfl l Hl ps revents with "[-]"); [done..|].
  iFrame "Hw HI". iIntros (ps' evs st' w' (H1 & H2 & _)) "Hw HI". iExists ps', evs, st'. by iFrame.
Qed.
End frontend.

Section memory.
Context (http : burrow_backend_functions_st).
#[local] Instance tables : Backends := backend_tables http.

(** burrow_create_message on an idle burrow that processes by itself, with
    the memory backend behind it: the message is in its queue when the call
    returns 0, the completion callback has been called once, and the burrow is
    idle again, ready for the next command. *)
Theorem frontend_create_message bl bo b ml mo sa da a q id bd size s fuel w :
  consistent b → b_backend b = backend_memory → b_backend_context b = Some ml →
  b_state b = BURROW_STATE_IDLE → has_flag (b_flags b) BURROW_FLAG_PROCESSING = false →
  has_flag (b_options b) BURROW_OPT_AUTOPROCESS = true → b_watch_size b = 0%Z →
  reliable w → (∀ n, e_user (w_env w) n = []) →
  (size ≤ Z.of_nat (String.length bd))%Z → 4 ≤ fuel →
  triple (server_at bl bo b ml mo sa da s)
    (burrow_create_message (burrow_process fuel) (Some bl) (Some a) (Some q) (Some id) (Some bd) size NULL) w
    (λ r w', let now := u32 (e_time (w_env w) (w_tick w)) in
       ∃ cmd', ⟦ r = 0%Z ∧ evolves w (when_set (b_complete_fn b) EvComplete) w' ∧
                 cmd_command cmd' = BURROW_CMD_NONE ⟧ ∗
       server_at bl bo (at_state b BURROW_STATE_IDLE (b_flags b) cmd') ml mo sa da
         (create_message a q id (new_message now None bd size) s) ∗
       leaked b id (replaced a q id s))%I.
Proof.
  intros Hc Hb Hctx Hst Hfl Hauto Hws Hr Hu Hsz Hf. apply triple_intro. iIntros "(Hb & Hm & Hs)".
  set (c := Command BURROW_CMD_CREATE_MESSAGE None (Some a) (Some q) (Some id) (Some bd) size NULL NULL).
  iApply (wp_call_command bl bo _ c b); [done|]. iFrame "Hb". rw Hst Hauto. simpl. iIntros "Hb".
  set (cmd := filled (slot_of b BURROW_CMD_CREATE_MESSAGE) c (b_cmd b)).
  assert (functions_of b = burrow_backend_memory_functions) as Hfn by (unfold functions_of; by rw Hb).
  iApply (wp_process_one bl bo fuel b (b_flags b) cmd BURROW_CMD_CREATE_MESSAGE
    burrow_backend_memory_create_message with "[-]"); [done..|by subst cmd; unfold slot_of; simpl; rw Hfn|by rw Hfn|done|].
  iSplitL "Hb"; [iExact "Hb"|]. iIntros (fl') "Hb". rw Hctx.
  iApply (wp_create_message bl bo (at_state b BURROW_STATE_START fl' cmd) Hc ml mo sa da cmd a q id bd Libc None s
    with "[-]"); [done..|]. iFrame "Hb Hm Hs". iSplitR; [done|].
  iIntros (w1 He) "Hb Hm Hs _ Hl". iSplit; [iPureIntro; split; [done|by destruct He]|]. iFrame "Hb".
  iIntros (w' He') "Hb". iExists (cmd <| cmd_command := BURROW_CMD_NONE |>).
  iSplitR; [|iFrame "Hm Hs Hl"].
  - iPureIntro. split_and!; [done|by eapply evolves_silent|reflexivity].
  - iExact "Hb".
Qed.

(** What a burrow that was allocated by [burrow_create] owns: its structure, the
    memory backend in the room behind it, its array of descriptors, its managed
    attributes and filters. *)
Definition owned_by bl (b : burrow_st) da s (ps : option (list pollfd)) (la : list (loc * attributes_value))
    (lf : list (loc * filters_value)) : hPropI :=
  (bl ↦{Libc} b ∗ backend_at bl (Pos.succ bl) Caller 0 da ∗ accounts_at (alloc_owner b) bl da s ∗
   maybe_at (b_pfds b) ps ∗
   ⟦ b_attributes_list b = head_of la ∧ b_filters_list b = head_of lf ⟧ ∗
   ManagedSpec.chain (T := burrow_attributes_st) bl (alloc_owner b) NULL NULL la ∗
   ManagedSpec.chain (T := burrow_filters_st) bl (alloc_owner b) NULL NULL lf)%I.

Lemma wp_log_debug bl bo (b : burrow_st) msg w Q :
  bl ↦{bo} b ∗ (∀ w', ⟦ ∃ es, evolves w es w' ∧ Forall is_log es ⟧ -∗ bl ↦{bo} b -∗ Q tt w')
  ⊢ wp (burrow_log_debug (Some bl) msg) w Q.
Proof.
  iIntros "[Hb HQ]". iApply wp_log_at. iFrame "Hb". iIntros (w' He) "Hb". iApply ("HQ" with "[%] Hb").
  eexists. split; [done|]. apply log_events_log.
Qed.

(** A burrow without allocation functions of the user's frees its memory itself. *)
Lemma wp_free_burrow bl (b : burrow_st) w Q :
  b_free_fn b = None →
  bl ↦{Libc} b ∗ Q tt w ⊢ wp (burrow_free (Some bl) (Some bl)) w Q.
Proof.
  iIntros (Hf) "[Hb HQ]". unfold burrow_free. wload "Hb". rw Hf. iApply (wp_release _ _ b). iFrame.
Qed.

(** C15: burrow_destroy on a burrow that burrow_create allocated, with the memory
    backend, no allocation functions of the user's and memory that does not run
    out: the descriptors, all managed attributes and filters, the backend, the
    burrow itself and the messages are freed, except what deleting every account
    at the clock readings of the call leaves (queues and accounts with a message
    that is hidden then, accounts without queues), which stays in memory with
    nothing to point to it. That is nothing when no message was ever given a hide,
    no account is without queues and no list is longer than a [uint32_t] counts.
    Nothing but log lines is observed. *)
Theorem destroy_frees_everything bl b da s ps la lf w :
  b_backend b = backend_memory → b_malloc_fn b = None → b_free_fn b = None →
  has_flag (b_flags b) BURROW_FLAG_SELFALLOCATED = true → reliable w →
  triple (owned_by bl b da s ps la lf) (burrow_destroy (Some bl)) w
    (λ _ w', ∃ tss,
       let names := account_names everything s in
       let left := delete_account_list tss names s in
       ⟦ (∃ es, evolves w es w' ∧ Forall is_log es) ∧
         times_fit tss names s ∧ Forall (Forall (clock w w')) tss ∧
         (plain_server s → left = []) ⟧ ∗
       orphans bl b left)%I.
Proof.
  intros Hb Hm Hf Hfl Hr. apply triple_intro.
  assert (alloc_owner b = Libc) as Ho by (unfold alloc_owner; by rw Hm).
  assert (consistent b) as Hc by (unfold consistent, free_owner; by rw Hf Ho).
  iIntros "(Hb & Hback & Hs & Hps & [%Hla %Hlf] & Ha & Hfi)". unfold burrow_destroy. wp_focus.
  iApply wp_log_debug. iFrame "Hb". iIntros (w1 (e1 & He1 & Hl1)) "Hb". wload "Hb".
  unfold functions_of. rw Hb. simpl. wp_focus.
  iApply (wp_memory_free bl Libc b Hc (Pos.succ bl) Caller 0 da s with "[-]");
    [by eapply reliable_evolves|done|]. iFrame "Hb Hback Hs".
  iIntros (w2 tss (He2 & Hfit & Ht)) "Hb Hback Ho". simpl.
  wload "Hb". wp_focus. iAssert (wp (burrow_free (Some bl) (b_pfds b)) w2 (λ _ w3, ⟦ w3 = w2 ⟧ ∗ bl ↦{Libc} b))%I
    with "[Hb Hps]" as "H".
  { destruct (b_pfds b) as [l|], ps as [ps|]; simpl; try by iDestruct "Hps" as %[].
    - iApply wp_burrow_free; [done|]. rw Ho. iFrame "Hb Hps". iIntros "Hb". by iFrame.
    - iApply wp_burrow_free_null. iFrame "Hb". iIntros "Hb". by iFrame. }
  iApply (wp_wand with "H"). iIntros ([] w3) "[-> Hb]". wp_focus.
  iApply wp_log_debug. iFrame "Hb". iIntros (w3 (e3 & He3 & Hl3)) "Hb". wp_focus.
  iApply (wp_destroy_list (T := burrow_attributes_st) (V := attributes_value) bl Libc b la); [done|].
  iSplitL "Hb Ha"; [iSplit; [done|]; iFrame "Hb"; iExact "Ha"|]. iIntros "Hb". simpl. wp_focus.
  iApply wp_log_debug. iFrame "Hb". iIntros (w4 (e4 & He4 & Hl4)) "Hb". wp_focus.
  iApply (wp_destroy_list (T := burrow_filters_st) (V := filters_value) bl Libc
    (b <| b_attributes_list := NULL |>) lf with "[-]"); [exact Hc|].
  iSplitL "Hb Hfi"; [iSplit; [done|]; iFrame "Hb"; iExact "Hfi"|]. iIntros "Hb". wload "Hb". rw Hfl. wp_focus.
  iApply wp_log_debug. iFrame "Hb". iIntros (w5 (e5 & He5 & Hl5)) "Hb". wp_focus.
  iApply (wp_free_burrow bl (b <| b_attributes_list := NULL |> <| b_filters_list := NULL |>)); [done|].
  iFrame "Hb".
  iApply (wp_vacate _ _ (MemoryBackend 0 (Some bl) (Some da))). iFrame "Hback". iExists tss. iFrame "Ho".
  iPureIntro. assert (evolves w2 (e3 ++ e4 ++ e5) w5) as He35
    by by repeat (eapply evolves_trans; [eassumption|]).
  split_and!; [|done| |intros Hpl; by apply (delete_everything_plain w1 w2)].
  - exists (e1 ++ [] ++ e3 ++ e4 ++ e5). split; [by repeat (eapply evolves_trans; [eassumption|])|].
    by rw !Forall_app.
  - eapply Forall_impl; [exact Ht|]. intros ts. by eapply clocks_within.
Qed.
End memory.

(** ** The samples *)

#[local] Instance sample_tables : Backends := backend_tables burrow_backend_dummy_functions.

(** A burrow that processes by itself, on the sample server and on the dummy. *)
Definition memory_burrow : burrow_st :=
  sample_burrow <| b_options := BURROW_OPT_AUTOPROCESS |> <| b_backend_context := Some 2%positive |>
    <| b_complete_fn := Some 4%positive |>.
Definition dummy_burrow : burrow_st := memory_burrow <| b_backend := backend_dummy |>.

Definition call (k : burrow_command_t) : burrow_command_st :=
  Command k None (Some "acct") (Some "q") (Some "m1") (Some "hello") 5 NULL NULL.

(** A completion callback that asks for the queues the first times it runs, after a
    cancellation, and then for a message. *)
Definition chatty_calls : list api_call :=
  [CallCancel; CallCommand (call BURROW_CMD_GET_QUEUES); CallCommand (call BURROW_CMD_GET_MESSAGE);
   CallProcess].
Definition calling (calls : list api_call) : environment :=
  Env (λ _, true) (λ _, true) (λ _, 7%Z) (λ _, 1000%Z) (λ _ _, PollReady [1; 0; 5]%Z)
    (λ n, if n <? 20 then calls else []).
Definition chatty : environment := calling chatty_calls.

Theorem command_starts_witness :
  ∃ w' h', call_command (λ _, mret 0%Z) (Some 1%positive) (call BURROW_CMD_GET_QUEUES) steady
    {[1%positive := (Libc, BBurrow sample_burrow)]} = Ret 0%Z w' h' ∧
    h' = {[1%positive := (Libc, BBurrow (started (call BURROW_CMD_GET_QUEUES) sample_burrow))]}.
Proof.
  destruct (triple_run _ _ _ _ {[1%positive := (Libc, BBurrow sample_burrow)]}
    (command_starts 1 Libc (λ _, mret 0%Z) (call BURROW_CMD_GET_QUEUES) sample_burrow steady
       ltac:(done) eq_refl) eq_refl) as (r & w & h & E & _).
  pose proof E as E'. vm_compute in E'. injection E' as <- <- <-. by eexists _, _.
Defined.

Definition ready_command : burrow_command_st :=
  (call BURROW_CMD_GET_ACCOUNTS) <| cmd_command_fn := Some BURROW_CMD_GET_ACCOUNTS |>.
Definition busy_burrow : burrow_st := at_state memory_burrow BURROW_STATE_START 0 ready_command.
Definition busy_heap : heap := list_to_map (with_burrow busy_burrow sample_server_blocks).

Lemma busy_holds :
  holds (1%positive ↦{Libc} busy_burrow ∗
    memory_invariant 1 2 Libc 1 3 (alloc_owner memory_burrow))%I busy_heap.
Proof.
  refine (hent (P := server_at 1 Libc busy_burrow 2 Libc 1 3 sample_server) _ _ _).
  - iIntros "($ & Hm & Hs)". iExists sample_server. iFrame.
  - by apply sample_server_holds_with.
Qed.

Lemma chatty_permitted n : all_permitted memory_burrow memory_accepts true (e_user chatty n).
Proof. simpl. destruct (n <? 20); [|done]. by repeat split. Qed.

Lemma chatty_quiet n : 20 ≤ n → e_user chatty n = [].
Proof. intros Hn. simpl. by rw (proj2 (Nat.ltb_ge _ _) Hn). Qed.

Theorem process_completes_witness :
  ∃ w' h', burrow_process 100 (Some 1%positive) (World chatty 0 []) busy_heap = Ret 0%Z w' h' ∧
    let refused := EvPrint BURROW_VERBOSE_ERROR "burrow_get_message: burrow not idle" in
    w_trace w' = [EvAccount (Some "acct"); EvComplete; refused; EvQueue (Some "q"); EvComplete; refused;
                  EvQueue (Some "q"); EvComplete].
Proof.
  destruct (triple_run _ _ _ _ _ (process_completes 1 Libc memory_burrow chatty memory_accepts
    (memory_invariant 1 2 Libc 1 3 (alloc_owner memory_burrow))
    (SyncBackend0 := memory_sync burrow_backend_dummy_functions 1 Libc chatty memory_burrow 2 Libc 1 3
       eq_refl eq_refl eq_refl (λ n, conj eq_refl eq_refl))
    20 100 0 BURROW_STATE_START ready_command (World chatty 0 [])
    eq_refl eq_refl ltac:(repeat split; done) chatty_quiet chatty_permitted ltac:(vm_compute; lia)) busy_holds)
    as (r & w & h & E & _).
  pose proof E as E'. vm_compute in E'. injection E' as <- <- <-. eexists _, _. split; [exact E|reflexivity].
Defined.

Theorem frontend_create_message_witness :
  ∃ w' h', burrow_create_message (burrow_process 4) (Some 1%positive) (Some "acct") (Some "q") (Some "m4")
      (Some "hello") 5 NULL steady (list_to_map (with_burrow memory_burrow sample_server_blocks))
    = Ret 0%Z w' h' ∧ w_trace w' = [EvComplete].
Proof.
  run_on (frontend_create_message burrow_backend_dummy_functions 1 Libc memory_burrow 2 Libc 1 3
    "acct" "q" "m4" "hello" 5 sample_server 4 steady eq_refl eq_refl eq_refl eq_refl eq_refl eq_refl
    eq_refl sample_reliable (λ _, eq_refl) ltac:(vm_compute; discriminate) (le_n 4))
    (sample_server_holds_with memory_burrow eq_refl).
Defined.

Theorem watch_fd_appends_witness :
  ∃ w' h', burrow_internal_watch_fd (Some 1%positive) 9 (Z.lor BURROW_IOEVENT_READ BURROW_IOEVENT_WRITE)
      steady {[1%positive := (Libc, BBurrow sample_burrow)]} = Ret 0%Z w' h' ∧
    h' !! 2%positive = Some (Libc, BPollfds [Pollfd 9 5 7]).
Proof.
  assert (holds (watching 1 Libc sample_burrow []) {[1%positive := (Libc, BBurrow sample_burrow)]}) as Hh.
  { refine (hent (P := (1%positive ↦{Libc} sample_burrow)%I) _ _ eq_refl).
    iIntros "Hb". iExists []. by iFrame. }
  run_on (watch_fd_appends 1 Libc sample_burrow [] 9 (Z.lor BURROW_IOEVENT_READ BURROW_IOEVENT_WRITE)
    steady ltac:(done)) Hh.
Defined.

(** Three descriptors, of which the first and the last become live. *)
Definition sample_pfds : list pollfd := [Pollfd 10 1 0; Pollfd 11 1 0; Pollfd 12 5 0].
Definition watching_burrow : burrow_st :=
  dummy_burrow <| b_pfds := Some 2%positive |> <| b_pfds_size := 3%Z |> <| b_watch_size := 3%Z |>.
Definition polling_burrow : burrow_st :=
  at_state watching_burrow BURROW_STATE_WAITING BURROW_FLAG_PROCESSING no_command.
Definition polling_heap : heap :=
  list_to_map [(1%positive, (Libc, BBurrow polling_burrow)); (2%positive, (Libc, BPollfds sample_pfds))].

Lemma polling_holds : holds (watching 1 Libc polling_burrow sample_pfds ∗ emp)%I polling_heap.
Proof.
  apply blocks_holds; [reflexivity|]. iIntros "(Hb & Hp & _)". iSplitL; [|done]. iExists []. simpl.
  iFrame. done.
Qed.

Theorem poll_fds_dispatches_witness :
  ∃ w' h', burrow_internal_poll_fds (burrow_process 1) (Some 1%positive) (World chatty 0 []) polling_heap
    = Ret 0%Z w' h' ∧
    (λ ob, match ob.2 with BPollfds ps => pfd_fd <$> take 1 ps | _ => [] end) <$> h' !! 2%positive
      = Some [11%Z].
Proof.
  run_on (poll_fds_dispatches 1 Libc watching_burrow (λ _, emp%I)
    (EventBackend0 := dummy_events burrow_backend_dummy_functions 1 Libc watching_burrow eq_refl)
    1 BURROW_FLAG_PROCESSING sample_pfds [1; 0; 5]%Z BURROW_STATE_WAITING no_command (World chatty 0 [])
    (le_n 1) eq_refl ltac:(by eexists) ltac:(done) eq_refl eq_refl) polling_holds.
Defined.

Definition waiting_burrow : burrow_st := dummy_burrow <| b_state := BURROW_STATE_WAITING |>.

Theorem waiting_never_resumes_witness :
  ∃ w' h', (r1 ← burrow_process 2 (Some 1%positive);
     burrow_event_raised (burrow_process 2) (Some 1%positive) 9 BURROW_IOEVENT_READ;;
     r2 ← burrow_process 2 (Some 1%positive);
     mret (r1, r2)) steady {[1%positive := (Libc, BBurrow waiting_burrow)]}
    = Ret (EAGAIN, EAGAIN) w' h' ∧ w_trace w' = [].
Proof.
  run_on (waiting_never_resumes 1 Libc waiting_burrow burrow_backend_dummy_event_raised 9 BURROW_IOEVENT_READ 2
    steady (le_n 2) eq_refl eq_refl eq_refl eq_refl
    ltac:(intros b w; iIntros "Hb"; iApply wp_ret; by iFrame)) 
    (eq_refl : holds (1%positive ↦{Libc} waiting_burrow)%I
                 {[1%positive := (Libc, BBurrow waiting_burrow)]}).
Defined.

Theorem cancel_then_process_faults_witness :
  (burrow_cancel (Some 1%positive);; burrow_process 2 (Some 1%positive)) steady
    {[1%positive := (Libc, BBurrow busy_burrow)]} = Stuck NullCall.
Proof. exact (cancel_then_process_faults 1 Libc busy_burrow 2 steady _ (le_n 2) eq_refl eq_refl eq_refl eq_refl). Defined.

(** A burrow with a server, one attributes structure, two filters and room for
    descriptors. *)
Definition full_burrow : burrow_st :=
  sample_burrow <| b_flags := BURROW_FLAG_SELFALLOCATED |> <| b_pfds := Some 34%positive |>
    <| b_attributes_list := Some 35%positive |> <| b_filters_list := Some 36%positive |>.
Definition some_attributes : list (loc * attributes_value) := [(35%positive, AttributesValue 0 0 0)].
Definition some_filters : list (loc * filters_value) :=
  [(36%positive, FiltersValue 0 false 0 None BURROW_DETAIL_NONE 0);
   (37%positive, FiltersValue 0 false 0 None BURROW_DETAIL_NONE 0)].
Definition full_blocks (server_blocks : list (loc * (owner * Types.block))) :
    list (loc * (owner * Types.block)) :=
  [(1, (Libc, BBurrow full_burrow)); (2, (Caller, BMemory (MemoryBackend 0%Z (Some 1) (Some 3))));
   (34, (Libc, BPollfds sample_pfds));
   (35, (Libc, BAttributes (Attributes 0%Z 0%Z 0%Z (Some 1) NULL NULL)));
   (36, (Libc, BFilters (Filters 0%Z false 0%Z None BURROW_DETAIL_NONE 0%Z (Some 1) (Some 37) NULL)));
   (37, (Libc, BFilters (Filters 0%Z false 0%Z None BURROW_DETAIL_NONE 0%Z (Some 1) NULL (Some 36))))]%positive
  ++ drop 2 server_blocks.

Lemma full_holds bs s :
  bool_decide (NoDup (full_blocks bs).*1) = true → (blocks (drop 2 bs) ⊢ accounts_at Libc 1 3 s) →
  holds (owned_by 1 full_burrow 3 s (Some sample_pfds) some_attributes some_filters)
    (list_to_map (full_blocks bs)).
Proof.
  intros Hnd Hs. apply blocks_holds; [done|]. iIntros "($ & $ & $ & Ha & Hf & Hg & Hd)". simpl.
  iSplitL "Hd"; [by iApply Hs|]. iSplitR; [done|]. by iFrame.
Qed.

(** With nothing hidden nothing is left; with a hidden message, it and the queue
    and the account it is in. *)
Theorem destroy_frees_everything_witness :
  (∃ w' h', burrow_destroy (Some 1%positive) steady (list_to_map (full_blocks plain_sample_blocks))
     = Ret tt w' h' ∧ h' = ∅) ∧
  (∃ w' h', burrow_destroy (Some 1%positive) steady (list_to_map (full_blocks sample_server_blocks))
     = Ret tt w' h' ∧ dom h' = list_to_set [4; 5; 6; 7; 8; 9; 14; 15; 26; 27; 28]%positive).
Proof.
  split.
  - run_on (destroy_frees_everything burrow_backend_dummy_functions 1 full_burrow 3 plain_sample
      (Some sample_pfds) some_attributes some_filters steady eq_refl eq_refl eq_refl eq_refl sample_reliable)
      (full_holds plain_sample_blocks plain_sample eq_refl plain_accounts_at).
  - run_on (destroy_frees_everything burrow_backend_dummy_functions 1 full_burrow 3 sample_server
      (Some sample_pfds) some_attributes some_filters steady eq_refl eq_refl eq_refl eq_refl sample_reliable)
      (full_holds sample_server_blocks sample_server eq_refl sample_accounts_at).
Defined.

(** ** Where it stops *)

(** get_messages does not set the command's attributes: those of the command
    before it are read, even when the program has destroyed them since. *)
Example stale_attributes_read_after_free :
  (b ← burrow_create NULL (Some "memory");
   burrow_set_options b BURROW_OPT_AUTOPROCESS;;
   at_ ← burrow_attributes_create NULL b;
   burrow_create_message (burrow_process 4) b (Some "acct") (Some "q") (Some "m") (Some "hello") 5 at_;;
   burrow_attributes_destroy at_;;
   burrow_get_messages (burrow_process 4) b (Some "acct") (Some "q") NULL) steady ∅ = Stuck BadPointer.
Proof. vm_compute. reflexivity. Qed.

(** A completion callback that cancels the command it has just given. *)
Example cancelled_in_callback_faults :
  burrow_process 100 (Some 1%positive)
    (World (calling [CallCommand (call BURROW_CMD_GET_QUEUES); CallCancel]) 0 []) busy_heap = Stuck NullCall.
Proof. vm_compute. reflexivity. Qed.

(** A burrow that burrow_create allocated comes from the C library but goes back
    to the user's free function. *)
Example destroy_with_user_free_faults :
  (b ← burrow_create NULL (Some "dummy");
   burrow_set_malloc_fn b (Some 1%positive);;
   burrow_set_free_fn b (Some 2%positive);;
   burrow_destroy b) steady ∅ = Stuck BadFree.
Proof. vm_compute. reflexivity. Qed.
