(* ===== verification/Tests.v ===== *)
(** The test programs of the repository (tests/*.c), run on the model: each
    program is a computation that returns the checks that failed, and none does.
    The callbacks of the tests are what the events of the model tell them. *)
From S2P Require Import Prelude Types Heap Macros Managed Attributes Filters Burrow Lifecycle Dummy Dictionary Memory Backends.

#[local] Instance test_tables : Backends := backend_tables burrow_backend_dummy_functions.

(** Fuel for burrow_process: a command takes three turns of its loop. *)
Definition test_process : ptr → M Z := burrow_process 4.

(** ** Checks *)

(** What a program found wrong. *)
Abbreviation failures := (list string).

Definition burrow_test (what : string) (ok : bool) : M failures :=
  mret (if ok then [] else [what]).
Definition burrow_tests (what : string) (m : M bool) : M failures :=
  ok ← m; burrow_test what ok.

Definition answers {A} (ok : A → bool) (m : M A) : M bool := a ← m; mret (ok a).

Fixpoint all_of (ms : list (M failures)) : M failures :=
  match ms with
  | [] => mret []
  | m :: ms => f1 ← m; f2 ← all_of ms; mret (f1 ++ f2)
  end.

(** A command that must succeed, and commands that must fail. *)
Definition good (what : string) (m : M Z) : M failures :=
  burrow_tests what (r ← m; mret (r =? 0)%Z).
Definition bad (what : string) (m : M Z) : M failures :=
  burrow_tests what (r ← m; mret (negb (r =? 0)%Z)).

(** ** burrow_st.c *)

Definition ACCT : cstr := Some "my_acct".
Definition QUEUE : cstr := Some "my_queue".
Definition MSGID : cstr := Some "my_msg".
(** Five bytes, with the terminator. *)
Definition BODY : cstr := Some ("body" +:+ String Ascii.zero "").
Definition BODY_SIZE : Z := 5.

Definition burrow_st_main : M failures :=
  nonsense ← burrow_create NULL (Some "nonsense");
  none ← burrow_create NULL None;
  burrow ← burrow_create NULL (Some "dummy");
  attr ← burrow_attributes_create NULL burrow;
  burrow_add_options burrow BURROW_OPT_AUTOPROCESS;;
  options ← burrow_get_options burrow;
  burrow_attributes_set_ttl attr 30;;
  burrow_attributes_set_hide attr 0;;
  found ← all_of [
    burrow_test "burrow_create nonsense" (is_null nonsense);
    burrow_test "burrow_create NULL" (is_null none);
    burrow_test "burrow_create dummy" (negb (is_null burrow));
    burrow_test "attributes" (negb (is_null attr));
    burrow_test "options" (has_flag options BURROW_OPT_AUTOPROCESS);
    good "create_message" (burrow_create_message test_process burrow ACCT QUEUE MSGID BODY BODY_SIZE NULL);
    bad "create_message" (burrow_create_message test_process burrow None QUEUE MSGID BODY BODY_SIZE NULL);
    bad "create_message" (burrow_create_message test_process burrow ACCT None MSGID BODY BODY_SIZE NULL);
    bad "create_message" (burrow_create_message test_process burrow ACCT QUEUE None BODY BODY_SIZE NULL);
    bad "create_message" (burrow_create_message test_process burrow ACCT QUEUE MSGID None BODY_SIZE NULL);
    good "get_message" (burrow_get_message test_process burrow ACCT QUEUE MSGID NULL);
    bad "get_message" (burrow_get_message test_process burrow None QUEUE MSGID NULL);
    bad "get_message" (burrow_get_message test_process burrow ACCT None MSGID NULL);
    bad "get_message" (burrow_get_message test_process burrow ACCT QUEUE None NULL);
    good "delete_message" (burrow_delete_message test_process burrow ACCT QUEUE MSGID NULL);
    bad "delete_message" (burrow_delete_message test_process burrow None QUEUE MSGID NULL);
    bad "delete_message" (burrow_delete_message test_process burrow ACCT None MSGID NULL);
    bad "delete_message" (burrow_delete_message test_process burrow ACCT QUEUE None NULL);
    good "update_message" (burrow_update_message test_process burrow ACCT QUEUE MSGID attr NULL);
    bad "update_message" (burrow_update_message test_process burrow None QUEUE MSGID attr NULL);
    bad "update_message" (burrow_update_message test_process burrow ACCT None MSGID attr NULL);
    bad "update_message" (burrow_update_message test_process burrow ACCT QUEUE None attr NULL);
    bad "update_message" (burrow_update_message test_process burrow ACCT QUEUE MSGID NULL NULL);
    good "get_messages" (burrow_get_messages test_process burrow ACCT QUEUE NULL);
    bad "get_messages" (burrow_get_messages test_process burrow None QUEUE NULL);
    bad "get_messages" (burrow_get_messages test_process burrow ACCT None NULL);
    good "delete_messages" (burrow_delete_messages test_process burrow ACCT QUEUE NULL);
    bad "delete_messages" (burrow_delete_messages test_process burrow None QUEUE NULL);
    bad "delete_messages" (burrow_delete_messages test_process burrow ACCT None NULL);
    good "update_messages" (burrow_update_messages test_process burrow ACCT QUEUE attr NULL);
    bad "update_messages" (burrow_update_messages test_process burrow None QUEUE attr NULL);
    bad "update_messages" (burrow_update_messages test_process burrow ACCT None attr NULL);
    bad "update_messages" (burrow_update_messages test_process burrow ACCT QUEUE NULL NULL);
    good "get_queues" (burrow_get_queues test_process burrow ACCT NULL);
    bad "get_queues" (burrow_get_queues test_process burrow None NULL);
    good "delete_queues" (burrow_delete_queues test_process burrow ACCT NULL);
    bad "delete_queues" (burrow_delete_queues test_process burrow None NULL)];
  burrow_destroy burrow;;
  mret found.

(** ** burrow_attributes_st.c and burrow_filters_st.c *)

(** The first two of the three parts: managed structures, alone and several at
    once. The third places seven structures in one array, which the heap of
    typed blocks has no place for. *)
Definition burrow_attributes_main : M failures :=
  burrow ← burrow_create NULL (Some "dummy");
  attr ← burrow_attributes_create NULL burrow;
  found1 ← all_of [
    burrow_test "created" (negb (is_null attr));
    burrow_tests "ttl unset" (answers negb (burrow_attributes_isset_ttl attr));
    burrow_tests "hide unset" (answers negb (burrow_attributes_isset_hide attr))];
  burrow_attributes_set_ttl attr 100;;
  burrow_attributes_set_hide attr 10;;
  attr2 ← burrow_attributes_clone NULL attr;
  found2 ← all_of [
    burrow_tests "ttl set" (burrow_attributes_isset_ttl attr);
    burrow_tests "ttl" (answers (Z.eqb 100) (burrow_attributes_get_ttl attr));
    burrow_tests "hide set" (burrow_attributes_isset_hide attr);
    burrow_tests "hide" (answers (Z.eqb 10) (burrow_attributes_get_hide attr));
    burrow_test "cloned" (negb (is_null attr2));
    burrow_tests "ttl copied" (answers (Z.eqb 100) (burrow_attributes_get_ttl attr2));
    burrow_tests "hide copied" (answers (Z.eqb 10) (burrow_attributes_get_hide attr2))];
  burrow_attributes_destroy attr;;
  burrow_destroy burrow;;
  burrow ← burrow_create NULL (Some "dummy");
  attr ← burrow_attributes_create NULL burrow;
  attr2 ← burrow_attributes_create NULL burrow;
  attr3 ← burrow_attributes_create NULL burrow;
  attr4 ← burrow_attributes_create NULL burrow;
  attr5 ← burrow_attributes_create NULL burrow;
  found3 ← burrow_test "created"
    (negb (is_null attr || is_null attr2 || is_null attr3 || is_null attr4 || is_null attr5));
  burrow_attributes_destroy attr;;
  burrow_attributes_destroy attr3;;
  burrow_attributes_destroy attr5;;
  burrow_destroy burrow;;
  mret (found1 ++ found2 ++ found3).

Definition burrow_filters_main : M failures :=
  burrow ← burrow_create NULL (Some "dummy");
  filter ← burrow_filters_create NULL burrow;
  found1 ← all_of [
    burrow_test "created" (negb (is_null filter));
    burrow_tests "wait unset" (answers negb (burrow_filters_isset_wait filter));
    burrow_tests "limit unset" (answers negb (burrow_filters_isset_limit filter));
    burrow_tests "match_hidden unset" (answers negb (burrow_filters_isset_match_hidden filter));
    burrow_tests "detail unset" (answers negb (burrow_filters_isset_detail filter));
    burrow_tests "marker unset" (answers (λ m, negb (given m)) (burrow_filters_get_marker filter))];
  burrow_filters_set_marker filter (Some "default marker");;
  burrow_filters_set_wait filter 100;;
  burrow_filters_set_limit filter 220;;
  burrow_filters_set_match_hidden filter true;;
  burrow_filters_set_detail filter BURROW_DETAIL_ATTRIBUTES;;
  found2 ← all_of [
    burrow_tests "marker" (answers (λ m, bool_decide (m = Some "default marker")) (burrow_filters_get_marker filter));
    burrow_tests "wait set" (burrow_filters_isset_wait filter);
    burrow_tests "wait" (answers (Z.eqb 100) (burrow_filters_get_wait filter));
    burrow_tests "limit set" (burrow_filters_isset_limit filter);
    burrow_tests "limit" (answers (Z.eqb 220) (burrow_filters_get_limit filter));
    burrow_tests "match_hidden set" (burrow_filters_isset_match_hidden filter);
    burrow_tests "match_hidden" (burrow_filters_get_match_hidden filter);
    burrow_tests "detail set" (burrow_filters_isset_detail filter);
    burrow_tests "detail" (answers
      (λ d, match d with BURROW_DETAIL_ATTRIBUTES => true | _ => false end)
      (burrow_filters_get_detail filter))];
  burrow_filters_destroy filter;;
  burrow_destroy burrow;;
  mret (found1 ++ found2).

(** ** burrow_generic_tests.c *)

Definition EXPECT_NONE : Z := 0.
Definition CALL_QUEUE : Z := 1.
Definition MATCH_QUEUE_ONLY : Z := 2.
Definition MULT_QUEUE_ONLY : Z := 4.
Definition MATCH_QUEUE : Z := Z.lor CALL_QUEUE MATCH_QUEUE_ONLY.
Definition MULT_QUEUE : Z := Z.lor CALL_QUEUE MULT_QUEUE_ONLY.
Definition CALL_ACCT : Z := 8.
Definition MATCH_ACCT_ONLY : Z := 16.
Definition MULT_ACCT_ONLY : Z := 32.
Definition MATCH_ACCT : Z := Z.lor CALL_ACCT MATCH_ACCT_ONLY.
Definition MULT_ACCT : Z := Z.lor CALL_ACCT MULT_ACCT_ONLY.
Definition CALL_MSG : Z := 64.
Definition MATCH_MSG_ONLY : Z := 128.
Definition MULT_MSG_ONLY : Z := 256.
Definition MATCH_MSG : Z := Z.lor CALL_MSG MATCH_MSG_ONLY.
Definition MULT_MSG : Z := Z.lor CALL_MSG MULT_MSG_ONLY.
Definition LOG_ERROR : Z := 512.
Definition EXPECT_ALL : Z := Z.lnot EXPECT_NONE.

Definition acct : string := "my acct".
Definition queue : string := "my queue".
Definition msgid : string := "my messageid".
Definition altid : string := "alternate message id".
Definition body : string := "msg body".
Definition body_size : Z := 8.

(** What the callbacks add to the result. *)
Definition client_called (call mult match_only : Z) (matches : bool) (result : Z) : Z :=
  let result := Z.lor result (if has_flag result call then mult else call) in
  if matches then Z.lor result match_only else result.
Definition client_heard (result : Z) (e : event) : Z :=
  match e with
  | EvMessage id text size _ _ _ | EvMessagePlain id text size =>
      client_called CALL_MSG MULT_MSG_ONLY MATCH_MSG_ONLY
        (bool_decide (id = Some msgid) &&
         (negb (given text) || ((size =? body_size)%Z && bool_decide (text = Some body)))) result
  | EvQueue q => client_called CALL_QUEUE MULT_QUEUE_ONLY MATCH_QUEUE_ONLY (bool_decide (q = Some queue)) result
  | EvAccount a => client_called CALL_ACCT MULT_ACCT_ONLY MATCH_ACCT_ONLY (bool_decide (a = Some acct)) result
  | EvLog level _ =>
      if verbose_code BURROW_VERBOSE_ERROR <=? verbose_code level then Z.lor result LOG_ERROR else result
  | _ => result
  end.

(** Expectations: what must and what must not be called. *)
Inductive expectation :=
| client_may (may : Z)
| client_must (must : Z)
| client_only (only : Z).
Definition expecting (m : Z * Z) (e : expectation) : Z * Z :=
  match e with
  | client_may may => (m.1, Z.land m.2 (Z.lnot may))
  | client_must must => (Z.lor m.1 must, Z.land m.2 (Z.lnot must))
  | client_only only => (only, Z.lnot only)
  end.
Definition client_passed (result : Z) (es : list expectation) : bool :=
  let '(must, must_not) := fold_left expecting es (EXPECT_NONE, EXPECT_ALL) in
  (Z.land result must =? must)%Z && (Z.land result must_not =? 0)%Z.

(** One test: expectations, a command whose result is ignored, and the check. *)
Definition trace : M (list event) := λ w h, Ret (w_trace w) w h.
Definition functional (what : string) (es : list expectation) (command : M Z) : M failures :=
  before ← trace;
  command;;
  after ← trace;
  burrow_test what (client_passed (fold_left client_heard (drop (length before) after) EXPECT_NONE) es).

(** Without the allocation functions of the test, which call malloc and free: they
    are set after the burrow was allocated without them. *)
Definition test_setup (backend : string) : M (ptr * failures) :=
  burrow ← burrow_create NULL (Some backend);
  burrow_set_context burrow (Some 99%positive);;
  context ← burrow_get_context burrow;
  burrow_set_message_fn burrow (Some 1%positive);;
  burrow_set_queue_fn burrow (Some 2%positive);;
  burrow_set_account_fn burrow (Some 3%positive);;
  burrow_set_complete_fn burrow (Some 4%positive);;
  burrow_set_log_fn burrow (Some 5%positive);;
  burrow_add_options burrow BURROW_OPT_AUTOPROCESS;;
  options ← burrow_get_options burrow;
  found ← all_of [
    burrow_test "burrow_create" (negb (is_null burrow));
    burrow_test "context" (bool_decide (context = Some 99%positive));
    burrow_test "options" (has_flag options BURROW_OPT_AUTOPROCESS)];
  mret (burrow, found).

Definition test_teardown (burrow : ptr) : M unit :=
  burrow_remove_options burrow BURROW_OPT_AUTOPROCESS;;
  burrow_destroy burrow.

(** The commands of the tests. *)
Section functional.
Context (burrow : ptr).
Definition create_message_of (id : string) (attr : ptr) : M Z :=
  burrow_create_message test_process burrow (Some acct) (Some queue) (Some id) (Some body) body_size attr.
Definition get_accounts_now : M Z := burrow_get_accounts test_process burrow NULL.
Definition get_queues_now : M Z := burrow_get_queues test_process burrow (Some acct) NULL.
Definition get_messages_with (filters : ptr) : M Z :=
  burrow_get_messages test_process burrow (Some acct) (Some queue) filters.
Definition get_message_now : M Z :=
  burrow_get_message test_process burrow (Some acct) (Some queue) (Some msgid) NULL.
Definition delete_messages_with (filters : ptr) : M Z :=
  burrow_delete_messages test_process burrow (Some acct) (Some queue) filters.
Definition update_message_with (attr : ptr) : M Z :=
  burrow_update_message test_process burrow (Some acct) (Some queue) (Some msgid) attr NULL.
Definition update_messages_with (attr : ptr) : M Z :=
  burrow_update_messages test_process burrow (Some acct) (Some queue) attr NULL.

Definition test_run_functional : M failures :=
  found1 ← all_of [
    functional "create_message" [client_may MATCH_MSG] (create_message_of msgid NULL);
    functional "get_accounts" [client_must MATCH_ACCT; client_may MULT_ACCT] get_accounts_now;
    functional "get_queues" [client_must MATCH_QUEUE; client_may MULT_QUEUE] get_queues_now;
    functional "get_messages" [client_must MATCH_MSG; client_may MULT_MSG] (get_messages_with NULL);
    functional "get_message" [client_only MATCH_MSG] get_message_now];
  attr ← burrow_attributes_create NULL burrow;
  burrow_attributes_set_hide attr 10;;
  found2 ← functional "update_message hide=10" [client_only MATCH_MSG] (update_message_with attr);
  burrow_attributes_set_hide attr 0;;
  burrow_attributes_set_ttl attr 100;;
  found3 ← all_of [
    functional "update_messages hide=0 ttl=100 skip hidden" [client_may MULT_MSG] (update_messages_with attr);
    functional "delete_messages skip hidden" [client_may MULT_MSG] (delete_messages_with NULL);
    functional "get_message hidden" [client_only MATCH_MSG] get_message_now;
    functional "update_message hidden hide=0 ttl=100" [client_only MATCH_MSG] (update_message_with attr);
    functional "get_messages" [client_only MATCH_MSG] (get_messages_with NULL);
    functional "delete_message" [client_may MATCH_MSG]
      (burrow_delete_message test_process burrow (Some acct) (Some queue) (Some msgid) NULL);
    functional "get_accounts" [client_may MULT_ACCT] get_accounts_now;
    functional "get_queues" [client_may MULT_QUEUE] get_queues_now;
    functional "get_messages" [client_may MULT_MSG] (get_messages_with NULL);
    functional "get_message" [client_only EXPECT_NONE] get_message_now;
    functional "create_message" [client_may MATCH_MSG] (create_message_of msgid NULL);
    functional "get_message" [client_only MATCH_MSG] get_message_now;
    functional "delete_messages" [client_may (Z.lor MATCH_MSG MULT_MSG)] (delete_messages_with NULL);
    functional "get_messages" [client_only EXPECT_NONE] (get_messages_with NULL);
    functional "get_message" [client_only EXPECT_NONE] get_message_now;
    functional "get_queues" [client_may MULT_QUEUE] get_queues_now;
    functional "create_message" [client_may MATCH_MSG] (create_message_of msgid NULL);
    functional "get_message" [client_only MATCH_MSG] get_message_now;
    functional "delete_queues" [client_only EXPECT_NONE]
      (burrow_delete_queues test_process burrow (Some acct) NULL);
    functional "get_messages" [client_only EXPECT_NONE] (get_messages_with NULL);
    functional "get_message" [client_only EXPECT_NONE] get_message_now;
    functional "get_queues" [client_only EXPECT_NONE] get_queues_now;
    functional "get_accounts" [client_may MULT_ACCT] get_accounts_now;
    functional "create_message" [client_may MATCH_MSG] (create_message_of msgid NULL);
    functional "get_message" [client_only MATCH_MSG] get_message_now;
    functional "delete_accounts" [client_only EXPECT_NONE] (burrow_delete_accounts test_process burrow NULL);
    functional "get_messages" [client_only EXPECT_NONE] (get_messages_with NULL);
    functional "get_message" [client_only EXPECT_NONE] get_message_now;
    functional "get_queues" [client_only EXPECT_NONE] get_queues_now;
    functional "get_accounts" [client_only EXPECT_NONE] get_accounts_now];
  burrow_attributes_unset_all attr;;
  burrow_attributes_set_hide attr 10;;
  filters ← burrow_filters_create NULL burrow;
  found4 ← all_of [
    functional "create_message" [client_may MATCH_MSG] (create_message_of msgid attr);
    functional "create_message alternate" [client_may MATCH_MSG] (create_message_of altid NULL);
    functional "get_messages" [client_only CALL_MSG] (get_messages_with NULL)];
  burrow_filters_set_match_hidden filters true;;
  burrow_filters_set_detail filters BURROW_DETAIL_ALL;;
  found5 ← all_of [
    functional "get_messages" [client_must MATCH_MSG; client_must MULT_MSG] (get_messages_with filters);
    functional "delete_messages" [client_may CALL_MSG] (delete_messages_with NULL);
    functional "get_messages" [client_must MATCH_MSG] (get_messages_with filters);
    functional "delete_messages" [client_only MATCH_MSG] (delete_messages_with filters);
    functional "get_messages" [client_only EXPECT_NONE] (get_messages_with filters)];
  mret (found1 ++ found2 ++ found3 ++ found4 ++ found5).
End functional.

Definition burrow_backend_memory_main : M failures :=
  setup ← test_setup "memory";
  found ← test_run_functional setup.1;
  test_teardown setup.1;;
  mret (setup.2 ++ found).

(** ** The results *)

(** A world in which memory lasts and the clock stands at some moment. *)
Definition test_world (now : Z) : world :=
  World (Env (λ _, true) (λ _, true) (λ _, 0%Z) (λ _, now) (λ _ _, PollTimeout) (λ _, [])) 0 [].

(** Nothing fails, and no memory is left. *)
Definition passes (m : M failures) (now : Z) : bool :=
  match m (test_world now) ∅ with
  | Ret found _ h => bool_decide (found = []) && bool_decide (h = ∅)
  | _ => false
  end.

Example burrow_st_passes : passes burrow_st_main 1300000000 = true.
Proof. vm_compute. reflexivity. Qed.

Example burrow_attributes_passes : passes burrow_attributes_main 1300000000 = true.
Proof. vm_compute. reflexivity. Qed.

Example burrow_filters_passes : passes burrow_filters_main 1300000000 = true.
Proof. vm_compute. reflexivity. Qed.

Example burrow_backend_memory_passes : passes burrow_backend_memory_main 1300000000 = true.
Proof. vm_compute. reflexivity. Qed.
