(* ===== verification/Demo.v ===== *)
(** The example client examples/demo.c: the equations its generator sends, what
    its consumer makes of the messages it receives, and its options. Texts are
    C strings in buffers of a given size; a write beyond the buffer is an
    outcome of its own. Doubles are the IEEE numbers of the standard library's
    specification (53 bits, exponents up to 1024). *)
From stdpp Require Import pretty.
From Stdlib Require Import Ascii SpecFloat.
From S2P Require Import Prelude Types Macros.

(** ** Random equations *)

(** What becomes of a function that writes into a buffer and draws random
    numbers: the text and how many have been drawn, a write beyond the buffer, or
    fuel that did not last. *)
Inductive written :=
| Written (text : string) (drawn : nat)
| Overrun
| OutOfFuel.

Section random.
(** The successive results of [rand]. *)
Context (rand : nat → Z).

Definition MAXINT : Z := 99.
Definition STOP_CHANCE : Z := 11.
Definition CUTOFF (size : Z) : Z := size - 1 - 1 - 2.

Definition random_operand (n : nat) : string := pretty (Z.rem (rand n) MAXINT + 1)%Z.

Definition random_op (n : nat) : ascii :=
  let op := Z.rem (rand n) 4 in
  if (op =? 1)%Z then "-"%char else if (op =? 2)%Z then "*"%char
  else if (op =? 3)%Z then "/"%char else "+"%char.

(** [sprintf] to the end of [text], if its terminator still fits. *)
Definition sprintf_at (size : Z) (text more : string) (k : string → written) : written :=
  let text := text +:+ more in
  if (Z.of_nat (String.length text) <? size)%Z then k text else Overrun.

(** The loop of [random_equation]: [p - buf] is the length of the text. *)
Fixpoint equation_loop (fuel : nat) (size : Z) (text : string) (n : nat) : written :=
  match fuel with
  | O => OutOfFuel
  | S fuel =>
      if (Z.of_nat (String.length text) <? CUTOFF size)%Z then
        if (Z.rem (rand n) STOP_CHANCE =? 0)%Z then Written text (n + 1)
        else sprintf_at size text (String (random_op (n + 1)) (random_operand (n + 2)))
               (λ text, equation_loop fuel size text (n + 3))
      else Written text n
  end.

Definition random_equation (fuel : nat) (size : Z) (n : nat) : written :=
  if (CUTOFF size <=? 0)%Z then if (0 <? size)%Z then Written "" n else Overrun
  else sprintf_at size "" (random_operand n) (λ text, equation_loop fuel size text (n + 1)).
End random.

(** ** Evaluating equations *)

(** What [sscanf(p, "%d%n", &intval, &count)] does: no number, or a number and
    what follows it; a number an [int] cannot hold is undefined. *)
Inductive scanned :=
| NoNumber
| Number (intval : Z) (rest : string)
| TooLarge.

Definition space (c : ascii) : bool :=
  let n := Ascii.nat_of_ascii c in (n =? 32) || ((9 <=? n) && (n <=? 13)).
Definition digit (c : ascii) : option Z :=
  let n := Ascii.nat_of_ascii c in
  if (48 <=? n) && (n <=? 57) then Some (Z.of_nat n - 48)%Z else None.

Fixpoint skip_spaces (s : string) : string :=
  match s with
  | String c s' => if space c then skip_spaces s' else s
  | EmptyString => s
  end.

(** The digits at the beginning, added to [v]. *)
Fixpoint scan_digits (v : Z) (s : string) : Z * string :=
  match s with
  | String c s' => match digit c with
                   | Some d => scan_digits (10 * v + d)%Z s'
                   | None => (v, s)
                   end
  | EmptyString => (v, s)
  end.

Definition INT_MAX : Z := 2147483647.

Definition scan_number (sign : Z) (s : string) : scanned :=
  match s with
  | String c _ =>
      match digit c with
      | Some _ =>
          let '(v, rest) := scan_digits 0 s in
          let v := (sign * v)%Z in
          if (- INT_MAX - 1 <=? v)%Z && (v <=? INT_MAX)%Z then Number v rest else TooLarge
      | None => NoNumber
      end
  | EmptyString => NoNumber
  end.

Definition scan_int (s : string) : scanned :=
  match skip_spaces s with
  | String "-" s' => scan_number (-1) s'
  | String "+" s' => scan_number 1 s'
  | s' => scan_number 1 s'
  end.

(** Doubles, with the conversion of an [int], which is exact. *)
Abbreviation double := spec_float.
Definition NAN : double := S754_nan.
Definition double_of_int (z : Z) : double := binary_normalize 53 1024 z 0 false.

Definition apply_op (op : ascii) (value : double) (intval : Z) : option double :=
  if Ascii.eqb op "+" then Some (SFadd 53 1024 value (double_of_int intval))
  else if Ascii.eqb op "*" then Some (SFmul 53 1024 value (double_of_int intval))
  else if Ascii.eqb op "/" then Some (SFdiv 53 1024 value (double_of_int intval))
  else if Ascii.eqb op "-" then Some (SFsub 53 1024 value (double_of_int intval))
  else None.

(** The result of an evaluation; undefined when a number is too large. *)
Inductive evaluated :=
| Value (v : double)
| Undefined
| Unfinished.

Fixpoint process_rest (fuel : nat) (value : double) (p : string) : evaluated :=
  match p with
  | EmptyString => Value value
  | String op p =>
      match fuel with
      | O => Unfinished
      | S fuel =>
          match scan_int p with
          | NoNumber => Value NAN
          | TooLarge => Undefined
          | Number intval p =>
              match apply_op op value intval with
              | Some value => process_rest fuel value p
              | None => Value NAN
              end
          end
      end
  end.

Definition process_equation (buf : string) : evaluated :=
  match scan_int buf with
  | NoNumber => Value NAN
  | TooLarge => Undefined
  | Number intval p => process_rest (String.length buf) (double_of_int intval) p
  end.

(** ** The consumer *)

Record incoming_st := Incoming { in_id : string; in_data : string; in_size : Z }.

(** [last_msg_id] is the text in the array of 128 characters; [msg] the linked
    list, its first element first. *)
Record app_state_st := AppState {
  as_error : bool; as_generator : bool; as_last_msg_id : string; as_msg : list incoming_st }.

Definition LAST_MSG_ID_SIZE : nat := 128.

(** The callbacks see a message as its id and body; a NULL body is none. When
    memory runs out ([memory] false) the program exits: no state. *)
Definition message_callback (memory : bool) (message_id : string) (body : cstr) (body_size : Z)
    (state : app_state_st) : option app_state_st :=
  if as_generator state then Some state
  else match body with
       | None => Some state
       | Some body =>
           if memory then
             Some (AppState (as_error state) (as_generator state) (as_last_msg_id state)
                     (Incoming message_id (String.substring 0 (Z.to_nat body_size) body) body_size
                      :: as_msg state))
           else None
       end.

(** The bytes as the C string that is read: up to the first zero byte. *)
Fixpoint c_string (s : string) : string :=
  match s with
  | String c s => if Ascii.eqb c Ascii.zero then EmptyString else String c (c_string s)
  | EmptyString => EmptyString
  end.

(** The values are printed in the order of the list. *)
Definition complete_callback (state : app_state_st) : app_state_st * list evaluated :=
  match as_msg state with
  | [] => (state, [])
  | incoming :: _ =>
      (AppState (as_error state) (as_generator state)
         (String.substring 0 (LAST_MSG_ID_SIZE - 1) (in_id incoming)) [],
       (λ incoming, process_equation (c_string (in_data incoming))) <$> as_msg state)
  end.

Definition error_callback (err : burrow_verbose_t) (state : app_state_st) : app_state_st :=
  if verbose_code BURROW_VERBOSE_ERROR <=? verbose_code err
  then AppState true (as_generator state) (as_last_msg_id state) (as_msg state) else state.

(** ** The options of the program *)

Record demo_settings := Settings {
  st_server : string; st_port : string; st_account : cstr; st_queue : string;
  st_verbose : Z; st_seed : Z; st_messages : Z; st_maxsleep : Z; st_generator : bool }.

(** A number the standard library cannot represent is undefined. *)
Definition atoi (s : string) : option Z :=
  match scan_int s with
  | Number z _ => Some z
  | NoNumber => Some 0%Z
  | TooLarge => None
  end.

(** What an option does: go on with other settings, show the help and leave, or
    undefined behaviour. *)
Inductive optioned :=
| GoOn (s : demo_settings)
| Help
| OptionUndefined.

Definition with_number (s : string) (k : Z → optioned) : optioned :=
  match atoi s with Some z => k z | None => OptionUndefined end.

Definition main_option (c : ascii) (optarg : string) (s : demo_settings) : optioned :=
  let '(Settings server port account queue verbose seed messages maxsleep generator) := s in
  if Ascii.eqb c "v" then GoOn (Settings server port account queue (verbose + 1) seed messages maxsleep generator)
  else if Ascii.eqb c "g" then GoOn (Settings server port account queue verbose seed messages maxsleep true)
  else if Ascii.eqb c "c" then GoOn (Settings server port account queue verbose seed messages maxsleep false)
  else if Ascii.eqb c "s" then GoOn (Settings optarg port account queue verbose seed messages maxsleep generator)
  else if Ascii.eqb c "p" then GoOn (Settings server optarg account queue verbose seed messages maxsleep generator)
  else if Ascii.eqb c "a" then GoOn (Settings server port (Some optarg) queue verbose seed messages maxsleep generator)
  else if Ascii.eqb c "q" then GoOn (Settings server port account optarg verbose seed messages maxsleep generator)
  else if Ascii.eqb c "e" then
    with_number optarg (λ z, GoOn (Settings server port account queue verbose z messages maxsleep generator))
  else if Ascii.eqb c "r" then
    with_number optarg (λ z, if (z <? INT_MAX)%Z
      then GoOn (Settings server port account queue verbose seed (z + 1) maxsleep generator)
      else OptionUndefined)
  else if Ascii.eqb c "l" then
    with_number optarg (λ z, GoOn (Settings server port account queue verbose seed messages z generator))
  else Help.

(** How often the loop [while (endless || messages--)] runs; [None] for ever, or
    for longer than the fuel. *)
Fixpoint iterations (fuel : nat) (endless : bool) (messages : Z) : option nat :=
  if negb endless && (messages =? 0)%Z then Some 0
  else match fuel with O => None | S fuel => S <$> iterations fuel endless (messages - 1) end.

Definition requests (fuel : nat) (s : demo_settings) : option nat :=
  iterations fuel (st_messages s =? 0)%Z (st_messages s).
