(* ===== verification/Session.v ===== *)
(** Whole conversations with a burrow on the memory backend, as the client that
    makes the calls sees them: the results, what its callbacks are told, what
    the server holds, what is leaked. The relation between successive servers is
    pure; SessionProps.v shows that burrow.c and memory.c together follow it. *)
From S2P Require Import Prelude Types Heap Macros Dictionary Memory Server Burrow Logic MacrosSpec DictionarySpec Assoc TreeSpec MemorySpec.
From S2P Require Import MemoryLists MemoryMessages BurrowSpec.
From iris.proofmode Require Import proofmode.

(** ** What the client's pointers point to *)

(** The filters, or the attributes, the client keeps for the commands it gives. *)
Abbreviation store T := (gmap loc (owner * T)).

Section store.
Context {T : Type} `{Storable T}.
Implicit Types (m : store T) (p : ptr).

Definition pointed m p : option T := p ≫= λ l, snd <$> m !! l.
Definition points_in m p : Prop := match p with Some l => is_Some (m !! l) | None => True end.
Definition stored m : hPropI := ([∗ map] l ↦ x ∈ m, l ↦{x.1} x.2)%I.

Lemma stored_open m p :
  points_in m p → stored m ⊢ ∃ ow, optional_at ow p (pointed m p) ∗ (optional_at ow p (pointed m p) -∗ stored m).
Proof.
  destruct p as [l|]; simpl.
  - intros [[ow x] Hl]. rw Hl /=. iIntros "H".
    iDestruct (big_sepM_lookup_acc _ _ _ _ Hl with "H") as "[Hx H]". iExists ow. iFrame.
  - iIntros (_) "H". iExists Libc. iSplitR; [done|]. by iIntros "_".
Qed.
End store.

(** ** The relation *)

(** What the messages that were replaced leave behind: their ids and bodies. *)
Abbreviation litter := (list (string * message)).

Section session.
Context (b : burrow_st) (E : environment).
Context (F : store burrow_filters_st) (A : store burrow_attributes_st).
Implicit Types (c : burrow_command_st) (s : server).

(** The clock reading a command starts with. *)
Definition now_at (n : nat) : Z := u32 (e_time E n).

(** How the server answers a command between the moments [n] and [n']: the
    result, what is called back, what is leaked and what the server then holds. *)
Inductive answered (n n' : nat) c s : Z → list event → litter → server → Prop :=
| answer_get_accounts :
    cmd_command c = BURROW_CMD_GET_ACCOUNTS →
    answered n n' c s 0 (observed (b_account_fn b)
      ((λ a, EvAccount (Some a)) <$> account_names (select (pointed F (cmd_filters c))) s)) [] s
| answer_delete_accounts tss :
    let names := account_names (select (pointed F (cmd_filters c))) s in
    cmd_command c = BURROW_CMD_DELETE_ACCOUNTS → times_fit tss names s →
    Forall (Forall (reading E n n')) tss →
    answered n n' c s 0 [] [] (delete_account_list tss names s)
| answer_get_queues :
    cmd_command c = BURROW_CMD_GET_QUEUES →
    answered n n' c s 0 (observed (b_queue_fn b) ((λ q, EvQueue (Some q)) <$>
      queue_names (select (pointed F (cmd_filters c))) (cmd_account c) s)) [] s
| answer_delete_queues times :
    let names := queue_names (select (pointed F (cmd_filters c))) (cmd_account c) s in
    cmd_command c = BURROW_CMD_DELETE_QUEUES → length times = length names →
    Forall (reading E n n') times →
    answered n n' c s 0 [] [] (delete_queue_list times (cmd_account c) names s)
| answer_get_messages set :
    let r := scan_queue (now_at n) (select (pointed F (cmd_filters c))) (0, 0)%Z GET REPORT
               (with_flags set) (cmd_account c) (cmd_queue c) s in
    cmd_command c = BURROW_CMD_GET_MESSAGES →
    answered n n' c s 0 (observed (b_message_fn b) r.2) [] r.1
| answer_update_messages set :
    let r := scan_queue (now_at n) (select (pointed F (cmd_filters c)))
               (scan_times (now_at n) (pointed A (cmd_attributes c))) UPDATE REPORT
               (with_flags set) (cmd_account c) (cmd_queue c) s in
    cmd_command c = BURROW_CMD_UPDATE_MESSAGES →
    answered n n' c s 0 (observed (b_message_fn b) r.2) [] r.1
| answer_delete_messages set :
    let r := scan_queue (now_at n) (select (pointed F (cmd_filters c))) (0, 0)%Z DELETE REPORT
               (with_flags set) (cmd_account c) (cmd_queue c) s in
    cmd_command c = BURROW_CMD_DELETE_MESSAGES →
    answered n n' c s 0 (observed (b_message_fn b) r.2) [] r.1
| answer_get_message set :
    let r := get_message (now_at n) set (cmd_account c) (cmd_queue c) (cmd_message_id c) s in
    cmd_command c = BURROW_CMD_GET_MESSAGE →
    answered n n' c s r.1.1 (observed (b_message_fn b) r.2) [] r.1.2
| answer_update_message set :
    let r := update_message (now_at n) set (update_times (now_at n) (pointed A (cmd_attributes c)))
               (cmd_account c) (cmd_queue c) (cmd_message_id c) s in
    cmd_command c = BURROW_CMD_UPDATE_MESSAGE →
    answered n n' c s r.1.1 (observed (b_message_fn b) r.2) [] r.1.2
| answer_delete_message set :
    let r := delete_message (now_at n) set (cmd_account c) (cmd_queue c) (cmd_message_id c) s in
    cmd_command c = BURROW_CMD_DELETE_MESSAGE →
    answered n n' c s 0 (observed (b_message_fn b) r.2) [] r.1
| answer_create_message a q id body :
    cmd_command c = BURROW_CMD_CREATE_MESSAGE → cmd_account c = Some a → cmd_queue c = Some q →
    cmd_message_id c = Some id → cmd_body c = Some body →
    answered n n' c s 0 []
      (match replaced a q id s with Some m => [(id, m)] | None => [] end)
      (create_message a q id
         (new_message (now_at n) (pointed A (cmd_attributes c)) body (cmd_body_size c)) s).

(** A command without its required parameters is refused; another is answered,
    and then its completion is called back. *)
Inductive served (n n' : nat) c s : Z → list event → litter → server → Prop :=
| serve_refused :
    required c = false →
    served n n' c s EINVAL (log_events b BURROW_VERBOSE_ERROR
      (command_name (cmd_command c) +:+ ": invalid parameters")) [] s
| serve_answered r es lost s' :
    required c = true → answered n n' c s r es lost s' →
    served n n' c s r (es ++ when_set (b_complete_fn b) EvComplete) lost s'.

(** A conversation: one command after the other. *)
Inductive session : nat → server → list burrow_command_st →
    list Z → list event → litter → nat → server → Prop :=
| session_over n s : session n s [] [] [] [] n s
| session_next n n' n'' c cs r rs es es' lost lost' s s' s'' :
    n ≤ n' → served n n' c s r es lost s' → session n' s' cs rs es' lost' n'' s'' →
    session n s (c :: cs) (r :: rs) (es ++ es') (lost ++ lost') n'' s''.

(** Every command of a conversation satisfies [P] at the moment and on the
    server it meets, however the conversation goes. *)
Fixpoint always (P : nat → server → burrow_command_st → Prop) (n : nat) s
    (cs : list burrow_command_st) : Prop :=
  match cs with
  | [] => True
  | c :: cs =>
      P n s c ∧ ∀ n' r es lost s', n ≤ n' → served n n' c s r es lost s' → always P n' s' cs
  end.

(** The get_message command, which must not meet an expired message. *)
Definition meets_readable (n : nat) s c : Prop :=
  cmd_command c = BURROW_CMD_GET_MESSAGE →
  readable (now_at n) (cmd_account c) (cmd_queue c) (cmd_message_id c) s.

(** Commands whose pointers are the client's and whose body is as long as its
    size says. *)
Definition admissible c : Prop :=
  cmd_command c ≠ BURROW_CMD_NONE ∧ points_in F (cmd_filters c) ∧ points_in A (cmd_attributes c) ∧
  match cmd_body c with
  | Some body => (0 ≤ cmd_body_size c ≤ Z.of_nat (String.length body))%Z
  | None => True
  end.

(** ** Commands given by the completion callback *)

(** What the calls made from within the completion callback come to, when
    [next] is the command that has already been accepted there: the first command
    with its required parameters is accepted, every other one is refused with a
    log line, and burrow_process does nothing, as it is running. *)
Fixpoint replies (calls : list api_call) (next : option burrow_command_st) :
    list event * option burrow_command_st :=
  match calls with
  | CallCommand c :: calls =>
      match next with
      | Some _ =>
          let r := replies calls next in
          (log_events b BURROW_VERBOSE_ERROR (command_name (cmd_command c) +:+ ": burrow not idle") ++ r.1, r.2)
      | None =>
          if required c then replies calls (Some c)
          else let r := replies calls None in
               (log_events b BURROW_VERBOSE_ERROR
                  (command_name (cmd_command c) +:+ ": invalid parameters") ++ r.1, r.2)
      end
  | _ :: calls => replies calls next
  | [] => ([], next)
  end.

(** The completion of a command between two moments: what is observed and the
    command that follows it. *)
Inductive completed (n n' : nat) : list event → option burrow_command_st → Prop :=
| complete_unheard : n ≤ n' → b_complete_fn b = NULL → completed n n' [] None
| complete_heard k :
    n ≤ k < n' → b_complete_fn b ≠ NULL →
    completed n n' (EvComplete :: (replies (e_user E k) None).1) (replies (e_user E k) None).2.

(** A command and those its completion, theirs and so on lead to. *)
Inductive driven (n : nat) s c : Z → list event → litter → nat → server → Prop :=
| drive_last n1 n2 r es es' lost s' :
    n ≤ n1 → answered n n1 c s r es lost s' → completed n1 n2 es' None →
    driven n s c r (es ++ es') lost n2 s'
| drive_on n1 n2 n3 r r' es es' es'' lost lost' s' s'' c' :
    n ≤ n1 → answered n n1 c s r es lost s' → completed n1 n2 es' (Some c') →
    driven n2 s' c' r' es'' lost' n3 s'' →
    driven n s c r' (es ++ es' ++ es'') (lost ++ lost') n3 s''.

(** The commands met on the way, with their moments and servers. *)
Inductive reached (n : nat) s c : nat → server → burrow_command_st → Prop :=
| reach_here : reached n s c n s c
| reach_next n1 n2 n3 r es es' lost s' s'' c' c'' :
    n ≤ n1 → answered n n1 c s r es lost s' → completed n1 n2 es' (Some c') →
    reached n2 s' c' n3 s'' c'' → reached n s c n3 s'' c''.

(** The calls the completion callback may make. *)
Definition courteous (call : api_call) : Prop :=
  match call with
  | CallCommand c => admissible c
  | CallProcess => True
  | _ => False
  end.

(** Only the fields a command takes from its caller matter to the answer. *)
Lemma answered_filled n n' fn c old s r es lost s' :
  answered n n' (filled fn c old) s r es lost s' → answered n n' c s r es lost s'.
Proof. destruct c as [[] ????????]; destruct 1; simplify_eq/=; by econstructor. Qed.
End session.
