(* ===== verification/SessionSpec.v ===== *)
(** Rules for whole conversations: a command of the memory backend answers as
    the relation of Session.v says, and so does its call through the frontend. *)
From S2P Require Import Prelude Types Heap Macros Dictionary Memory Server Burrow Backends Logic MacrosSpec DictionarySpec Assoc TreeSpec MemorySpec.
From S2P Require Import MemoryScan MemoryLists MemoryMessages BurrowSpec BackendsSpec MemorySample Session.
From iris.proofmode Require Import proofmode.

(** Only updates look at the times. *)
Lemma scan_queue_times now sel times ty da set a q s :
  ty ≠ UPDATE →
  scan_queue now sel times ty da set a q s = scan_queue now sel (0, 0)%Z ty da set a q s.
Proof.
  intros Ht. unfold scan_queue. destruct (queue_of a q s) as [[[? ?] ms]|]; [|done].
  assert (∀ im, scan_one now (sel_hidden sel) times.1 times.2 ty da set im.1 im.2 =
    scan_one now (sel_hidden sel) 0 0 ty da set im.1 im.2) as E by (intros; by destruct ty).
  f_equal; [f_equal; f_equal; f_equal|]; apply flat_map_ext; intros im;
    unfold scan_left, scan_reports; by rw E.
Qed.

(** ** One command of the backend *)

Section answers.
Context (bl : loc) (bo : owner) (b : burrow_st) (Hcons : consistent b).
Context (ml : loc) (mo : owner) (sa : Z) (da : loc).
Context (F : store burrow_filters_st) (A : store burrow_attributes_st).
Context (Hlimits : map_Forall (λ _ x, (0 ≤ fi_limit x.2)%Z) F).
Abbreviation backend := (backend_at bl ml mo sa da).

Fixpoint leaked_all (lost : litter) : hPropI :=
  match lost with
  | [] => emp
  | (id, m) :: lost => leaked b id (Some m) ∗ leaked_all lost
  end%I.

Lemma leaked_all_app lost1 lost2 : leaked_all lost1 ∗ leaked_all lost2 ⊢ leaked_all (lost1 ++ lost2).
Proof.
  induction lost1 as [|[id m] lost1 IH]; simpl; [by iIntros "[_ $]"|].
  iIntros "[[$ H1] H2]". iApply IH. iFrame.
Qed.

Lemma select_limit p : (0 ≤ sel_limit (select (pointed F p)))%Z.
Proof using Hlimits.
  destruct p as [l|]; simpl; [|done]. destruct (F !! l) as [[ow f]|] eqn:El; simpl; [|done].
  destruct (has_flag _ _); [|done]. exact (Hlimits _ _ El).
Qed.

Context (cmd : burrow_command_st) (w : world) (Hr : reliable w).
Context (Hvf : points_in F (cmd_filters cmd)) (Hva : points_in A (cmd_attributes cmd)).

(** What is there before and after an answer. *)
Definition served_state (s : server) : hPropI :=
  (bl ↦{bo} b ∗ backend ∗ accounts_at (alloc_owner b) bl da s ∗ stored F ∗ stored A)%I.

(** The answer to [cmd], in a world reached from [w]. *)
Definition answer (s : server) (r : Z) (w' : world) : hPropI :=
  (∃ es lost s', ⟦ r ≠ EAGAIN ∧ evolves w es w' ∧
     answered b (w_env w) F A (w_tick w) (w_tick w') cmd s r es lost s' ⟧ ∗
   served_state s' ∗ leaked_all lost)%I.

Lemma answer_intro r es lost s s' w' :
  r ≠ EAGAIN → evolves w es w' →
  answered b (w_env w) F A (w_tick w) (w_tick w') cmd s r es lost s' →
  bl ↦{bo} b ∗ backend ∗ accounts_at (alloc_owner b) bl da s' ∗ stored F ∗ stored A ∗ leaked_all lost
  ⊢ answer s r w'.
Proof.
  iIntros (Hne He Ha) "(Hb & Hm & Hs & HF & HA & Hl)". iExists es, lost, s'. iSplitR; [done|]. iFrame.
Qed.

(** Applying a rule to the opened state. *)
Tactic Notation "answer" "by" uconstr(rule) :=
  let fo := fresh "fo" in let ao := fresh "ao" in
  iIntros "(Hb & Hm & Hs & HF & HA)";
  iDestruct (stored_open _ _ Hvf with "HF") as (fo) "[Hf HF]";
  iDestruct (stored_open _ _ Hva with "HA") as (ao) "[Hat HA]";
  iApply (rule fo ao with "[-]"); [first [done|apply select_limit]..|].

(** Closing it again, with the answer that was given. *)
Tactic Notation "give" "answer" tactic3(tac) :=
  iDestruct ("HF" with "Hf") as "HF"; iDestruct ("HA" with "Hat") as "HA";
  iApply answer_intro; [try done|try eassumption|tac|iFrame].

Abbreviation filters := (pointed F (cmd_filters cmd)).
Abbreviation attributes := (pointed A (cmd_attributes cmd)).

Lemma answers_get_accounts s :
  cmd_command cmd = BURROW_CMD_GET_ACCOUNTS →
  served_state s ⊢ wp (burrow_backend_memory_get_accounts (Some ml) cmd) w (answer s).
Proof using Type*.
  intros Hc. answer by (λ fo ao, wp_get_accounts bl bo b Hcons ml mo sa da cmd fo filters s).
  iFrame "Hb Hm Hs Hf". iIntros (w' [He|Hg]) "Hb Hm Hs Hf"; [|by apply gave_up_reliable in Hg].
  give answer by constructor.
Qed.

Lemma answers_delete_accounts s :
  cmd_command cmd = BURROW_CMD_DELETE_ACCOUNTS →
  served_state s ⊢ wp (burrow_backend_memory_delete_accounts (Some ml) cmd) w (answer s).
Proof using Type*.
  intros Hc. answer by (λ fo ao, wp_delete_accounts bl bo b Hcons ml mo sa da cmd fo filters s).
  iFrame "Hb Hm Hs Hf". iIntros (w' tss (He & Hfit & Ht)) "Hb Hm Hs Hf".
  give answer by constructor.
Qed.

Lemma answers_get_queues s :
  cmd_command cmd = BURROW_CMD_GET_QUEUES →
  served_state s ⊢ wp (burrow_backend_memory_get_queues (Some ml) cmd) w (answer s).
Proof using Type*.
  intros Hc. answer by (λ fo ao, wp_get_queues bl bo b Hcons ml mo sa da cmd fo filters s).
  iFrame "Hb Hm Hs Hf". iIntros (w' [He|Hg]) "Hb Hm Hs Hf"; [|by apply gave_up_reliable in Hg].
  give answer by constructor.
Qed.

Lemma answers_delete_queues s :
  cmd_command cmd = BURROW_CMD_DELETE_QUEUES →
  served_state s ⊢ wp (burrow_backend_memory_delete_queues (Some ml) cmd) w (answer s).
Proof using Type*.
  intros Hc. answer by (λ fo ao, wp_delete_queues bl bo b Hcons ml mo sa da cmd fo filters s).
  iFrame "Hb Hm Hs Hf". iIntros (w' times (He & Hl & Ht)) "Hb Hm Hs Hf".
  give answer by constructor.
Qed.

(** The three commands that scan a queue. *)
Lemma answers_scan ty s :
  (∀ set es s', let r := scan_queue (now_at (w_env w) (w_tick w)) (select filters)
       (scan_times (now_at (w_env w) (w_tick w)) attributes) ty REPORT (with_flags set)
       (cmd_account cmd) (cmd_queue cmd) s in
     es = observed (b_message_fn b) r.2 → s' = r.1 →
     ∀ n', answered b (w_env w) F A (w_tick w) n' cmd s 0 es [] s') →
  served_state s ⊢ wp (_scan_queue (Some ml) cmd ty REPORT;; mret 0%Z) w (answer s).
Proof using Type*.
  intros Ha. rw -wp_bind.
  answer by (λ fo ao, wp_scan_queue bl bo b Hcons ml mo sa da cmd ty REPORT fo filters ao attributes s).
  iFrame "Hb Hm Hs Hf Hat". iIntros (s' w' [[set [Es He]]|[Hg _]]) "Hb Hm Hs Hf Hat".
  2: by apply gave_up_reliable in Hg.
  wret. give answer by eapply Ha.
Qed.

Lemma answers_get_message s :
  cmd_command cmd = BURROW_CMD_GET_MESSAGE →
  readable (now_at (w_env w) (w_tick w)) (cmd_account cmd) (cmd_queue cmd) (cmd_message_id cmd) s →
  served_state s ⊢ wp (burrow_backend_memory_get_message (Some ml) cmd) w (answer s).
Proof using Type*.
  intros Hc Hread. answer by (λ fo ao, wp_get_message bl bo b Hcons ml mo sa da cmd s).
  iFrame "Hb Hm Hs". iIntros (w' set He) "Hb Hm Hs".
  give answer by constructor. unfold get_message. destruct (message_of _ _ _ s) as [[[[[]]]]|]; [|done].
  by destruct (expired _ _).
Qed.

Lemma answers_update_message s :
  cmd_command cmd = BURROW_CMD_UPDATE_MESSAGE →
  served_state s ⊢ wp (burrow_backend_memory_update_message (Some ml) cmd) w (answer s).
Proof using Type*.
  intros Hc. answer by (λ fo ao, wp_update_message bl bo b Hcons ml mo sa da cmd ao attributes s).
  iFrame "Hb Hm Hs Hat". iIntros (w' set He) "Hb Hm Hs Hat".
  give answer by constructor. apply update_message_result.
Qed.

Lemma answers_delete_message s :
  cmd_command cmd = BURROW_CMD_DELETE_MESSAGE →
  served_state s ⊢ wp (burrow_backend_memory_delete_message (Some ml) cmd) w (answer s).
Proof using Type*.
  intros Hc. answer by (λ fo ao, wp_delete_message bl bo b Hcons ml mo sa da cmd s).
  iFrame "Hb Hm Hs". iIntros (w' set He) "Hb Hm Hs". give answer by constructor.
Qed.

Lemma answers_create_message a q id body s :
  cmd_command cmd = BURROW_CMD_CREATE_MESSAGE → cmd_account cmd = Some a → cmd_queue cmd = Some q →
  cmd_message_id cmd = Some id → cmd_body cmd = Some body →
  (cmd_body_size cmd ≤ Z.of_nat (String.length body))%Z →
  served_state s ⊢ wp (burrow_backend_memory_create_message (Some ml) cmd) w (answer s).
Proof using Type*.
  intros Hc Ea Eq Ei Eb Hsz.
  answer by (λ fo ao, wp_create_message bl bo b Hcons ml mo sa da cmd a q id body ao attributes s).
  iFrame "Hb Hm Hs Hat". iIntros (w' He) "Hb Hm Hs Hat Hl".
  give answer by by constructor. destruct (replaced a q id s); simpl; by iFrame.
Qed.

(** Any of them. *)
Lemma answers k f s :
  cmd_command cmd = k → required cmd = true →
  be_command burrow_backend_memory_functions k = Some f →
  (k = BURROW_CMD_CREATE_MESSAGE →
   ∀ body, cmd_body cmd = Some body → (cmd_body_size cmd ≤ Z.of_nat (String.length body))%Z) →
  meets_readable (w_env w) (w_tick w) s cmd →
  served_state s ⊢ wp (f (Some ml) cmd) w (answer s).
Proof using Type*.
  intros Ek Hreq Hf Hbody Hread. destruct k; try done; injection Hf as <-.
  - by apply answers_get_accounts.
  - by apply answers_delete_accounts.
  - by apply answers_get_queues.
  - by apply answers_delete_queues.
  - apply answers_scan. intros set es s' r -> -> n'. subst r.
    rw scan_queue_times //. by constructor.
  - apply answers_scan. intros set es s' r -> -> n'. by constructor.
  - apply answers_scan. intros set es s' r -> -> n'. subst r.
    rw scan_queue_times //. by constructor.
  - apply answers_get_message; [done|by apply Hread].
  - by apply answers_update_message.
  - by apply answers_delete_message.
  - unfold required in Hreq. rw Ek in Hreq.
    destruct (cmd_account cmd) as [a|] eqn:Ea, (cmd_queue cmd) as [q|] eqn:Eq,
      (cmd_message_id cmd) as [id|] eqn:Ei, (cmd_body cmd) as [body|] eqn:Eb; try done.
    eapply answers_create_message; try done. by apply Hbody.
Qed.
End answers.

(** Nothing but its callbacks matters of the burrow, and an answer may take
    longer. *)
Lemma reading_longer E n n1 n2 t : n1 ≤ n2 → reading E n n1 t → reading E n n2 t.
Proof. intros Hn (k & Hk & ->). exists k. split; [lia|done]. Qed.

Lemma answered_at_state b st fl cmd E F A n n1 n2 c s r es lost s' :
  n1 ≤ n2 → answered (at_state b st fl cmd) E F A n n1 c s r es lost s' →
  answered b E F A n n2 c s r es lost s'.
Proof.
  intros Hn. destruct 1; simpl; econstructor; try done; (eapply Forall_impl; [eassumption|]); intros ts.
  - intros Hts. eapply Forall_impl; [exact Hts|]. intros t. by apply reading_longer.
  - by apply reading_longer.
Qed.

(** ** The command called through the frontend *)

Section conversation.
Context (http : burrow_backend_functions_st).
#[local] Instance tables : Backends := backend_tables http.
Context (bl : loc) (bo : owner) (b : burrow_st) (Hcons : consistent b).
Context (ml : loc) (mo : owner) (sa : Z) (da : loc).
Context (F : store burrow_filters_st) (A : store burrow_attributes_st).
Context (Hlimits : map_Forall (λ _ x, (0 ≤ fi_limit x.2)%Z) F).
Context (Hb : b_backend b = backend_memory) (Hctx : b_backend_context b = Some ml).
Context (Hfl : has_flag (b_flags b) BURROW_FLAG_PROCESSING = false) (Hws : b_watch_size b = 0%Z).

(** The burrow between two commands; the last one is still in it. *)
Definition resting (cmd : burrow_command_st) : burrow_st :=
  at_state b BURROW_STATE_IDLE (b_flags b) cmd.
Definition remembered (cmd : burrow_command_st) : Prop :=
  points_in F (cmd_filters cmd) ∧ points_in A (cmd_attributes cmd).
Definition at_rest (cmd : burrow_command_st) (s : server) : hPropI :=
  served_state bl bo (resting cmd) ml mo sa da F A s.

Lemma remembered_filled fn c old :
  admissible F A c → remembered old → remembered (filled fn c old).
Proof.
  intros (_ & Hf & Ha & _) [Hf' Ha']. destruct c as [[] ????????]; done.
Qed.

Lemma wp_served fuel c cmd s w Q :
  has_flag (b_options b) BURROW_OPT_AUTOPROCESS = true →
  4 ≤ fuel → reliable w → (∀ n, e_user (w_env w) n = []) →
  admissible F A c → remembered cmd → meets_readable (w_env w) (w_tick w) s c →
  at_rest cmd s ∗
  (∀ r es lost s' cmd' w',
     ⟦ evolves w es w' ∧ remembered cmd' ∧
       served b (w_env w) F A (w_tick w) (w_tick w') c s r es lost s' ⟧ -∗
     at_rest cmd' s' -∗ leaked_all b lost -∗ Q r w')
  ⊢ wp (call_command (burrow_process fuel) (Some bl) c) w Q.
Proof using Type*.
  intros Hauto Hfuel Hr Hu Hadm Hrem Hread. iIntros "[Hst HQ]".
  iDestruct "Hst" as "(Hb & Hm & Hs & HF & HA)". pose proof Hadm as (Hk & _).
  iApply (wp_call_command bl bo _ c (resting cmd)); [done|]. iFrame "Hb". simpl.
  destruct (required c) eqn:Hreq; simpl.
  2: { iIntros (w' He) "Hb". iApply ("HQ" $! EINVAL (log_events b BURROW_VERBOSE_ERROR
         (command_name (cmd_command c) +:+ ": invalid parameters")) [] s cmd w' with "[%] [Hb Hm Hs HF HA] [//]").
       - split_and!; [exact He|done|by apply serve_refused].
       - iFrame. }
  rw Hauto. iIntros "Hb".
  set (full := filled (slot_of (resting cmd) (cmd_command c)) c cmd).
  assert (functions_of b = burrow_backend_memory_functions) as Hfn by (unfold functions_of; by rw Hb).
  assert (∃ f, be_command burrow_backend_memory_functions (cmd_command c) = Some f) as [f Hf].
  { destruct (cmd_command c); by eauto. }
  pose proof (remembered_filled (slot_of (resting cmd) (cmd_command c)) c cmd Hadm Hrem) as [Hvf Hva].
  iApply (wp_process_one bl bo fuel b (b_flags b) full (cmd_command c) f with "[-]");
    [done..| |by rw Hfn|done|].
  { subst full. unfold slot_of, functions_of; simpl. fold (functions_of b). by rw Hfn Hf. }
  iSplitL "Hb"; [iExact "Hb"|]. iIntros (fl') "Hb". rw Hctx. iApply (wp_wand with "[Hb Hm Hs HF HA]").
  { iApply (answers bl bo (at_state b BURROW_STATE_START fl' full) Hcons ml mo sa da F A Hlimits full w Hr
      Hvf Hva (cmd_command c) f s with "[-]"); [done|by rw required_filled|done| | |iFrame].
    - intros Ec body. destruct Hadm as (_ & _ & _ & Hbody). subst full. unfold filled. rw Ec. simpl.
      intros Eb. rw Eb in Hbody. lia.
    - unfold meets_readable, full, filled in *. intros Ec. simpl in Ec. rw Ec. by apply Hread. }
  iIntros (r w1) "H". iDestruct "H" as (es lost s' (Hne & He & Hans)) "[(Hb & Hm & Hs & HF & HA) Hl]".
  iSplitR; [iPureIntro; split; [done|by destruct He]|]. iFrame "Hb". iIntros (w' He') "Hb".
  iApply ("HQ" $! r _ lost s' (full <| cmd_command := BURROW_CMD_NONE |>) w' with "[%] [Hb Hm Hs HF HA] Hl");
    [|iFrame].
  split_and!; [by eapply evolves_trans|done|]. apply serve_answered; [done|].
  apply (answered_filled _ _ _ _ _ _ (slot_of (resting cmd) (cmd_command c)) c cmd).
  apply (answered_at_state _ BURROW_STATE_START fl' full _ _ _ _ (w_tick w1)); [by destruct He' as (_ & ? & _)|].
  exact Hans.
Qed.

(** A whole conversation. *)
Lemma wp_session fuel cs cmd s w Q :
  has_flag (b_options b) BURROW_OPT_AUTOPROCESS = true →
  4 ≤ fuel → reliable w → (∀ n, e_user (w_env w) n = []) →
  Forall (admissible F A) cs → remembered cmd →
  always b (w_env w) F A (meets_readable (w_env w)) (w_tick w) s cs →
  at_rest cmd s ∗
  (∀ rs es lost s' cmd' w',
     ⟦ evolves w es w' ∧ remembered cmd' ∧
       session b (w_env w) F A (w_tick w) s cs rs es lost (w_tick w') s' ⟧ -∗
     at_rest cmd' s' -∗ leaked_all b lost -∗ Q rs w')
  ⊢ wp (mapM (call_command (burrow_process fuel) (Some bl)) cs) w Q.
Proof using Type*.
  intros Hauto Hfuel. revert cmd s w Q. induction cs as [|c cs IH]; intros cmd s w Q Hr Hu Hadm Hrem Hsafe;
    iIntros "[Hst HQ]"; cbn [mapM].
  { wret. iApply ("HQ" $! [] [] [] s cmd w with "[%] Hst [//]"). split_and!; [|done|constructor].
    apply evolves_refl. }
  apply Forall_cons in Hadm as [Hc Hcs]. destruct Hsafe as [Hread Hsafe]. wp_focus.
  iApply (wp_served fuel c cmd s with "[-]"); [done..|]. iFrame "Hst".
  iIntros (r es lost s1 cmd1 w1 (He & Hrem1 & Hserved)) "Hst Hl". wp_focus.
  pose proof He as (HE & Htick & _).
  iApply (IH cmd1 s1 with "[-]"); [by eapply reliable_after|by rw HE|done|done| |].
  { rw HE. by eapply Hsafe. }
  rw HE. iFrame "Hst". iIntros (rs es' lost' s' cmd' w' (He' & Hrem' & Hsession)) "Hst Hl'". wret.
  iApply ("HQ" $! (r :: rs) (es ++ es') (lost ++ lost') s' cmd' w' with "[%] Hst [Hl Hl']").
  - split_and!; [by eapply evolves_trans|done|by econstructor].
  - iApply leaked_all_app. iFrame.
Qed.
(** ** Commands that the completion callback gives *)

Section driving.
Context (fuel : nat) (Hfuel : 0 < fuel) (fl : Z).
Context (Hfl' : has_flag fl BURROW_FLAG_PROCESSING = true).

(** The burrow in the completion callback: idle, or with the next command set
    up. *)
Definition chosen (next : option burrow_command_st) (cmd : burrow_command_st) : burrow_st :=
  at_state b (match next with Some _ => BURROW_STATE_START | None => BURROW_STATE_IDLE end) fl cmd.
Definition holds_next (next : option burrow_command_st) (cmd : burrow_command_st) : Prop :=
  remembered cmd ∧
  match next with
  | Some c => admissible F A c ∧ required c = true ∧
              ∃ old, cmd = filled (Some (cmd_command c)) c old
  | None => True
  end.

Lemma memory_functions : functions_of b = burrow_backend_memory_functions.
Proof using Hb. unfold functions_of. by rw Hb. Qed.

Lemma memory_command c :
  cmd_command c ≠ BURROW_CMD_NONE →
  ∃ f, be_command burrow_backend_memory_functions (cmd_command c) = Some f.
Proof. destruct (cmd_command c); by eauto. Qed.

Lemma slot_memory b' c :
  b_backend b' = b_backend b → cmd_command c ≠ BURROW_CMD_NONE →
  slot_of b' (cmd_command c) = Some (cmd_command c).
Proof using Hb.
  intros E Hc. unfold slot_of, functions_of. rw E. fold (functions_of b). rw memory_functions.
  by destruct (memory_command c Hc) as [f ->].
Qed.

Lemma wp_replies calls next cmd w Q :
  Forall (courteous F A) calls → holds_next next cmd →
  bl ↦{bo} chosen next cmd ∗
  (∀ cmd' w', ⟦ evolves w (replies b calls next).1 w' ∧ holds_next (replies b calls next).2 cmd' ⟧ -∗
     bl ↦{bo} chosen (replies b calls next).2 cmd' -∗ Q tt w')
  ⊢ wp (user_calls (burrow_process fuel) (Some bl) calls) w Q.
Proof using Hb Hfuel Hfl'.
  revert next cmd w. induction calls as [|call calls IH]; intros next cmd w.
  - iIntros (_ Hn) "[Hb HQ]". simpl. wret. iApply ("HQ" with "[%] Hb"). auto with world.
  - iIntros ([Hp Hps]%Forall_cons Hn) "[Hb HQ]". cbn [user_calls]. wp_focus.
    destruct call as [c| |fd ev|]; [| |done..]; simpl; wp_focus.
    + pose proof Hp as (Hc & _). iApply wp_call_command; [done|]. iFrame "Hb". destruct next as [c1|]; simpl.
      { iIntros (w1 He) "Hb". wret. iApply (IH (Some c1)); [done..|]. iFrame "Hb".
        iIntros (cmd' w' (He' & Hn')) "Hb". iApply ("HQ" with "[%] Hb"). split; [|done].
        by eapply evolves_trans. }
      destruct (required c) eqn:Hreq; simpl.
      * iIntros "Hb".
        set (cmd1 := filled (slot_of (chosen None cmd) (cmd_command c)) c cmd).
        assert (holds_next (Some c) cmd1) as Hn1.
        { destruct Hn as [Hrem _]. split; [by apply remembered_filled|]. split_and!; [done..|].
          exists cmd. subst cmd1. by rw slot_memory. }
        destruct (has_flag (b_options b) BURROW_OPT_AUTOPROCESS).
        { iApply (wp_process_busy bl bo fuel (chosen (Some c) cmd1)); [done..|]. iSplitL "Hb"; [iExact "Hb"|].
          iIntros "Hb". wret. iApply (IH (Some c) cmd1); [done..|]. iFrame "Hb HQ". }
        wret. iApply (IH (Some c) cmd1); [done..|]. iSplitL "Hb"; [iExact "Hb"|iExact "HQ"].
      * iIntros (w1 He) "Hb". wret. iApply (IH None); [done..|]. iFrame "Hb".
        iIntros (cmd' w' (He' & Hn')) "Hb". iApply ("HQ" with "[%] Hb"). split; [|done].
        by eapply evolves_trans.
    + iApply (wp_process_busy bl bo fuel (chosen next cmd)); [done..|]. iFrame "Hb". iIntros "Hb". wret.
      iApply (IH next); [done..|]. iFrame "Hb HQ".
Qed.

(** The completion of a command. *)
Lemma wp_completed cmd w Q :
  remembered cmd → Forall (courteous F A) (e_user (w_env w) (w_tick w)) →
  bl ↦{bo} chosen None cmd ∗
  (∀ es next cmd' w',
     ⟦ evolves w es w' ∧ completed b (w_env w) (w_tick w) (w_tick w') es next ∧
       holds_next next cmd' ⟧ -∗
     bl ↦{bo} chosen next cmd' -∗ Q tt w')
  ⊢ wp (burrow_callback_complete (burrow_process fuel) (Some bl)) w Q.
Proof using Hb Hfuel Hfl'.
  iIntros (Hrem Hcalls) "[Hb HQ]". unfold burrow_callback_complete. wload "Hb".
  destruct (b_complete_fn b) as [fn|] eqn:Hfn.
  2: { wret. iApply ("HQ" $! [] None with "[%] Hb"). split_and!; [apply evolves_refl| |done].
       by apply complete_unheard. }
  wp_focus. iApply wp_emit. wp_focus. iApply wp_consult. simpl.
  iApply (wp_replies _ None); [done..|]. iFrame "Hb". iIntros (cmd' w' (He & Hn)) "Hb".
  iApply ("HQ" $! _ _ cmd' w' with "[%] Hb"). pose proof He as (_ & Ht & _). simpl in Ht.
  split_and!; [|apply (complete_heard _ _ _ _ (w_tick w)); [lia|by rw Hfn]|done].
  eapply (evolves_trans _ [EvComplete] _ (replies b _ None).1); [apply evolves_emit|].
  eapply evolves_silent; [apply (evolves_tick 1)|exact He].
Qed.

Context (E : environment) (K : nat) (Hquiet : ∀ n, K ≤ n → e_user E n = []).
Context (Hcourteous : ∀ n, Forall (courteous F A) (e_user E n)).

(** Where another command follows, a batch of calls has been used up. *)
Lemma completed_next n n' es c : completed b E n n' es (Some c) → n < K ∧ n < n'.
Proof using Hquiet.
  inversion 1 as [|k Hk Hfn]; subst. destruct (decide (K ≤ k)) as [HK|HK]; [|clear -Hk HK; lia].
  match goal with H : _ = Some c |- _ => rw (Hquiet _ HK) in H; done end.
Qed.

(** One command and its completion, on the way through the loop. *)
Lemma wp_command_completed c cmd result m s w Q :
  w_env w = E → reliable w → holds_next (Some c) cmd → meets_readable E (w_tick w) s c →
  bl ↦{bo} chosen (Some c) cmd ∗ backend_at bl ml mo sa da ∗ accounts_at (alloc_owner b) bl da s ∗
  stored F ∗ stored A ∗
  (∀ r es lost s' es' next cmd' n1 w',
     ⟦ evolves w (es ++ es') w' ∧ w_tick w ≤ n1 ∧ answered b E F A (w_tick w) n1 c s r es lost s' ∧
       completed b E n1 (w_tick w') es' next ∧ holds_next next cmd' ⟧ -∗
     bl ↦{bo} chosen next cmd' -∗ backend_at bl ml mo sa da -∗
     accounts_at (alloc_owner b) bl da s' -∗ stored F -∗ stored A -∗ leaked_all b lost -∗
     wp (loop m (process_step (burrow_process fuel) (Some bl)) r) w' Q)
  ⊢ wp (loop (S (S m)) (process_step (burrow_process fuel) (Some bl)) result) w Q.
Proof using Type*.
  intros HE Hr (Hrem & Hadm & Hreq & old & ->) Hread. cbn [loop].
  set (rest := loop m (process_step (burrow_process fuel) (Some bl))).
  iIntros "(Hb & Hm & Hs & HF & HA & HQ)".
  destruct Hrem as [Hvf Hva]. pose proof Hadm as (Hc & _ & _ & Hbody).
  set (full := filled (Some (cmd_command c)) c old). destruct (memory_command c Hc) as [f Hf].
  wp_focus. unfold process_step at 1. wload "Hb".
  unfold functions_of; simpl; fold (functions_of b). rw memory_functions Hctx.
  assert (Some (cmd_command c) ≫= be_command burrow_backend_memory_functions = Some f) as -> by exact Hf.
  wp_focus. iApply (wp_wand with "[Hb Hm Hs HF HA]").
  { iApply (answers bl bo (chosen (Some c) full) Hcons ml mo sa da F A Hlimits full w Hr Hvf Hva
      (cmd_command c) f s with "[-]"); [done|by rw required_filled|done| | |iFrame].
    - intros Ec body. subst full. unfold filled. rw Ec. simpl. intros Eb. rw Eb in Hbody. lia.
    - unfold meets_readable, full, filled in *. intros Ec. simpl in Ec. rw Ec HE. by apply Hread. }
  iIntros (r w1) "H". iDestruct "H" as (es lost s' (Hne & He & Hans)) "[(Hb & Hm & Hs & HF & HA) Hl]".
  rw decide_False //. wmodify "Hb". wret. wp_focus. unfold process_step at 1. wload "Hb".
  destruct (Z.ltb_spec 0 (b_watch_size b)) as [Hlt|_]; [lia|]. wret. wmodify "Hb". wmodify "Hb". wp_focus.
  pose proof He as (HE1 & Ht1 & _).
  iApply (wp_completed (full <| cmd_command := BURROW_CMD_NONE |>)); [done|rw HE1 HE; apply Hcourteous|].
  iSplitL "Hb"; [iExact "Hb"|]. iIntros (es' next cmd' w2 (He2 & Hcomp & Hnext)) "Hb". wret.
  iApply ("HQ" $! r es lost s' es' next cmd' (w_tick w1) w2 with "[%] Hb Hm Hs HF HA Hl").
  split_and!; [by eapply evolves_trans|done| |by rw -HE -HE1|done].
  rw -HE. apply (answered_filled _ _ _ _ _ _ (Some (cmd_command c)) c old).
  by apply (answered_at_state _ BURROW_STATE_START fl full _ _ _ _ (w_tick w1)).
Qed.

(** The whole loop: everything the completion callbacks lead to. *)
Lemma wp_commands_driven m c cmd result s w Q :
  3 * (K - w_tick w) + 2 < m → w_env w = E → reliable w → holds_next (Some c) cmd →
  (∀ n1 s1 c1, reached b E F A (w_tick w) s c n1 s1 c1 → meets_readable E n1 s1 c1) →
  bl ↦{bo} chosen (Some c) cmd ∗ backend_at bl ml mo sa da ∗ accounts_at (alloc_owner b) bl da s ∗
  stored F ∗ stored A ∗
  (∀ r es lost s' cmd' w',
     ⟦ evolves w es w' ∧ driven b E F A (w_tick w) s c r es lost (w_tick w') s' ∧ remembered cmd' ⟧ -∗
     bl ↦{bo} chosen None cmd' -∗ backend_at bl ml mo sa da -∗
     accounts_at (alloc_owner b) bl da s' -∗ stored F -∗ stored A -∗ leaked_all b lost -∗
     Q (r, true) w')
  ⊢ wp (loop m (process_step (burrow_process fuel) (Some bl)) result) w Q.
Proof using Type*.
  revert c cmd result s w Q. induction m as [m IH] using lt_wf_ind. intros c cmd result s w Q Hm HE Hr Hn Hread.
  destruct m as [|[|[|m]]]; [lia..|]. iIntros "(Hb & Hm & Hs & HF & HA & HQ)".
  iApply (wp_command_completed c cmd result (S m) s with "[-]"); [done..|by apply Hread, reach_here|].
  iFrame "Hb Hm Hs HF HA".
  iIntros (r es lost s' es' next cmd' n1 w' (He & Hn1 & Hans & Hcomp & Hnext)) "Hb Hm Hs HF HA Hl".
  pose proof He as (HE' & Ht & _). destruct next as [c'|].
  - destruct (completed_next _ _ _ _ Hcomp) as [HK Hlt].
    iApply (IH (S m) ltac:(lia) c' cmd' r s' with "[-]"); [lia|congruence|by eapply reliable_after|done| |].
    { intros n2 s2 c2 H2. apply Hread. eapply reach_next; [exact Hn1|exact Hans|exact Hcomp|exact H2]. }
    iFrame "Hb Hm Hs HF HA".
    iIntros (r' es'' lost' s'' cmd'' w'' (He' & Hd & Hrem)) "Hb Hm Hs HF HA Hl'".
    iApply ("HQ" $! r' (es ++ es' ++ es'') (lost ++ lost') s'' cmd'' w'' with "[%] Hb Hm Hs HF HA [Hl Hl']");
      [|iApply leaked_all_app; iFrame].
    split_and!; [|eapply drive_on; [exact Hn1|exact Hans|exact Hcomp|exact Hd]|done].
    rw (assoc_L (++)). by eapply evolves_trans.
  - cbn [loop]. wp_focus. unfold process_step at 1. wload "Hb". wret. wret.
    iApply ("HQ" with "[%] Hb Hm Hs HF HA Hl"). split_and!; [done| |by destruct Hnext].
    eapply drive_last; [exact Hn1|exact Hans|exact Hcomp].
Qed.
End driving.

Lemma wp_process_driven fuel c cmd K s w Q :
  3 * (K - w_tick w) + 2 < fuel → reliable w →
  (∀ n, K ≤ n → e_user (w_env w) n = []) → (∀ n, Forall (courteous F A) (e_user (w_env w) n)) →
  admissible F A c → required c = true → remembered cmd →
  (∀ n1 s1 c1, reached b (w_env w) F A (w_tick w) s c n1 s1 c1 → meets_readable (w_env w) n1 s1 c1) →
  served_state bl bo (started c (resting cmd)) ml mo sa da F A s ∗
  (∀ r es lost s' cmd' w',
     ⟦ evolves w es w' ∧ driven b (w_env w) F A (w_tick w) s c r es lost (w_tick w') s' ∧
       remembered cmd' ⟧ -∗
     at_rest cmd' s' -∗ leaked_all b lost -∗ Q r w')
  ⊢ wp (burrow_process (S fuel) (Some bl)) w Q.
Proof using Type*.
  intros Hfuel Hr Hquiet Hcalls Hadm Hreq Hrem Hread. iIntros "[(Hb & Hm & Hs & HF & HA) HQ]".
  rw burrow_process_S. wload "Hb". rw Hfl. wmodify "Hb". wp_focus.
  set (full := filled (slot_of (resting cmd) (cmd_command c)) c cmd). pose proof Hadm as (Hc & _).
  assert (0 < fuel) as Hf0 by lia.
  iApply (wp_commands_driven fuel Hf0 _ (processing_set (b_flags b)) (w_env w) K Hquiet Hcalls fuel c full with "[-]");
    [done..| |done|].
  { split; [by apply remembered_filled|]. split_and!; [done..|]. exists cmd. subst full. by rw slot_memory. }
  iSplitL "Hb"; [iExact "Hb"|]. iFrame "Hm Hs HF HA".
  iIntros (r es lost s' cmd' w' (He & Hd & Hrem')) "Hb Hm Hs HF HA Hl". wmodify "Hb". wret.
  rw processing_cleared //. iApply ("HQ" with "[//] [Hb Hm Hs HF HA] Hl"). iFrame.
Qed.
End conversation.
