(* ===== verification/SessionFacts.v ===== *)
(** What a conversation keeps: the server stays well formed, and a message
    nobody touches stays until it expires. *)
From S2P Require Import Prelude Types Heap Macros Dictionary Memory Server Burrow Logic MacrosSpec DictionarySpec Assoc TreeSpec MemorySpec.
From S2P Require Import TextFacts MemoryLists MemoryMessages BurrowSpec Session.

(** ** Association lists without duplicate names *)

Section distinct.
Context {A : Type} (P : A → Prop).
Implicit Types l : list (string * A).

Definition distinct l : Prop := NoDup l.*1 ∧ Forall (λ x, P x.2) l.

Lemma aset_keys k a l : ∀ k', k' ∈ (aset k a l).*1 ↔ k' = k ∨ k' ∈ l.*1.
Proof.
  intros k'. induction l as [|[k1 a1] l IH]; cbn; [by rewrite elem_of_cons|].
  destruct (String.eqb_spec k1 k) as [->|]; cbn; rewrite !elem_of_cons, ?IH; tauto.
Qed.

Lemma aremove_keys k l : (aremove k l).*1 `sublist_of` l.*1.
Proof.
  induction l as [|[k1 a1] l IH]; cbn; [done|]. destruct (String.eqb k1 k); cbn.
  - by apply sublist_cons.
  - by apply sublist_skip.
Qed.

Lemma distinct_aset k a l : distinct l → P a → distinct (aset k a l).
Proof.
  intros [Hn HP] Ha. induction l as [|[k1 a1] l IH]; cbn.
  { split; [apply NoDup_singleton|by repeat constructor]. }
  cbn in Hn. apply NoDup_cons in Hn as [Hk Hn]. apply Forall_cons in HP as [Ha1 HP].
  destruct (IH Hn HP) as [Hn' HP']. destruct (String.eqb_spec k1 k) as [->|Hne].
  - split; [by constructor|by constructor].
  - split; [|by constructor]. cbn. constructor; [|done]. rewrite aset_keys. by intros [->|?].
Qed.

Lemma distinct_aremove k l : distinct l → distinct (aremove k l).
Proof.
  intros [Hn HP]. split.
  - by eapply sublist_NoDup; [|apply aremove_keys].
  - clear Hn. induction HP as [|[k1 a1] l]; cbn; [constructor|]. destruct (String.eqb k1 k); [done|].
    by constructor.
Qed.

Lemma distinct_lookup k a l : distinct l → alookup k l = Some a → P a.
Proof.
  intros [_ HP] (pre & post & -> & _)%alookup_split. by apply Forall_app in HP as [_ [? _]%Forall_cons].
Qed.

Lemma aset_nonempty k a l : aset k a l ≠ [].
Proof. destruct l as [|[k1 a1] l]; cbn; [done|]. by destruct (String.eqb k1 k). Qed.

(** A function that keeps an entry, changes its value or drops it. *)
Definition thinning (f : string * A → list (string * A)) : Prop :=
  ∀ x, f x = [] ∨ ∃ a, f x = [(x.1, a)].

Lemma thinning_keys f l : thinning f → (flat_map f l).*1 `sublist_of` l.*1.
Proof.
  intros Hf. induction l as [|x l IH]; cbn; [done|].
  destruct (Hf x) as [-> | [a ->]]; cbn; [by apply sublist_cons|by apply sublist_skip].
Qed.

Lemma alookup_app k l1 l2 :
  alookup k (l1 ++ l2) = match alookup k l1 with Some a => Some a | None => alookup k l2 end.
Proof.
  induction l1 as [|[k1 a1] l1 IH]; cbn; [done|]. by destruct (String.eqb k1 k).
Qed.

Lemma alookup_thinning f k l :
  thinning f → alookup k (flat_map f l) =
    match alookup k l with
    | Some a => match f (k, a) with (_, a') :: _ => Some a' | [] => alookup k (flat_map f l) end
    | None => None
    end.
Proof.
  intros Hf. induction l as [|[k1 a1] l IH]; cbn; [done|]. rewrite alookup_app.
  destruct (String.eqb_spec k1 k) as [->|Hne].
  - destruct (Hf (k, a1)) as [E | [a E]]; rewrite E; cbn; [done|]. by rewrite String.eqb_refl.
  - destruct (Hf (k1, a1)) as [E | [a E]]; rewrite E; cbn;
      [|rewrite (proj2 (String.eqb_neq _ _) Hne)]; done.
Qed.

Lemma alookup_aset_ne k k' a l : k ≠ k' → alookup k (aset k' a l) = alookup k l.
Proof.
  intros Hne. induction l as [|[k1 a1] l IH]; cbn.
  { by rewrite (proj2 (String.eqb_neq k' k)). }
  destruct (String.eqb_spec k1 k') as [->|]; cbn; [by rewrite (proj2 (String.eqb_neq k' k))|].
  by destruct (String.eqb k1 k).
Qed.

Lemma alookup_aremove_ne k k' l : k ≠ k' → alookup k (aremove k' l) = alookup k l.
Proof.
  intros Hne. induction l as [|[k1 a1] l IH]; cbn; [done|].
  destruct (String.eqb_spec k1 k') as [->|]; cbn; [by rewrite (proj2 (String.eqb_neq k' k))|].
  by destruct (String.eqb k1 k).
Qed.
End distinct.

(** ** Well-formed servers *)

(** The size is that of the body, and the times are [uint32_t]s. *)
Definition sound_message (m : message) : Prop :=
  msg_size m = Z.of_nat (String.length (msg_body m)) ∧
  (0 ≤ msg_ttl m < 2 ^ 32)%Z ∧ (0 ≤ msg_hide m < 2 ^ 32)%Z.
Definition sound_queue (ms : messages) : Prop := ms ≠ [] ∧ distinct sound_message ms.
Definition sound_account (qs : queues) : Prop := qs ≠ [] ∧ distinct sound_queue qs.
Definition well_formed (s : server) : Prop := distinct sound_account s.

Definition sound_times (times : Z * Z) : Prop := (0 ≤ times.1 < 2 ^ 32 ∧ 0 ≤ times.2 < 2 ^ 32)%Z.

Lemma sound_retime times m :
  sound_times times → sound_message m → sound_message (retime times.1 times.2 m).
Proof.
  intros [Ht Hh] (Hs & Hmt & Hmh). unfold sound_message, retime; cbn.
  by destruct (times.1 =? 0)%Z, (times.2 =? 0)%Z.
Qed.

Lemma sound_scan_times now a : sound_times (scan_times now a).
Proof.
  destruct a as [a|]; [|done]. unfold sound_times; cbn.
  destruct (has_flag _ BURROW_ATTRIBUTES_TTL), (has_flag _ BURROW_ATTRIBUTES_HIDE); split;
    first [apply u32_range|done].
Qed.

Lemma sound_update_times now a : sound_times (update_times now a).
Proof.
  destruct a as [a|]; [|done]. unfold sound_times; cbn.
  destruct (has_flag _ BURROW_ATTRIBUTES_TTL && _), (has_flag _ BURROW_ATTRIBUTES_HIDE); split;
    first [apply u32_range|done].
Qed.

Lemma sound_new_message now a body size :
  (0 ≤ size ≤ Z.of_nat (String.length body))%Z → sound_message (new_message now a body size).
Proof.
  intros Hs. unfold sound_message, new_message, new_ttl, new_hide; cbn. split; [|split].
  - rewrite length_substring, Nat.min_l; lia.
  - destruct a as [a|]; repeat case_match; apply u32_range.
  - destruct a as [a|]; repeat case_match; first [apply u32_range|done].
Qed.

Lemma put_queue_well_formed a q ms s :
  distinct sound_message ms → well_formed s → well_formed (put_queue a q ms s).
Proof.
  intros Hms Hs. unfold put_queue. destruct (alookup a s) as [qs|] eqn:Ea; [|done].
  pose proof (distinct_lookup _ _ _ _ Hs Ea) as [Hne Hqs]. destruct ms as [|im ms].
  - pose proof (distinct_aremove _ q _ Hqs) as Hqs'. destruct (aremove q qs) as [|x qs'] eqn:Eq.
    + by apply distinct_aremove.
    + by apply distinct_aset.
  - apply distinct_aset; [done|]. split; [apply aset_nonempty|]. by apply distinct_aset.
Qed.

Lemma queue_of_sound a q s a' q' ms :
  well_formed s → queue_of a q s = Some (a', q', ms) → sound_queue ms.
Proof.
  intros Hs. unfold queue_of. destruct a as [a|], q as [q|]; try done.
  destruct (alookup a s) as [qs|] eqn:Ea; [|done]. destruct (alookup q qs) as [ms'|] eqn:Eq; [|done].
  intros [= <- <- <-]. pose proof (distinct_lookup _ _ _ _ Hs Ea) as [_ Hqs].
  by eapply distinct_lookup.
Qed.

Section scan.
Context (now : Z) (sel : selection) (times : Z * Z) (ty : scan_action_t) (da : delete_action_t) (set : Z).
Abbreviation left := (scan_left now (sel_hidden sel) times.1 times.2 ty da set).

Lemma scan_left_thinning : thinning left.
Proof.
  intros [id m]. unfold scan_left, scan_one; cbn. destruct (expired now m); [by left|].
  destruct (negb (sel_hidden sel) && hidden now m); [by eauto|]. destruct ty; eauto.
Qed.

Lemma scan_left_sound ms :
  sound_times times → Forall (λ x, sound_message x.2) ms → Forall (λ x, sound_message x.2) (flat_map left ms).
Proof.
  intros Ht. induction 1 as [|[id m] ms Hm Hms IH]; cbn; [constructor|].
  apply Forall_app. split; [|done]. unfold scan_left, scan_one; cbn.
  destruct (expired now m); [constructor|]. destruct (negb (sel_hidden sel) && hidden now m).
  { by apply Forall_singleton. }
  destruct ty; [apply Forall_singleton; by apply sound_retime|by apply Forall_singleton|by apply Forall_nil].
Qed.

Lemma scan_range_distinct ms :
  sound_times times → distinct sound_message ms →
  distinct sound_message (range_before (sel_marker sel) ms ++
    flat_map left (range_in (sel_marker sel) (sel_limit sel) ms) ++
    range_after (sel_marker sel) (sel_limit sel) ms).
Proof.
  intros Ht [Hn Hms]. pose proof (range_split_at (sel_marker sel) (sel_limit sel) ms) as Hsplit.
  rewrite <-Hsplit in Hn, Hms. rewrite !fmap_app in Hn. apply Forall_app in Hms as [H1 Hms].
  apply Forall_app in Hms as [H2 H3]. split.
  - rewrite !fmap_app. eapply sublist_NoDup; [exact Hn|].
    apply sublist_app; [done|]. apply sublist_app; [|done]. apply thinning_keys, scan_left_thinning.
  - apply Forall_app. split; [done|]. apply Forall_app. split; [by apply scan_left_sound|done].
Qed.

Lemma scan_queue_well_formed a q s :
  sound_times times → well_formed s → well_formed (scan_queue now sel times ty da set a q s).1.
Proof.
  intros Ht Hs. unfold scan_queue. destruct (queue_of a q s) as [[[a' q'] ms]|] eqn:Eq; [|done].
  pose proof (queue_of_sound _ _ _ _ _ _ Hs Eq) as [_ Hms]. cbn.
  apply put_queue_well_formed; [|done]. by apply scan_range_distinct.
Qed.
End scan.

Lemma delete_queue_list_well_formed times a names s :
  well_formed s → well_formed (delete_queue_list times a names s).
Proof.
  revert times s. induction names as [|q names IH]; intros [|t times] s Hs; try done.
  cbn -[scan_queue]. by apply IH, scan_queue_well_formed.
Qed.

Lemma delete_account_list_well_formed tss names s :
  well_formed s → well_formed (delete_account_list tss names s).
Proof.
  revert tss s. induction names as [|a names IH]; intros [|ts tss] s Hs; try done.
  cbn. by apply IH, delete_queue_list_well_formed.
Qed.

Lemma message_of_sound a q id s a' q' ms id' m :
  well_formed s → message_of a q id s = Some (a', q', ms, id', m) →
  distinct sound_message ms ∧ sound_message m.
Proof.
  intros Hs. unfold message_of. destruct (queue_of a q s) as [[[a1 q1] ms1]|] eqn:Eq; [|done].
  destruct id as [id|]; [|done]. destruct (alookup id ms1) as [m1|] eqn:Em; [|done].
  intros [= <- <- <- <- <-]. pose proof (queue_of_sound _ _ _ _ _ _ Hs Eq) as [_ Hms].
  split; [done|]. by eapply distinct_lookup.
Qed.

Lemma create_message_well_formed a q id m s :
  well_formed s → sound_message m → well_formed (create_message a q id m s).
Proof.
  intros Hs Hm. unfold create_message.
  assert (distinct sound_queue (default [] (alookup a s))) as Hqs.
  { destruct (alookup a s) as [qs|] eqn:Ea; [apply (distinct_lookup _ _ _ _ Hs Ea)|].
    split; constructor. }
  assert (distinct sound_message (default [] (alookup q (default [] (alookup a s))))) as Hms.
  { destruct (alookup q _) as [ms|] eqn:Eq; [apply (distinct_lookup _ _ _ _ Hqs Eq)|].
    split; constructor. }
  apply distinct_aset; [done|]. split; [apply aset_nonempty|]. apply distinct_aset; [done|].
  split; [apply aset_nonempty|]. by apply distinct_aset.
Qed.

(** ** Conversations *)

Section session.
Context (b : burrow_st) (E : environment).
Context (F : store burrow_filters_st) (A : store burrow_attributes_st).

Lemma answered_well_formed n n' c s r es lost s' :
  admissible F A c → well_formed s → answered b E F A n n' c s r es lost s' → well_formed s'.
Proof.
  intros (_ & _ & _ & Hbody) Hs. destruct 1 as
    [| | | |set r|set r|set r|set r Hc|set r Hc|set r Hc|a q id body _ _ _ _ Eb]; try done.
  - by apply delete_account_list_well_formed.
  - by apply delete_queue_list_well_formed.
  - by apply scan_queue_well_formed.
  - apply scan_queue_well_formed; [apply sound_scan_times|done].
  - by apply scan_queue_well_formed.
  - unfold r, get_message. destruct (message_of _ _ _ s) as [[[[[a q] ms] id] m]|] eqn:Em; [|done].
    destruct (message_of_sound _ _ _ _ _ _ _ _ _ Hs Em) as [Hms _].
    destruct (expired _ m); [|done]. apply put_queue_well_formed; [by apply distinct_aremove|done].
  - unfold r, update_message. destruct (message_of _ _ _ s) as [[[[[a q] ms] id] m]|] eqn:Em; [|done].
    destruct (message_of_sound _ _ _ _ _ _ _ _ _ Hs Em) as [Hms Hm].
    destruct (expired _ m); apply put_queue_well_formed; try done; [by apply distinct_aremove|].
    apply distinct_aset; [done|]. apply sound_retime; [apply sound_update_times|done].
  - unfold r, delete_message. destruct (message_of _ _ _ s) as [[[[[a q] ms] id] m]|] eqn:Em; [|done].
    destruct (message_of_sound _ _ _ _ _ _ _ _ _ Hs Em) as [Hms Hm].
    apply put_queue_well_formed; [by apply distinct_aremove|done].
  - rewrite Eb in Hbody. by apply create_message_well_formed, sound_new_message.
Qed.

Lemma served_well_formed n n' c s r es lost s' :
  admissible F A c → well_formed s → served b E F A n n' c s r es lost s' → well_formed s'.
Proof. intros Hc Hs. destruct 1; [done|]. by eapply answered_well_formed. Qed.

Lemma session_well_formed_aux n s cs rs es lost n' s' :
  session b E F A n s cs rs es lost n' s' → Forall (admissible F A) cs → well_formed s → well_formed s'.
Proof.
  induction 1 as [|n n1 n' c cs r rs es es' lost lost' s s1 s' Hn Hserved _ IH]; [done|].
  intros [Hc Hcs]%Forall_cons Hs. apply IH; [done|]. by eapply served_well_formed.
Qed.

(** ** A message nobody touches *)

(** Commands that leave the message [id] of queue [q] of account [a] alone. *)
Definition spares (a q id : string) (c : burrow_command_st) : Prop :=
  match cmd_command c with
  | BURROW_CMD_DELETE_ACCOUNTS => False
  | BURROW_CMD_DELETE_QUEUES => cmd_account c ≠ Some a
  | BURROW_CMD_UPDATE_MESSAGES | BURROW_CMD_DELETE_MESSAGES =>
      cmd_account c ≠ Some a ∨ cmd_queue c ≠ Some q
  | BURROW_CMD_UPDATE_MESSAGE | BURROW_CMD_DELETE_MESSAGE | BURROW_CMD_CREATE_MESSAGE =>
      cmd_account c ≠ Some a ∨ cmd_queue c ≠ Some q ∨ cmd_message_id c ≠ Some id
  | _ => True
  end.

(** The message of that name. *)
Abbreviation found a q id s := (replaced a q id s).

Lemma found_queue a q id s m :
  found a q id s = Some m → ∃ qs ms, alookup a s = Some qs ∧ alookup q qs = Some ms ∧ alookup id ms = Some m.
Proof.
  unfold replaced. destruct (alookup a s) as [qs|] eqn:Ea; cbn; [|done].
  destruct (alookup q qs) as [ms|] eqn:Eq; cbn; [|done]. intros Ei. by exists qs, ms.
Qed.

Lemma found_intro a q id s qs ms m :
  alookup a s = Some qs → alookup q qs = Some ms → alookup id ms = Some m → found a q id s = Some m.
Proof. intros Ea Eq Ei. unfold replaced. by rewrite Ea; cbn; rewrite Eq. Qed.

(** Storing another queue, or what leaves the message in its own. *)
Lemma found_put_queue a q id s m a' q' (ms' : messages) :
  found a q id s = Some m → (a' = a → q' = q → alookup id ms' = Some m) →
  found a q id (put_queue a' q' ms' s) = Some m.
Proof.
  intros Hm Hsame. destruct (found_queue _ _ _ _ _ Hm) as (qs & ms & Ea & Eq & Ei).
  unfold put_queue. destruct (alookup a' s) as [qs'|] eqn:Ea'; [|done].
  destruct (String.eqb_spec a a') as [<-|Ha].
  - rewrite Ea in Ea'. injection Ea' as <-. destruct (String.eqb_spec q q') as [<-|Hq].
    + specialize (Hsame eq_refl eq_refl). destruct ms' as [|im ms']; [done|].
      eapply found_intro; [apply alookup_aset|apply alookup_aset|done].
    + destruct ms' as [|im ms'].
      * pose proof (alookup_aremove_ne q q' qs Hq) as Er. rewrite Eq in Er.
        destruct (aremove q' qs) as [|x l]; [done|]. by eapply found_intro; [apply alookup_aset|..].
      * eapply found_intro; [apply alookup_aset| |exact Ei]. by rewrite alookup_aset_ne.
  - assert (∀ s2, alookup a s2 = Some qs → found a q id s2 = Some m) as Hgo.
    { intros s2 E2. by eapply found_intro. }
    destruct ms'; [destruct (aremove q' qs')|]; apply Hgo;
      first [by rewrite alookup_aremove_ne|by rewrite alookup_aset_ne].
Qed.

Lemma found_scan now sel times ty da set a' q' a q id s m :
  found a q id s = Some m → expired now m = false →
  a' ≠ Some a ∨ q' ≠ Some q ∨ ty = GET →
  found a q id (scan_queue now sel times ty da set a' q' s).1 = Some m.
Proof.
  intros Hm Hexp Hs. unfold scan_queue, queue_of. destruct a' as [a'|], q' as [q'|]; try done.
  destruct (alookup a' s) as [qs|] eqn:Ea; [|done]. destruct (alookup q' qs) as [ms|] eqn:Eq; [|done].
  cbn. apply found_put_queue; [done|]. intros -> ->. destruct Hs as [Hs|[Hs| ->]]; [by destruct Hs|by destruct Hs|].
  destruct (found_queue _ _ _ _ _ Hm) as (qs' & ms' & Ea' & Eq' & Ei). simplify_eq/=.
  rewrite <-(range_split_at (sel_marker sel) (sel_limit sel) ms), !alookup_app in Ei.
  rewrite !alookup_app. destruct (alookup id (range_before _ _)); [done|].
  rewrite alookup_thinning by apply scan_left_thinning.
  destruct (alookup id (range_in _ _ _)) as [m'|]; [|done]. injection Ei as ->.
  unfold scan_left, scan_one; cbn. rewrite Hexp. by destruct (_ && _).
Qed.

Lemma message_of_inv a' q' id' s a q ms id m :
  message_of a' q' id' s = Some (a, q, ms, id, m) →
  a' = Some a ∧ q' = Some q ∧ id' = Some id ∧ alookup id ms = Some m ∧
  ∃ qs, alookup a s = Some qs ∧ alookup q qs = Some ms.
Proof.
  unfold message_of, queue_of. destruct a' as [a'|], q' as [q'|]; try done.
  destruct (alookup a' s) as [qs|] eqn:Ea; [|done]. destruct (alookup q' qs) as [ms'|] eqn:Eq; [|done].
  cbn. destruct id' as [id'|]; [|done]. destruct (alookup id' ms') as [m'|] eqn:Ei; [|done].
  intros [= <- <- <- <- <-]. by eauto 10.
Qed.

(** What a command on one message puts in its queue: another message keeps its
    place, and so does this one where nothing changes. *)
Lemma found_one a' q' id' a q id s a1 q1 ms id1 m m1 (ms' : messages) :
  found a q id s = Some m → message_of a' q' id' s = Some (a1, q1, ms, id1, m1) →
  (a1 = a → q1 = q → alookup id ms = Some m → alookup id ms' = Some m) →
  found a q id (put_queue a1 q1 ms' s) = Some m.
Proof.
  intros Hm Hof Hms'. apply found_put_queue; [done|]. intros -> ->. apply Hms'; [done..|].
  destruct (message_of_inv _ _ _ _ _ _ _ _ _ Hof) as (_ & _ & _ & _ & qs & Ea & Eq).
  destruct (found_queue _ _ _ _ _ Hm) as (qs' & ms2 & Ea' & Eq' & Ei). by simplify_eq.
Qed.

Lemma found_create a' q' id' m' a q id s m :
  found a q id s = Some m → a' ≠ a ∨ q' ≠ q ∨ id' ≠ id →
  found a q id (create_message a' q' id' m' s) = Some m.
Proof.
  intros Hm Hne. destruct (found_queue _ _ _ _ _ Hm) as (qs & ms & Ea & Eq & Ei).
  unfold create_message. destruct (String.eqb_spec a a') as [<-|Ha].
  - rewrite Ea; cbn. destruct (String.eqb_spec q q') as [<-|Hq].
    + rewrite Eq; cbn. eapply found_intro; [apply alookup_aset..|].
      rewrite alookup_aset_ne; [done|]. intros <-. by destruct Hne as [[]|[[]|[]]].
    + eapply found_intro; [apply alookup_aset| |exact Ei]. by rewrite alookup_aset_ne.
  - eapply found_intro; [by rewrite alookup_aset_ne|done..].
Qed.

Lemma delete_queues_found times a' names a q id s m :
  a' ≠ Some a → found a q id s = Some m →
  found a q id (delete_queue_list times a' names s) = Some m.
Proof.
  intros Ha. revert times s. induction names as [|q' names IH]; intros [|t times] s Hm; try done.
  cbn -[scan_queue]. apply IH. unfold scan_queue, queue_of. destruct a' as [a'|]; [|done].
  destruct (alookup a' s) as [qs|]; [|done]. destruct (alookup q' qs) as [ms|]; [|done]. cbn.
  apply found_put_queue; [done|]. intros ->. by destruct Ha.
Qed.

Lemma answered_keeps n n' c s r es lost s' a q id m :
  spares a q id c → found a q id s = Some m → expired (now_at E n) m = false →
  answered b E F A n n' c s r es lost s' → found a q id s' = Some m.
Proof.
  intros Hc Hm Hexp. destruct 1 as
    [Ek|tss names Ek|Ek|times names Ek|set r Ek|set r Ek|set r Ek|set r Ek|set r Ek|set r Ek
     |a' q' id' body Ek Ea Eq Ei Eb]; unfold spares in Hc; rewrite Ek in Hc; try done.
  - by apply delete_queues_found.
  - apply found_scan; tauto.
  - apply found_scan; tauto.
  - apply found_scan; tauto.
  - unfold r, get_message. destruct (message_of _ _ _ s) as [[[[[a1 q1] ms] id1] m1]|] eqn:Em; [|done].
    destruct (expired _ m1) eqn:Hexp1; [|done]. cbn. eapply found_one; [done|exact Em|].
    intros -> -> Hid. destruct (message_of_inv _ _ _ _ _ _ _ _ _ Em) as (_ & _ & _ & Hid1 & _).
    rewrite alookup_aremove_ne; [done|]. intros <-. congruence.
  - unfold r, update_message. destruct (message_of _ _ _ s) as [[[[[a1 q1] ms] id1] m1]|] eqn:Em; [|done].
    destruct (message_of_inv _ _ _ _ _ _ _ _ _ Em) as (Ha & Hq & Hi & _). rewrite Ha, Hq, Hi in Hc.
    destruct (expired _ m1); cbn; (eapply found_one; [exact Hm|exact Em|]); intros -> -> Hid;
      (rewrite ?alookup_aremove_ne, ?alookup_aset_ne; [done|]); intros <-; by destruct Hc as [[]|[[]|[]]].
  - unfold r, delete_message. destruct (message_of _ _ _ s) as [[[[[a1 q1] ms] id1] m1]|] eqn:Em; [|done].
    destruct (message_of_inv _ _ _ _ _ _ _ _ _ Em) as (Ha & Hq & Hi & _). rewrite Ha, Hq, Hi in Hc.
    cbn. eapply found_one; [done|exact Em|]. intros -> -> Hid.
    rewrite alookup_aremove_ne; [done|]. intros <-; by destruct Hc as [[]|[[]|[]]].
  - apply found_create; [done|]. rewrite Ea, Eq, Ei in Hc.
    destruct Hc as [Hc|[Hc|Hc]]; [left|right; left|right; right]; congruence.
Qed.

Lemma session_ticks n s cs rs es lost n' s' : session b E F A n s cs rs es lost n' s' → n ≤ n'.
Proof. induction 1; [done|]. by etrans. Qed.

Lemma session_keeps_message n s cs rs es lost n' s' a q id m :
  session b E F A n s cs rs es lost n' s' → Forall (spares a q id) cs → found a q id s = Some m →
  (∀ k, n ≤ k ≤ n' → expired (now_at E k) m = false) → found a q id s' = Some m.
Proof.
  induction 1 as [|n n1 n' c cs r rs es es' lost lost' s s1 s' Hn Hserved Hrest IH]; [done|].
  intros [Hc Hcs]%Forall_cons Hm Hexp.
  pose proof (session_ticks _ _ _ _ _ _ _ _ Hrest) as Hn'.
  apply IH; [done| |intros k Hk; apply Hexp; lia]. destruct Hserved as [|r es lost s1 _ Hans]; [done|].
  eapply answered_keeps; [exact Hc|exact Hm| |exact Hans]. apply Hexp; lia.
Qed.
End session.
