(* ===== verification/SessionProps.v ===== *)
(** Properties of whole conversations with a burrow on the memory backend, from
    the client's calls down to the heap. *)
From S2P Require Import Prelude Types Heap Macros Managed Attributes Filters Burrow Lifecycle Dummy Dictionary Memory Backends Server Logic MacrosSpec DictionarySpec.
From S2P Require Import Assoc TreeSpec MemorySpec MemoryScan MemoryLists MemoryMessages BurrowSpec BackendsSpec DictionaryProps MemorySample Session SessionSpec SessionFacts BurrowProps.
From iris.proofmode Require Import proofmode.
Import Samples.

(** What holds at the end of a conversation of which only what it keeps is known
    beforehand. *)
Lemma always_snoc b E F A P n s cs c :
  always b E F A P n s cs →
  (∀ rs es lost n' s', session b E F A n s cs rs es lost n' s' → P n' s' c) →
  always b E F A P n s (cs ++ [c]).
Proof.
  revert n s. induction cs as [|c1 cs IH]; intros n s Hcs Hc; simpl.
  - split; [|done]. eapply Hc. constructor.
  - destruct Hcs as [Hc1 Hcs]. split; [done|]. intros n' r es lost s' Hn Hserved.
    apply IH; [by eapply Hcs|]. intros rs es' lost' n'' s'' Hs. eapply Hc. by econstructor.
Qed.

Lemma session_snoc b E F A n s cs c rs es lost n' s' :
  session b E F A n s (cs ++ [c]) rs es lost n' s' →
  ∃ rs1 es1 lost1 n1 s1 r2 es2 lost2, session b E F A n s cs rs1 es1 lost1 n1 s1 ∧
    n1 ≤ n' ∧ served b E F A n1 n' c s1 r2 es2 lost2 s' ∧ rs = rs1 ++ [r2] ∧ es = es1 ++ es2.
Proof.
  revert n s rs es lost. induction cs as [|c1 cs IH]; intros n s rs es lost; simpl; inversion_clear 1.
  - match goal with H : session _ _ _ _ _ _ [] _ _ _ _ _ |- _ => inversion H; subst end.
    eexists [], [], [], n, s, _, _, _. split_and!; [constructor|done|done|done|]. by rw (right_id_L [] (++)).
  - match goal with H : session _ _ _ _ _ _ (cs ++ _) _ _ _ _ _ |- _ =>
      apply IH in H as (rs1 & es1 & lost1 & n1 & s1 & r2 & es2 & lost2 & Hs & Hn & Hserved & -> & ->) end.
    eexists (_ :: rs1), _, _, n1, s1, r2, es2, lost2.
    split_and!; [by econstructor|done|done|done|]. by rw (assoc_L (++)).
Qed.

(** A message that is there is found. *)
Lemma found_message_of a q id s m :
  replaced a q id s = Some m → ∃ ms, message_of (Some a) (Some q) (Some id) s = Some (a, q, ms, id, m).
Proof.
  intros (qs & ms & Ea & Eq & Ei)%found_queue. exists ms. unfold message_of, queue_of. by rw Ea Eq /= Ei.
Qed.

(** Creating a message and reading it in the end. *)
Section reading.
Context (b : burrow_st) (E : environment) (F : store burrow_filters_st) (A : store burrow_attributes_st).
Context (a q id body : string) (size : Z) (p : ptr).

Definition creation : burrow_command_st :=
  Command BURROW_CMD_CREATE_MESSAGE None (Some a) (Some q) (Some id) (Some body) size NULL p.
Definition request : burrow_command_st :=
  Command BURROW_CMD_GET_MESSAGE None (Some a) (Some q) (Some id) None 0 NULL NULL.

Context (n : nat) (s : server) (cs : list burrow_command_st) (Hspare : Forall (spares a q id) cs).
Context (Httl : ∀ k, (now_at E k < new_ttl (now_at E n) (pointed A p))%Z).
Let m := new_message (now_at E n) (pointed A p) body size.

Lemma created_stays rs es lost n' s' :
  session b E F A n s (creation :: cs) rs es lost n' s' → replaced a q id s' = Some m.
Proof using Hspare Httl.
  intros Hse. inversion Hse as [|? n1 ? ? ? ? ? ? ? ? ? ? s1 ? Hn Hserved Hrest]; subst.
  assert (∀ k, expired (now_at E k) m = false) as Hexp by (intros k; apply Z.leb_gt, Httl).
  eapply session_keeps_message; [exact Hrest|exact Hspare| |by intros k _].
  inversion Hserved as [Hreq|? ? ? ? _ Hans]; subst; [done|]. inversion Hans; simplify_eq/=.
  eapply found_intro; apply alookup_aset.
Qed.

Lemma created_readable rs es lost n' s' :
  session b E F A n s (creation :: cs) rs es lost n' s' → meets_readable E n' s' request.
Proof using Hspare Httl.
  intros Hse%created_stays _. destruct (found_message_of _ _ _ _ _ Hse) as [ms Hms].
  unfold readable; simpl. rw Hms. intros ????? [= <- <- <- <- <-]. apply Z.leb_gt, Httl.
Qed.

Lemma created_reported rs es lost n' s' :
  session b E F A n s ((creation :: cs) ++ [request]) rs es lost n' s' →
  ∃ es1 set ttl hide, last rs = Some 0%Z ∧
    es = es1 ++ observed (b_message_fn b) [EvMessage (Some id)
           (Some (String.substring 0 (Z.to_nat size) body)) size set ttl hide] ++
         when_set (b_complete_fn b) EvComplete.
Proof using Hspare Httl.
  intros (rs1 & es1 & lost1 & n1 & s1 & r2 & es2 & lost2 & Hse & _ & Hserved & -> & ->)%session_snoc.
  destruct (found_message_of _ _ _ _ _ (created_stays _ _ _ _ _ Hse)) as [ms Hms].
  inversion Hserved as [|? ? ? ? _ Hans]; subst; [done|]. inversion Hans as [| | | | | | |set r| | |]; simplify_eq/=.
  exists es1, set. subst r. unfold get_message. rw Hms.
  assert (expired (now_at E n1) m = false) as -> by apply Z.leb_gt, Httl. eexists _, _.
  split; [by rw last_snoc|done].
Qed.
End reading.

Section conversations.
Context (http : burrow_backend_functions_st).
#[local] Instance tables : Backends := backend_tables http.
Context (bl : loc) (bo : owner) (b : burrow_st) (ml : loc) (mo : owner) (sa : Z) (da : loc).
Context (F : store burrow_filters_st) (A : store burrow_attributes_st).

(** An idle burrow on the memory backend, and a client
    whose filters and attributes are all kept in [F] and [A]. *)
Record conversing : Prop := {
  conv_consistent : consistent b;
  conv_backend : b_backend b = backend_memory;
  conv_context : b_backend_context b = Some ml;
  conv_idle : b_state b = BURROW_STATE_IDLE;
  conv_flags : has_flag (b_flags b) BURROW_FLAG_PROCESSING = false;
  conv_watch : b_watch_size b = 0%Z;
  conv_remembered : remembered F A (b_cmd b);
  conv_limits : map_Forall (λ _ x, (0 ≤ fi_limit x.2)%Z) F }.

(** A world where memory lasts and the completion callback makes no calls. *)
Definition calm (w : world) : Prop := reliable w ∧ ∀ n, e_user (w_env w) n = [].

(** What the client and the library own together. *)
Definition conversation (b : burrow_st) (s : server) : hPropI :=
  (server_at bl bo b ml mo sa da s ∗ stored F ∗ stored A)%I.

Lemma wp_conversation (Hb : conversing)
    (Hauto : has_flag (b_options b) BURROW_OPT_AUTOPROCESS = true) fuel cs s w Q :
  4 ≤ fuel → calm w → Forall (admissible F A) cs →
  always b (w_env w) F A (meets_readable (w_env w)) (w_tick w) s cs →
  conversation b s ∗
  (∀ rs es lost s' cmd w',
     ⟦ evolves w es w' ∧ session b (w_env w) F A (w_tick w) s cs rs es lost (w_tick w') s' ⟧ -∗
     conversation (at_state b BURROW_STATE_IDLE (b_flags b) cmd) s' -∗ leaked_all b lost -∗ Q rs w')
  ⊢ wp (mapM (call_command (burrow_process fuel) (Some bl)) cs) w Q.
Proof.
  destruct Hb as [Hc Hbe Hctx Hidle Hfl Hws Hrem Hlim]. intros Hfuel [Hr Hu] Hadm Hsafe.
  iIntros "[[(Hb & Hm & Hs) [HF HA]] HQ]".
  iApply (wp_session http bl bo b Hc ml mo sa da F A Hlim Hbe Hctx Hfl Hws fuel cs (b_cmd b) s
    with "[-]"); [done..|].
  iSplitL "Hb Hm Hs HF HA".
  - unfold at_rest, served_state, resting. rw -Hidle at_state_self. iFrame.
  - iIntros (rs es lost s' cmd' w' (He & _ & Hse)) "(Hb & Hm & Hs & HF & HA) Hl".
    iApply ("HQ" $! rs es lost s' cmd' w' with "[//] [Hb Hm Hs HF HA] Hl"). iFrame.
Qed.

(** C2: a conversation, any commands given one after the other to a burrow that
    processes by itself on the memory backend, goes as the abstract server says:
    a command without its required parameters is refused with EINVAL and a log
    line, every other one is answered from the server's accounts, queues and
    messages at the clock reading of its moment, calls back what it finds, and
    then the completion callback; the memory holds the new server and, besides,
    exactly the ids and bodies of the messages that were replaced. No get_message
    may meet an expired message, and the client keeps its filters and
    attributes, which later commands still read. *)
Theorem session_refines (Hb : conversing)
    (Hauto : has_flag (b_options b) BURROW_OPT_AUTOPROCESS = true) fuel cs s w :
  4 ≤ fuel → calm w → Forall (admissible F A) cs →
  always b (w_env w) F A (meets_readable (w_env w)) (w_tick w) s cs →
  triple (conversation b s) (mapM (call_command (burrow_process fuel) (Some bl)) cs) w
    (λ rs w', ∃ es lost s' cmd,
       ⟦ evolves w es w' ∧ session b (w_env w) F A (w_tick w) s cs rs es lost (w_tick w') s' ⟧ ∗
       conversation (at_state b BURROW_STATE_IDLE (b_flags b) cmd) s' ∗ leaked_all b lost)%I.
Proof.
  intros Hf Hw Hadm Hsafe. apply triple_intro. iIntros "H".
  iApply (wp_conversation Hb Hauto with "[-]"); [done..|]. iFrame "H".
  iIntros (rs es lost s' cmd w' H) "Hc Hl". iExists es, lost, s', cmd. by iFrame.
Qed.

(** C7: whatever is asked, the server in memory stays well formed: no two
    accounts, queues of an account or messages of a queue have the same name, no
    account or queue is empty, the size of a message is that of its body, and
    its times are 32 bit. *)
Theorem session_keeps_well_formed (Hb : conversing)
    (Hauto : has_flag (b_options b) BURROW_OPT_AUTOPROCESS = true) fuel cs s w :
  4 ≤ fuel → calm w → Forall (admissible F A) cs →
  always b (w_env w) F A (meets_readable (w_env w)) (w_tick w) s cs → well_formed s →
  triple (conversation b s) (mapM (call_command (burrow_process fuel) (Some bl)) cs) w
    (λ rs w', ∃ lost s' cmd, ⟦ well_formed s' ∧ length rs = length cs ⟧ ∗
       conversation (at_state b BURROW_STATE_IDLE (b_flags b) cmd) s' ∗ leaked_all b lost)%I.
Proof.
  intros Hf Hw Hadm Hsafe Hs. apply triple_intro. iIntros "H".
  iApply (wp_conversation Hb Hauto with "[-]"); [done..|]. iFrame "H".
  iIntros (rs es lost s' cmd w' [_ H]) "Hc Hl". iExists lost, s', cmd. iFrame. iPureIntro. split.
  - by eapply session_well_formed_aux.
  - clear -H. induction H; simpl; congruence.
Qed.

(** C6: a message that was created is read back, with its id, its body cut to the
    size given and that size, after any commands that leave it alone (that do
    not delete, update or replace it), as long as it does not expire. *)
Theorem created_is_read (Hb : conversing)
    (Hauto : has_flag (b_options b) BURROW_OPT_AUTOPROCESS = true) fuel cs s w a q id body size p :
  4 ≤ fuel → calm w → Forall (admissible F A) (creation a q id body size p :: cs) →
  Forall (spares a q id) cs →
  always b (w_env w) F A (meets_readable (w_env w)) (w_tick w) s (creation a q id body size p :: cs) →
  (∀ n, now_at (w_env w) n < new_ttl (now_at (w_env w) (w_tick w)) (pointed A p))%Z →
  triple (conversation b s)
    (mapM (call_command (burrow_process fuel) (Some bl))
       ((creation a q id body size p :: cs) ++ [request a q id])) w
    (λ rs w', ∃ es lost s' cmd set ttl hide,
       ⟦ last rs = Some 0%Z ∧ evolves w (es ++
           observed (b_message_fn b) [EvMessage (Some id)
             (Some (String.substring 0 (Z.to_nat size) body)) size set ttl hide] ++
           when_set (b_complete_fn b) EvComplete) w' ⟧ ∗
       conversation (at_state b BURROW_STATE_IDLE (b_flags b) cmd) s' ∗ leaked_all b lost)%I.
Proof.
  intros Hf Hw Hadm Hspare Hsafe Httl. apply triple_intro. iIntros "H".
  iApply (wp_conversation Hb Hauto with "[-]"); [done..| | |].
  - apply Forall_app. split; [done|]. by repeat constructor.
  - apply always_snoc; [done|]. intros rs es lost n' s'. by apply created_readable.
  - iFrame "H". iIntros (rs es lost s' cmd w' [He Hse]) "Hc Hl".
    destruct (created_reported _ _ _ _ _ _ _ _ _ _ _ _ _ Hspare Httl _ _ _ _ _ Hse)
      as (es1 & set & ttl & hide & Hlast & ->).
    iExists es1, lost, s', cmd, set, ttl, hide. by iFrame.
Qed.

(** C4: commands given from within the completion callback run in the same call of
    burrow_process, one after the other: the first one accepted there follows,
    the others are refused as the burrow is not idle, and so on until a
    completion leads to no command. All are answered by the same server in
    memory, and the result is that of the last one. *)
Theorem callbacks_drive (Hb : conversing) fuel K c s w :
  3 * (K - w_tick w) + 2 < fuel → reliable w →
  (∀ n, K ≤ n → e_user (w_env w) n = []) → (∀ n, Forall (courteous F A) (e_user (w_env w) n)) →
  admissible F A c → required c = true →
  (∀ n' s' c', reached b (w_env w) F A (w_tick w) s c n' s' c' → meets_readable (w_env w) n' s' c') →
  triple (conversation (started c b) s) (burrow_process (S fuel) (Some bl)) w
    (λ r w', ∃ es lost s' cmd,
       ⟦ evolves w es w' ∧ driven b (w_env w) F A (w_tick w) s c r es lost (w_tick w') s' ⟧ ∗
       conversation (at_state b BURROW_STATE_IDLE (b_flags b) cmd) s' ∗ leaked_all b lost)%I.
Proof.
  destruct Hb as [Hc Hbe Hctx Hidle Hfl Hws Hrem Hlim]. intros Hfuel Hr Hquiet Hcalls Hadm Hreq Hread.
  apply triple_intro. iIntros "[(Hb & Hm & Hs) [HF HA]]".
  iApply (wp_process_driven http bl bo b Hc ml mo sa da F A Hlim Hbe Hctx Hfl Hws fuel c (b_cmd b) K s
    with "[-]"); [done..|].
  iSplitL "Hb Hm Hs HF HA".
  - unfold served_state, resting. rw -Hidle at_state_self. iFrame.
  - iIntros (r es lost s' cmd' w' (He & Hd & _)) "(Hb & Hm & Hs & HF & HA) Hl".
    iExists es, lost, s', cmd'. iSplitR; [done|]. iFrame "Hl". iFrame.
Qed.
End conversations.

(** ** A conversation *)

#[local] Instance sample_tables : Backends := backend_tables burrow_backend_dummy_functions.

(** The client's filters (hidden messages too) and attributes (a ttl of 600). *)
Definition client_filters : store burrow_filters_st := {[ 40%positive := (Caller, filters_all) ]}.
Definition client_attributes : store burrow_attributes_st :=
  {[ 41%positive := (Caller, Attributes BURROW_ATTRIBUTES_TTL 600 0 NULL NULL NULL) ]}.
Definition client_blocks : list (loc * (owner * Types.block)) :=
  [(40%positive, (Caller, BFilters filters_all));
   (41%positive, (Caller, BAttributes (Attributes BURROW_ATTRIBUTES_TTL 600 0 NULL NULL NULL)))].
Definition conversation_heap : heap :=
  list_to_map (client_blocks ++ with_burrow memory_burrow sample_server_blocks).

Lemma conversation_holds :
  holds (conversation 1 Libc 2 Libc 1 3 client_filters client_attributes memory_burrow sample_server)
    conversation_heap.
Proof.
  apply blocks_holds; [reflexivity|]. unfold conversation, stored.
  rw !big_sepM_singleton -(sample_server_blocks_at memory_burrow eq_refl). simpl blocks.
  iIntros "($ & $ & $)".
Qed.

Lemma sample_conversing : conversing memory_burrow 2 client_filters client_attributes.
Proof. split; try done. by apply map_Forall_singleton. Qed.

Lemma steady_calm : calm steady.
Proof. split; [apply sample_reliable|done]. Qed.

(** No get_message, nothing to meet. *)
Lemma always_readable b E F A n s cs :
  Forall (λ c, cmd_command c ≠ BURROW_CMD_GET_MESSAGE) cs →
  always b E F A (meets_readable E) n s cs.
Proof.
  intros Hcs. revert n s. induction Hcs as [|c cs Hc Hcs IH]; intros n s; simpl; [done|].
  split; [by intros ?|]. intros. apply IH.
Qed.

(** m1 is read, a command without its queue is refused, m1 is replaced, and the
    messages get a new ttl. *)
Definition sample_commands : list burrow_command_st :=
  [request "acct" "q" "m1";
   Command BURROW_CMD_GET_MESSAGES None (Some "acct") None None None 0 NULL NULL;
   creation "acct" "q" "m1" "again" 5 NULL;
   Command BURROW_CMD_UPDATE_MESSAGES None (Some "acct") (Some "q") None None 0
     (Some 40%positive) (Some 41%positive)].

Lemma sample_admissible : Forall (admissible client_filters client_attributes) sample_commands.
Proof.
  repeat (apply Forall_cons; split; [split_and!; simpl; try done; by eexists|]). by apply Forall_nil.
Qed.

Lemma sample_always :
  always memory_burrow (w_env steady) client_filters client_attributes
    (meets_readable (w_env steady)) (w_tick steady) sample_server sample_commands.
Proof.
  split.
  - intros _ a q ms id m E. vm_compute in E. by injection E as <- <- <- <- <-.
  - intros. apply always_readable. by repeat constructor.
Qed.

Theorem session_refines_witness :
  ∃ w' h', mapM (call_command (burrow_process 4) (Some 1%positive)) sample_commands steady
      conversation_heap = Ret [0; EINVAL; 0; 0]%Z w' h' ∧
    w_trace w' = [EvMessage (Some "m1") (Some "hello") 5 7 1000 0; EvComplete;
      EvPrint BURROW_VERBOSE_ERROR "burrow_get_messages: invalid parameters"; EvComplete;
      EvMessage (Some "m1") (Some "again") 5 7 600 0;
      EvMessage (Some "m3") (Some "shy") 3 7 600 500; EvComplete].
Proof.
  run_on (session_refines burrow_backend_dummy_functions 1 Libc memory_burrow 2 Libc 1 3
    client_filters client_attributes sample_conversing eq_refl 4 sample_commands sample_server steady (le_n 4)
    steady_calm sample_admissible sample_always) conversation_holds.
Defined.

(** Everybody is given half an hour, the queue is listed, and m4 is read back. *)
Definition sample_others : list burrow_command_st :=
  [Command BURROW_CMD_GET_MESSAGES None (Some "acct") (Some "q") None None 0 NULL NULL;
   creation "acct" "q2" "m4" "other" 5 NULL;
   Command BURROW_CMD_UPDATE_MESSAGE None (Some "acct") (Some "q") (Some "m1") None 0 NULL
     (Some 41%positive);
   Command BURROW_CMD_DELETE_QUEUES None (Some "other") None None None 0 NULL NULL].

Lemma others_admissible :
  Forall (admissible client_filters client_attributes)
    (creation "acct" "q" "m4" "hello world" 5 (Some 41%positive) :: sample_others).
Proof.
  repeat (apply Forall_cons; split; [split_and!; simpl; try done; by eexists|]). by apply Forall_nil.
Qed.

Lemma others_spare : Forall (spares "acct" "q" "m4") sample_others.
Proof.
  repeat (apply Forall_cons; split; [unfold spares; simpl; naive_solver|]). by apply Forall_nil.
Qed.

Theorem created_is_read_witness :
  ∃ w' h', mapM (call_command (burrow_process 4) (Some 1%positive))
      ((creation "acct" "q" "m4" "hello world" 5 (Some 41%positive) :: sample_others) ++
         [request "acct" "q" "m4"]) steady conversation_heap = Ret [0; 0; 0; 0; 0; 0]%Z w' h' ∧
    drop 8 (w_trace w') = [EvMessage (Some "m4") (Some "hello") 5 7 600 0; EvComplete].
Proof.
  run_on (created_is_read burrow_backend_dummy_functions 1 Libc memory_burrow 2 Libc 1 3
    client_filters client_attributes sample_conversing eq_refl 4 sample_others sample_server steady
    "acct" "q" "m4" "hello world" 5 (Some 41%positive) (le_n 4) steady_calm others_admissible others_spare
    ltac:(apply always_readable; by repeat constructor) (λ _, eq_refl)) conversation_holds.
Defined.

Lemma sample_well_formed : well_formed sample_server.
Proof.
  unfold well_formed, distinct, sample_server, sample_messages.
  repeat first [done | apply Forall_nil | apply Forall_cons; split | split
               | apply (bool_decide_eq_true_1 (NoDup _))].
Qed.

Theorem session_keeps_well_formed_witness :
  ∃ w' h', mapM (call_command (burrow_process 4) (Some 1%positive)) sample_commands steady
      conversation_heap = Ret [0; EINVAL; 0; 0]%Z w' h' ∧ size h' = 23.
Proof.
  run_on (session_keeps_well_formed burrow_backend_dummy_functions 1 Libc memory_burrow 2 Libc 1 3
    client_filters client_attributes sample_conversing eq_refl 4 sample_commands sample_server steady (le_n 4)
    steady_calm sample_admissible sample_always sample_well_formed) conversation_holds.
Defined.

(** A callback that, as long as it is asked early, wants the queues, tries a second
    command and processing, and forgets a parameter. *)
Definition eager_calls : list api_call :=
  [CallCommand (Command BURROW_CMD_GET_QUEUES None None None None None 0 NULL NULL);
   CallCommand (Command BURROW_CMD_DELETE_MESSAGE None (Some "acct") (Some "q") (Some "m1") None 0 NULL NULL);
   CallProcess; CallCommand (Command BURROW_CMD_DELETE_ACCOUNTS None None None None None 0 NULL NULL)].
Definition eager : environment :=
  Env (λ _, true) (λ _, true) (λ _, 7%Z) (λ _, 1000%Z) (λ _ _, PollTimeout)
    (λ n, if n <? 16 then eager_calls else []).

(** No get_message among the commands, none on the way. *)
Definition asks_no_message (c : burrow_command_st) : Prop := cmd_command c ≠ BURROW_CMD_GET_MESSAGE.

Lemma replies_next (P : burrow_command_st → Prop) b calls next c :
  (∀ c, next = Some c → P c) →
  Forall (λ call, match call with CallCommand c => P c | _ => True end) calls →
  (replies b calls next).2 = Some c → P c.
Proof.
  intros Hn Hc. revert next Hn. induction Hc as [|[c1| | |] calls Hc1 _ IH]; intros next Hn; simpl;
    [by apply Hn| |by apply IH..].
  destruct next as [c2|]; simpl; [by apply IH|]. destruct (required c1); [|by apply IH].
  apply IH. by intros c2 [= <-].
Qed.

Lemma reached_readable b E F A n s c n' s' c' :
  asks_no_message c →
  (∀ k, Forall (λ call, match call with CallCommand c => asks_no_message c | _ => True end) (e_user E k)) →
  reached b E F A n s c n' s' c' → meets_readable E n' s' c'.
Proof.
  intros Hc Hcalls. induction 1 as [n s c|n s c n1 n2 n3 r es es' lost s1 s2 c1 c2 _ _ Hcomp _ IH]; [by intros ?|].
  apply IH. inversion Hcomp; subst. eapply replies_next; [|by apply Hcalls|done]. done.
Qed.

Definition first_command : burrow_command_st :=
  Command BURROW_CMD_GET_ACCOUNTS None None None None None 0 NULL NULL.
Definition driven_heap : heap :=
  list_to_map (client_blocks ++ with_burrow (started first_command memory_burrow) sample_server_blocks).

Lemma driven_holds :
  holds (conversation 1 Libc 2 Libc 1 3 client_filters client_attributes
    (started first_command memory_burrow) sample_server) driven_heap.
Proof.
  apply blocks_holds; [reflexivity|]. unfold conversation, stored.
  rw !big_sepM_singleton -(sample_server_blocks_at (started first_command memory_burrow) eq_refl). simpl blocks.
  iIntros "($ & $ & $)".
Qed.

Lemma eager_courteous n : Forall (courteous client_filters client_attributes) (e_user eager n).
Proof.
  simpl. destruct (n <? 16); [|by apply Forall_nil].
  repeat (apply Forall_cons; split; [done|]). by apply Forall_nil.
Qed.

Lemma eager_quiet n : 16 ≤ n → e_user eager n = [].
Proof. intros Hn. simpl. by rw (proj2 (Nat.ltb_ge _ _) Hn). Qed.

Lemma eager_asks n :
  Forall (λ call, match call with CallCommand c => asks_no_message c | _ => True end) (e_user eager n).
Proof.
  simpl. destruct (n <? 16); [|by apply Forall_nil].
  repeat (apply Forall_cons; split; [done|]). by apply Forall_nil.
Qed.

Lemma eager_reached n' s' c' :
  reached memory_burrow eager client_filters client_attributes 0 sample_server first_command n' s' c' →
  meets_readable eager n' s' c'.
Proof. apply reached_readable; [done|apply eager_asks]. Qed.

Theorem callbacks_drive_witness :
  ∃ w' h', burrow_process 52 (Some 1%positive) (World eager 0 []) driven_heap = Ret 0%Z w' h' ∧
    take 6 (w_trace w') = [EvAccount (Some "acct"); EvComplete;
      EvPrint BURROW_VERBOSE_ERROR "burrow_get_queues: invalid parameters";
      EvPrint BURROW_VERBOSE_ERROR "burrow_delete_accounts: burrow not idle";
      EvMessage (Some "m1") (Some "hello") 5 7 1000 0; EvComplete].
Proof.
  run_on (callbacks_drive burrow_backend_dummy_functions 1 Libc memory_burrow 2 Libc 1 3
    client_filters client_attributes sample_conversing 51 16 first_command sample_server (World eager 0 [])
    ltac:(vm_compute; lia) (λ n, conj eq_refl eq_refl) eager_quiet eager_courteous
    ltac:(split_and!; done) eq_refl
    eager_reached) driven_holds.
Defined.
