(* ===== verification/DemoProps.v ===== *)
(** Properties of the example client: the equations its generator sends stay in
    their buffer and mean to the consumer what they say, and what its options
    count. *)
From stdpp Require Import pretty.
From Stdlib Require Import Ascii SpecFloat.
From S2P Require Import Prelude Types HttpProtocol TextFacts Demo.

(** ** Equations *)

(** A number, and operations with a number each. *)
Inductive operation := Plus | Minus | Times | Over.
Definition equation : Type := Z * list (operation * Z).

(** How an operation is written. *)
Definition symbol (o : operation) : ascii :=
  match o with Plus => "+" | Minus => "-" | Times => "*" | Over => "/" end%char.

Fixpoint print_ops (ops : list (operation * Z)) : string :=
  match ops with
  | [] => EmptyString
  | (o, z) :: ops => String (symbol o) (pretty z +:+ print_ops ops)
  end.
Definition print (e : equation) : string := pretty e.1 +:+ print_ops e.2.

(** The double of a positive number of at most 53 bits: its bits, moved to the top
    of the significand. *)
Definition exactly (z : Z) : double :=
  let shift := (52 - Z.log2 z)%Z in S754_finite false (Z.to_pos (z * 2 ^ shift)) (- shift).

(** What an operation means, in doubles. *)
Definition meaning (o : operation) : double → double → double :=
  match o with
  | Plus => SFadd 53 1024
  | Minus => SFsub 53 1024
  | Times => SFmul 53 1024
  | Over => SFdiv 53 1024
  end.

(** From left to right. *)
Definition evaluate (e : equation) : double :=
  fold_left (λ v oz, meaning oz.1 v (exactly oz.2)) e.2 (exactly e.1).

Definition operand (z : Z) : Prop := (1 ≤ z ≤ 99)%Z.
Definition simple (e : equation) : Prop := operand e.1 ∧ Forall (λ oz, operand oz.2) e.2.

(** ** Reading numbers *)

Definition no_digit_first (s : string) : Prop :=
  match s with String c _ => digit c = None | EmptyString => True end.

Lemma digit_scan a s : is_Some (digit a) → scan_int (String a s) = scan_number 1 (String a s).
Proof. intros [d Hd]. destruct a as [[] [] [] [] [] [] [] []]; done. Qed.

(** One or two digits. *)
Definition short_number (z : Z) : bool :=
  match pretty z with
  | String a EmptyString => bool_decide (digit a = Some z)
  | String a (String b EmptyString) =>
      bool_decide (digit a = Some (z / 10)%Z) && bool_decide (digit b = Some (z mod 10)%Z)
  | _ => false
  end.

Lemma operand_short z : operand z → short_number z = true.
Proof.
  intros Hz. assert (forallb short_number (seqZ 1 99) = true) as H by (vm_compute; reflexivity).
  rewrite forallb_forall in H. apply H, list_elem_of_In, elem_of_seqZ. unfold operand in Hz. lia.
Qed.

Lemma scan_operand z rest :
  operand z → no_digit_first rest → scan_int (pretty z +:+ rest) = Number z rest.
Proof.
  intros Hz Hrest. pose proof (operand_short z Hz) as Hs. unfold short_number in Hs.
  assert (∀ v, scan_digits v rest = (v, rest)) as Hd.
  { intros v. destruct rest as [|c rest]; [done|]. simpl in *. by rewrite Hrest. }
  unfold operand in Hz.
  assert (((- INT_MAX - 1 <=? 1 * z) && (1 * z <=? INT_MAX))%Z = true) as Hr.
  { unfold INT_MAX. apply andb_true_intro. split; apply Z.leb_le; lia. }
  destruct (pretty z) as [|a [|b [|]]]; try done.
  - apply bool_decide_eq_true in Hs. rewrite string_app_cons, digit_scan by (by eexists).
    unfold scan_number. cbn [scan_digits]. rewrite Hs. change ("" +:+ rest) with rest. rewrite Hd.
    replace (10 * 0 + z)%Z with z by lia. rewrite Hr. f_equal; lia.
  - apply andb_prop in Hs as [Ha%bool_decide_eq_true Hb%bool_decide_eq_true].
    rewrite !string_app_cons, digit_scan by (by eexists). unfold scan_number. cbn [scan_digits].
    rewrite Ha. rewrite Hb. change ("" +:+ rest) with rest. rewrite Hd.
    replace (10 * (10 * 0 + z / 10) + z mod 10)%Z with z by (pose proof (Z.div_mod z 10 ltac:(lia)); lia). rewrite Hr. f_equal; lia.
Qed.

Lemma print_ops_no_digit ops : no_digit_first (print_ops ops).
Proof. by destruct ops as [|[[] z] ops]. Qed.

(** The conversion of an operand is exact. *)
Lemma double_of_operand z : operand z → double_of_int z = exactly z.
Proof.
  intros Hz. assert (double_of_int <$> seqZ 1 99 = exactly <$> seqZ 1 99) as H
    by (vm_compute; reflexivity).
  assert (seqZ 1 99 !! Z.to_nat (z - 1) = Some z) as Hl.
  { apply lookup_seqZ. unfold operand in Hz. lia. }
  apply (f_equal (.!! Z.to_nat (z - 1))) in H. rewrite !list_lookup_fmap, Hl in H. by injection H.
Qed.

Lemma apply_symbol o v z : operand z → apply_op (symbol o) v z = Some (meaning o v (exactly z)).
Proof. intros Hz. rewrite <-double_of_operand by done. by destruct o. Qed.

(** What is printed is read back and evaluated, with enough fuel. *)
Lemma process_rest_print fuel v ops :
  length ops ≤ fuel → Forall (λ oz, operand oz.2) ops →
  process_rest fuel v (print_ops ops) =
    Value (fold_left (λ v oz, meaning oz.1 v (exactly oz.2)) ops v).
Proof.
  revert fuel v. induction ops as [|[o z] ops IH]; intros fuel v Hf Hops; [by destruct fuel|].
  apply Forall_cons in Hops as [Hz Hops]. destruct fuel as [|fuel]; simpl in Hf; [lia|].
  cbn [print_ops process_rest fst snd] in *.
  rewrite scan_operand, apply_symbol by (done || apply print_ops_no_digit). by apply IH; [lia|].
Qed.

Lemma length_print_ops ops : length ops ≤ String.length (print_ops ops).
Proof.
  induction ops as [|[op z] ops IH]; [done|]. cbn [print_ops length String.length].
  rewrite string_length_app. lia.
Qed.

Lemma process_print e : simple e → process_equation (print e) = Value (evaluate e).
Proof.
  destruct e as [z ops]. intros [Hz Hops]. unfold process_equation, print, evaluate. cbn [fst snd] in *.
  rewrite scan_operand, double_of_operand by (done || apply print_ops_no_digit).
  apply process_rest_print; [|done]. rewrite string_length_app. pose proof (length_print_ops ops). lia.
Qed.

(** ** Generating equations *)

Lemma length_operand z : operand z → 1 ≤ String.length (pretty z) ≤ 2.
Proof.
  intros Hz. pose proof (operand_short z Hz) as Hs. unfold short_number in Hs.
  destruct (pretty z) as [|a [|b [|]]]; simpl; try done; lia.
Qed.

Lemma print_snoc z ops o z' :
  print (z, ops ++ [(o, z')]) = print (z, ops) +:+ String (symbol o) (pretty z').
Proof.
  unfold print. cbn [fst snd]. rewrite string_app_assoc. f_equal.
  induction ops as [|[o1 z1] ops IH]; cbn [app print_ops].
  - by rewrite string_app_nil_r.
  - by rewrite IH, string_app_cons, string_app_assoc.
Qed.

Lemma simple_snoc z ops o z' : simple (z, ops) → operand z' → simple (z, ops ++ [(o, z')]).
Proof.
  intros [Hz Hops] Hz'. split; [done|]. cbn [snd] in *. apply Forall_app. split; [done|].
  by apply Forall_singleton.
Qed.

Section random.
Context (rand : nat → Z) (Hrand : ∀ n, (0 ≤ rand n)%Z).

(** The operation a random number stands for. *)
Definition drawn_operation (r : Z) : operation :=
  match (r mod 4)%Z with 1%Z => Minus | 2%Z => Times | 3%Z => Over | _ => Plus end.

(** The equation of [k] operations drawn from the [n]th random number on: each
    operation takes three, the first of which says whether to stop before it. *)
Definition drawn_operand (n : nat) : Z := (rand n mod 99 + 1)%Z.
Definition drawn (n i : nat) : operation * Z :=
  (drawn_operation (rand (n + 3 * i + 2)), drawn_operand (n + 3 * i + 3)).
Definition drawn_equation (n k : nat) : equation := (drawn_operand n, drawn n <$> seq 0 k).

(** It stops at one number in eleven, or with no room for another operation. *)
Definition stops (size : Z) (n k : nat) : Prop :=
  (rand (n + 3 * k + 1) mod 11 = 0 ∨
   size - 4 ≤ Z.of_nat (String.length (print (drawn_equation n k))))%Z.

Lemma rem_rand n c : (0 < c)%Z → Z.rem (rand n) c = (rand n mod c)%Z.
Proof using Hrand. intros Hc. apply Z.rem_mod_nonneg; [apply Hrand|done]. Qed.

Lemma random_op_symbol n : random_op rand n = symbol (drawn_operation (rand n)).
Proof using Hrand.
  unfold random_op, drawn_operation. rewrite rem_rand by done.
  pose proof (Z.mod_pos_bound (rand n) 4 ltac:(lia)) as Hr.
  assert (rand n `mod` 4 ∈ [0; 1; 2; 3])%Z as Hc by (set_unfold; lia).
  by repeat (apply elem_of_cons in Hc as [->|Hc]; [done|]); apply elem_of_nil in Hc.
Qed.

Lemma random_operand_drawn n : random_operand rand n = pretty (drawn_operand n).
Proof using Hrand. unfold random_operand, MAXINT. by rewrite rem_rand. Qed.

Lemma drawn_operand_operand n : operand (drawn_operand n).
Proof.
  unfold operand, drawn_operand. pose proof (Z.mod_pos_bound (rand n) 99 ltac:(lia)). lia.
Qed.

Lemma drawn_simple n k : simple (drawn_equation n k).
Proof.
  split; [apply drawn_operand_operand|]. apply Forall_fmap, Forall_true. intros i. apply drawn_operand_operand.
Qed.

Lemma print_drawn_S n k :
  print (drawn_equation n (S k)) =
  print (drawn_equation n k) +:+ String (symbol (drawn n k).1) (pretty (drawn n k).2).
Proof. unfold drawn_equation. rewrite seq_S, fmap_app. apply print_snoc. Qed.

(** The loop: a turn adds three characters at most and two at least. *)
Lemma equation_loop_spec fuel size n k :
  let len k := Z.of_nat (String.length (print (drawn_equation n k))) in
  (len k < size)%Z → Z.to_nat (size - 4 - len k) < fuel →
  ∃ k' n', equation_loop rand fuel size (print (drawn_equation n k)) (n + 3 * k + 1) =
      Written (print (drawn_equation n k')) n' ∧
    (len k' < size)%Z ∧ stops size n k' ∧ ∀ i, k ≤ i < k' → ¬ stops size n i.
Proof using Hrand.
  intros len. revert k. induction fuel as [|fuel IH]; intros k Hsize Hfuel; [lia|]. cbn [equation_loop].
  fold (len k). unfold CUTOFF, STOP_CHANCE. rewrite rem_rand by done.
  destruct (Z.ltb_spec (len k) (size - 1 - 1 - 2)) as [Hlt|Hge].
  2: { eexists k, _. split_and!; [done|done|right; fold (len k); lia|lia]. }
  destruct (Z.eqb_spec (rand (n + 3 * k + 1) mod 11) 0) as [Hstop|Hgo].
  { eexists k, _. split_and!; [done|done|by left|lia]. }
  assert (¬ stops size n k) as Hk by (intros [?|Hroom]; [done|fold (len k) in Hroom; lia]).
  rewrite random_op_symbol, random_operand_drawn. unfold sprintf_at.
  replace (n + 3 * k + 1 + 1) with (n + 3 * k + 2) by lia.
  replace (n + 3 * k + 1 + 2) with (n + 3 * k + 3) by lia.
  change (print _ +:+ _) with (print (drawn_equation n k) +:+ String (symbol (drawn n k).1) (pretty (drawn n k).2)).
  rewrite <-print_drawn_S. fold (len (S k)).
  pose proof (length_operand _ (drawn_operand_operand (n + 3 * k + 3))) as Hlen.
  assert (len (S k) = len k + 1 + Z.of_nat (String.length (pretty (drawn n k).2)))%Z as E.
  { unfold len. rewrite print_drawn_S, string_length_app. simpl. lia. }
  unfold drawn in E. cbn [snd] in E. rewrite (proj2 (Z.ltb_lt _ size)) by lia.
  destruct (IH (S k)) as (k' & n' & Eloop & Hk' & Hstops & Hgoes); [lia..|].
  exists k', n'. replace (n + 3 * k + 1 + 3) with (n + 3 * S k + 1) by lia. split_and!; [done..|].
  intros i Hi. destruct (decide (i = k)) as [->|Hne]; [done|]. apply Hgoes. lia.
Qed.

(** C22: random_equation never writes beyond its buffer, ends within as many turns
    as the buffer has bytes, whatever the random numbers, and leaves the equation
    they say there, which has as many operations as are drawn until one number in
    eleven says to stop or the buffer has no room for another (nothing in a buffer
    of less than five bytes). From that text, process_equation computes the value
    of the equation: its operations on its numbers from left to right, in IEEE
    doubles. *)
Theorem random_equation_correct size n fuel :
  (0 < size)%Z → Z.to_nat size ≤ fuel →
  ∃ text n', random_equation rand fuel size n = Written text n' ∧
    (Z.of_nat (String.length text) < size)%Z ∧
    if (size <? 5)%Z then text = "" else
    ∃ k, stops size n k ∧ (∀ i, i < k → ¬ stops size n i) ∧
      text = print (drawn_equation n k) ∧ process_equation text = Value (evaluate (drawn_equation n k)).
Proof using Hrand.
  intros Hsize Hfuel. unfold random_equation, CUTOFF.
  destruct (Z.leb_spec (size - 1 - 1 - 2) 0) as [Hle|Hgt].
  - rewrite (proj2 (Z.ltb_lt 0 size)) by lia. eexists _, _. split; [done|]. split; [simpl; lia|].
    by rewrite (proj2 (Z.ltb_lt size 5)) by lia.
  - pose proof (length_operand _ (drawn_operand_operand n)) as Hlen.
    assert (print (drawn_equation n 0) = pretty (drawn_operand n)) as E
      by (unfold print; cbn; by rewrite string_app_nil_r).
    unfold sprintf_at. rewrite random_operand_drawn. change ("" +:+ ?s) with s.
    rewrite (proj2 (Z.ltb_lt _ size)), (proj2 (Z.ltb_ge size 5)) by lia.
    destruct (equation_loop_spec fuel size n 0) as (k & n' & Eloop & Hk & Hstops & Hgoes);
      [rewrite E; lia..|].
    replace (n + 3 * 0 + 1) with (n + 1) in Eloop by lia. rewrite E in Eloop. rewrite Eloop.
    eexists _, _. split; [done|]. split; [done|]. exists k. split_and!; [done| |done|].
    + intros i Hi. apply Hgoes. lia.
    + apply process_print, drawn_simple.
Qed.
End random.

(** ** Consuming them *)

Lemma c_string_app a b :
  c_string a = a → c_string (a +:+ b) = a +:+ c_string b.
Proof.
  induction a as [|c a IH]; [done|]. cbn [c_string]. rewrite string_app_cons. cbn [c_string].
  destruct (Ascii.eqb c Ascii.zero); [done|]. intros [= E]. by rewrite IH.
Qed.

Lemma digit_nonzero a z : digit a = Some z → Ascii.eqb a Ascii.zero = false.
Proof. intros Hd. by destruct a as [[] [] [] [] [] [] [] []]. Qed.

Lemma c_string_operand z : operand z → c_string (pretty z) = pretty z.
Proof.
  intros Hz. pose proof (operand_short z Hz) as Hs. unfold short_number in Hs.
  destruct (pretty z) as [|a [|b [|]]]; try done.
  - apply bool_decide_eq_true in Hs. cbn [c_string]. by rewrite (digit_nonzero _ _ Hs).
  - apply andb_prop in Hs as [Ha%bool_decide_eq_true Hb%bool_decide_eq_true].
    cbn [c_string]. by rewrite (digit_nonzero _ _ Ha), (digit_nonzero _ _ Hb).
Qed.

Lemma c_string_print e : simple e → c_string (print e) = print e.
Proof.
  destruct e as [z ops]. intros [Hz Hops]. unfold print. cbn [fst snd] in *.
  rewrite c_string_app by by apply c_string_operand. f_equal.
  induction Hops as [|[o z'] ops Hz' _ IH]; [done|]. cbn [print_ops c_string fst snd] in *.
  assert (Ascii.eqb (symbol o) Ascii.zero = false) as -> by by destruct o.
  by rewrite c_string_app, IH by by apply c_string_operand.
Qed.

(** What the consumer is told of messages with equations. *)
Definition deliver (state : option app_state_st) (m : string * equation) : option app_state_st :=
  state ≫= message_callback true m.1 (Some (print m.2)) (Z.of_nat (String.length (print m.2))).

Lemma deliver_all err last_id ms msgs :
  fold_left deliver ms (Some (AppState err false last_id msgs)) =
  Some (AppState err false last_id
    (rev ((λ m, Incoming m.1 (print m.2) (Z.of_nat (String.length (print m.2)))) <$> ms) ++ msgs)).
Proof.
  revert msgs. induction ms as [|m ms IH]; intros msgs; [done|]. cbn [fold_left fmap list_fmap rev].
  unfold deliver at 2. cbn. rewrite Nat2Z.id, substring_all by done. rewrite IH. by rewrite <-app_assoc.
Qed.

(** A consumer that receives equations, whatever their ids, prints on
    completion the value of each, the last one received first, and remembers the
    id of the last one, up to the size of its array, as the marker to go on
    from; nothing is left to print. *)
Theorem consumer_evaluates err last_id ms id e :
  Forall (λ m, simple m.2) (ms ++ [(id, e)]) →
  complete_callback <$> fold_left deliver (ms ++ [(id, e)]) (Some (AppState err false last_id [])) =
  Some (AppState err false (String.substring 0 127 id) [],
        rev ((λ m, Value (evaluate m.2)) <$> (ms ++ [(id, e)]))).
Proof.
  intros Hms. rewrite deliver_all, app_nil_r, !fmap_app, !rev_app_distr. cbn. f_equal. f_equal.
  apply Forall_app in Hms as [Hms [He _]%Forall_cons]. cbn [snd] in He.
  rewrite c_string_print, process_print by done. f_equal.
  rewrite <-!map_rev. change (@map) with (λ A B (f : A → B) (l : list A), f <$> l). cbn beta.
  rewrite <-list_fmap_compose. apply list_fmap_ext. intros i m Hm. unfold compose.
  apply list_elem_of_lookup_2, list_elem_of_In, in_rev, list_elem_of_In in Hm. rewrite Forall_forall in Hms.
  pose proof (Hms m Hm) as Hs. cbn. by rewrite c_string_print, process_print.
Qed.

(** ** Options *)

Lemma iterations_count fuel n : n < fuel → iterations fuel false (Z.of_nat n) = Some n.
Proof.
  revert n. induction fuel as [|fuel IH]; intros n Hn; [lia|]. destruct n as [|n]; [done|].
  cbn [iterations]. rewrite (proj2 (Z.eqb_neq (Z.of_nat (S n)) 0)) by lia. cbn.
  replace (Z.of_nat (S n) - 1)%Z with (Z.of_nat n) by lia. by rewrite IH by lia.
Qed.

(** The option for the number of requests asks for one more, and 0, which the help
    gives as unlimited, asks for one. *)
Theorem count_option_adds_one optarg count s fuel :
  atoi optarg = Some count → (0 ≤ count < INT_MAX)%Z → Z.to_nat count + 1 < fuel →
  ∃ s', main_option "r" optarg s = GoOn s' ∧ requests fuel s' = Some (Z.to_nat count + 1).
Proof.
  intros Ha Hc Hf. destruct s. eexists. cbn. unfold with_number. rewrite Ha.
  rewrite (proj2 (Z.ltb_lt count INT_MAX)) by lia. split; [done|]. unfold requests. cbn.
  rewrite (proj2 (Z.eqb_neq (count + 1) 0)) by lia.
  replace (count + 1)%Z with (Z.of_nat (Z.to_nat count + 1)) by lia. by apply iterations_count.
Qed.

(** ** Samples *)

(** Random numbers: an equation of three operators. *)
Definition sample_rand (n : nat) : Z := nth n [4; 1; 2; 9; 1; 1; 98; 1; 3; 10; 0]%Z 0%Z.

Lemma sample_rand_nonneg n : (0 ≤ sample_rand n)%Z.
Proof. unfold sample_rand. do 11 (destruct n as [|n]; [done|]). destruct n; cbn; lia. Qed.

Theorem random_equation_correct_witness :
  random_equation sample_rand 1024 1024 0 = Written "5*10-99/11" 11 ∧
  ∃ text n', random_equation sample_rand 1024 1024 0 = Written text n' ∧
    (Z.of_nat (String.length text) < 1024)%Z ∧
    ∃ k, stops sample_rand 1024 0 k ∧ (∀ i, i < k → ¬ stops sample_rand 1024 0 i) ∧
      text = print (drawn_equation sample_rand 0 k) ∧
      process_equation text = Value (evaluate (drawn_equation sample_rand 0 k)).
Proof.
  split; [vm_compute; reflexivity|].
  exact (random_equation_correct sample_rand sample_rand_nonneg 1024 0 1024 eq_refl (le_n _)).
Defined.

(** 5 * 10 - 99 is -49 and the quotient by 11 is rounded. *)
Example sample_value : process_equation "5*10-99/7" = Value (double_of_int (-7)).
Proof. vm_compute. reflexivity. Qed.

(** What the consumer meets on strange messages. *)
Example strange_messages :
  process_equation "" = Value NAN ∧ process_equation "3 + 4" = Value NAN ∧
  process_equation "3+ 4" = Value (double_of_int 7) ∧ process_equation "1/0" = Value (S754_infinity false) ∧
  process_equation "99999999999" = Undefined.
Proof. vm_compute. done. Qed.

Theorem consumer_evaluates_witness :
  complete_callback <$> fold_left deliver [("id1", (1, [])%Z); ("id2", (2, [(Plus, 3)])%Z)]
    (Some (AppState false false "" [])) =
  Some (AppState false false "id2" [], [Value (double_of_int 5); Value (double_of_int 1)]).
Proof.
  refine (consumer_evaluates false "" [("id1", (1, [])%Z)] "id2" (2, [(Plus, 3)])%Z _).
  repeat constructor; done.
Defined.
