(* ===== verification/UserBufferProps.v ===== *)
(** Properties of the buffers of user_buffer.c. *)
From S2P Require Import Prelude Types Heap UserBuffer Macros Burrow Logic MacrosSpec DictionarySpec UserBufferSpec BurrowSpec WatchSpec BufferSpec DictionaryProps.
From iris.proofmode Require Import proofmode.
Import Samples.

(** A new buffer holds a copy of the data, to be read from its start; when an
    allocation fails, [NULL] is returned and everything taken has been freed. *)
Theorem user_buffer_create_correct data w :
  data ≠ [] →
  triple emp%I (user_buffer_create_sized NULL (Some data) (Z.of_nat (length data))) w
    (λ r w', (∃ ul, ⟦ r = Some ul ∧ evolves w [] w' ⟧ ∗ holding ul Libc true 0 data) ∨
             ⟦ r = NULL ∧ ¬ reliable w ∧ evolves w [] w' ⟧)%I.
Proof. intros. apply triple_intro. by iApply wp_user_buffer_create_sized. Qed.

(** C39: libcurl's write callback on a buffer that is written at its end appends
    the data and takes all of it. Out of memory it takes nothing: a buffer with
    contents is as it was, an empty one claims a size it has no memory for. *)
Theorem write_function_appends ul o m bs data size nmemb w :
  data ≠ [] → (size * nmemb = Z.of_nat (length data))%Z →
  (Z.of_nat (length bs + length data) < 18446744073709551616)%Z →
  triple (holding ul o m (length bs) bs)
    (user_buffer_curl_write_function data size nmemb (Some ul)) w
    (λ r w', ⟦ evolves w [] w' ⟧ ∗
       ((⟦ r = Z.of_nat (length data) ⟧ ∗ holding ul o m (length (bs ++ data)) (bs ++ data)) ∨
        (⟦ r = 0%Z ∧ ¬ reliable w ⟧ ∗
           if decide (bs = []) then ul ↦{o} UserBuffer (Z.of_nat (length data)) 0 NULL m
           else holding ul o m (length bs) bs)))%I.
Proof. intros. apply triple_intro. by apply wp_user_buffer_write. Qed.

(** Libcurl's read callback copies the next bytes, as many as there is room
    for, to libcurl's memory and moves on behind them; at the end it returns 0. *)
Theorem read_function_next ul o m bs k dl od dst size nmemb w :
  k ≤ length bs → (size * nmemb = Z.of_nat (length dst))%Z →
  (Z.of_nat (length bs) < 18446744073709551616)%Z → (Z.of_nat (length dst) < 18446744073709551616)%Z →
  triple (holding ul o m k bs ∗ dl ↦{od} dst)%I
    (user_buffer_curl_read_function (Some dl) size nmemb (Some ul)) w
    (λ r w', let n := Nat.min (length dst) (length bs - k) in
       ⟦ r = Z.of_nat n ∧ w' = w ⟧ ∗ holding ul o m (k + n) bs ∗
       dl ↦{od} (take n (drop k bs) ++ drop n dst))%I.
Proof. intros. apply triple_intro. by apply wp_user_buffer_read. Qed.

(** ** The samples *)

Definition hello : bytes := String.list_ascii_of_string "hello".
Definition world_bytes : bytes := String.list_ascii_of_string ", world".

Theorem user_buffer_create_correct_witness :
  ∃ w' h', user_buffer_create_sized NULL (Some hello) 5 (sample_world (λ _, true)) ∅
    = Ret (Some 2%positive) w' h' ∧ h' !! 3%positive = Some (Libc, BBytes hello).
Proof.
  destruct (triple_run _ _ _ _ ∅ (user_buffer_create_correct hello (sample_world (λ _, true)) ltac:(done))
    eq_refl) as (r & w & h & E & _).
  pose proof E as E'. vm_compute in E'. injection E' as <- <- <-.
  eexists _, _. split; [exact E|reflexivity].
Defined.

(** A buffer with contents, and libcurl's memory. *)
Definition buffer_blocks (where_ : Z) : list (loc * (owner * Types.block)) :=
  [(1, (Libc, BUserBuffer (UserBuffer 5%Z where_ (Some 2) true))); (2, (Libc, BBytes hello));
   (3, (Caller, BBytes (String.list_ascii_of_string "....")))]%positive.

Lemma buffer_holds where_ :
  holds (holding 1 Libc true where_ hello ∗
         3%positive ↦{Caller} String.list_ascii_of_string "....")%I
    (list_to_map (buffer_blocks (Z.of_nat where_))).
Proof.
  apply blocks_holds; [reflexivity|]. iIntros "(Hu & Hb & $ & _)". iExists (Some 2%positive). by iFrame.
Qed.

Theorem write_function_appends_witness :
  ∃ w' h', user_buffer_curl_write_function world_bytes 1 7 (Some 1%positive) (sample_world (λ _, true))
      (list_to_map (take 2 (buffer_blocks 5))) = Ret 7%Z w' h' ∧
    h' !! 2%positive = Some (Libc, BBytes (hello ++ world_bytes)).
Proof.
  assert (holds (holding 1 Libc true 5 hello) (list_to_map (take 2 (buffer_blocks 5)))) as Hh.
  { apply blocks_holds; [reflexivity|]. iIntros "(Hu & Hb & _)". iExists (Some 2%positive). by iFrame. }
  destruct (triple_run _ _ _ _ _ (write_function_appends 1 Libc true hello world_bytes 1 7
    (sample_world (λ _, true)) ltac:(done) eq_refl ltac:(done)) Hh) as (r & w & h & E & _).
  pose proof E as E'. vm_compute in E'. injection E' as <- <- <-.
  eexists _, _. split; [exact E|reflexivity].
Defined.

Theorem read_function_next_witness :
  ∃ w' h', user_buffer_curl_read_function (Some 3%positive) 2 2 (Some 1%positive) (sample_world (λ _, true))
      (list_to_map (buffer_blocks 2)) = Ret 3%Z w' h' ∧
    h' !! 3%positive = Some (Caller, BBytes (String.list_ascii_of_string "llo.")).
Proof.
  destruct (triple_run _ _ _ _ _ (read_function_next 1 Libc true hello 2 3 Caller
    (String.list_ascii_of_string "....") 2 2 (sample_world (λ _, true)) ltac:(vm_compute; lia) eq_refl
    ltac:(done) ltac:(done)) (buffer_holds 2)) as (r & w & h & E & _).
  pose proof E as E'. vm_compute in E'. injection E' as <- <- <-.
  eexists _, _. split; [exact E|reflexivity].
Defined.

(** When the first write finds no memory, the next one writes through [NULL]. *)
Example write_after_failed_write_faults :
  (user_buffer_curl_write_function hello 1 5 (Some 1%positive);;
   user_buffer_curl_write_function hello 1 5 (Some 1%positive)) (sample_world (λ n, negb (n =? 0)))
    {[1%positive := (Libc, BUserBuffer (UserBuffer 0 0 NULL true))]} = Stuck NullDeref.
Proof. vm_compute. reflexivity. Qed.

(** A buffer of the caller's is freed when its data cannot be allocated. *)
Example create_frees_the_callers_buffer :
  user_buffer_create_sized (Some 1%positive) (Some hello) 5 (sample_world (λ _, false))
    {[1%positive := (Caller, BUserBuffer (UserBuffer 0 0 NULL true))]} = Stuck BadFree.
Proof. vm_compute. reflexivity. Qed.
