(* ===== verification/JsonProps.v ===== *)
(** Properties of JSON_parser.c and json_processing.c. *)
From Stdlib Require Import Ascii.
From S2P Require Import Prelude JsonData Types Heap Macros UserBuffer JsonParser JsonProcessing JsonMachine JsonFacts JsonReport JsonListing Logic MacrosSpec DictionarySpec UserBufferSpec JsonSpec JsonCharSpec JsonTextSpec JsonReportSpec JsonParseSpec JsonSound CurlSample DictionaryProps.
From iris.proofmode Require Import proofmode.
Import Samples.

(** ** A concrete libcurl, backend and burrow *)

Module JsonSamples.
Definition curl : Libcurl := {|
  curl_easy_init := mret (Some 9%positive);
  curl_easy_unescape := λ _ s, mret (Some (percent_decode s)) |}.

Lemma curl_unescapes : Unescapes curl percent_decode.
Proof. intros h s w Q. iIntros "HQ". simpl. wret. iApply "HQ". auto with world. Qed.

Definition asking (command : burrow_command_t) : burrow_st :=
  sample_burrow <| b_cmd := no_command <| cmd_command := command |> |>.
Definition backend : burrow_backend_st :=
  HttpBackend "http" 4 "v1.0" 4 "8080" 4 NULL 0 NULL 0 (Some 1%positive) NULL (Some 5%positive) NULL false false.
Definition heap_of (command : burrow_command_t) : heap :=
  list_to_map [(1%positive, (Libc, BBurrow (asking command))); (2%positive, (Libc, BHttp backend))].

Lemma http_holds command :
  holds (http 2 1 Libc Libc backend (asking command)) (heap_of command).
Proof. apply blocks_holds; [reflexivity|]. simpl. iIntros "($ & $ & _)". Qed.

Definition point : Ascii.ascii := to_char 46.
Definition text_of_string (s : string) : bytes := String.list_ascii_of_string s.
(** One message, as a server sends it; an apostrophe stands for a quote. *)
Definition quoted (s : string) : bytes :=
  (λ c, if Ascii.eqb c (to_char 39) then to_char 34 else c) <$> text_of_string s.
Definition message_text : bytes :=
  quoted "[{'id': 'a%20b', 'ttl': 30, /* now */ 'hide': 0}, {'id': '\u0063'}]".
Definition message_events : list event :=
  [EvMessage (Some "a b") None 0 3 30 0; EvMessage (Some "c") None 0 0 0 0].
End JsonSamples.

Import JsonSamples.

Lemma holds_pure φ P h : holds (⟦ φ ⟧ ∗ P)%I h → φ.
Proof.
  intros Hh.
  assert (⟦ φ ⟧ ∗ P ⊢ ⌜φ⌝)%I as H; [by iIntros "[%Hφ _]"|]. exact (hent H h Hh).
Qed.

(** ** Whole texts *)

(** C3: Given a text of which it reads [size] characters, memory and a burrow,
    burrow_backend_http_parse_json answers and tells the user exactly what the
    reference of JsonReport.v computes from the text; when the text is complete or
    merely ends too early, everything it allocated has been freed, and when a
    character or a token is refused, the parser and the collector have not. *)
Theorem parse_json_correct {curl : Libcurl} unescape `{!Unescapes curl unescape} sl bl so bo s b handle
    p text size r es freed w :
  hb_burrow s = Some bl → hb_chandle s = Some handle → reliable w →
  (0 ≤ size < 2147483648)%Z → (size ≤ Z.of_nat (length text))%Z →
  parse_result b unescape (json_options p) (signed_char <$> take (Z.to_nat size) text) = Some (r, es, freed) →
  triple (http sl bl so bo s b) (burrow_backend_http_parse_json p (Some sl) text size) w
    (λ r' w', ⟦ r' = r ∧ evolves w es w' ⟧ ∗
       if (freed : bool) then http sl bl so bo s b else leaked sl bl so bo s b p)%I.
Proof. intros. apply triple_intro. by eapply wp_parse_json. Qed.

Lemma parse_json_correct_witness :
  ∃ w' h', burrow_backend_http_parse_json (curl := curl) point (Some 2%positive) message_text
      (Z.of_nat (length message_text)) (sample_world (λ _, true)) (heap_of BURROW_CMD_GET_MESSAGES) = Ret 0%Z w' h' ∧
    w_trace w' = message_events.
Proof.
  destruct (triple_run _ _ _ _ _ (parse_json_correct (curl := curl) percent_decode (Unescapes0 := curl_unescapes)
    2 1 Libc Libc backend (asking BURROW_CMD_GET_MESSAGES) 5 point message_text (Z.of_nat (length message_text))
    0 message_events true (sample_world (λ _, true)) eq_refl eq_refl sample_reliable ltac:(split; vm_compute; congruence)
    ltac:(vm_compute; congruence) ltac:(vm_compute; reflexivity)) (http_holds BURROW_CMD_GET_MESSAGES))
    as (r & w' & h' & E & HQ).
  apply holds_pure in HQ as [-> (_ & _ & Ht)]. exists w', h'. split; [exact E|exact Ht].
Defined.

(** C23: The JSON listing of names of ASCII characters, quotes, backslashes and
    control characters escaped, is read back: burrow_backend_http_parse_json
    answers 0, the user is told of every name, unescaped by libcurl, in order and
    of nothing else, and everything allocated has been freed. *)
Theorem listing_round_trip {curl : Libcurl} unescape `{!Unescapes curl unescape} sl bl so bo s b handle p names w :
  hb_burrow s = Some bl → hb_chandle s = Some handle → reliable w → asks_for_names b →
  Forall (λ name, forallb name_char name = true) names →
  (Z.of_nat (length (listing names)) < 2147483648)%Z →
  triple (http sl bl so bo s b)
    (burrow_backend_http_parse_json p (Some sl) (listing names) (Z.of_nat (length (listing names)))) w
    (λ r w', ⟦ r = 0%Z ∧
               evolves w (names ≫= λ name, listed b (unescape (String.string_of_list_ascii name))) w' ⟧ ∗
       http sl bl so bo s b)%I.
Proof.
  intros Hb Hh Hr Hask Hnames Hlen. apply triple_intro.
  eapply (wp_parse_json _ sl bl so bo s b handle p (listing names) _ _ _ true _ Hb Hh Hr); [lia|done|].
  rw Nat2Z.id take_ge //. unfold parse_result. rw run_listing //; [|by apply Nat.leb_le].
  cbn [tokens_of deliver]. rw report_begin //. rw deliver_listing //.
Qed.

Definition some_names : list bytes :=
  [text_of_string "jobs"; quoted "say 'hi'\"; to_char 9 :: text_of_string "%2F"].

Theorem listing_round_trip_witness :
  ∃ w' h', burrow_backend_http_parse_json (curl := curl) point (Some 2%positive) (listing some_names)
      (Z.of_nat (length (listing some_names))) (sample_world (λ _, true)) (heap_of BURROW_CMD_GET_QUEUES) = Ret 0%Z w' h' ∧
    w_trace w' = (λ name, EvQueue (Some (percent_decode (String.string_of_list_ascii name)))) <$> some_names.
Proof.
  destruct (triple_run _ _ _ _ _ (listing_round_trip (curl := curl) percent_decode (Unescapes0 := curl_unescapes)
    2 1 Libc Libc backend (asking BURROW_CMD_GET_QUEUES) 5 point some_names (sample_world (λ _, true))
    eq_refl eq_refl sample_reliable ltac:(by left) ltac:(repeat constructor) ltac:(by vm_compute))
    (http_holds BURROW_CMD_GET_QUEUES)) as (r & w' & h' & E & HQ).
  apply holds_pure in HQ as [-> (_ & _ & Ht)]. exists w', h'. split; [exact E|exact Ht].
Defined.

(** ** One character *)

(** C5: JSON_parser_char on a parser in a state of the automaton of
    JsonMachine.v, with any callback that keeps its promise: it takes the
    character exactly when the automaton does, is then in the automaton's next
    state, and has told the callback the automaton's tokens in order; when the
    automaton rejects, or the callback refuses one of those tokens, or memory runs
    out, it answers 0 and is left fit only to be deleted. *)
Theorem JSON_parser_char_refines callback ctx I J allowed `{!TokenClient callback ctx I J allowed}
    jl F o cb a c ts w :
  depth_ok o → small (ma_text a) → step o a c ≠ Abort_assert →
  all_allowed allowed ts (tokens_of (step o a c)) →
  triple (parser jl F o ctx cb a ∗ I ts w) (JSON_parser_char callback (Some jl) c) w
    (λ ok w', char_post jl F o ctx cb I J ts w (step o a c) ok w').
Proof. intros. apply triple_intro. by eapply JSON_parser_char_rule. Qed.

(** A parser of burrow_backend_http_parse_json before the first character, with a
    callback that agrees to everything. *)
Definition fresh_parser : JSON_parser_struct :=
  JsonParser (Some 1%positive) NULL GO GO JSON_T_NONE false false true false JSON_E_NONE point
    0 0 19 0 19 AStatic AStatic 3500 0 (Some MODE_DONE :: replicate 127 None)
    (Ascii.zero :: replicate 3499 Ascii.zero) libc_functions libc_functions.
Definition agree (ctx : ptr) (ty : JSON_type) (v : JSON_value) : M bool := mret true.
Definition fresh_heap : heap := {[1%positive := (Libc, BJsonParser fresh_parser)]}.

Lemma agree_client :
  TokenClient agree NULL (λ _ _, emp)%I (λ _ _, emp)%I (λ _ _, True).
Proof.
  split; [done|]. iIntros (ts ty v w Q _) "[_ HQ]". unfold agree. wret. iDestruct "HQ" as "[HQ _]".
  by iApply "HQ"; first auto with world.
Qed.

Lemma fresh_parser_holds :
  holds (parser 1 libc_functions (json_options point) NULL 1 machine_start ∗ emp)%I fresh_heap.
Proof.
  enough (1%positive ↦{Libc} fresh_parser ⊢
    parser 1 libc_functions (json_options point) NULL 1 machine_start ∗ emp)%I as H by exact (hent H _ eq_refl).
  iIntros "H". iSplitL; [|done]. iExists fresh_parser. iSplitR.
  - iPureIntro. split; [|apply machine_start_ok]. split_and!; try done.
  - iExists (replicate 3499 Ascii.zero). iSplitR.
    { iPureIntro. split; [apply Nat.le_0_l|]. by vm_compute. }
    iExists AStatic, (Ascii.zero :: replicate 3499 Ascii.zero). iSplitL; [iExact "H"|done].
Qed.

Theorem JSON_parser_char_refines_witness :
  ∃ ok w' h', JSON_parser_char agree (Some 1%positive) 123 (sample_world (λ _, true)) fresh_heap = Ret ok w' h' ∧
    holds (char_post 1 libc_functions (json_options point) NULL 1 (λ _ _, emp)%I (λ _ _, emp)%I []
      (sample_world (λ _, true))
      (Goes (Machine OB GO JSON_T_NONE 0 [] [MODE_KEY; MODE_DONE]) [(JSON_T_OBJECT_BEGIN, VNull)]) ok w') h'.
Proof.
  exact (triple_run _ _ _ _ _ (JSON_parser_char_refines agree NULL (λ _ _, emp)%I (λ _ _, emp)%I (λ _ _, True)
    (TokenClient0 := agree_client) 1 libc_functions (json_options point) 1 machine_start 123 [] (sample_world (λ _, true))
    (json_depth_ok point) ltac:(by vm_compute) ltac:(by vm_compute) ltac:(by vm_compute)) fresh_parser_holds).
Defined.

Lemma all_allowed_always (allowed : list token → token → Prop) ts ts' :
  (∀ ts tok, allowed ts tok) → all_allowed allowed ts ts'.
Proof. intros H. revert ts. induction ts'; simpl; auto. Qed.

(** C24: JSON_parser_char keeps the parser sound: the text it collects stays inside
    its buffer with a terminator behind it, however the buffer grows, the stack of
    modes stays inside the structure and within the depth, with [MODE_DONE] at its
    bottom only, the flags agree with the state, and the text and the type of the
    value being read with both. *)
Theorem JSON_parser_char_keeps_sound callback ctx I J allowed `{!TokenClient callback ctx I J allowed}
    jl F o cb p bs c ts w :
  depth_ok o → (∀ ts tok, allowed ts tok) → sound o ctx cb F p bs → small (ma_text (machine_of p bs)) →
  step o (machine_of p bs) c ≠ Abort_assert →
  triple (parser_at jl F p bs ∗ I ts w) (JSON_parser_char callback (Some jl) c) w
    (λ ok w', if (ok : bool) then ∃ p' bs' ts', ⟦ sound o ctx cb F p' bs' ⟧ ∗ parser_at jl F p' bs' ∗ I (ts ++ ts') w'
              else husk jl F o ctx cb ∗ ∃ ts', I ts' w' ∨ J ts' w')%I.
Proof.
  intros Hd Hal Hs Hsm Hna. apply triple_intro. iIntros "[H HI]".
  iDestruct (parser_at_parser with "H") as "H"; [done..|]. iApply (wp_wand with "[H HI]").
  { iApply (JSON_parser_char_rule jl F o Hd ctx cb callback I J allowed _ c ts with "[$H $HI]"); [done..|].
    by apply all_allowed_always. }
  iIntros (ok w') "[_ [H|H]]".
  - destruct ok.
    + iDestruct "H" as (a' ts' _) "[H HI]". iDestruct (parser_parser_at with "H") as (p' bs' [Hs' _]) "H"; [done|].
      iExists p', bs', ts'. by iFrame.
    + iDestruct "H" as "[$ [(%ts' & _ & HI)|(%ts' & _ & HJ)]]"; iExists _; [by iLeft|by iRight].
  - iDestruct "H" as ([-> _]) "[$ HI]". iExists ts. by iLeft.
Qed.

Theorem JSON_parser_char_keeps_sound_witness :
  ∃ ok w' h', JSON_parser_char agree (Some 1%positive) 91 (sample_world (λ _, true)) fresh_heap = Ret ok w' h' ∧
    holds (if (ok : bool) then ∃ p' bs' (ts' : list token), ⟦ sound (json_options point) NULL 1 libc_functions p' bs' ⟧ ∗
             parser_at 1 libc_functions p' bs' ∗ emp
           else husk 1 libc_functions (json_options point) NULL 1 ∗ ∃ _ : list token, emp ∨ emp)%I h'.
Proof.
  assert (holds (parser_at 1 libc_functions fresh_parser (Ascii.zero :: replicate 3499 Ascii.zero) ∗ emp)%I fresh_heap) as Hh.
  { enough (1%positive ↦{Libc} fresh_parser ⊢
      parser_at 1 libc_functions fresh_parser (Ascii.zero :: replicate 3499 Ascii.zero) ∗ emp)%I as H by exact (hent H _ eq_refl).
    iIntros "$". done. }
  refine (triple_run _ _ _ _ _ (JSON_parser_char_keeps_sound agree NULL (λ _ _, emp)%I (λ _ _, emp)%I (λ _ _, True)
    (TokenClient0 := agree_client) 1 libc_functions (json_options point) 1 fresh_parser
    (Ascii.zero :: replicate 3499 Ascii.zero) 91 [] (sample_world (λ _, true))
    (json_depth_ok point) (λ _ _, Logic.I) _ _ _) Hh); [|by vm_compute..].
  split_and!; try done; try by vm_compute.
  unfold stack_sound. split_and!; try done; try by vm_compute. intros i Hi. simpl in Hi. destruct i as [|i]; [by exists MODE_DONE|lia].
Defined.

(** ** Bodies *)

Lemma faults_write_bytes l o (bs v : bytes) n w P :
  (Z.of_nat (length bs) < n)%Z →
  l ↦{o} bs ∗ P ⊢ faults (write_bytes (Some l) 0 v n) w OutOfBounds.
Proof.
  iIntros (Hn) "[H HP]". unfold write_bytes. iApply faults_bind. iApply wp_load. iFrame "H". iIntros "H".
  rw (proj2 (Z.leb_gt _ _)); [|lia]. simpl. iApply (faults_undefined with "[H HP]"). iCombine "H HP" as "H".
  iExact "H".
Qed.

(** C40: The body of a message, whatever its length, is copied into a block that
    has no room for its terminator: with memory for the block, the callback writes
    past its end. *)
Theorem body_overruns {curl : Libcurl} sl bl jp so bo s b c key v len w h :
  hb_burrow s = Some bl → cmd_command (b_cmd b) = BURROW_CMD_GET_MESSAGE → reliable w →
  co_is_key c = true → co_key c = Some key → text_of key = Some "body" →
  fitting v len = true →
  holds (collector sl bl jp so bo s b c) h →
  burrow_backend_http_json_callback (Some jp) JSON_T_STRING (VString v len) w h = Stuck OutOfBounds.
Proof.
  intros Hb Hcmd Hr Hk Hkey Htext Hv. apply faults_run.
  iIntros "(%id & %kp & %al & %n & %p & Hj & Ha & Hid & Hkey & H)". destruct c as [ik ck i cs ct ch].
  simpl in Hk, Hkey. subst ik ck. unfold burrow_backend_http_json_callback.
  iApply faults_bind. wload "Hj". iApply faults_bind. iApply (wp_get_command sl bl so bo s b Hb). iFrame "H".
  iIntros "H". rw Hcmd. unfold message_token, string_found. iApply faults_bind. wload "Hj".
  iApply faults_bind. wmodify "Hj". iApply faults_bind. iApply wp_load_key; [done|]. iFrame "Hkey".
  iIntros "Hkey". simpl. unfold body_found. iApply faults_bind. wmodify "Hj". iApply faults_bind. wload "Hj".
  iApply faults_bind. iApply wp_malloc_reliable; [done|]. iIntros (l u w' Hw) "Hl".
  iApply faults_bind. wmodify "Hj". iApply faults_bind. wload "Hj". iApply faults_first.
  rw (fitting_length _ _ Hv).
  iApply faults_write_bytes; [|iFrame "Hl"; iAccu].
  apply andb_prop in Hv as [[H1%Z.leb_le H2%Z.eqb_eq]%andb_prop _].
  unfold uninit_bytes. rw length_replicate. lia.
Qed.

(** A message whose body has begun. *)
Definition body_started : collected := Collected true (Some (with_terminator "body")) (Some "m1") 0 0 0.
Definition body_heap : heap :=
  list_to_map [(1%positive, (Libc, BBurrow (asking BURROW_CMD_GET_MESSAGE))); (2%positive, (Libc, BHttp backend));
    (3%positive, (Libc, BJsonProcessing
      (JsonProcessing (Some 2%positive) NULL 0 (Some 4%positive) true (Some 5%positive) (Some 6%positive))));
    (4%positive, (Libc, BBytes (with_terminator "m1"))); (5%positive, (Libc, BBytes (with_terminator "body")));
    (6%positive, (Libc, BAttributes (Attributes 0 0 0 NULL NULL NULL)))].

Lemma body_started_holds :
  holds (collector 2 1 3 Libc Libc backend (asking BURROW_CMD_GET_MESSAGE) body_started) body_heap.
Proof.
  apply blocks_holds; [reflexivity|]. simpl. iIntros "($ & $ & Hj & Hid & Hkey & Ha & _)".
  iExists (Some 4%positive), (Some 5%positive), 6%positive, NULL, NULL. iFrame. iPureIntro. by intros ? [= <-].
Qed.

Theorem body_overruns_witness :
  burrow_backend_http_json_callback (curl := curl) (Some 3%positive) JSON_T_STRING
    (VString (with_terminator "hello") 5) (sample_world (λ _, true)) body_heap = Stuck OutOfBounds.
Proof.
  exact (body_overruns (curl := curl) 2 1 3 Libc Libc backend (asking BURROW_CMD_GET_MESSAGE) body_started
    (with_terminator "body") (with_terminator "hello") 5 (sample_world (λ _, true)) body_heap eq_refl eq_refl
    sample_reliable eq_refl eq_refl eq_refl eq_refl body_started_holds).
Defined.

Example body_text_overruns :
  burrow_backend_http_parse_json (curl := curl) point (Some 2%positive) (quoted "{'body':'x'}") 12
    (sample_world (λ _, true)) (heap_of BURROW_CMD_GET_MESSAGE) = Stuck OutOfBounds.
Proof. vm_compute. reflexivity. Qed.

(** ** Texts that are not taken *)

(** [true], [false] and [null] run into an assertion when they end. *)
Example keyword_aborts :
  burrow_backend_http_parse_json (curl := curl) point (Some 2%positive) (quoted "[true]") 6
    (sample_world (λ _, true)) (heap_of BURROW_CMD_GET_QUEUES) = Stuck AssertFailed.
Proof. vm_compute. reflexivity. Qed.

(** The answer, and how many blocks are left besides the burrow and the backend. *)
Definition answer (text : bytes) : option (Z * nat) :=
  match burrow_backend_http_parse_json (curl := curl) point (Some 2%positive) text (Z.of_nat (length text))
          (sample_world (λ _, true)) (heap_of BURROW_CMD_GET_QUEUES) with
  | Ret r _ h => Some (r, size h - 2)
  | _ => None
  end.

(** Bytes from 128 on are negative characters: UTF-8 is refused, and what had been
    allocated is lost. *)
Example utf8_refused : answer (quoted "['" ++ [to_char 195; to_char 169] ++ quoted "']") = Some (EINVAL, 3).
Proof. vm_compute. reflexivity. Qed.

(** ** Grammar *)

(** Texts the automaton takes as a whole. *)
Definition taken (text : bytes) : bool :=
  match run (json_options point) machine_start (signed_char <$> text) with
  | Goes a _ => complete a
  | _ => false
  end.

Definition is_digit (c : Ascii.ascii) : bool := (48 <=? signed_char c)%Z && (signed_char c <=? 57)%Z.
Fixpoint digits (s : bytes) : bool :=
  match s with [] => true | c :: s => is_digit c && digits s end.
Definition some_digits (s : bytes) : bool := negb (bool_decide (s = [])) && digits s.

(** The part of a text before the first of some characters, and from there on. *)
Fixpoint cut_at (stop : Ascii.ascii → bool) (s : bytes) : bytes * bytes :=
  match s with
  | [] => ([], [])
  | c :: t => if stop c then ([], s) else let '(a, b) := cut_at stop t in (c :: a, b)
  end.

Definition json_integer (s : bytes) : bool :=
  let s := match s with "-"%char :: s => s | _ => s end in
  some_digits s && match s with "0"%char :: _ :: _ => false | _ => true end.
Definition json_exponent (s : bytes) : bool :=
  match s with
  | [] => true
  | _ :: s => some_digits (match s with ("+" | "-")%char :: s => s | _ => s end)
  end.

(** A number: an integer (an optional minus; zero, or digits that do not begin with
    it), an optional fraction and an optional exponent; [strict]ly so, as JSON has
    it, or with a fraction that may have no digits, and no exponent right after an
    integer that is zero. *)
Definition number (strict : bool) (s : bytes) : bool :=
  let '(mantissa, exponent) := cut_at (λ c, Ascii.eqb c "e" || Ascii.eqb c "E") s in
  let '(integer, fraction) := cut_at (λ c, Ascii.eqb c ".") mantissa in
  json_integer integer && json_exponent exponent &&
  match fraction with
  | [] => strict || bool_decide (exponent = []) ||
            negb (bool_decide (integer = ["0"] ∨ integer = ["-"; "0"])%char)
  | _ :: fraction => if strict then some_digits fraction else digits fraction
  end.

(** All texts of [n] of the given characters. *)
Fixpoint texts (n : nat) (cs : bytes) : list bytes :=
  match n with O => [[]] | S n => c ← cs; (c ::.) <$> texts n cs end.

(** What the automaton takes for a number, in all texts of up to six characters with
    one of each kind, ... *)
Example numbers_taken :
  forallb (λ n, forallb (λ s, Bool.eqb (taken (quoted "[" ++ s ++ quoted "]")) (number false s))
    (texts n ["-"; "+"; "0"; "7"; "."; "e"; "E"]%char)) [1; 2; 3; 4; 5; 6] = true.
Proof. vm_compute. reflexivity. Qed.

(** ... which is not quite what JSON has: a number that ends at its point is taken,
    and zero with an exponent is not. *)
Example not_json_numbers :
  (taken (quoted "[0.]"), number true (quoted "0.")) = (true, false) ∧
  (taken (quoted "[0e5]"), number true (quoted "0e5")) = (false, true).
Proof. vm_compute. done. Qed.

(** What the characters after a backslash stand for, and that there are no others. *)
Example escapes_resolved :
  tokens_of (run (json_options point) machine_start
    (signed_char <$> quoted "['\b\f\n\r\t\/\\\'']")) =
  [(JSON_T_ARRAY_BEGIN, VNull);
   (JSON_T_STRING, string_value (to_char <$> [8; 12; 10; 13; 9; 47; 92; 34]%Z)); (JSON_T_ARRAY_END, VNull)].
Proof. vm_compute. reflexivity. Qed.

Example other_escapes_refused :
  forallb (λ c, Bool.eqb (taken (quoted "['\" ++ to_char (Z.of_nat c) :: quoted "']"))
      (existsb (Nat.eqb c) [34; 47; 92; 98; 102; 110; 114; 116])) (seq 1 127) = true.
Proof. vm_compute. reflexivity. Qed.

(** Structure; no text at all is taken, too. *)
Example structures_taken :
  forallb taken (quoted <$> [""; "[]"; "{}"; " [ ] "; "[[],{}]"; "{'a':1,'b':[2,3.5]}"; "['',-1e5]";
    "[/* a comment */1]"]) = true ∧
  forallb (λ t, negb (taken t)) (quoted <$> ["["; "]"; "[}"; "{'a'}"; "{'a':}"; "{1:2}"; "[1,]"; "[,1]";
    "[1 2]"; "{'a':1,}"; "[']"; "[]]"; "1"; "'a'"; "[/ 1]"; "[/* 1]"]) = true.
Proof. vm_compute. done. Qed.
