(* ===== verification/HttpProps.v ===== *)
(** Properties of curl_backend.c: commands from the call to the completion, the
    requests they come to, and the life of the backend. *)
From stdpp Require Import pretty.
From S2P Require Import Prelude JsonData Types Heap Macros Attributes Filters Burrow Lifecycle Backends UserBuffer JsonParser JsonProcessing JsonMachine JsonReport Logic MacrosSpec DictionarySpec UserBufferSpec MemorySpec JsonReportSpec.
From S2P Require Import CurlData CurlBackend HttpProtocol TextFacts HttpAnswer BurrowSpec WatchSpec BufferSpec CurlSpec CurlSample QuerySpec TransferSpec ConverseFacts AnswerSpec RequestSpec HttpFrontendSpec HttpLifeSpec DictionaryProps.
From iris.proofmode Require Import proofmode.
Import Samples.

#[local] Arguments malloc_ok : simpl never.

Section http.
Context {curl : LibcurlMulti} {escape unescape : string → string} {server : request → list step}
  `{!CurlLaws curl escape unescape server}.
Context (turns : nat) (point : Ascii.ascii) (sl bl : loc) (so bo : owner) (m : positive).
#[local] Instance tables : Backends := backend_tables (burrow_backend_http_functions turns point).

(** ** Commands *)

(** C1: a command called on an idle burrow that processes by itself, with the http
    backend behind it, a server that goes about the request somehow and
    descriptors that become ready when they are waited for: the call returns,
    with the result and after telling the user exactly what the reference of
    HttpAnswer.v makes of the server's way with the request the command is to
    make, and completion once; burrow and backend are ready for the next. What an
    answer that is refused leaves allocated is lost. *)
Theorem http_command_completes malloced addr base b c fo f ao a ps fuel w r es :
  url_of_address addr = Some base →
  b_backend b = backend_http → b_backend_context b = Some sl → b_watch_fd_fn b = None →
  b_state b = BURROW_STATE_IDLE → has_flag (b_flags b) BURROW_FLAG_PROCESSING = false →
  has_flag (b_options b) BURROW_OPT_AUTOPROCESS = true →
  let k := cmd_command c in
  k ≠ BURROW_CMD_NONE → sendable escape base k c f a → (Z.of_nat (length (content k c)) < 18446744073709551616)%Z →
  reliable w → polls_fairly (w_env w) → (∀ n, e_user (w_env w) n = []) →
  let steps := server (request_for escape base k c f a) in
  sustainable [] steps (length ps) → length steps + 1 < turns → 2 * length steps + 5 ≤ fuel →
  outcome_of (started c b) unescape point (expects_body k f false) (converse [] steps) = Some (r, es) →
  triple (owned sl bl so m malloced addr ∗ frontend bl bo b ps ∗ filters_at k fo (cmd_filters c) f ∗ attributes_at k ao (cmd_attributes c) a)%I
    (call_command (burrow_process fuel) (Some bl) c) w
    (λ r' w', ∃ ps' cmd',
       ⟦ r' = r ∧ tells w (told es ++ when_set (b_complete_fn b) EvComplete) w' ⟧ ∗
       owned sl bl so m malloced addr ∗ frontend bl bo (at_state b BURROW_STATE_IDLE (b_flags b) cmd') ps' ∗
       filters_at k fo (cmd_filters c) f ∗ attributes_at k ao (cmd_attributes c) a ∗ True)%I.
Proof.
  intros Hurl. intros. apply triple_intro. iIntros "((%s & %Hmal & Hs & Hset & Hh & Hu) & H & Hf & Ha)".
  iEval (rw (settings_base bl m s addr base Hurl)) in "Hset". iDestruct "Hset" as "([%Hset %Hlen] & Hserver & Hbase)".
  pose proof (settled_configured bl m s addr base Hset Hlen).
  iApply (wp_http_call turns point sl bl so bo b); [done..|].
  iFrame "Hs H Hh Hu Hbase Hf Ha". iIntros (s' ps' cmd' w' (Hw & h & ul & o & ->)) "[Hs H] (Hh & Hu & Hbase) Hf Ha Ht".
  iExists ps', cmd'. iFrame "H Hf Ha Ht". iSplitR; [done|]. iSplitL; [|done]. iExists _. iFrame "Hs Hh Hu".
  iSplitR; [done|]. rw settings_transfer settings_base //. by iFrame.
Qed.

(** C16: one call of burrow_backend_http_process on a transfer that libcurl leaves
    waiting: it answers EAGAIN, and the burrow watches each descriptor libcurl
    waits on, for the events it waits for, besides those it watched. *)
Theorem http_process_waits opts C `{!Channel sl opts C} h s b before sent steps waits ps ios rest f w :
  hb_burrow s = Some bl → hb_curlptr s = Some m → b_watch_fd_fn b = None →
  pump steps = (ios, rest, Some (Running f)) → fd_max f ≠ (-1)%Z →
  sustainable before steps (length ps) → length steps + 1 < turns → reliable w →
  triple (here sl bl so bo s b ps ∗ transferring opts C m h before sent steps waits)%I
    (burrow_backend_http_process turns point (Some sl)) w
    (λ r w', ∃ new sent',
       ⟦ r = EAGAIN ∧ quiet w w' ∧ watched_for f (seqZ 0 (fd_max f + 1)) new ⟧ ∗
       here sl bl so bo s b (ps ++ new) ∗ transferring opts C m h (before ++ ios) sent' rest f)%I.
Proof.
  intros Hb Hm Hw Hp Hne Hsu Ht Hr. apply triple_intro. iIntros "[H HT]".
  destruct (sustainable_room _ _ _ _ _ _ Hsu Hp) as (Hroom & Hge & _).
  iApply (wp_http_process sl bl so bo s b Hb opts C m h Hm turns point Hw steps ios rest (Some (Running f)));
    [done|done|apply Hsu|done|by eapply sustainable_fits|done|].
  iFrame "H HT". iIntros (sent' w1 Hw1) "HT". unfold processed. rw decide_False //.
  iIntros (new w2 (Hw2 & Hnew)) "H". iExists new, sent'. iFrame "H HT". iPureIntro. split_and!; [done| |done].
  by eapply quiet_trans.
Qed.

(** C17: whatever libcurl asks for in whatever portions, the bytes it is handed out
    are the beginning of the message's body, as far as it has had room. *)
Theorem upload_hands_out_body opts ul body before ios s b ps w :
  hb_burrow s = Some bl → traced sl opts → uploads ul opts →
  (Z.of_nat (length body) < 18446744073709551616)%Z →
  reliable w → Forall orderly_io ios → fits (before ++ ios) →
  triple (here sl bl so bo s b ps ∗ holding ul Libc true (rooms before `min` length body) body)%I
    (run_callbacks opts ios) w
    (λ r w', ⟦ r.2 = true ∧ take (rooms before) body ++ r.1 = take (rooms (before ++ ios)) body ∧ quiet w w' ⟧ ∗
       here sl bl so bo s b ps ∗ holding ul Libc true (rooms (before ++ ios) `min` length body) body)%I.
Proof.
  intros Hb Htr Hup Hlen Hr Ho Hfit. apply triple_intro. iIntros "[H Hu]".
  pose proof (uploading_channel sl ul opts Htr body Hlen Hup).
  iApply (wp_run_callbacks sl bl so bo s b Hb opts (uploading ul body) ios before (take (rooms before) body)); [done..|].
  iFrame "H". iSplitL "Hu"; [by iFrame|]. iIntros (more w' Hw) "H [%Hs Hu]". by iFrame.
Qed.

(** ** Queries *)

(** C26: burrow_backend_http_filters_to_string makes the query of the filters that
    are set, in the order of the reference: null when none is, else a string of
    its own with its length. Filters and backend are as they were. *)
Theorem filters_to_string_correct fl fo f (s : burrow_backend_st) w :
  String.length (joined (items_of_filters escape f)) < 1024 → reliable w →
  triple (fl ↦{fo} f ∗ sl ↦{so} s)%I (burrow_backend_http_filters_to_string (Some sl) (Some fl)) w
    (λ r w', let items := items_of_filters escape f in
       ⟦ evolves w [] w' ∧ r.2 = Z.of_nat (String.length (joined items)) ⟧ ∗
       string_at r.1 items ∗ fl ↦{fo} f ∗ sl ↦{so} s)%I.
Proof.
  intros Hlen Hr. apply triple_intro. iIntros "[Hf Hs]". iApply (wp_filters_to_string fl fo f sl so s); [done..|].
  iFrame "Hf Hs". iIntros (w' Hw) "Hf Hs". unfold as_string, string_at.
  destruct (items_of_filters escape f) as [|x xs] eqn:E; simpl; [by iFrame|].
  rw (reliable_ok w' Libc); [|by eapply reliable_evolves]. iIntros (p) "Hp". iFrame. auto with world.
Qed.

(** Burrow_backend_http_attributes_to_string makes the query of the attributes
    that are set; when none is, it returns null and leaves the size as it was;
    without memory, null and ENOMEM. *)
Theorem attributes_to_string_correct al ao a size w :
  (0 ≤ at_ttl a < 4294967296)%Z → (0 ≤ at_hide a < 4294967296)%Z →
  triple (al ↦{ao} a) (burrow_backend_http_attributes_to_string (Some al) size) w
    (λ r w', let items := items_of_attributes a in
       ⟦ evolves w [] w' ⟧ ∗ al ↦{ao} a ∗
       (⟦ r.2 = if bool_decide (items = []) then size else Z.of_nat (String.length (joined items)) ⟧ ∗ string_at r.1 items ∨
        ⟦ r = (NULL, ENOMEM) ∧ ¬ reliable w ⟧))%I.
Proof.
  intros Ht Hh. apply triple_intro. iIntros "Ha". iApply wp_attributes_to_string; [done..|]. iFrame "Ha".
  iIntros "Ha". unfold as_string, string_at. destruct (items_of_attributes a) as [|x xs]; simpl.
  { iFrame. iSplitR; [auto with world|]. by iLeft. }
  destruct (malloc_ok Libc w) eqn:Hok.
  - iIntros (p) "Hp". iFrame "Ha". iSplitR; [auto with world|]. iLeft. by iFrame.
  - iFrame "Ha". iSplitR; [auto with world|]. iRight. iPureIntro. split; [done|]. intros Hr.
    by rw reliable_ok in Hok.
Qed.

(** C33: A query that does not fit the 1024 characters it is printed into, for the
    marker is too long, is copied from past their end: undefined behaviour. *)
Theorem marker_overruns fl fo f mk (s : burrow_backend_st) w h :
  fi_marker f = Some mk → 1024 ≤ String.length (joined (items_of_filters escape f)) →
  (Z.of_nat (String.length (joined (items_of_filters escape f))) < 2147483648)%Z → reliable w →
  holds (fl ↦{fo} f ∗ sl ↦{so} s)%I h →
  burrow_backend_http_filters_to_string (Some sl) (Some fl) w h = Stuck OutOfBounds.
Proof. intros Hm Hlen Hmax Hr. apply faults_run. by apply (faults_filters_to_string fl fo f sl so s mk). Qed.

(** C34: burrow_backend_http_create_message with attributes of which none is set
    sends nothing: it takes the length it has not initialised for an error code
    and returns it, unless it happens to be 0; the new easy handle is lost. *)
Theorem unset_attributes_fail cmd al ao (a : burrow_attributes_st) x y z j s b ps w :
  cmd_account cmd = Some x → cmd_queue cmd = Some y → cmd_message_id cmd = Some z →
  cmd_attributes cmd = Some al → in_range (Some a) → items_of_attributes a = [] →
  hb_burrow s = Some bl → (∀ n, i32 (e_junk (w_env w) n) = j) → j ≠ 0%Z → reliable w →
  triple (here sl bl so bo s b ps ∗ al ↦{ao} a)%I
    (burrow_backend_http_create_message turns point (Some sl) cmd) w
    (λ r w', ∃ h, ⟦ r = j ∧ quiet w w' ⟧ ∗ here sl bl so bo s b ps ∗ al ↦{ao} a ∗ easy h [])%I.
Proof.
  intros Hx Hy Hz Hal [Httl Hhide] Hitems Hb Hj Hj0 Hr. apply triple_intro. iIntros "[[Hs H] Ha]".
  unfold burrow_backend_http_create_message. wp_focus. iApply (wp_new_handle w Hr); [auto with quiet|].
  iIntros (h w1 Hw1) "Hh". rw Hx Hy Hz Hal.
  do 3 (wp_focus; iApply (wp_escape w Hr); [eassumption|]; iIntros (? ?)). wp_focus. iApply wp_consult.
  rw (quiet_env w) // Hj. wp_focus. iApply (wp_attributes_to_string al ao a); [done..|]. iFrame "Ha". iIntros "Ha".
  unfold as_string. rw Hitems. wload "Hs". rw (proj2 (Z.eqb_neq _ _)) // Hb. simpl. unfold burrow_error.
  iCombine "Hs H" as "H". wp_focus. iApply (wp_log_since sl bl so bo b w _ _ s).
  { eapply quiet_trans; [eassumption|]. apply quiet_silent, (evolves_tick 1). }
  iFrame "H". iIntros (w2 Hw2) "H". wret. iExists h. by iFrame.
Qed.

(** C35: An answer that the parser refuses and that has no zero byte is printed as a
    string although nothing ends it: undefined behaviour, unless the log is off. *)
Theorem refused_answer_overruns k text r es freed ul handle s b ps w h :
  hb_burrow s = Some bl → hb_chandle s = Some handle → hb_buffer s = Some ul →
  reliable w → text ≠ [] → (Z.of_nat (length text) < 2147483648)%Z → text_of text = None →
  verbose_code (b_verbose b) ≤ verbose_code BURROW_VERBOSE_ERROR →
  parse_result b unescape (json_options point) (signed_char <$> text) = Some (r, es, freed) → r ≠ 0%Z →
  holds (here sl bl so bo s b ps ∗ holding ul Libc true k text)%I h →
  deliver_json point (Some sl) w h = Stuck OutOfBounds.
Proof.
  intros Hb Hh Hu Hr Hne Hlen Htext Hv Hres Hr0. apply faults_run. iIntros "([Hs H] & (%buf & Hu & Hl))".
  unfold deliver_json, user_buffer_get_size, user_buffer_get_text. iApply faults_bind. wload "Hs". rw Hu Hb.
  iApply faults_bind. wload "Hu". wret. simpl. rw (proj2 (Z.ltb_lt _ _)); [|destruct text; simpl; [done|lia]].
  destruct buf as [l|]; [|by iDestruct "Hl" as %?]. iDestruct "Hl" as "[_ Hl]". iApply faults_bind. wload "Hu". wret.
  iApply faults_bind. wload "Hl". iApply faults_bind. iCombine "Hs H" as "H".
  iApply (wp_parse_here unescape sl bl so bo s b Hb handle Hh ul Hu point ps text r es freed); [done..|]. iFrame "H".
  iIntros (w1 Hw1) "[Hs H] Ht". pose proof (parse_result_code unescape b point _ _ _ _ Hres) as [->|Er]; [done|].
  rw Er. simpl. iApply faults_first. unfold burrow_error_text. iApply faults_bind.
  iDestruct (frontend_burrow with "H") as (p size n) "[Hb H]". wload "Hb". rw (proj2 (Nat.leb_le _ _)) //.
  iApply faults_first. unfold load_text. iApply faults_bind. wload "Hl". unfold get_text. rw Htext.
  iApply (faults_undefined with "[-]"). iAccu.
Qed.

(** ** The life of a backend *)

(** C18: burrow_backend_http_set_option keeps the backend well-formed: the strings
    it owns are those of the address so far, with their lengths, the port fits its
    array, and there is a url as soon as server and port are known, and it is
    theirs. A port that is too long and an unknown option change nothing (EINVAL);
    a server that is replaced is lost. *)
Theorem http_set_option_keeps malloced a name value r a' (b : burrow_st) w :
  set_address name value a = (r, a') → short_address a' → reliable w →
  triple (owned sl bl so m malloced a ∗ bl ↦{bo} b)%I (burrow_backend_http_set_option (Some sl) name (Some value)) w
    (λ r' w', ⟦ r' = r ∧ quiet w w' ⟧ ∗ owned sl bl so m malloced a' ∗ bl ↦{bo} b ∗ lost_server name a)%I.
Proof.
  intros. apply triple_intro. iIntros "[H Hb]". iApply (wp_owned_set_option sl bl so bo m b); [done..|]. iFrame "H Hb".
  iIntros (w' Hw) "$ $ $". done.
Qed.

(** C27: burrow_backend_http_destroy frees the server, the url, the buffer, the easy
    and the multi handle, and the backend itself when the library allocated it. *)
Theorem http_destroy_frees malloced a (b : burrow_st) w :
  (malloced = true → so = Libc) →
  triple (owned sl bl so m malloced a ∗ bl ↦{bo} b)%I (burrow_backend_http_destroy (Some sl)) w
    (λ _ w', ⟦ quiet w w' ⟧ ∗ bl ↦{bo} b ∗ if malloced then emp else ∃ s : burrow_backend_st, sl ↦{so} s)%I.
Proof.
  intros Hso. apply triple_intro. iIntros "[(%s & <- & Hs & Hset & Hh & Hu) Hb]".
  iApply (wp_http_destroy sl bl so bo m b s a); [done|]. iFrame "Hs Hb Hset Hh Hu".
  iIntros (s' w' Hw) "$ H". iSplitR; [done|]. destruct (hb_malloced s); [done|]. by iExists s'.
Qed.
End http.

(** C28: a backend that is created and given a server and a port owns what a backend
    with that address does, whose url is theirs, and has told the user nothing. *)
Theorem http_create_configures {curl : LibcurlMulti} {escape unescape server} `{!CurlLaws curl escape unescape server}
    bl bo (b : burrow_st) x y w :
  short_address (Some x, y) → reliable w →
  triple (bl ↦{bo} b)
    (p ← burrow_backend_http_create NULL (Some bl);
     r1 ← burrow_backend_http_set_option p "server" (Some x);
     r2 ← burrow_backend_http_set_option p "port" (Some y);
     mret (p, r1, r2)) w
    (λ r w', ∃ sl m, ⟦ r = (Some sl, 0%Z, 0%Z) ∧ quiet w w' ⟧ ∗ bl ↦{bo} b ∗ owned sl bl Libc m true (Some x, y))%I.
Proof.
  intros Hshort Hr. apply triple_intro. iIntros "Hb". wp_focus. iApply (wp_http_create_new bl); [done|].
  iIntros (sl m s w1 (Hw1 & Hnew)) "Hs Hm". pose proof Hnew as (_ & Hmal & _).
  iDestruct (newborn_owns bl true m s Hnew with "Hm") as "H". assert (quiet w w1) as Hq1 by auto with quiet.
  wp_focus. iApply (wp_owned_set_option sl bl Libc bo m b true (None, "") "server" x 0%Z (Some x, "")); [done| |by auto with quiet|].
  { destruct Hshort as [H _]. split; [exact H|]. simpl. unfold port_size. lia. }
  iFrame "Hb". iSplitL; [iExists s; by iFrame|]. iIntros (w2 Hw2) "H Hb _".
  assert (set_address "port" y (Some x, "") = (0%Z, (Some x, y))) as Hset.
  { unfold set_address. simpl. rw (proj2 (Z.leb_gt _ _)) //. apply Hshort. }
  wp_focus. iApply (wp_owned_set_option sl bl Libc bo m b true _ "port" y); [exact Hset|done|by auto with quiet|].
  iFrame "H Hb". iIntros (w3 Hw3) "H Hb _". wret. iExists sl, m. iFrame. auto with quiet.
Qed.

(** ** A server, a backend and a burrow *)

Module HttpSamples.
Definition point : Ascii.ascii := to_char 46.
Definition base : string := "http://localhost:8080".
Definition address_of_base : address := (Some "localhost", "8080").

(** An apostrophe stands for a quote. *)
Definition quoted (s : string) : bytes :=
  (λ c, if Ascii.eqb c (to_char 39) then to_char 34 else c) <$> String.list_ascii_of_string s.

(** It knows the queues of one account, and answers in portions. *)
Definition queue_steps : list step :=
  [Step [Info CURLINFO_TEXT (quoted "connecting")] Again;
   Step [] (Running (FdSets [7] [9; 7] [] 9));
   Step [Recv (quoted "['jobs', ")] (Running (FdSets [7] [] [] 7));
   Step [Recv (quoted "'a%20b']")] (Ended 0)]%Z.
Definition queue_server (r : request) : list step :=
  if String.eqb (rq_method r) "GET" && String.eqb (rq_url r) (base +:+ "/v1.0/my%20acct")
  then queue_steps else [Step [] (Ended 7)].
Definition network : LibcurlMulti := sample_libcurl queue_server.

(** Whatever is waited for becomes ready. *)
Definition online : world :=
  World (Env (λ _, true) (λ _, true) (λ _, 7%Z) (λ _, 1000%Z) (λ _ ps, PollReady (replicate (length ps) 1%Z)) (λ _, [])) 0 [].

Definition http_burrow : burrow_st :=
  sample_burrow <| b_options := BURROW_OPT_AUTOPROCESS |> <| b_backend := backend_http |>
    <| b_backend_context := Some 2%positive |> <| b_complete_fn := Some 4%positive |>.
Definition backend (transfer buffer : ptr) : burrow_backend_st :=
  HttpBackend "http" 4 "v1.0" 4 "8080" 4 (Some 3%positive) 9 (Some 4%positive) 21 (Some 1%positive)
    buffer transfer (Some 5%positive) true false.
Definition idle_blocks : list (loc * (owner * Types.block)) :=
  [(1, (Libc, BBurrow http_burrow)); (2, (Libc, BHttp (backend NULL NULL)));
   (3, (Libc, BChars (Chars 10 "localhost"))); (4, (Libc, BChars (Chars 37 base)));
   (5, (Caller, BCurl (CurlMulti None)))]%positive.
Definition idle_heap : heap := list_to_map idle_blocks.
Definition get_queues : burrow_command_st :=
  Command BURROW_CMD_GET_QUEUES None (Some "my acct") None None None 0 NULL NULL.
End HttpSamples.

Import HttpSamples.

Abbreviation sample_owned server := (owned (CurlLaws0 := sample_laws server)).

Lemma burrow_frontend bl bo b :
  b_pfds b = NULL → b_pfds_size b = 0%Z → b_watch_size b = 0%Z → bl ↦{bo} b ⊢ frontend bl bo b [].
Proof.
  iIntros (Hp Hs Hn) "Hb". iExists NULL, 0%Z, 0%Z, []. assert (with_watch NULL 0 0 b = b) as ->.
  { destruct b; simpl in *. by subst. }
  simpl. iFrame "Hb". rw Hp Hs Hn. by repeat iSplit.
Qed.

Lemma idle_owned server :
  holds (sample_owned server 2 1 Libc 5 true address_of_base ∗ 1%positive ↦{Libc} http_burrow)%I idle_heap.
Proof.
  apply blocks_holds; [reflexivity|]. simpl. iIntros "(Hb & Hs & Hserver & Hbase & Hm & _)".
  iSplitR "Hb"; [|iExact "Hb"]. iExists (backend NULL NULL). iFrame "Hs Hm". iSplitR; [done|].
  iSplitR; [iPureIntro; by repeat split|]. iSplitL "Hserver"; [iExists 10%Z; iExact "Hserver"|].
  iExists 37%Z, base. iFrame "Hbase". iPureIntro. by intros ? [= <-].
Qed.

Lemma idle_holds server :
  holds (sample_owned server 2 1 Libc 5 true address_of_base ∗ frontend 1 Libc http_burrow [])%I idle_heap.
Proof.
  refine (hent _ _ (idle_owned server)). iIntros "[$ Hb]". by iApply burrow_frontend.
Qed.

Lemma online_polls : polls_fairly (w_env online).
Proof.
  intros t ps Hne. eexists. split; [reflexivity|]. split; [by rw length_replicate|].
  destruct ps as [|p ps]; [done|]. by left.
Qed.

Lemma queue_steps_sustainable : sustainable [] queue_steps 0.
Proof.
  split; [by repeat constructor| |by vm_compute|by vm_compute].
  repeat (apply Forall_cons; split); try done; right; (split; [done|]).
  all: apply Exists_exists; exists 7%Z; split; [apply elem_of_seqZ; simpl; lia|left; by left].
Qed.

Theorem http_command_completes_witness :
  ∃ w' h', call_command (backends := backend_tables (burrow_backend_http_functions (curl := network) 10 point))
      (burrow_process (backends := backend_tables (burrow_backend_http_functions (curl := network) 10 point)) 20)
      (Some 1%positive) get_queues online idle_heap = Ret 0%Z w' h' ∧
    told (w_trace w') = [EvQueue (Some "jobs"); EvQueue (Some "a b"); EvComplete].
Proof.
  assert (holds (owned (CurlLaws0 := sample_laws queue_server) 2 1 Libc 5 true address_of_base ∗
    frontend 1 Libc http_burrow [] ∗ emp ∗ ⟦ (None : option burrow_attributes_st) = None ⟧)%I idle_heap) as Hh.
  { refine (hent _ _ (idle_holds queue_server)). iIntros "[$ $]". done. }
  destruct (triple_run _ _ _ _ _ (http_command_completes (curl := network) (CurlLaws0 := sample_laws queue_server)
    10 point 2 1 Libc Libc 5 true address_of_base base http_burrow get_queues Libc None Libc None [] 20 online 0%Z
    [EvQueue (Some "jobs"); EvQueue (Some "a b")] eq_refl eq_refl eq_refl eq_refl eq_refl eq_refl eq_refl
    ltac:(done) ltac:(split_and!; [reflexivity|by apply Nat.ltb_lt|done|by vm_compute|done]) ltac:(by vm_compute)
    sample_reliable online_polls (λ _, eq_refl) queue_steps_sustainable ltac:(by apply Nat.ltb_lt) ltac:(by apply Nat.leb_le)
    ltac:(by vm_compute)) Hh) as (r & w & h & E & _).
  pose proof E as E'. vm_compute in E'. injection E' as <- <- <-. eexists _, _. split; [exact E|reflexivity].
Defined.

(** ** A transfer on its way *)

Definition receiving : list CURLoption :=
  [CURLOPT_WRITEFUNCTION fn_user_buffer_curl_write_function; CURLOPT_WRITEDATA (Some 7%positive);
   CURLOPT_DEBUGFUNCTION fn_burrow_backend_http_curldebug; CURLOPT_DEBUGDATA (Some 2%positive); CURLOPT_VERBOSE true].
Definition waiting_backend : burrow_backend_st := backend (Some 6%positive) (Some 7%positive).
Definition receiving_heap : heap :=
  list_to_map [(1, (Libc, BBurrow http_burrow)); (2, (Libc, BHttp waiting_backend));
   (7, (Libc, BUserBuffer (UserBuffer 0%Z 0%Z NULL true)));
   (5, (Caller, BCurl (CurlMulti (Some (6, fresh_transfer queue_steps))))); (6, (Caller, BCurl (CurlEasy receiving)))]%positive.

Lemma receiving_holds :
  holds (here 2 1 Libc Libc waiting_backend http_burrow [] ∗
    transferring (CurlLaws0 := sample_laws queue_server) receiving (collecting 7) 5 6 [] [] queue_steps no_waits)%I receiving_heap.
Proof.
  apply blocks_holds; [reflexivity|]. simpl. iIntros "(Hb & Hs & Hu & Hm & Hh & _)". iFrame "Hs Hm Hh".
  iSplitL "Hb"; [by iApply burrow_frontend|]. iSplitR; [done|]. iExists NULL. by iFrame.
Qed.

Lemma receiving_channel : Channel 2 receiving (collecting 7).
Proof. apply collecting_channel; split_and!; try done. by left. Qed.

Theorem http_process_waits_witness :
  ∃ w' h', burrow_backend_http_process (curl := network) 10 point (Some 2%positive) online receiving_heap = Ret EAGAIN w' h' ∧
    h' !! 8%positive = Some (Libc, BPollfds [Pollfd 7 5 7; Pollfd 9 4 7]).
Proof.
  run_on (http_process_waits (CurlLaws0 := sample_laws queue_server) 10 point 2 1 Libc Libc 5 receiving (collecting 7)
    (Channel0 := receiving_channel) 6 waiting_backend http_burrow [] [] queue_steps no_waits []
    [Info CURLINFO_TEXT (quoted "connecting")] (drop 2 queue_steps) (FdSets [7] [9; 7] [] 9)%Z online
    eq_refl eq_refl eq_refl eq_refl ltac:(done) queue_steps_sustainable ltac:(by apply Nat.ltb_lt) sample_reliable)
    receiving_holds.
Defined.

(** A body of five characters, asked for in two portions. *)
Definition sending : list CURLoption :=
  [CURLOPT_READFUNCTION fn_user_buffer_curl_read_function; CURLOPT_READDATA (Some 7%positive);
   CURLOPT_DEBUGFUNCTION fn_burrow_backend_http_curldebug; CURLOPT_DEBUGDATA (Some 2%positive); CURLOPT_VERBOSE true].
Definition hello : bytes := String.list_ascii_of_string "hello".
Definition sending_heap : heap :=
  list_to_map [(1, (Libc, BBurrow http_burrow)); (2, (Libc, BHttp waiting_backend));
   (7, (Libc, BUserBuffer (UserBuffer 5%Z 0%Z (Some 8) true))); (8, (Libc, BBytes hello))]%positive.

Lemma sending_holds :
  holds (here 2 1 Libc Libc waiting_backend http_burrow [] ∗ holding 7 Libc true 0 hello)%I sending_heap.
Proof.
  apply blocks_holds; [reflexivity|]. simpl. iIntros "(Hb & $ & Hu & Hl & _)".
  iSplitL "Hb"; [by iApply burrow_frontend|]. iExists (Some 8%positive). by iFrame.
Qed.

Theorem upload_hands_out_body_witness :
  ∃ w' h', run_callbacks sending [Send 3; Info CURLINFO_TEXT hello; Send 10] online sending_heap
    = Ret (hello, true) w' h' ∧ h' !! 7%positive = Some (Libc, BUserBuffer (UserBuffer 5 5 (Some 8%positive) true)).
Proof.
  run_on (upload_hands_out_body 2 1 Libc Libc sending 7 hello [] [Send 3; Info CURLINFO_TEXT hello; Send 10]
    waiting_backend http_burrow [] online eq_refl ltac:(by split) ltac:(by split) ltac:(done) sample_reliable
    ltac:(by repeat constructor) ltac:(done)) sending_holds.
Defined.

(** ** Filters and attributes *)

Definition some_filters : burrow_filters_st :=
  Filters (Z.lor BURROW_FILTERS_LIMIT BURROW_FILTERS_DETAIL) false 4294967295 (Some "a/b") BURROW_DETAIL_BODY 0 NULL NULL NULL.
Definition long_filters : burrow_filters_st :=
  some_filters <| fi_marker := Some (String.concat "" (replicate 100 "0123456789")) |>.
Definition query_blocks (f : burrow_filters_st) : list (loc * (owner * Types.block)) :=
  [(1, (Libc, BFilters f)); (2, (Libc, BHttp (backend NULL NULL)))]%positive.

Lemma query_holds f :
  holds (1%positive ↦{Libc} f ∗ 2%positive ↦{Libc} backend NULL NULL)%I (list_to_map (query_blocks f)).
Proof. apply blocks_holds; [reflexivity|]. iIntros "($ & $ & _)". Qed.

(** A limit from 2^31 on is printed as a negative number. *)
Theorem filters_to_string_correct_witness :
  ∃ w' h', burrow_backend_http_filters_to_string (curl := network) (Some 2%positive) (Some 1%positive) online
      (list_to_map (query_blocks some_filters)) = Ret (Some 3%positive, 33%Z) w' h' ∧
    h' !! 3%positive = Some (Libc, BChars (Chars 34 "limit=-1&detail=body&marker=a%2Fb")).
Proof.
  run_on (filters_to_string_correct (CurlLaws0 := sample_laws queue_server) 2 Libc 1 Libc some_filters (backend NULL NULL)
    online ltac:(by apply Nat.ltb_lt) sample_reliable) (query_holds some_filters).
Defined.

Theorem marker_overruns_witness :
  burrow_backend_http_filters_to_string (curl := network) (Some 2%positive) (Some 1%positive) online
    (list_to_map (query_blocks long_filters)) = Stuck OutOfBounds.
Proof.
  exact (marker_overruns (CurlLaws0 := sample_laws queue_server) 2 Libc 1 Libc long_filters _ (backend NULL NULL) online
    _ eq_refl ltac:(by apply Nat.leb_le) ltac:(by vm_compute) sample_reliable (query_holds long_filters)).
Defined.

Definition some_attributes : burrow_attributes_st :=
  Attributes (Z.lor BURROW_ATTRIBUTES_TTL BURROW_ATTRIBUTES_HIDE) 30 5 NULL NULL NULL.

Theorem attributes_to_string_correct_witness :
  ∃ w' h', burrow_backend_http_attributes_to_string (Some 1%positive) 0 online
      {[1%positive := (Libc, BAttributes some_attributes)]} = Ret (Some 2%positive, 13%Z) w' h' ∧
    h' !! 2%positive = Some (Libc, BChars (Chars 14 "ttl=30&hide=5")).
Proof.
  run_on (attributes_to_string_correct 1 Libc some_attributes 0 online ltac:(done) ltac:(done))
    (eq_refl : holds (1%positive ↦{Libc} some_attributes)%I {[1%positive := (Libc, BAttributes some_attributes)]}).
Defined.

Definition put_message : burrow_command_st :=
  Command BURROW_CMD_CREATE_MESSAGE None (Some "acct") (Some "q") (Some "m1") (Some "hello") 5 NULL (Some 9%positive).
Definition unset_attributes : burrow_attributes_st := Attributes 0 0 0 NULL NULL NULL.
Definition unset_heap : heap :=
  list_to_map [(1, (Libc, BBurrow http_burrow)); (2, (Libc, BHttp (backend NULL NULL))); (9, (Libc, BAttributes unset_attributes))]%positive.

Lemma unset_holds :
  holds (here 2 1 Libc Libc (backend NULL NULL) http_burrow [] ∗ 9%positive ↦{Libc} unset_attributes)%I unset_heap.
Proof.
  apply blocks_holds; [reflexivity|]. simpl. iIntros "(Hb & $ & $ & _)". by iApply burrow_frontend.
Qed.

Theorem unset_attributes_fail_witness :
  ∃ w' h', burrow_backend_http_create_message (curl := network) 10 point (Some 2%positive) put_message online unset_heap
    = Ret 7%Z w' h' ∧ h' !! 10%positive = Some (Caller, BCurl (CurlEasy [])).
Proof.
  run_on (unset_attributes_fail (CurlLaws0 := sample_laws queue_server) 10 point 2 1 Libc Libc put_message 9 Libc
    unset_attributes "acct" "q" "m1" 7 (backend NULL NULL) http_burrow [] online eq_refl eq_refl eq_refl eq_refl
    ltac:(by split) eq_refl eq_refl (λ _, eq_refl) ltac:(done) sample_reliable) unset_holds.
Defined.

(** ** An answer that is refused *)

Definition refused_heap : heap :=
  list_to_map [(1, (Libc, BBurrow (http_burrow <| b_cmd := get_queues |>))); (2, (Libc, BHttp waiting_backend));
   (7, (Libc, BUserBuffer (UserBuffer 5%Z 5%Z (Some 8) true))); (8, (Libc, BBytes hello))]%positive.

Lemma refused_holds :
  holds (here 2 1 Libc Libc waiting_backend (http_burrow <| b_cmd := get_queues |>) [] ∗ holding 7 Libc true 5 hello)%I refused_heap.
Proof.
  apply blocks_holds; [reflexivity|]. simpl. iIntros "(Hb & $ & Hu & Hl & _)".
  iSplitL "Hb"; [by iApply burrow_frontend|]. iExists (Some 8%positive). by iFrame.
Qed.

Theorem refused_answer_overruns_witness :
  deliver_json (curl := network) point (Some 2%positive) online refused_heap = Stuck OutOfBounds.
Proof.
  exact (refused_answer_overruns (CurlLaws0 := sample_laws queue_server) point 2 1 Libc Libc 5 hello EINVAL
    _ false 7 6 waiting_backend (http_burrow <| b_cmd := get_queues |>) [] online refused_heap
    eq_refl eq_refl eq_refl sample_reliable ltac:(done) ltac:(done) eq_refl ltac:(by apply Nat.leb_le)
    ltac:(by vm_compute) ltac:(done) refused_holds).
Defined.

(** ** The life of a backend *)

Theorem http_set_option_keeps_witness :
  ∃ w' h', burrow_backend_http_set_option (Some 2%positive) "port" (Some "9090") online idle_heap
    = Ret 0%Z w' h' ∧ h' !! 6%positive = Some (Libc, BChars (Chars 37 "http://localhost:9090")).
Proof.
  run_on (http_set_option_keeps (CurlLaws0 := sample_laws queue_server) 2 1 Libc Libc 5 true address_of_base "port" "9090"
    0 (Some "localhost", "9090") http_burrow online eq_refl ltac:(by split) sample_reliable) (idle_owned queue_server).
Defined.

Theorem http_destroy_frees_witness :
  ∃ w' h', burrow_backend_http_destroy (curl := network) (Some 2%positive) online idle_heap = Ret tt w' h' ∧
    h' = {[1%positive := (Libc, BBurrow http_burrow)]}.
Proof.
  run_on (http_destroy_frees (CurlLaws0 := sample_laws queue_server) 2 1 Libc Libc 5 true address_of_base http_burrow online
    (λ _, eq_refl)) (idle_owned queue_server).
Defined.

Theorem http_create_configures_witness :
  ∃ w' h', (p ← burrow_backend_http_create (curl := network) NULL (Some 1%positive);
     r1 ← burrow_backend_http_set_option p "server" (Some "localhost");
     r2 ← burrow_backend_http_set_option p "port" (Some "8080");
     mret (p, r1, r2)) online {[1%positive := (Libc, BBurrow http_burrow)]} = Ret (Some 2%positive, 0%Z, 0%Z) w' h' ∧
    h' !! 5%positive = Some (Libc, BChars (Chars 37 base)).
Proof.
  run_on (http_create_configures (CurlLaws0 := sample_laws queue_server) 1 Libc http_burrow "localhost" "8080" online
    ltac:(by split) sample_reliable) (eq_refl : holds (1%positive ↦{Libc} http_burrow)%I {[1%positive := (Libc, BBurrow http_burrow)]}).
Defined.

(** ** What else a command can come to *)

(** What a call of [get_queues] comes to, on a server of one's own. *)
Definition asked (server : request → list step) (h : heap) : outcome Z :=
  let tables := backend_tables (burrow_backend_http_functions (curl := sample_libcurl server) 10 point) in
  call_command (backends := tables) (burrow_process (backends := tables) 20) (Some 1%positive) get_queues online h.

(** A transfer that runs with nothing to wait on is left running, and the command
    is completed as if it had succeeded. *)
Example running_transfer_abandoned :
  match asked (λ _, [Step [] (Running no_waits); Step [Recv (quoted "['jobs']")] (Ended 0)]) idle_heap with
  | Ret r w _ => r = 0%Z ∧ told (w_trace w) = [EvComplete]
  | _ => False
  end.
Proof. vm_compute. split; reflexivity. Qed.

(** A transfer that fails is an error, without a word of its answer. *)
Example failed_transfer :
  match asked (λ _, [Step [Recv (quoted "['jobs']")] (Ended 28)]) idle_heap with
  | Ret r w _ => r = EINVAL ∧ told (w_trace w) = [EvComplete]
  | _ => False
  end.
Proof. vm_compute. split; reflexivity. Qed.

(** Without a server and a port the url that is printed is [NULL]. *)
Definition homeless : burrow_backend_st :=
  (backend NULL NULL) <| hb_server := NULL |> <| hb_baseurl := NULL |> <| hb_baseurl_len := 0%Z |>.
Example no_address_faults :
  asked queue_server (<[2%positive := (Libc, BHttp homeless)]> idle_heap) = Stuck NullDeref.
Proof. vm_compute. reflexivity. Qed.

(** A program from end to end: nothing of what it allocates is left. *)
Definition program (server : request → list step) : M (Z * Z * Z) :=
  let tables := backend_tables (burrow_backend_http_functions (curl := sample_libcurl server) 10 point) in
  b ← burrow_create (backends := tables) NULL (Some "http");
  burrow_set_options b BURROW_OPT_AUTOPROCESS;;
  burrow_set_queue_fn b (Some 1%positive);;
  burrow_set_complete_fn b (Some 2%positive);;
  r1 ← burrow_set_backend_option (backends := tables) b (Some "server") (Some "localhost");
  r2 ← burrow_set_backend_option (backends := tables) b (Some "port") (Some "8080");
  r3 ← burrow_get_queues (backends := tables) (burrow_process (backends := tables) 20) b (Some "my acct") NULL;
  burrow_destroy (backends := tables) b;;
  mret (r1, r2, r3).

Example program_runs :
  match program queue_server online ∅ with
  | Ret r w h => r = (0, 0, 0)%Z ∧ told (w_trace w) = [EvQueue (Some "jobs"); EvQueue (Some "a b"); EvComplete] ∧ h = ∅
  | _ => False
  end.
Proof. vm_compute. split_and!; reflexivity. Qed.
